(* ===== verification/_CoqProject ===== *)
-Q . S2P
Prelude.v
CodecErrors.v
WireFormat.v
Payload.v
Packet.v
Tlv.v
Frame.v
Replay.v
SessionState.v
Machine.v
Crypto.v
HandshakeTypes.v
HandshakeWire.v
HandshakeServer.v
AttemptCache.v
ServerHandshake.v
ServerFrames.v
GoStrings.v
Flag.v
Netip.v
ClientHandshake.v
Channel.v
Agreement.v
Establish.v
Safety.v
ServerSafety.v
Routing.v
PrivateDns.v
Resolver.v
ControlTypes.v
Service.v
ServiceSafety.v
ControlApi.v
Concurrent.v
ServiceSteps.v
Display.v
Core.v
Proxy.v
Bridge.v
ClientUi.v
ProxyCommand.v
