(* ===== verification/Prelude.v ===== *)
(** * A verification library of WG, a private tunnel protocol in Go

    The program (repository root src/) has a protocol core, a private tunnel: a
    client and a server authenticate each other with a four-message handshake over
    UDP datagrams (INITIAL, HANDSHAKE, CONFIRM with PING, PONG) and then exchange
    encrypted transport datagrams that carry IP packets and control frames.
    Around it lie a control service with an HTTP interface, split routing, a
    private DNS manager and a resolver adapter, which wg-core puts together, an
    encrypted TCP and UDP proxy (wg-proxy), and the process that serves the user
    interface and supervises the proxy (wg-client-ui).  This library models the
    core, the control plane and the commands, with the operating system, TLS and
    HTTP as environments, and states what makes them correct.

    ** The parts and where they are modelled

    - [Prelude] (this file): outcomes of Go code ([Ok], [Err], [Panic],
      [Diverge]), the state-and-outcome monad [act] of methods that change their
      receiver, fixed-width integers, byte strings with Go's index, slice, copy
      and [encoding/binary] operations, and the shared tactics and hint databases
      ([inv_ok], [returns_tac], [keeps_tac], [wg_returns], [wg_keeps]).
    - The standard library that the control plane uses: [GoStrings] (strings,
      strconv, unicode/utf8), [Netip] (net/netip and net's host:port texts, with
      their round trips), [Flag] (package flag, exit codes), [Concurrent]
      (goroutines as programs of accesses under a read-write mutex, their
      schedules, and the proof rule by which every schedule is a sequence of whole
      critical sections, comes to an end and does not deadlock).
    - internal/codec: [CodecErrors] (errors.go), [WireFormat] (the contract of a
      codec, a type class each structure discharges), [Payload] (payload.go),
      [Packet] (packet.go), [Tlv] (tlv.go), [Frame] (frame.go).
    - internal/session: [Replay] (replay.go: packet numbers, the sliding window),
      [SessionState] (state.go: roles, transition table, timeouts, backoff),
      [Machine] (machine.go: the session state machine).
    - internal/crypto: [Crypto] (kdf.go, aead.go, transport.go, x25519.go,
      fingerprint.go) over the class [Primitives] of BLAKE2s, ChaCha20-Poly1305
      and X25519, which are not part of the repository.
    - internal/handshake: [HandshakeTypes] (types.go, errors.go),
      [HandshakeWire] (wire.go), [HandshakeServer] (the server's state, cache.go,
      session shutdown), [ServerHandshake] (server.go and the session half of
      transport.go), [ClientHandshake] (client.go and the client half of
      transport.go).
    - internal/routing: [Routing] (targets, rules, decisions).
    - internal/privatedns and internal/platform: [PrivateDns] (snapshot copy,
      health, cache) and [Resolver] (the resolv.conf adapter that feeds it).
    - internal/app: [Service] (the backend's methods over the routing engine and
      the DNS manager, sequentially), [ServiceSafety] (its invariant and
      theorems) and [ServiceSteps] (the same methods as programs of lock
      operations and single accesses, run concurrently).
    - [Display]: the texts of states, events and errors, the snapshots and the
      getters of internal/session, internal/codec and internal/handshake.
    - internal/controlapi: [ControlTypes] (types.go) and [ControlApi] (server.go,
      proved against the class [Backend] with its law [BackendOk], which the
      service discharges).
    - cmd/wg-core: [Core] (command line, safety gate, the composed process).
      cmd/wg-proxy: [Proxy] (the UDP relay, the HTTP proxy, tokens), [Bridge] (the
      two goroutines that copy between connections), [ProxyCommand] (the four
      subcommands and the relay loops, composed with the client UI that starts
      them).  cmd/wg-client-ui: [ClientUi].

    A Go struct is a [Record], a method a function of the receiver's state, with
    the guards and early returns of the code in its order; names are those of
    the source, prefixed by the type where two types share a method name
    ([Client_Seal], [ServerSession_Seal]; [SetRule] of the engine and
    [Service_SetRule]).  Writes to several fields that the code does in a row
    are one function ([client_started], [session_closed], [with_rules], ...).

    ** What the theorems show

    - End to end (C1-C3): an honest handshake establishes both ends and agrees on
      keys and parameters ([Agreement], [Establish]); the established session is a
      reliable channel under loss, duplication and reordering ([Channel], an
      [Endpoint] interface that client and server implement).
    - Whole endpoints under arbitrary input (C4-C6): no datagram and no order of
      calls makes the client or the server panic, wait for ever, leak a connection
      identifier, keep keys after closing or reuse a nonce ([Safety],
      [ServerFrames], [ServerSafety]).
    - Replay protection (C7): the 2048-bit window, word by word, refines the
      history of accepted packet numbers.
    - Session machine (C8-C11): every method is exactly the step relation of the
      two roles; the invariant holds in every reachable state; establishment needs
      the confirmation exchange; timeouts close.
    - Attempt cache (C12, C13): it stays bounded and consistent under every
      interleaving of the sections under its locks, of which the methods are shown
      to be runs; one INITIAL is built once.
    - Split routing (C14-C16): the engine refines a finite map from targets to
      actions; decisions are the exact rule, else the longest prefix, else the
      automatic action; canonical texts parse back.
    - Application service, call by call (C17-C20): overrides and their metadata
      agree after any calls; an expired override does not decide; completed
      operations are replayed (an override until it expires); a pairing validation
      is used once.
    - Application service, concurrently (C21, C22): under every schedule of the
      single accesses of any calls the state is that of a sequence of critical
      sections and each changing call answers as its section does; every schedule
      ends and none deadlocks.
    - Handshake configuration (C23): exactly the usable configurations are
      accepted, with their defaults filled in.
    - DNS (C24, C25): the cache is the history of stores; refreshing, failures
      included.
    - The core process (C26): it starts only with its safety flags on a loopback
      address and then answers every request.
    - Proxy (C27-C32): the UDP relay delivers what was sent; nothing is done for
      a request without the token, and hop-by-hop headers are not forwarded; the
      bridge relays byte for byte, and returns under every schedule once a peer ends,
      unless a peer stops reading; the command lines that the client UI builds make the
      proxy serve the selected endpoint; the relay server survives every datagram
      and answers only sealed ones.
    - Client UI (C33, C34): configurations load back as they were saved, and a save
      that fails or crashes at any step leaves the old one; the process controller
      is consistent.
    - Codec (C35-C39): marshalling and parsing are inverse in both directions, so
      every accepted byte string is canonical; parsers return on every input and
      never read out of bounds; what a parser accepts obeys the header, payload and
      frame rules of the protocol (C36).
    - Cryptography (C40): [Expand] is HKDF-Expand.

    Theorems without a number complete the picture (key schedule, transport round
    trip, nonce uniqueness, fingerprints, backoff at 64 bits, resolver configurations, the wait for a listener, CLOSE bodies,
    required TLVs, [ui_stays_local], [proxy_serves_with_token],
    [snapshot_complete]) or show where the code departs from its documents or its
    intent ([packet_negative_limit], [numeric_domain_not_deleted],
    [udp_full_body_cut], [direct_rule_after_blank], [refresh_not_replayed],
    [set_rule_repeat_after_expiry], and by concrete schedules and runs
    [expired_override_can_decide], [list_rules_torn], [half_close_loses_answer],
    [bridge_can_hang], [udp_target_untrimmed], [connection_options_forwarded],
    [two_line_token_refused]).

    ** Fuel, bounds and abstractions

    Loops over a byte string get the fuel [S (length data)]: each iteration
    consumes a header of three or four bytes at least, and the theorems that a
    parser returns show that it suffices.  [Expand] has 256 iterations of fuel and
    at most 255 blocks; [group4] advances by four.  The retry loops of the source
    are bounded there (32 attempts) and structural here.  The listener loop has 62
    iterations, enough for three seconds in steps of fifty milliseconds
    ([listener_wait_terminates]).
    Integers are [Z]; every operation that can wrap in Go is written with its
    wrap-around ([u8], [u16], [u64], the int64 test in [boundedBackoff]).
    float64 values are those of [SpecFloat] at 53 bits.

    A method that holds its object's mutex from entry to return is one atomic
    step; interleavings of goroutines are sequences of such steps.  The methods of the
    attempt cache that close sessions after they have released its lock are cut there:
    [AttemptCache] interleaves the locked parts ([acquireAttempt_locked], the removal
    of one attempt, the release of one identifier).  A method of the application service takes its lock more than once and reads the engine and
    the DNS manager, which have locks of their own, in between: [ServiceSteps]
    gives every method as a program whose steps are taking and releasing the lock
    and one access to the service, the engine or the manager.  A section that
    touches nothing another goroutine can see without the lock is one access.  The
    read-write mutex has no queue: a writer may starve, but no schedule is
    infinite (C22).  A goroutine that waits for
    an attempt another one is building has the outcome [Diverge]; C4 shows that it
    does not arise in sequential use, C12 and C13 speak of interleavings.  Cache
    entries and sessions, which the code shares by pointer, are heap objects with
    identifiers.  A [time.Time] is an integer with zero time 0; each clock reading
    is an argument.  An [io.Reader] of random bytes is the list of the bytes it
    will still deliver.  [range] over a map is modelled in one fixed order; the
    theorems about it do not depend on the order.  [sort.Slice] is a stable
    insertion sort (the keys are distinct).  Error values are their sentinel
    kinds; texts are left out except where the code keeps them.  The capacity of a
    slice is its length.  The explicit clearing of local key variables has no
    counterpart, the clearing of fields has.

    Parameters and their laws: [Primitives] with [PrimitivesOk] (output sizes,
    opening inverts sealing, X25519 commutes; [Toy] in [Crypto] is an instance),
    [Aead] with [AeadOk] (AES-GCM of the proxy), [ConfigJson] with [ConfigJsonOk]
    (the JSON decoder reads back what the encoder wrote, consumes it whole and tells
    the end of the input), [Json] (request bodies, no law),
    [Unicode] (case tables outside ASCII, no law).  Each has an instance
    in the development, so the laws can hold together; nothing claims that the
    stand-ins are secure.  The file system, the network, processes and ports are
    environments: arguments that say what each operation gives.  A save of the client
    UI's configuration works on a state directory of named files, with the temporary
    file in it, and keeps the states it passes through.  A connection of the bridge
    takes everything that is written to it, or breaks, or stops taking bytes after any
    number of them ([capacity]); a write that is not taken blocks.  Of a request that
    wg-proxy sends over its tunnel the method and the token arrive, the token as net/http
    writes and reads a header value ([value_arrives], [received] in [Proxy]).

    ** Not modelled

    The JavaScript interface under ui; JSON as text (encoding/json), HTTP and TLS
    transport (header values apart), the parsing of URLs, the reverse proxy of wg-client-ui to wg-core:
    library code that the sources only call; sockets, signals, processes and files
    beyond what their operations answer; time-outs of requests and log lines; the
    free text of error details.  A peer that neither sends nor ends is a
    connection that stays silent ([Silent] in [Bridge]); for two of them no termination
    is claimed.  A plan for later: request time-outs of the HTTP servers and the
    transport of wg-proxy's HTTP requests at the grain of bytes. *)

From stdpp Require Import base list numbers.
From Stdlib Require Export ZArith Lia ZifyBool.
Local Open Scope Z_scope.

(** ** Outcomes of Go code

    A Go function that returns [(T, error)] either returns a value, returns an
    error, panics (index or slice bounds, a short slice given to
    [encoding/binary]) or loops.  [Diverge] is what a fuelled loop of the model
    gives when its fuel is exhausted. *)
Inductive outcome (E A : Type) : Type :=
| Ok (a : A)
| Err (e : E)
| Panic
| Diverge.
Arguments Ok {E A} a.
Arguments Err {E A} e.
Arguments Panic {E A}.
Arguments Diverge {E A}.

Definition obind {E A B : Type} (m : outcome E A) (k : A -> outcome E B) : outcome E B :=
  match m with
  | Ok a => k a
  | Err e => Err e
  | Panic => Panic
  | Diverge => Diverge
  end.

(** [fmt.Errorf("%w: ...", sentinel)]: the same outcome under another error. *)
Definition wrap_err {E F A : Type} (f : E -> F) (m : outcome E A) : outcome F A :=
  match m with
  | Ok a => Ok a
  | Err e => Err (f e)
  | Panic => Panic
  | Diverge => Diverge
  end.

(** The call comes back to its caller, with a value or with an error. *)
Definition returns {E A : Type} (m : outcome E A) : Prop :=
  match m with
  | Ok _ | Err _ => True
  | Panic | Diverge => False
  end.

Declare Scope wg_scope.
Delimit Scope wg_scope with wg.
Notation "'let*' x := m 'in' k" := (obind m (fun x => k))
  (at level 10, x pattern, m at level 200, k at level 200) : wg_scope.
Notation "'do*' m ; k" := (obind m (fun _ => k))
  (at level 10, m at level 100, k at level 200) : wg_scope.
Open Scope wg_scope.

(** ** Stateful calls

    A method that changes its receiver and may fail: the state after the call,
    on every path, and the outcome. *)
Definition act (S E A : Type) : Type := S -> S * outcome E A.
Definition act_ret {S E A : Type} (a : A) : act S E A := fun s => (s, Ok a).
Definition act_fail {S E A : Type} (e : E) : act S E A := fun s => (s, Err e).
Definition act_bind {S E A B : Type} (m : act S E A) (k : A -> act S E B) : act S E B := fun s =>
  match m s with
  | (s, Ok a) => k a s
  | (s, Err e) => (s, Err e)
  | (s, Panic) => (s, Panic)
  | (s, Diverge) => (s, Diverge)
  end.
Definition act_get {S E : Type} : act S E S := fun s => (s, Ok s).
Definition act_set {S E : Type} (f : S -> S) : act S E unit := fun s => (f s, Ok tt).
Definition act_lift {S E A : Type} (o : outcome E A) : act S E A := fun s => (s, o).
Notation "'let!' x := m 'in' k" := (act_bind m (fun x => k))
  (at level 10, x pattern, m at level 200, k at level 200) : wg_scope.
Notation "'do!' m ; k" := (act_bind m (fun _ => k))
  (at level 10, m at level 100, k at level 200) : wg_scope.

(** ** Byte strings *)
Abbreviation bytes := (list Z) (only parsing).

Definition len {A : Type} (l : list A) : Z := Z.of_nat (length l).

Definition byte_ok (b : Z) : Prop := 0 <= b < 256.
Definition bytes_ok (l : bytes) : Prop := Forall byte_ok l.

#[global] Instance byte_ok_dec b : Decision (byte_ok b).
Proof. unfold byte_ok. apply _. Defined.

#[global] Instance bytes_ok_dec l : Decision (bytes_ok l).
Proof. unfold bytes_ok. apply _. Defined.

(** [make([]byte, n)] *)
Definition zeros (n : Z) : bytes := replicate (Z.to_nat n) 0.

(** [l[i]] *)
Definition index {E A : Type} (l : list A) (i : Z) : outcome E A :=
  if i <? 0 then Panic
  else match l !! Z.to_nat i with Some x => Ok x | None => Panic end.

(** [l[lo:hi]], on slices whose capacity is their length. *)
Definition slice {E A : Type} (l : list A) (lo hi : Z) : outcome E (list A) :=
  if (0 <=? lo) && (lo <=? hi) && (hi <=? len l)
  then Ok (take (Z.to_nat (hi - lo)) (drop (Z.to_nat lo) l))
  else Panic.

(** [copy(buf[off:], src)]: as many bytes as fit are overwritten. *)
Definition copy_at {E : Type} (buf : bytes) (off : Z) (src : bytes) : outcome E bytes :=
  if (0 <=? off) && (off <=? len buf)
  then Ok (take (Z.to_nat off) buf
           ++ take (length buf - Z.to_nat off) src
           ++ drop (Z.to_nat off + length src) buf)
  else Panic.

(** [buf[off] = b] *)
Definition set_at {E : Type} (buf : bytes) (off b : Z) : outcome E bytes :=
  if (0 <=? off) && (off <? len buf) then Ok (<[Z.to_nat off := b]> buf) else Panic.

(** ** [encoding/binary.BigEndian] *)
Fixpoint be_combine_from (acc : Z) (l : bytes) : Z :=
  match l with
  | [] => acc
  | b :: l' => be_combine_from (acc * 256 + b) l'
  end.
Definition be_combine (l : bytes) : Z := be_combine_from 0 l.

Fixpoint be_split (n : nat) (v : Z) : bytes :=
  match n with
  | O => []
  | S m => (v / 256 ^ Z.of_nat m) mod 256 :: be_split m v
  end.

#[global] Arguments be_split : simpl never.
#[global] Arguments be_combine : simpl never.

(** [UintN(b)] reads the first [n] bytes of [b] and panics on a shorter one. *)
Definition be_uint {E : Type} (n : nat) (b : bytes) : outcome E Z :=
  if (length b <? n)%nat then Panic else Ok (be_combine (take n b)).
Definition Uint16 {E : Type} (b : bytes) : outcome E Z := be_uint 2 b.
Definition Uint32 {E : Type} (b : bytes) : outcome E Z := be_uint 4 b.
Definition Uint64 {E : Type} (b : bytes) : outcome E Z := be_uint 8 b.

(** [PutUintN(buf[lo:hi], v)] with [hi = lo + n]. *)
Definition put_uint {E : Type} (n : nat) (buf : bytes) (lo v : Z) : outcome E bytes :=
  let* _ := slice buf lo (lo + Z.of_nat n) in
  copy_at buf lo (be_split n v).
Definition PutUint16 {E : Type} := put_uint (E := E) 2.
Definition PutUint32 {E : Type} := put_uint (E := E) 4.
Definition PutUint64 {E : Type} := put_uint (E := E) 8.

(** Go's unsigned types: values and conversions (truncation). *)
Definition u8 (v : Z) : Z := v mod 2 ^ 8.
Definition u16 (v : Z) : Z := v mod 2 ^ 16.
Definition u32 (v : Z) : Z := v mod 2 ^ 32.
Definition u64 (v : Z) : Z := v mod 2 ^ 64.
Definition i64 (v : Z) : Z := (v + 2 ^ 63) mod 2 ^ 64 - 2 ^ 63.
Definition MaxUint16 : Z := 65535.
Definition MaxUint64 : Z := 2 ^ 64 - 1.
Definition uint_ok (w v : Z) : Prop := 0 <= v < 2 ^ w.
#[global] Instance uint_ok_dec w v : Decision (uint_ok w v).
Proof. unfold uint_ok. apply _. Defined.

(** ** Automation *)

(** Lemmas that show a call comes back ([returns]), and rewrite rules for
    lengths, outcomes and writes into buffers. *)
Create HintDb wg_returns.
Create Rewrite HintDb wg_len.
Create Rewrite HintDb wg_out.

Lemma Ok_inj {E A} (a b : A) : Ok (E := E) a = Ok b -> a = b.
Proof. congruence. Qed.

Lemma obind_Ok {E A B} (m : outcome E A) (k : A -> outcome E B) b :
  obind m k = Ok b <-> exists a, m = Ok a /\ k a = Ok b.
Proof. destruct m; simpl; naive_solver. Qed.

Lemma obind_Err {E A B} (m : outcome E A) (k : A -> outcome E B) e :
  obind m k = Err e <-> m = Err e \/ exists a, m = Ok a /\ k a = Err e.
Proof. destruct m; simpl; naive_solver. Qed.

Lemma wrap_err_Ok {E F A} (f : E -> F) (m : outcome E A) a :
  wrap_err f m = Ok a <-> m = Ok a.
Proof. destruct m; simpl; naive_solver. Qed.

Lemma returns_Ok {E A} (a : A) : returns (Ok (E := E) a).
Proof. exact I. Qed.

Lemma returns_Err {E A} (e : E) : returns (Err (A := A) e).
Proof. exact I. Qed.

Lemma returns_bind {E A B} (m : outcome E A) (k : A -> outcome E B) :
  returns m -> (forall a, m = Ok a -> returns (k a)) -> returns (obind m k).
Proof. destruct m; simpl; auto. Qed.

Lemma returns_bind_Ok {E A B} (m : outcome E A) (k : A -> outcome E B) a :
  m = Ok a -> returns (k a) -> returns (obind m k).
Proof. intros ->; auto. Qed.

Lemma returns_if {E A} (b : bool) (m n : outcome E A) :
  (b = true -> returns m) -> (b = false -> returns n) -> returns (if b then m else n).
Proof. destruct b; auto. Qed.

Lemma returns_wrap {E F A} (f : E -> F) (m : outcome E A) :
  returns m -> returns (wrap_err f m).
Proof. destruct m; auto. Qed.

Lemma returns_cases {E A} (m : outcome E A) :
  returns m -> (exists a, m = Ok a) \/ (exists e, m = Err e).
Proof. destruct m; simpl; naive_solver. Qed.

#[export] Hint Resolve returns_Ok returns_Err returns_wrap : wg_returns.

(** [inv_ok]: break hypotheses [... = Ok _] down along binds and tests. *)
Ltac inv_ok1 :=
  match goal with
  | H : Ok _ = Ok _ |- _ => apply Ok_inj in H; try subst
  | H : Err _ = Ok _ |- _ => discriminate H
  | H : Ok _ = Err _ |- _ => discriminate H
  | H : Panic = Ok _ |- _ => discriminate H
  | H : Diverge = Ok _ |- _ => discriminate H
  | H : obind _ _ = Ok _ |- _ =>
      let a := fresh "a" in let Ha := fresh "Ha" in
      apply obind_Ok in H as (a & Ha & H)
  | H : wrap_err _ _ = Ok _ |- _ => apply wrap_err_Ok in H
  | H : (if ?b then _ else _) = Ok _ |- _ =>
      let E := fresh "E" in destruct b eqn:E; [try discriminate H | try discriminate H]
  end.
Ltac inv_ok := repeat (inv_ok1; cbv beta in * ).

(** [by_test]: decide the test a goal branches on with [lia]. *)
Ltac by_test1 :=
  match goal with
  | |- context [if ?b then _ else _] =>
      first [ replace b with true by (symmetry; lia)
            | replace b with false by (symmetry; lia) ]
  end.
Ltac by_test := repeat (by_test1; cbv beta iota).

(** [returns_tac]: follow binds and tests of a [returns] goal. *)
Ltac returns_tac :=
  repeat match goal with
  | |- returns (if _ then _ else _) => apply returns_if; intros ?
  | |- returns (obind _ _) => apply returns_bind; [| intros ? ?]
  | |- returns _ => solve [auto with wg_returns]
  end.

(** ** Lengths, indexing, slices *)
Lemma len_nil {A} : len (@nil A) = 0.
Proof. reflexivity. Qed.
Lemma len_cons {A} (x : A) l : len (x :: l) = 1 + len l.
Proof. unfold len; simpl; lia. Qed.
Lemma len_app {A} (l k : list A) : len (l ++ k) = len l + len k.
Proof. unfold len; rewrite length_app; lia. Qed.
Lemma len_nonneg {A} (l : list A) : 0 <= len l.
Proof. unfold len; lia. Qed.
Lemma len_zeros n : 0 <= n -> len (zeros n) = n.
Proof. unfold len, zeros; rewrite length_replicate; lia. Qed.
Lemma be_split_S n v : be_split (S n) v = (v / 256 ^ Z.of_nat n) mod 256 :: be_split n v.
Proof. reflexivity. Qed.
Lemma length_be_split n v : length (be_split n v) = n.
Proof. induction n as [|n IH]; [done|]. rewrite be_split_S. simpl. by rewrite IH. Qed.
Lemma len_be_split n v : len (be_split n v) = Z.of_nat n.
Proof. unfold len; by rewrite length_be_split. Qed.
Lemma len_zero_nil {A} (l : list A) : len l = 0 -> l = [].
Proof. destruct l; unfold len; simpl; auto; lia. Qed.
Lemma len_to_nat {A} (l : list A) : Z.to_nat (len l) = length l.
Proof. unfold len; lia. Qed.

#[export] Hint Rewrite @len_nil @len_cons @len_app len_be_split @len_to_nat : wg_len.

Ltac len_lia := unfold len in *; simpl in *; repeat rewrite ?length_app, ?length_take, ?length_drop,
  ?length_be_split, ?length_replicate in *; simpl in *; lia.

Lemma index_Ok {E A} (l : list A) i x :
  index (E := E) l i = Ok x <-> 0 <= i /\ l !! Z.to_nat i = Some x.
Proof.
  unfold index. destruct (Z.ltb_spec i 0); [split; [done | lia]|].
  destruct (l !! Z.to_nat i); naive_solver.
Qed.

Lemma index_in {E A} (l : list A) i :
  0 <= i < len l -> exists x, index (E := E) l i = Ok x.
Proof.
  intros Hi. destruct (lookup_lt_is_Some_2 l (Z.to_nat i)) as [x Hx]; [unfold len in *; lia|].
  exists x. apply index_Ok. split; [lia | done].
Qed.

Lemma index_returns {E A} (l : list A) i : 0 <= i < len l -> returns (index (E := E) l i).
Proof. intros H. by destruct (index_in (E := E) l i H) as [x ->]. Qed.

Lemma index_app {E A} (p : list A) x s i :
  i = len p -> index (E := E) (p ++ x :: s) i = Ok x.
Proof.
  intros ->. apply index_Ok. split; [unfold len; lia|].
  rewrite len_to_nat. by apply list_lookup_middle.
Qed.

Lemma index_app1 {E A} (p : list A) x s i :
  i = len p -> index (E := E) (p ++ [x] ++ s) i = Ok x.
Proof. apply index_app. Qed.

Lemma slice_Ok {E A} (l : list A) lo hi :
  0 <= lo -> lo <= hi -> hi <= len l ->
  slice (E := E) l lo hi = Ok (take (Z.to_nat (hi - lo)) (drop (Z.to_nat lo) l)).
Proof. intros. unfold slice. by_test. done. Qed.

Lemma slice_inv {E A} (l k : list A) lo hi :
  slice (E := E) l lo hi = Ok k ->
  0 <= lo /\ lo <= hi /\ hi <= len l /\ len k = hi - lo
  /\ k = take (Z.to_nat (hi - lo)) (drop (Z.to_nat lo) l).
Proof. unfold slice. intros. inv_ok. repeat split; [lia.. | len_lia]. Qed.

Lemma slice_app {E A} (p m s : list A) lo hi :
  lo = len p -> hi = len p + len m -> slice (E := E) (p ++ m ++ s) lo hi = Ok m.
Proof.
  intros -> ->. rewrite slice_Ok; autorewrite with wg_len; rewrite ?len_app;
    try (pose proof (len_nonneg p); pose proof (len_nonneg m); pose proof (len_nonneg s); lia).
  replace (Z.to_nat (len p + len m - len p)) with (length m) by len_lia.
  by rewrite drop_app_length, take_app_length.
Qed.

Lemma slice_suffix {E A} (p m : list A) lo hi :
  lo = len p -> hi = len p + len m -> slice (E := E) (p ++ m) lo hi = Ok m.
Proof. intros. rewrite <- (app_nil_r m) at 1. by apply slice_app. Qed.

Lemma slice_prefix {E A} (m s : list A) hi :
  hi = len m -> slice (E := E) (m ++ s) 0 hi = Ok m.
Proof. intros. by apply (slice_app [] m s). Qed.

(** ** Writes into a zeroed buffer behind a written prefix *)
Lemma copy_at_zeros {E} (pre src : bytes) off n :
  off = len pre -> len src <= n ->
  copy_at (E := E) (pre ++ zeros n) off src = Ok ((pre ++ src) ++ zeros (n - len src)).
Proof.
  intros -> Hm. unfold copy_at. pose proof (len_nonneg src).
  rewrite len_app, len_zeros by lia. pose proof (len_nonneg pre). by_test. f_equal.
  rewrite len_to_nat, take_app_length, <- app_assoc. f_equal. rewrite length_app.
  rewrite take_ge by (unfold zeros, len in *; rewrite length_replicate; lia). f_equal.
  rewrite drop_app_add. unfold zeros, len. rewrite drop_replicate. f_equal. lia.
Qed.

Lemma set_at_zeros {E} (pre : bytes) off b n :
  off = len pre -> 1 <= n ->
  set_at (E := E) (pre ++ zeros n) off b = Ok ((pre ++ [b]) ++ zeros (n - 1)).
Proof.
  intros -> Hm. unfold set_at. rewrite len_app, len_zeros by lia.
  pose proof (len_nonneg pre). by_test. rewrite len_to_nat.
  unfold zeros. replace (Z.to_nat n) with (S (Z.to_nat (n - 1))) by lia. simpl.
  rewrite <- (Nat.add_0_r (length pre)), insert_app_r. simpl. by rewrite <- app_assoc.
Qed.

Lemma put_uint_zeros {E} k (pre : bytes) off v n :
  off = len pre -> Z.of_nat k <= n ->
  put_uint (E := E) k (pre ++ zeros n) off v
  = Ok ((pre ++ be_split k v) ++ zeros (n - Z.of_nat k)).
Proof.
  intros -> Hm. unfold put_uint.
  rewrite slice_Ok by (rewrite ?len_app, ?len_zeros; pose proof (len_nonneg pre); lia). simpl.
  rewrite copy_at_zeros by (rewrite ?len_be_split; lia). by rewrite len_be_split.
Qed.

Lemma zeros_nil n : n <= 0 -> zeros n = [].
Proof. intros. unfold zeros. by replace (Z.to_nat n) with O by lia. Qed.

Lemma lookup_zeros n i x : zeros n !! i = Some x -> x = 0.
Proof. unfold zeros. by intros [-> _]%lookup_replicate. Qed.

(** [len_side]: side conditions on lengths of concatenations. *)
Ltac len_side :=
  unfold len in *; repeat rewrite ?length_app, ?length_be_split; cbn [length]; lia.

(** [write_buf]: run a sequence of writes that fills a fresh buffer. *)
Ltac write_buf :=
  unfold PutUint16, PutUint32, PutUint64;
  repeat (first [ rewrite copy_at_zeros by len_side
                | rewrite put_uint_zeros by len_side
                | rewrite set_at_zeros by len_side ]; cbn [obind]).

(** ** Big-endian integers *)
Lemma be_combine_from_lin acc l :
  be_combine_from acc l = acc * 256 ^ len l + be_combine l.
Proof.
  unfold be_combine. revert acc. induction l as [|b l IH]; intros acc; cbn [be_combine_from].
  - rewrite len_nil. lia.
  - rewrite (IH (acc * 256 + b)), (IH (0 * 256 + b)), len_cons.
    rewrite Z.pow_add_r by (pose proof (len_nonneg l); lia). change (256 ^ 1) with 256. lia.
Qed.

Lemma be_combine_cons b l : be_combine (b :: l) = b * 256 ^ len l + be_combine l.
Proof. unfold be_combine at 1. cbn [be_combine_from]. apply be_combine_from_lin. Qed.

Lemma be_combine_bound l : bytes_ok l -> 0 <= be_combine l < 256 ^ len l.
Proof.
  induction 1 as [|b l Hb Hl IH]; [change (len []) with 0; change (be_combine []) with 0; lia|].
  rewrite be_combine_cons, len_cons, Z.pow_add_r by (pose proof (len_nonneg l); lia).
  change (256 ^ 1) with 256. destruct Hb. nia.
Qed.

Lemma be_combine_uint l w : bytes_ok l -> 8 * len l = w -> uint_ok w (be_combine l).
Proof.
  intros Hl <-. unfold uint_ok. rewrite Z.pow_mul_r by (pose proof (len_nonneg l); lia).
  by apply be_combine_bound.
Qed.

Lemma be_split_ok n v : bytes_ok (be_split n v).
Proof.
  induction n; [constructor|]. rewrite be_split_S. constructor; [| done].
  apply Z.mod_pos_bound. lia.
Qed.

Lemma be_split_mod n v : be_combine (be_split n v) = v mod 256 ^ Z.of_nat n.
Proof.
  induction n as [|n IH]; [by rewrite Z.mod_1_r|].
  rewrite be_split_S, be_combine_cons, len_be_split, IH.
  replace (Z.of_nat (S n)) with (Z.of_nat n + 1) by lia.
  rewrite Z.pow_add_r by lia. change (256 ^ 1) with 256.
  rewrite Z.rem_mul_r by lia. lia.
Qed.

Lemma be_combine_split n v :
  0 <= v < 256 ^ Z.of_nat n -> be_combine (be_split n v) = v.
Proof. intros. rewrite be_split_mod. by apply Z.mod_small. Qed.

Lemma be_split_add n v k : be_split n (v + k * 256 ^ Z.of_nat n) = be_split n v.
Proof.
  revert k. induction n as [|n IH]; intros k; [done|]. rewrite !be_split_S.
  replace (k * 256 ^ Z.of_nat (S n)) with (k * 256 * 256 ^ Z.of_nat n)
    by (replace (Z.of_nat (S n)) with (Z.of_nat n + 1) by lia;
        rewrite Z.pow_add_r by lia; lia).
  rewrite IH, Z.div_add by lia. rewrite Z.mod_add by lia. done.
Qed.

Lemma be_split_combine l : bytes_ok l -> be_split (length l) (be_combine l) = l.
Proof.
  induction 1 as [|b l Hb Hl IH]; [done|]. cbn [length]. rewrite be_split_S.
  rewrite be_combine_cons. pose proof (be_combine_bound l Hl) as Hc. unfold len in *.
  f_equal.
  - rewrite Z.div_add_l by lia. rewrite Z.div_small by lia.
    rewrite Z.add_0_r. by apply Z.mod_small.
  - rewrite Z.add_comm, be_split_add. done.
Qed.

Lemma be_split_combine' n l : bytes_ok l -> length l = n -> be_split n (be_combine l) = l.
Proof. intros H <-. by apply be_split_combine. Qed.

Lemma be_uint_Ok {E} n l : length l = n -> be_uint (E := E) n l = Ok (be_combine l).
Proof.
  intros Hn. unfold be_uint. rewrite Hn. destruct (Nat.ltb_spec n n); [lia|].
  by rewrite <- Hn, firstn_all.
Qed.

Lemma be_uint_inv {E} n l v :
  be_uint (E := E) n l = Ok v -> (n <= length l)%nat /\ v = be_combine (take n l).
Proof. unfold be_uint. destruct (Nat.ltb_spec (length l) n); [done|]. intros. by inv_ok. Qed.

Lemma be_uint_split {E} n v s :
  0 <= v < 256 ^ Z.of_nat n -> be_uint (E := E) n (be_split n v ++ s) = Ok v.
Proof.
  intros Hv. unfold be_uint. rewrite length_app, length_be_split.
  destruct (Nat.ltb_spec (n + length s) n); [lia|].
  rewrite take_app_le by (rewrite length_be_split; lia).
  rewrite take_ge by (rewrite length_be_split; lia). by rewrite be_combine_split.
Qed.

Lemma be_uint_split0 {E} n v :
  0 <= v < 256 ^ Z.of_nat n -> be_uint (E := E) n (be_split n v) = Ok v.
Proof. intros. rewrite <- (app_nil_r (be_split n v)). by apply be_uint_split. Qed.

Lemma be_uint_bound {E} n l v :
  bytes_ok l -> be_uint (E := E) n l = Ok v -> 0 <= v < 256 ^ Z.of_nat n.
Proof.
  intros Hl [Hn ->]%be_uint_inv. pose proof (be_combine_bound (take n l)) as Hb.
  unfold len in Hb. rewrite length_take, Nat.min_l in Hb by lia.
  apply Hb. by apply Forall_take.
Qed.

Lemma be_uint_returns {E} n l : (n <= length l)%nat -> returns (be_uint (E := E) n l).
Proof. intros. unfold be_uint. destruct (Nat.ltb_spec (length l) n); [lia | exact I]. Qed.

Lemma bytes_ok_app l k : bytes_ok (l ++ k) <-> bytes_ok l /\ bytes_ok k.
Proof. apply Forall_app. Qed.
Lemma bytes_ok_take n l : bytes_ok l -> bytes_ok (take n l).
Proof. apply Forall_take. Qed.
Lemma bytes_ok_drop n l : bytes_ok l -> bytes_ok (drop n l).
Proof. apply Forall_drop. Qed.
Lemma bytes_ok_slice {E} l lo hi k : bytes_ok l -> slice (E := E) l lo hi = Ok k -> bytes_ok k.
Proof. intros Hl (_ & _ & _ & _ & ->)%slice_inv. by apply bytes_ok_take, bytes_ok_drop. Qed.

Create HintDb wg_bytes.
#[export] Hint Resolve be_split_ok bytes_ok_take bytes_ok_drop : wg_bytes.

(** Adjacent slices join; the full slice is the list. *)
Lemma slice_join {E A} (l x y : list A) a b c :
  slice (E := E) l a b = Ok x -> slice (E := E) l b c = Ok y -> slice (E := E) l a c = Ok (x ++ y).
Proof.
  intros (? & ? & ? & _ & ->)%slice_inv (? & ? & ? & _ & ->)%slice_inv.
  rewrite slice_Ok by lia. f_equal.
  replace (drop (Z.to_nat b) l) with (drop (Z.to_nat (b - a)) (drop (Z.to_nat a) l))
    by (rewrite drop_drop; f_equal; lia).
  rewrite take_take_drop. f_equal. lia.
Qed.

#[global] Arguments slice_join {E A l x y a b c}.

Lemma index_slice {E A} (l : list A) i j x :
  index (E := E) l i = Ok x -> j = i + 1 -> slice (E := E) l i j = Ok [x].
Proof.
  intros [Hi Hx]%index_Ok ->. pose proof (lookup_lt_Some _ _ _ Hx).
  rewrite slice_Ok by (unfold len; lia). replace (Z.to_nat (i + 1 - i)) with 1%nat by lia.
  by rewrite (drop_S _ x) by done.
Qed.

Lemma slice_all {E A} (l : list A) : slice (E := E) l 0 (len l) = Ok l.
Proof.
  rewrite slice_Ok by (unfold len; lia).
  replace (Z.to_nat (len l - 0)) with (length l) by (unfold len; lia). by rewrite firstn_all.
Qed.

Lemma slice_len {E A} (l k : list A) lo hi : slice (E := E) l lo hi = Ok k -> len k = hi - lo.
Proof. intros (_ & _ & _ & H & _)%slice_inv. exact H. Qed.

Lemma slice_returns {E A} (l : list A) lo hi :
  0 <= lo -> lo <= hi -> hi <= len l -> returns (slice (E := E) l lo hi).
Proof. intros. by rewrite slice_Ok. Qed.

Lemma i64_small v : - 2 ^ 63 <= v < 2 ^ 63 -> i64 v = v.
Proof. unfold i64. intros. rewrite Z.mod_small by lia. lia. Qed.

Lemma u8_small v : 0 <= v < 256 -> u8 v = v.
Proof. unfold u8. intros. apply Z.mod_small. lia. Qed.

Lemma u16_small v : 0 <= v <= MaxUint16 -> u16 v = v.
Proof. unfold u16, MaxUint16. intros. apply Z.mod_small. lia. Qed.

(** [slice_facts]: length and byte range of every slice taken of [d], and the
    value of every big-endian field read from a slice of exactly its width. *)
Ltac slice_facts d Hd :=
  repeat match goal with
  | H : slice d _ _ = Ok ?k |- _ =>
      let Hk := fresh "Hok" in pose proof (bytes_ok_slice _ _ _ _ Hd H) as Hk;
      let Hl := fresh "Hlen" in pose proof (slice_len _ _ _ _ H) as Hl; revert H
  end; intros;
  repeat match goal with
  | H : Uint16 ?l = Ok _ |- _ => unfold Uint16 in H
  | H : Uint32 ?l = Ok _ |- _ => unfold Uint32 in H
  | H : Uint64 ?l = Ok _ |- _ => unfold Uint64 in H
  | H : be_uint _ ?l = Ok _, Hl : bytes_ok ?l |- _ =>
      let Hb := fresh "Hb" in pose proof (be_uint_bound _ _ _ Hl H) as Hb;
      try change (256 ^ Z.of_nat 2) with 65536 in Hb;
      try change (256 ^ Z.of_nat 4) with 4294967296 in Hb;
      try change (256 ^ Z.of_nat 8) with 18446744073709551616 in Hb;
      rewrite be_uint_Ok in H by (unfold len in *; lia); injection H as <-
  end.

(** [go_returns d Hd]: a parser of [d] comes back; slice bounds by [lia], from
    the tests passed and the ranges of the fields read. *)
Ltac note_field d Hd :=
  match goal with
  | H : slice d _ _ = Ok ?k |- _ =>
      let Hk := fresh "Hok" in pose proof (bytes_ok_slice _ _ _ _ Hd H) as Hk;
      apply slice_len in H
  | H : Uint16 ?l = Ok ?v, Hl : bytes_ok ?l |- _ =>
      apply (be_uint_bound 2 l v Hl) in H; change (256 ^ Z.of_nat 2) with 65536 in H
  | H : Uint32 ?l = Ok ?v, Hl : bytes_ok ?l |- _ =>
      apply (be_uint_bound 4 l v Hl) in H; change (256 ^ Z.of_nat 4) with 4294967296 in H
  | H : Uint64 ?l = Ok ?v, Hl : bytes_ok ?l |- _ =>
      apply (be_uint_bound 8 l v Hl) in H; change (256 ^ Z.of_nat 8) with 18446744073709551616 in H
  end.
Ltac go_returns1 d Hd :=
  lazymatch goal with
  | |- returns (if _ then _ else _) => apply returns_if; intros ?
  | |- returns (obind _ _) => apply returns_bind; [| intros ? ?; repeat note_field d Hd]
  | |- returns (slice _ _ _) => apply slice_returns; lia
  | |- returns (Uint16 _) => apply be_uint_returns; unfold len in *; lia
  | |- returns (Uint32 _) => apply be_uint_returns; unfold len in *; lia
  | |- returns (Uint64 _) => apply be_uint_returns; unfold len in *; lia
  | |- returns _ => solve [auto with wg_returns]
  end.
Ltac go_returns d Hd := repeat go_returns1 d Hd.

(** ** Reasoning about stateful calls *)
Lemma act_bind_Ok {S E A B} (m : act S E A) (k : A -> act S E B) s s' b :
  act_bind m k s = (s', Ok b) -> exists s1 a, m s = (s1, Ok a) /\ k a s1 = (s', Ok b).
Proof. unfold act_bind. destruct (m s) as [s1 [a|e| |]]; try done. by exists s1, a. Qed.

Lemma act_lift_Ok {S E A} (o : outcome E A) (s s' : S) a :
  act_lift o s = (s', Ok a) -> s' = s /\ o = Ok a.
Proof. unfold act_lift. by intros [= <- ->]. Qed.

Lemma act_bind_run {S E A B} (m : act S E A) (k : A -> act S E B) s s1 a :
  m s = (s1, Ok a) -> act_bind m k s = k a s1.
Proof. intros H. unfold act_bind. by rewrite H. Qed.

(** [inv_act]: split a successful run into the runs of its parts. *)
Ltac inv_act1 :=
  match goal with
  | H : act_bind act_get _ _ = _ |- _ => unfold act_bind at 1, act_get at 1 in H
  | H : act_bind (act_set ?f) _ _ = _ |- _ => unfold act_bind at 1, act_set at 1 in H
  | H : act_bind (act_ret _) _ _ = _ |- _ => unfold act_bind at 1, act_ret at 1 in H
  | H : act_bind _ _ _ = (_, Ok _) |- _ =>
      let s := fresh "s" in let a := fresh "a" in let Ha := fresh "Ha" in
      apply act_bind_Ok in H as (s & a & Ha & H)
  | H : act_lift _ _ = (_, Ok _) |- _ =>
      let E := fresh "E" in apply act_lift_Ok in H as [E H]; subst
  | H : act_ret _ _ = (_, Ok _) |- _ => injection H as H; subst
  | H : act_set _ _ = (_, Ok _) |- _ => injection H as H; subst
  | H : act_fail _ _ = (_, Ok _) |- _ => discriminate H
  | H : (if ?b then _ else _) _ = (_, Ok _) |- _ =>
      let E := fresh "E" in destruct b eqn:E; [try discriminate H | try discriminate H]
  end.
Ltac inv_act := repeat (inv_act1; cbv beta iota in * ).

(** A relation between the states before and after, on every path. *)
Definition keeps {S E A : Type} (R : S -> S -> Prop) (m : act S E A) : Prop := forall s, R s (fst (m s)).

Section Keeps.
Context {S E : Type} (R : S -> S -> Prop) `{!PreOrder R}.

Lemma keeps_ret {A} (a : A) : keeps (E := E) R (act_ret a).
Proof. intros s. reflexivity. Qed.
Lemma keeps_fail {A} e : keeps (E := E) (A := A) R (act_fail e).
Proof. intros s. reflexivity. Qed.
Lemma keeps_lift {A} (o : outcome E A) : keeps R (act_lift o).
Proof. intros s. reflexivity. Qed.
Lemma keeps_get : keeps (E := E) R act_get.
Proof. intros s. reflexivity. Qed.
Lemma keeps_set f : (forall s, R s (f s)) -> keeps (E := E) R (act_set f).
Proof. intros H s. apply H. Qed.
Lemma keeps_bind {A B} (m : act S E A) (k : A -> act S E B) :
  keeps R m -> (forall a, keeps R (k a)) -> keeps R (act_bind m k).
Proof.
  intros Hm Hk s. unfold act_bind. specialize (Hm s). destruct (m s) as [s1 [a|e| |]]; try done.
  etransitivity; [exact Hm | apply Hk].
Qed.
Lemma keeps_run {A} (m : act S E A) s s' r : keeps R m -> m s = (s', r) -> R s s'.
Proof. intros H Hr. specialize (H s). by rewrite Hr in H. Qed.
End Keeps.

(** [keeps_tac]: follow the code of a call; tests and matches are split. *)
Ltac keeps_tac :=
  repeat lazymatch goal with
  | |- keeps _ (act_bind _ _) => apply keeps_bind; [apply _ | | intros ?]
  | |- keeps _ (act_ret _) => apply keeps_ret, _
  | |- keeps _ (act_fail _) => apply keeps_fail, _
  | |- keeps _ (act_lift _) => apply keeps_lift, _
  | |- keeps _ act_get => apply keeps_get, _
  | |- keeps _ (act_set _) => apply keeps_set; intros ?
  | |- keeps _ (if ?b then _ else _) => destruct b
  | |- keeps _ (match ?x with _ => _ end) => destruct x
  | |- keeps _ _ => solve [auto with wg_keeps]
  end.
Create HintDb wg_keeps discriminated.

#[global] Opaque be_split be_combine zeros.
