(* ===== verification/CodecErrors.v ===== *)
(** * Errors of package [codec] (internal/codec/errors.go)

    The sentinel errors, and [DecodeError] with its classifiable kind, byte
    offset and field.  The free-text [Detail] is for humans only and is not
    part of the model. *)

From stdpp Require Import base strings.
From S2P Require Import Prelude.
Local Open Scope Z_scope.

Inductive CodecErr : Set :=
| ErrTruncated
| ErrLength
| ErrLimit
| ErrTrailingData
| ErrVersion
| ErrKind
| ErrFlags
| ErrReserved
| ErrCID
| ErrPacketNumber
| ErrTLVOrder
| ErrDuplicateTLV
| ErrUnknownCriticalTLV
| ErrTLVLength
| ErrTLVContext
| ErrMissingTLV
| ErrUnknownFrameType
| ErrFrameFlags
| ErrFrameConstraint
| ErrIPPacket
| ErrUTF8.

#[global] Instance CodecErr_eq_dec : EqDecision CodecErr.
Proof. solve_decision. Defined.

Record DecodeError : Set := mkDecodeError {
  err_Kind : CodecErr;
  err_Offset : Z;
  err_Field : string
}.

#[global] Instance DecodeError_eq_dec : EqDecision DecodeError.
Proof. solve_decision. Defined.

(** [decodeError(kind, offset, field, detail)], as the error result of a call. *)
Definition decodeError {A : Type} (kind : CodecErr) (offset : Z) (field : string)
  : outcome DecodeError A :=
  Err (mkDecodeError kind offset field).

Abbreviation codec A := (outcome DecodeError A).

Lemma returns_decodeError {A} k o f : returns (decodeError (A := A) k o f).
Proof. exact I. Qed.
#[export] Hint Resolve returns_decodeError : wg_returns.

Lemma decodeError_not_Ok {A} k o f (a : A) : decodeError k o f <> Ok a.
Proof. discriminate. Qed.
