(* ===== verification/WireFormat.v ===== *)
(** * Canonical wire formats

    What a codec promises to its clients: the parser and the serializer of one
    structure agree on one byte layout.  Clients prove round trips against this
    interface; each structure's file discharges it. *)

From stdpp Require Import base list.
From S2P Require Import Prelude CodecErrors.
Local Open Scope Z_scope.

Class WireFormat {T : Type} (parse : bytes -> codec T) (marshal : T -> codec bytes) := {
  (** the value is one of the Go type: array lengths and byte ranges *)
  wire_ok : T -> Prop;
  (** the lengths the serializer demands *)
  wire_fits : T -> Prop;
  (** the layout *)
  wire_bytes : T -> bytes;
  wire_marshal : forall p, wire_ok p -> wire_fits p -> marshal p = Ok (wire_bytes p);
  wire_marshal_fits : forall p d, wire_ok p -> marshal p = Ok d -> wire_fits p;
  wire_parse : forall p, wire_ok p -> wire_fits p -> parse (wire_bytes p) = Ok p;
  wire_parse_inv : forall d p, bytes_ok d -> parse d = Ok p ->
    wire_ok p /\ wire_fits p /\ d = wire_bytes p
}.

Section Generic.
Context {T : Type} (parse : bytes -> codec T) (marshal : T -> codec bytes)
        `{!WireFormat parse marshal}.

Lemma wire_marshal_parse p d : wire_ok p -> marshal p = Ok d -> parse d = Ok p.
Proof.
  intros Hok Hm. pose proof (wire_marshal_fits p d Hok Hm) as Hf.
  rewrite (wire_marshal p Hok Hf) in Hm. injection Hm as <-. by apply wire_parse.
Qed.

Lemma wire_parse_marshal d p : bytes_ok d -> parse d = Ok p -> marshal p = Ok d.
Proof.
  intros Hd Hp. destruct (wire_parse_inv d p Hd Hp) as (Hok & Hf & ->).
  by apply wire_marshal.
Qed.

(** One value has one encoding, and one encoding has one value. *)
Lemma wire_parse_inj d d' p :
  bytes_ok d -> bytes_ok d' -> parse d = Ok p -> parse d' = Ok p -> d = d'.
Proof.
  intros Hd Hd' H H'. destruct (wire_parse_inv d p Hd H) as (_ & _ & ->).
  by destruct (wire_parse_inv d' p Hd' H') as (_ & _ & ->).
Qed.

End Generic.
