(* ===== verification/Payload.v ===== *)
(** * Outer payloads of WG/1 datagrams (internal/codec/payload.go)

    The clear structures of INITIAL, RETRY, HANDSHAKE and TRANSPORT payloads:
    parsing with exact-length checks, and canonical serialization by writes
    into a buffer of the computed size. *)

From stdpp Require Import base list strings.
From S2P Require Import Prelude CodecErrors WireFormat.
Local Open Scope Z_scope.
Local Open Scope wg_scope.

Definition AEADTagSize : Z := 16.
Definition EphemeralPublicKeySize : Z := 32.
Definition MinRetryTokenSize : Z := 16.

Record Initial : Set := mkInitial {
  init_Token : bytes;
  init_ClientEphemeralPublic : bytes;
  init_EncryptedPayload : bytes
}.

Definition ParseInitial (data : bytes) : codec Initial :=
  let fixedAfterToken := EphemeralPublicKeySize + 2 + AEADTagSize in
  if MaxUint16 <? len data then decodeError ErrLimit 0 "initial"
  else if len data <? 2 then decodeError ErrTruncated (len data) "initial.token_length"
  else
    let* b := slice data 0 2 in
    let* tokenLength := Uint16 b in
    if len data - 2 <? tokenLength then decodeError ErrTruncated 2 "initial.token"
    else if len data - 2 - tokenLength <? fixedAfterToken
    then decodeError ErrTruncated (2 + tokenLength) "initial"
    else
      let offset := 2 in
      let* token := slice data offset (offset + tokenLength) in
      let offset := offset + tokenLength in
      let* public := slice data offset (offset + EphemeralPublicKeySize) in
      let offset := offset + EphemeralPublicKeySize in
      let* b := slice data offset (offset + 2) in
      let* encryptedLength := Uint16 b in
      let offset := offset + 2 in
      if encryptedLength <? AEADTagSize
      then decodeError ErrLength (offset - 2) "initial.encrypted_length"
      else
        let remaining := len data - offset in
        if remaining <? encryptedLength
        then decodeError ErrTruncated (offset + remaining) "initial.encrypted_payload"
        else if encryptedLength <? remaining
        then decodeError ErrTrailingData (offset + encryptedLength) "initial.encrypted_payload"
        else
          let* payload := slice data offset (len data) in
          Ok (mkInitial token public payload).

Definition Initial_MarshalBinary (p : Initial) : codec bytes :=
  if MaxUint16 <? len (init_Token p) then decodeError ErrLength 0 "initial.token"
  else if (len (init_EncryptedPayload p) <? AEADTagSize)
          || (MaxUint16 <? len (init_EncryptedPayload p))
  then decodeError ErrLength 0 "initial.encrypted_payload"
  else
    let total := 2 + len (init_Token p) + EphemeralPublicKeySize + 2
                 + len (init_EncryptedPayload p) in
    if MaxUint16 <? total then decodeError ErrLength 0 "initial"
    else
      let data := zeros total in
      let* data := PutUint16 data 0 (u16 (len (init_Token p))) in
      let offset := 2 in
      let* data := copy_at data offset (init_Token p) in
      let offset := offset + len (init_Token p) in
      let* data := copy_at data offset (init_ClientEphemeralPublic p) in
      let offset := offset + EphemeralPublicKeySize in
      let* data := PutUint16 data offset (u16 (len (init_EncryptedPayload p))) in
      let offset := offset + 2 in
      copy_at data offset (init_EncryptedPayload p).

Record Retry : Set := mkRetry { retry_Token : bytes }.

Definition ParseRetry (data : bytes) : codec Retry :=
  if MaxUint16 <? len data then decodeError ErrLimit 0 "retry.token"
  else if len data <? MinRetryTokenSize then decodeError ErrLength 0 "retry.token"
  else Ok (mkRetry data).

Definition Retry_MarshalBinary (p : Retry) : codec bytes :=
  if (len (retry_Token p) <? MinRetryTokenSize) || (MaxUint16 <? len (retry_Token p))
  then decodeError ErrLength 0 "retry.token"
  else Ok (retry_Token p).

Record Handshake : Set := mkHandshake {
  hs_ServerEphemeralPublic : bytes;
  hs_EncryptedPayload : bytes
}.

Definition ParseHandshake (data : bytes) : codec Handshake :=
  let prefixSize := EphemeralPublicKeySize + 2 in
  if MaxUint16 <? len data then decodeError ErrLimit 0 "handshake"
  else if len data <? prefixSize then decodeError ErrTruncated (len data) "handshake"
  else
    let* public := slice data 0 EphemeralPublicKeySize in
    let* b := slice data EphemeralPublicKeySize prefixSize in
    let* encryptedLength := Uint16 b in
    if encryptedLength <? AEADTagSize
    then decodeError ErrLength EphemeralPublicKeySize "handshake.encrypted_length"
    else
      let remaining := len data - prefixSize in
      if remaining <? encryptedLength
      then decodeError ErrTruncated (len data) "handshake.encrypted_payload"
      else if encryptedLength <? remaining
      then decodeError ErrTrailingData (prefixSize + encryptedLength) "handshake.encrypted_payload"
      else
        let* payload := slice data prefixSize (len data) in
        Ok (mkHandshake public payload).

Definition Handshake_MarshalBinary (p : Handshake) : codec bytes :=
  if (len (hs_EncryptedPayload p) <? AEADTagSize) || (MaxUint16 <? len (hs_EncryptedPayload p))
  then decodeError ErrLength 0 "handshake.encrypted_payload"
  else
    let total := EphemeralPublicKeySize + 2 + len (hs_EncryptedPayload p) in
    if MaxUint16 <? total then decodeError ErrLength 0 "handshake"
    else
      let data := zeros total in
      let* data := copy_at data 0 (hs_ServerEphemeralPublic p) in
      let* data := PutUint16 data EphemeralPublicKeySize (u16 (len (hs_EncryptedPayload p))) in
      copy_at data (EphemeralPublicKeySize + 2) (hs_EncryptedPayload p).

Record Transport : Set := mkTransport { tr_Ciphertext : bytes }.

Definition ParseTransport (data : bytes) : codec Transport :=
  if MaxUint16 <? len data then decodeError ErrLimit 0 "transport.ciphertext"
  else if len data <? AEADTagSize then decodeError ErrLength 0 "transport.ciphertext"
  else Ok (mkTransport data).

Definition Transport_MarshalBinary (p : Transport) : codec bytes :=
  if (len (tr_Ciphertext p) <? AEADTagSize) || (MaxUint16 <? len (tr_Ciphertext p))
  then decodeError ErrLength 0 "transport.ciphertext"
  else Ok (tr_Ciphertext p).

(** The Go array types: a public key is exactly 32 bytes. *)
Definition key_ok (k : bytes) : Prop := len k = 32 /\ bytes_ok k.
#[global] Instance key_ok_dec k : Decision (key_ok k).
Proof. unfold key_ok. apply _. Defined.
Definition Initial_ok (p : Initial) : Prop :=
  bytes_ok (init_Token p) /\ key_ok (init_ClientEphemeralPublic p)
  /\ bytes_ok (init_EncryptedPayload p).
Definition Handshake_ok (p : Handshake) : Prop :=
  key_ok (hs_ServerEphemeralPublic p) /\ bytes_ok (hs_EncryptedPayload p).

(** ** Layouts *)
Definition initial_bytes (p : Initial) : bytes :=
  be_split 2 (len (init_Token p)) ++ init_Token p ++ init_ClientEphemeralPublic p
  ++ be_split 2 (len (init_EncryptedPayload p)) ++ init_EncryptedPayload p.

Definition Initial_fits (p : Initial) : Prop :=
  16 <= len (init_EncryptedPayload p)
  /\ len (init_Token p) + len (init_EncryptedPayload p) <= 65499.

Definition handshake_bytes (p : Handshake) : bytes :=
  hs_ServerEphemeralPublic p
  ++ be_split 2 (len (hs_EncryptedPayload p)) ++ hs_EncryptedPayload p.

Definition Handshake_fits (p : Handshake) : Prop :=
  16 <= len (hs_EncryptedPayload p) <= 65501.

Ltac unfold_sizes :=
  unfold MaxUint16, AEADTagSize, EphemeralPublicKeySize, MinRetryTokenSize in *.

Lemma Initial_marshal_layout p :
  Initial_ok p -> Initial_fits p -> Initial_MarshalBinary p = Ok (initial_bytes p).
Proof.
  destruct p as [tok pub enc]. intros (Ht & [Hp Hp'] & He) [Hf1 Hf2]. simpl in *.
  pose proof (len_nonneg tok). unfold Initial_MarshalBinary, initial_bytes; simpl.
  unfold_sizes. by_test. rewrite !u16_small by (unfold MaxUint16; lia).
  rewrite <- (app_nil_l (zeros _)). write_buf.
  rewrite zeros_nil by len_side. by rewrite app_nil_r, <- !app_assoc.
Qed.

Lemma Initial_marshal_fits p d :
  Initial_ok p -> Initial_MarshalBinary p = Ok d -> Initial_fits p.
Proof.
  destruct p as [tok pub enc]. intros _. unfold Initial_MarshalBinary, Initial_fits; simpl.
  unfold_sizes. intros. inv_ok. lia.
Qed.

Lemma Initial_parse_layout p :
  Initial_ok p -> Initial_fits p -> ParseInitial (initial_bytes p) = Ok p.
Proof.
  destruct p as [tok pub enc]. intros (Ht & [Hp Hp'] & He) [Hf1 Hf2]. simpl in *.
  pose proof (len_nonneg tok).
  assert (Hlen : len (initial_bytes (mkInitial tok pub enc)) = len tok + len enc + 36)
    by (unfold initial_bytes; simpl; len_side).
  unfold ParseInitial. rewrite Hlen. unfold_sizes. by_test.
  unfold initial_bytes; cbn [init_Token init_ClientEphemeralPublic init_EncryptedPayload].
  rewrite slice_prefix by len_side. cbn [obind]. unfold Uint16.
  rewrite be_uint_split0 by (cbn; lia). cbn [obind]. by_test.
  rewrite slice_app by len_side. cbn [obind].
  rewrite app_assoc, slice_app by len_side. cbn [obind].
  rewrite app_assoc, slice_app by len_side. cbn [obind].
  rewrite be_uint_split0 by (cbn; lia). cbn [obind]. by_test.
  rewrite app_assoc, slice_suffix by len_side. done.
Qed.

Lemma Initial_parse_inv d p :
  bytes_ok d -> ParseInitial d = Ok p -> Initial_ok p /\ Initial_fits p /\ d = initial_bytes p.
Proof.
  unfold ParseInitial. intros Hd H. unfold_sizes. inv_ok.
  slice_facts d Hd.
  match goal with
  | H1 : slice d 0 2 = Ok ?a, H2 : slice d 2 _ = Ok ?b, H3 : slice d _ _ = Ok ?c,
    H4 : slice d _ _ = Ok ?e, H5 : slice d _ (len d) = Ok ?f |- _ =>
      pose proof (slice_join H1 (slice_join H2
        (slice_join H3 (slice_join H4 H5)))) as Hj;
      rewrite slice_all in Hj; injection Hj as Hj
  end.
  unfold Initial_ok, Initial_fits, key_ok, initial_bytes; simpl.
  split; [repeat split; try done; lia|]. split; [lia|].
  replace (len a1) with (be_combine a) by lia. replace (len a5) with (be_combine a3) by lia.
  rewrite !be_split_combine' by (done || (unfold len in *; lia)). done.
Qed.

Lemma Handshake_marshal_layout p :
  Handshake_ok p -> Handshake_fits p -> Handshake_MarshalBinary p = Ok (handshake_bytes p).
Proof.
  destruct p as [pub enc]. intros ([Hp Hp'] & He) Hf. unfold Handshake_fits in Hf. simpl in *.
  unfold Handshake_MarshalBinary, handshake_bytes; simpl.
  unfold_sizes. by_test. rewrite !u16_small by (unfold MaxUint16; lia).
  rewrite <- (app_nil_l (zeros _)). write_buf.
  rewrite zeros_nil by len_side. by rewrite app_nil_r, <- !app_assoc.
Qed.

Lemma Handshake_marshal_fits p d :
  Handshake_ok p -> Handshake_MarshalBinary p = Ok d -> Handshake_fits p.
Proof.
  destruct p as [pub enc]. intros _. unfold Handshake_MarshalBinary, Handshake_fits; simpl.
  unfold_sizes. intros. inv_ok. lia.
Qed.

Lemma Handshake_parse_layout p :
  Handshake_ok p -> Handshake_fits p -> ParseHandshake (handshake_bytes p) = Ok p.
Proof.
  destruct p as [pub enc]. intros ([Hp Hp'] & He) Hf. unfold Handshake_fits in Hf. simpl in *.
  assert (Hlen : len (handshake_bytes (mkHandshake pub enc)) = len enc + 34)
    by (unfold handshake_bytes; simpl; len_side).
  unfold ParseHandshake. rewrite Hlen. unfold_sizes. by_test.
  unfold handshake_bytes; cbn [hs_ServerEphemeralPublic hs_EncryptedPayload].
  rewrite slice_prefix by len_side. cbn [obind]. unfold Uint16.
  rewrite slice_app by len_side. cbn [obind].
  rewrite be_uint_split0 by (cbn; lia). cbn [obind]. by_test.
  rewrite app_assoc, slice_suffix by len_side. done.
Qed.

Lemma Handshake_parse_inv d p :
  bytes_ok d -> ParseHandshake d = Ok p ->
  Handshake_ok p /\ Handshake_fits p /\ d = handshake_bytes p.
Proof.
  unfold ParseHandshake. intros Hd H. unfold_sizes. inv_ok. slice_facts d Hd.
  match goal with
  | H1 : slice d 0 32 = Ok ?a, H2 : slice d 32 _ = Ok ?b, H3 : slice d _ (len d) = Ok ?c |- _ =>
      pose proof (slice_join H1 (slice_join H2 H3)) as Hj;
      rewrite slice_all in Hj; injection Hj as Hj
  end.
  unfold Handshake_ok, Handshake_fits, key_ok, handshake_bytes; simpl.
  split; [repeat split; try done; lia|]. split; [lia|].
  replace (len a2) with (be_combine a0) by lia.
  rewrite !be_split_combine' by (done || (unfold len in *; lia)). done.
Qed.

#[export] Instance Initial_wire : WireFormat ParseInitial Initial_MarshalBinary := {|
  wire_ok := Initial_ok; wire_fits := Initial_fits; wire_bytes := initial_bytes;
  wire_marshal := Initial_marshal_layout; wire_marshal_fits := Initial_marshal_fits;
  wire_parse := Initial_parse_layout; wire_parse_inv := Initial_parse_inv
|}.

#[export] Instance Handshake_wire : WireFormat ParseHandshake Handshake_MarshalBinary := {|
  wire_ok := Handshake_ok; wire_fits := Handshake_fits; wire_bytes := handshake_bytes;
  wire_marshal := Handshake_marshal_layout; wire_marshal_fits := Handshake_marshal_fits;
  wire_parse := Handshake_parse_layout; wire_parse_inv := Handshake_parse_inv
|}.

#[export] Instance Retry_wire : WireFormat ParseRetry Retry_MarshalBinary.
Proof.
  refine {| wire_ok p := bytes_ok (retry_Token p);
            wire_fits p := 16 <= len (retry_Token p) <= 65535;
            wire_bytes := retry_Token |};
    unfold ParseRetry, Retry_MarshalBinary; unfold_sizes; [intros [t]; simpl.. |]; intros.
  - by_test. done.
  - inv_ok. lia.
  - by_test. done.
  - inv_ok. simpl. repeat split; [done | lia..].
Defined.

#[export] Instance Transport_wire : WireFormat ParseTransport Transport_MarshalBinary.
Proof.
  refine {| wire_ok p := bytes_ok (tr_Ciphertext p);
            wire_fits p := 16 <= len (tr_Ciphertext p) <= 65535;
            wire_bytes := tr_Ciphertext |};
    unfold ParseTransport, Transport_MarshalBinary; unfold_sizes; [intros [t]; simpl.. |]; intros.
  - by_test. done.
  - inv_ok. lia.
  - by_test. done.
  - inv_ok. simpl. repeat split; [done | lia..].
Defined.

(** ** Every parser comes back on every input *)
Lemma ParseInitial_returns d : bytes_ok d -> returns (ParseInitial d).
Proof. intros Hd. unfold ParseInitial. unfold_sizes. go_returns d Hd. Qed.

Lemma ParseHandshake_returns d : bytes_ok d -> returns (ParseHandshake d).
Proof. intros Hd. unfold ParseHandshake. unfold_sizes. go_returns d Hd. Qed.

Lemma ParseRetry_returns d : returns (ParseRetry d).
Proof. unfold ParseRetry. returns_tac. Qed.

Lemma ParseTransport_returns d : returns (ParseTransport d).
Proof. unfold ParseTransport. returns_tac. Qed.

#[export] Hint Resolve ParseInitial_returns ParseHandshake_returns ParseRetry_returns
  ParseTransport_returns : wg_returns.
