(* ===== verification/Packet.v ===== *)
(** * The outer WG/1 datagram (internal/codec/packet.go)

    The fixed 32-byte header with its kind-specific rules, and the complete
    datagram: [ParsePacket] checks the configured limit, the header, the exact
    length and the kind's payload structure; [Packet_MarshalBinary] derives the
    payload length and writes header and payload. *)

From stdpp Require Import base list strings.
From S2P Require Import Prelude CodecErrors WireFormat Payload.
Local Open Scope Z_scope.
Local Open Scope wg_scope.

Definition Version1 : Z := 1.
Definition HeaderSize : Z := 32.
Definition DefaultMaxDatagramSize : Z := 1400.

(** [PacketType] is a [uint8]; the named kinds: *)
Definition PacketInitial : Z := 1.
Definition PacketRetry : Z := 2.
Definition PacketHandshake : Z := 3.
Definition PacketTransport : Z := 16.

Definition PacketType_valid (kind : Z) : bool :=
  (kind =? PacketInitial) || (kind =? PacketRetry) || (kind =? PacketHandshake)
  || (kind =? PacketTransport).

Record Header : Set := mkHeader {
  Version : Z;
  Kind : Z;
  Flags : Z;
  DCID : Z;
  SCID : Z;
  PacketNumber : Z;
  PayloadLength : Z;
  Reserved : Z
}.

Definition Header_validate (h : Header) : codec unit :=
  if negb (Version h =? Version1) then decodeError ErrVersion 0 "version"
  else if negb (PacketType_valid (Kind h)) then decodeError ErrKind 1 "kind"
  else if negb (Flags h =? 0) then decodeError ErrFlags 2 "flags"
  else if negb (Reserved h =? 0) then decodeError ErrReserved 30 "reserved"
  else if Kind h =? PacketInitial then
    if negb (DCID h =? 0) || (SCID h =? 0) then decodeError ErrCID 4 "cid"
    else if negb (PacketNumber h =? 0) then decodeError ErrPacketNumber 20 "packet_number"
    else Ok tt
  else if Kind h =? PacketRetry then
    if (DCID h =? 0) || negb (SCID h =? 0) then decodeError ErrCID 4 "cid"
    else if negb (PacketNumber h =? 0) then decodeError ErrPacketNumber 20 "packet_number"
    else Ok tt
  else if Kind h =? PacketHandshake then
    if (DCID h =? 0) || (SCID h =? 0) then decodeError ErrCID 4 "cid"
    else if negb (PacketNumber h =? 0) then decodeError ErrPacketNumber 20 "packet_number"
    else Ok tt
  else if Kind h =? PacketTransport then
    if (DCID h =? 0) || (SCID h =? 0) then decodeError ErrCID 4 "cid"
    else Ok tt
  else Ok tt.

Definition parseHeaderPrefix (data : bytes) : codec Header :=
  if len data <? HeaderSize then decodeError ErrTruncated (len data) "header"
  else
    let* version := index data 0 in
    let* kind := index data 1 in
    let* b := slice data 2 4 in
    let* flags := Uint16 b in
    let* b := slice data 4 12 in
    let* dcid := Uint64 b in
    let* b := slice data 12 20 in
    let* scid := Uint64 b in
    let* b := slice data 20 28 in
    let* packetNumber := Uint64 b in
    let* b := slice data 28 30 in
    let* payloadLength := Uint16 b in
    let* b := slice data 30 32 in
    let* reserved := Uint16 b in
    let header := mkHeader version kind flags dcid scid packetNumber payloadLength reserved in
    do* Header_validate header;
    Ok header.

Definition ParseHeader (data : bytes) : codec Header :=
  if len data <? HeaderSize then decodeError ErrTruncated (len data) "header"
  else if HeaderSize <? len data then decodeError ErrTrailingData HeaderSize "header"
  else parseHeaderPrefix data.

Definition Header_MarshalBinary (h : Header) : codec bytes :=
  do* Header_validate h;
  let data := zeros HeaderSize in
  let* data := set_at data 0 (Version h) in
  let* data := set_at data 1 (Kind h) in
  let* data := PutUint16 data 2 (Flags h) in
  let* data := PutUint64 data 4 (DCID h) in
  let* data := PutUint64 data 12 (SCID h) in
  let* data := PutUint64 data 20 (PacketNumber h) in
  let* data := PutUint16 data 28 (PayloadLength h) in
  PutUint16 data 30 (Reserved h).

Record Packet : Set := mkPacket { pkt_Header : Header; pkt_Payload : bytes }.

Definition NewPacket (kind dcid scid packetNumber : Z) (payload : bytes) : Packet :=
  mkPacket (mkHeader Version1 kind 0 dcid scid packetNumber 0 0) payload.

Definition normalizeDatagramLimit (limit : Z) : codec Z :=
  if limit =? 0 then Ok DefaultMaxDatagramSize
  else if (limit <? HeaderSize) || (HeaderSize + MaxUint16 <? limit)
  then decodeError ErrLimit 0 "max_datagram_size"
  else Ok limit.

Definition validateOuterPayload (kind : Z) (payload : bytes) : codec unit :=
  if kind =? PacketInitial then let* _ := ParseInitial payload in Ok tt
  else if kind =? PacketRetry then let* _ := ParseRetry payload in Ok tt
  else if kind =? PacketHandshake then let* _ := ParseHandshake payload in Ok tt
  else if kind =? PacketTransport then let* _ := ParseTransport payload in Ok tt
  else decodeError ErrKind 1 "kind".

Definition ParsePacket (data : bytes) (maxDatagramSize : Z) : codec Packet :=
  let* limit := normalizeDatagramLimit maxDatagramSize in
  if len data <? HeaderSize then decodeError ErrTruncated (len data) "datagram"
  else if limit <? len data then decodeError ErrLimit 0 "datagram"
  else
    let* b := slice data 0 HeaderSize in
    let* header := parseHeaderPrefix b in
    let expected := HeaderSize + PayloadLength header in
    if limit <? expected then decodeError ErrLimit 28 "payload_length"
    else if len data <? expected then decodeError ErrTruncated (len data) "payload"
    else if expected <? len data then decodeError ErrTrailingData expected "payload"
    else
      let* payload := slice data HeaderSize expected in
      do* validateOuterPayload (Kind header) payload;
      Ok (mkPacket header payload).

Definition with_PayloadLength (h : Header) (n : Z) : Header :=
  mkHeader (Version h) (Kind h) (Flags h) (DCID h) (SCID h) (PacketNumber h) n (Reserved h).

Definition Packet_MarshalBinary (p : Packet) (maxDatagramSize : Z) : codec bytes :=
  let* limit := normalizeDatagramLimit maxDatagramSize in
  if MaxUint16 <? len (pkt_Payload p) then decodeError ErrLength 0 "payload"
  else if limit <? HeaderSize + len (pkt_Payload p) then decodeError ErrLimit 0 "datagram"
  else
    do* validateOuterPayload (Kind (pkt_Header p)) (pkt_Payload p);
    let header := with_PayloadLength (pkt_Header p) (u16 (len (pkt_Payload p))) in
    let* encodedHeader := Header_MarshalBinary header in
    let data := zeros (HeaderSize + len (pkt_Payload p)) in
    let* data := copy_at data 0 encodedHeader in
    copy_at data HeaderSize (pkt_Payload p).

(** Field widths of the Go struct. *)
Definition Header_ok (h : Header) : Prop :=
  uint_ok 8 (Version h) /\ uint_ok 8 (Kind h) /\ uint_ok 16 (Flags h)
  /\ uint_ok 64 (DCID h) /\ uint_ok 64 (SCID h) /\ uint_ok 64 (PacketNumber h)
  /\ uint_ok 16 (PayloadLength h) /\ uint_ok 16 (Reserved h).
#[global] Instance Header_ok_dec h : Decision (Header_ok h).
Proof. unfold Header_ok. apply _. Defined.

Definition header_bytes (h : Header) : bytes :=
  [Version h; Kind h] ++ be_split 2 (Flags h) ++ be_split 8 (DCID h) ++ be_split 8 (SCID h)
  ++ be_split 8 (PacketNumber h) ++ be_split 2 (PayloadLength h) ++ be_split 2 (Reserved h).

(** ** Header layout *)
Lemma Header_validate_returns h : returns (Header_validate h).
Proof. unfold Header_validate. returns_tac. Qed.
#[export] Hint Resolve Header_validate_returns : wg_returns.

Lemma len_header_bytes h : len (header_bytes h) = 32.
Proof. unfold header_bytes. len_side. Qed.

Lemma Header_marshal_layout h :
  Header_validate h = Ok tt -> Header_MarshalBinary h = Ok (header_bytes h).
Proof.
  intros Hv. unfold Header_MarshalBinary, HeaderSize. rewrite Hv. cbn [obind].
  rewrite <- (app_nil_l (zeros _)). write_buf.
  rewrite zeros_nil by lia. unfold header_bytes. by rewrite app_nil_r, <- !app_assoc.
Qed.

Lemma Header_marshal_valid h d :
  Header_MarshalBinary h = Ok d -> Header_validate h = Ok tt /\ d = header_bytes h.
Proof.
  intros H. assert (Hv : Header_validate h = Ok tt).
  { unfold Header_MarshalBinary in H. inv_ok. by destruct a. }
  split; [done|]. rewrite Header_marshal_layout in H by done. by injection H.
Qed.

Lemma parseHeaderPrefix_layout h s :
  Header_ok h -> Header_validate h = Ok tt -> parseHeaderPrefix (header_bytes h ++ s) = Ok h.
Proof.
  intros (?&?&?&?&?&?&?&?) Hv. unfold uint_ok in *.
  unfold parseHeaderPrefix, HeaderSize. rewrite len_app, len_header_bytes.
  pose proof (len_nonneg s). by_test. unfold header_bytes. rewrite <- !app_assoc.
  change ([Version h; Kind h] ++ ?r) with ([] ++ Version h :: Kind h :: r).
  rewrite index_app by done. cbn [obind].
  change ([] ++ ?v :: ?k :: ?r) with ([v] ++ k :: r). rewrite index_app by done. cbn [obind].
  change ([?v] ++ ?k :: ?r) with ([v; k] ++ r). unfold Uint16, Uint64.
  rewrite slice_app by len_side. cbn [obind]. rewrite be_uint_split0 by (cbn; lia). cbn [obind].
  do 5 (rewrite app_assoc, slice_app by len_side; cbn [obind];
        rewrite be_uint_split0 by (cbn; lia); cbn [obind]).
  destruct h; simpl in *. by rewrite Hv.
Qed.

Lemma parseHeaderPrefix_inv d h :
  bytes_ok d -> len d = 32 -> parseHeaderPrefix d = Ok h ->
  Header_ok h /\ Header_validate h = Ok tt /\ d = header_bytes h.
Proof.
  unfold parseHeaderPrefix, HeaderSize. intros Hd Hl H. inv_ok.
  match goal with H : Header_validate _ = Ok ?u |- _ => destruct u end.
  repeat match goal with
  | H : index d _ = Ok _ |- _ => eapply index_slice in H; [|reflexivity]
  end. slice_facts d Hd. change (0 + 1) with 1 in *. change (1 + 1) with 2 in *.
  match goal with
  | H0 : slice d 0 1 = Ok [?v], H1 : slice d 1 2 = Ok [?k], H2 : slice d 2 4 = Ok _,
    H3 : slice d 4 12 = Ok _, H4 : slice d 12 20 = Ok _, H5 : slice d 20 28 = Ok _,
    H6 : slice d 28 30 = Ok _, H7 : slice d 30 32 = Ok _ |- _ =>
      pose proof (slice_join H0 (slice_join H1 (slice_join H2 (slice_join H3
        (slice_join H4 (slice_join H5 (slice_join H6 H7))))))) as Hj
  end.
  rewrite <- Hl, slice_all in Hj. injection Hj as Hj.
  split; [|split; [done|]].
  - repeat match goal with H : bytes_ok [_] |- _ => apply Forall_inv in H end.
    unfold Header_ok; simpl. split_and!;
      first [apply be_combine_uint; [done | lia] | unfold byte_ok, uint_ok in *; lia].
  - unfold header_bytes; simpl.
    rewrite !be_split_combine' by (done || (unfold len in *; lia)). exact Hj.
Qed.

Lemma parseHeaderPrefix_returns d : bytes_ok d -> returns (parseHeaderPrefix d).
Proof.
  intros Hd. unfold parseHeaderPrefix, HeaderSize. go_returns d Hd.
  all: apply index_returns; lia.
Qed.

Lemma Header_validate_length h n :
  Header_validate (with_PayloadLength h n) = Header_validate h.
Proof. reflexivity. Qed.

(** ** Payload structure *)
Lemma validateOuterPayload_returns k d : bytes_ok d -> returns (validateOuterPayload k d).
Proof. intros Hd. unfold validateOuterPayload. returns_tac. Qed.

Lemma validateOuterPayload_length k d :
  validateOuterPayload k d = Ok tt -> len d <= 65535.
Proof.
  unfold validateOuterPayload, ParseInitial, ParseRetry, ParseHandshake, ParseTransport, MaxUint16.
  intros H. inv_ok; lia.
Qed.

Lemma normalizeDatagramLimit_bound n limit :
  normalizeDatagramLimit n = Ok limit -> 32 <= limit <= 65567.
Proof.
  unfold normalizeDatagramLimit, HeaderSize, DefaultMaxDatagramSize, MaxUint16.
  intros. inv_ok; lia.
Qed.

Lemma normalizeDatagramLimit_returns n : returns (normalizeDatagramLimit n).
Proof. unfold normalizeDatagramLimit. returns_tac. Qed.
#[export] Hint Resolve parseHeaderPrefix_returns validateOuterPayload_returns
  normalizeDatagramLimit_returns : wg_returns.

(** ** The whole datagram *)
Definition packet_bytes (p : Packet) : bytes :=
  header_bytes (with_PayloadLength (pkt_Header p) (len (pkt_Payload p))) ++ pkt_Payload p.

Definition packet_limit_ok (p : Packet) (max : Z) : Prop :=
  exists limit, normalizeDatagramLimit max = Ok limit
                /\ len (pkt_Payload p) <= 65535 /\ 32 + len (pkt_Payload p) <= limit.

Lemma Packet_marshal_inv p max d :
  Packet_MarshalBinary p max = Ok d ->
  packet_limit_ok p max /\ Header_validate (pkt_Header p) = Ok tt
  /\ validateOuterPayload (Kind (pkt_Header p)) (pkt_Payload p) = Ok tt
  /\ d = packet_bytes p.
Proof.
  unfold Packet_MarshalBinary, MaxUint16, HeaderSize. intros H. inv_ok. destruct a0.
  apply Header_marshal_valid in Ha1 as [Hv ->]. pose proof (len_nonneg (pkt_Payload p)).
  rewrite u16_small in * by (unfold MaxUint16; lia).
  split; [exists a; repeat split; done || lia|].
  rewrite Header_validate_length in Hv. split; [done|]. split; [done|].
  rewrite <- (app_nil_l (zeros _)) in Ha2.
  rewrite copy_at_zeros in Ha2 by (rewrite ?len_header_bytes; len_side). apply Ok_inj in Ha2 as <-.
  rewrite copy_at_zeros in H
    by (rewrite ?len_app, ?len_header_bytes; len_side). apply Ok_inj in H as <-.
  rewrite zeros_nil by (rewrite ?len_header_bytes; lia). by rewrite app_nil_r.
Qed.

Lemma Packet_marshal_layout p max :
  packet_limit_ok p max -> Header_validate (pkt_Header p) = Ok tt ->
  validateOuterPayload (Kind (pkt_Header p)) (pkt_Payload p) = Ok tt ->
  Packet_MarshalBinary p max = Ok (packet_bytes p).
Proof.
  intros (limit & Hl & Hn & Hm) Hv Ho. unfold Packet_MarshalBinary, MaxUint16, HeaderSize.
  rewrite Hl. cbn [obind]. by_test. rewrite Ho. cbn [obind].
  rewrite u16_small by (unfold MaxUint16; pose proof (len_nonneg (pkt_Payload p)); lia).
  rewrite Header_marshal_layout by done. cbn [obind].
  pose proof (len_nonneg (pkt_Payload p)).
  rewrite <- (app_nil_l (zeros _)).
  rewrite copy_at_zeros by (rewrite ?len_header_bytes; len_side). cbn [obind].
  rewrite copy_at_zeros by (rewrite ?len_app, ?len_header_bytes; len_side).
  rewrite zeros_nil by (rewrite ?len_header_bytes; lia). by rewrite app_nil_r.
Qed.

Lemma Packet_parse_layout p max :
  Header_ok (pkt_Header p) ->
  packet_limit_ok p max -> Header_validate (pkt_Header p) = Ok tt ->
  validateOuterPayload (Kind (pkt_Header p)) (pkt_Payload p) = Ok tt ->
  ParsePacket (packet_bytes p) max
  = Ok (mkPacket (with_PayloadLength (pkt_Header p) (len (pkt_Payload p))) (pkt_Payload p)).
Proof.
  intros Hok (limit & Hl & Hn & Hm) Hv Ho. pose proof (len_nonneg (pkt_Payload p)).
  unfold ParsePacket, HeaderSize. rewrite Hl. cbn [obind].
  unfold packet_bytes. rewrite len_app, len_header_bytes. by_test.
  rewrite slice_prefix by (by rewrite len_header_bytes). cbn [obind].
  rewrite <- (app_nil_r (header_bytes _)) at 1.
  rewrite parseHeaderPrefix_layout; [|unfold Header_ok, uint_ok in *; simpl; lia | done].
  cbn [obind with_PayloadLength PayloadLength Kind]. by_test.
  rewrite slice_suffix by (rewrite len_header_bytes; done || lia). cbn [obind].
  by rewrite Ho.
Qed.

Lemma Packet_parse_inv d max p :
  bytes_ok d -> ParsePacket d max = Ok p ->
  Header_ok (pkt_Header p) /\ packet_limit_ok p max
  /\ Header_validate (pkt_Header p) = Ok tt
  /\ validateOuterPayload (Kind (pkt_Header p)) (pkt_Payload p) = Ok tt
  /\ PayloadLength (pkt_Header p) = len (pkt_Payload p) /\ d = packet_bytes p.
Proof.
  unfold ParsePacket, HeaderSize. intros Hd H. inv_ok. destruct a3.
  pose proof (bytes_ok_slice _ _ _ _ Hd Ha0) as Hok. pose proof (slice_len _ _ _ _ Ha0) as Hl.
  apply parseHeaderPrefix_inv in Ha1 as (Hh & Hv & ->); [|done|lia]. simpl.
  pose proof (slice_len _ _ _ _ Ha2) as Hl2.
  replace (32 + PayloadLength a1) with (len d) in Ha2 by lia.
  pose proof (slice_join Ha0 Ha2) as Hj. rewrite slice_all in Hj. apply Ok_inj in Hj.
  assert (Hp : PayloadLength a1 = len a2) by lia.
  split; [done|]. split.
  { exists a. simpl. unfold Header_ok, uint_ok in Hh. repeat split; [done | lia..]. }
  split; [done|]. split; [done|]. split; [done|].
  unfold packet_bytes; simpl. rewrite <- Hp. by destruct a1.
Qed.

Lemma ParsePacket_returns d max : bytes_ok d -> returns (ParsePacket d max).
Proof. intros Hd. unfold ParsePacket, HeaderSize. go_returns d Hd. Qed.

(** ** Properties *)

(** Whatever [Packet.MarshalBinary] emits, [ParsePacket] reads back under
    the same limit as the same packet, its header carrying the length of the
    payload (the only header field that serialization derives). *)
Lemma packet_marshal_parse p max d :
  Header_ok (pkt_Header p) -> Packet_MarshalBinary p max = Ok d ->
  ParsePacket d max
  = Ok (mkPacket (with_PayloadLength (pkt_Header p) (len (pkt_Payload p))) (pkt_Payload p)).
Proof.
  intros Hok (Hl & Hv & Ho & ->)%Packet_marshal_inv. by apply Packet_parse_layout.
Qed.

(** The datagram encoding is canonical: every datagram that [ParsePacket]
    accepts is exactly the serialization of the packet it returns, so two
    different datagrams never parse to the same packet. *)
Lemma packet_parse_canonical d max p :
  bytes_ok d -> ParsePacket d max = Ok p -> Packet_MarshalBinary p max = Ok d.
Proof.
  intros Hd (Hh & Hl & Hv & Ho & _ & ->)%Packet_parse_inv; [|done].
  by apply Packet_marshal_layout.
Qed.

(** C35: Datagrams round trip.  Whatever [Packet.MarshalBinary] emits for a typed
    packet, [ParsePacket] reads back under the same limit as the same packet, its
    header carrying the length of the payload (the only header field that
    serialization derives); and every datagram that [ParsePacket] accepts is
    exactly the serialization of the packet it returns. *)
Theorem packet_round_trip :
  (forall p max d, Header_ok (pkt_Header p) -> Packet_MarshalBinary p max = Ok d ->
     ParsePacket d max
     = Ok (mkPacket (with_PayloadLength (pkt_Header p) (len (pkt_Payload p))) (pkt_Payload p)))
  /\ (forall d max p, bytes_ok d -> ParsePacket d max = Ok p -> Packet_MarshalBinary p max = Ok d).
Proof. split; [apply packet_marshal_parse | apply packet_parse_canonical]. Qed.

Definition demo_transport : Packet := NewPacket PacketTransport 7 9 5 (replicate 20 170).

Definition demo_datagram : bytes :=
  [1; 16; 0; 0] ++ be_split 8 7 ++ be_split 8 9 ++ be_split 8 5 ++ [0; 20; 0; 0] ++ replicate 20 170.

Lemma packet_round_trip_witness :
  (exists d, Packet_MarshalBinary demo_transport 0 = Ok d
   /\ ParsePacket d 0 = Ok (mkPacket (with_PayloadLength (pkt_Header demo_transport) 20)
                                     (replicate 20 170)))
  /\ (exists p, ParsePacket demo_datagram 0 = Ok p /\ Packet_MarshalBinary p 0 = Ok demo_datagram).
Proof.
  split; (eexists; split; [vm_compute; reflexivity|]).
  - apply (proj1 packet_round_trip demo_transport 0);
      [apply (bool_decide_unpack _); vm_compute; exact I | vm_compute; reflexivity].
  - apply (proj2 packet_round_trip);
      [apply (bool_decide_unpack _); vm_compute; exact I | vm_compute; reflexivity].
Defined.

(** ** What an accepted packet satisfies

    The rules of the wire format, by kind: connection identifiers that are given or
    absent, packet numbers on transport packets only, and the layout of the payload. *)
Definition header_rules (h : Header) : Prop :=
  Version h = 1 /\ Flags h = 0 /\ Reserved h = 0
  /\ (Kind h = 1 /\ DCID h = 0 /\ SCID h <> 0 /\ PacketNumber h = 0
      \/ Kind h = 2 /\ DCID h <> 0 /\ SCID h = 0 /\ PacketNumber h = 0
      \/ Kind h = 3 /\ DCID h <> 0 /\ SCID h <> 0 /\ PacketNumber h = 0
      \/ Kind h = 16 /\ DCID h <> 0 /\ SCID h <> 0).
Definition payload_rules (kind : Z) (payload : bytes) : Prop :=
  (kind = 1 -> exists token public encrypted, len public = 32 /\ 16 <= len encrypted
     /\ payload = be_split 2 (len token) ++ token ++ public ++ be_split 2 (len encrypted) ++ encrypted)
  /\ (kind = 2 -> 16 <= len payload)
  /\ (kind = 3 -> exists public encrypted, len public = 32 /\ 16 <= len encrypted /\ payload = public ++ be_split 2 (len encrypted) ++ encrypted)
  /\ (kind = 16 -> 16 <= len payload).

Lemma Header_validate_rules h : Header_validate h = Ok tt <-> header_rules h.
Proof.
  unfold Header_validate, header_rules, PacketType_valid, Version1, PacketInitial, PacketRetry, PacketHandshake, PacketTransport. split.
  - intros H. inv_ok; lia.
  - intros H. destruct H as (-> & -> & -> & [(-> & -> & Hs & ->)|[(-> & Hd & -> & ->)|[(-> & Hd & Hs & ->)|(-> & Hd & Hs)]]]); cbn; by_test; done.
Qed.

Lemma validateOuterPayload_rules kind payload : bytes_ok payload -> validateOuterPayload kind payload = Ok tt -> payload_rules kind payload.
Proof.
  intros Hb. unfold validateOuterPayload, payload_rules, PacketInitial, PacketRetry, PacketHandshake, PacketTransport.
  intros H. split_and!; intros ->; cbn in H; inv_ok.
  - apply Initial_parse_inv in Ha as ((_ & [Hk _] & _) & [He _] & ->); [|done]. by eexists _, _, _.
  - unfold ParseRetry, MinRetryTokenSize in *. inv_ok. lia.
  - apply Handshake_parse_inv in Ha as (([Hk _] & _) & [He _] & ->); [|done]. by eexists _, _.
  - unfold ParseTransport, AEADTagSize in *. inv_ok. lia.
Qed.

(** [ParsePacket] is total and bounded on untrusted input: for every byte string and
    every limit it returns (no index or slice panics), and what it accepts is no longer
    than the effective limit, has a payload of exactly the declared length, and obeys
    the rules for headers and payloads. *)
Lemma packet_parse_safe d max :
  bytes_ok d ->
  returns (ParsePacket d max)
  /\ forall p, ParsePacket d max = Ok p ->
       exists limit, normalizeDatagramLimit max = Ok limit /\ len d <= limit
       /\ len d = HeaderSize + PayloadLength (pkt_Header p)
       /\ PayloadLength (pkt_Header p) = len (pkt_Payload p)
       /\ header_rules (pkt_Header p) /\ payload_rules (Kind (pkt_Header p)) (pkt_Payload p).
Proof.
  intros Hd. split; [by apply ParsePacket_returns|].
  intros p (Hh & (limit & Hl & Hn & Hm) & Hv & Ho & Hp & ->)%Packet_parse_inv; [|done].
  exists limit. unfold packet_bytes in *. rewrite len_app, len_header_bytes. unfold HeaderSize.
  apply Forall_app in Hd as [_ Hd]. split_and!; [done | lia | lia | done | by apply Header_validate_rules | by apply validateOuterPayload_rules].
Qed.

(** A negative size limit is refused with [ErrLimit] on every datagram; the
    default of 1400 bytes is selected by zero alone. *)
Theorem packet_negative_limit d max :
  max < 0 -> ParsePacket d max = Err (mkDecodeError ErrLimit 0 "max_datagram_size")
             /\ normalizeDatagramLimit 0 = Ok DefaultMaxDatagramSize.
Proof.
  intros. split; [|done]. unfold ParsePacket, normalizeDatagramLimit, HeaderSize. by_test. done.
Qed.

Lemma packet_negative_limit_witness :
  ParsePacket demo_datagram (-1) = Err (mkDecodeError ErrLimit 0 "max_datagram_size").
Proof. apply (packet_negative_limit demo_datagram (-1)). lia. Defined.
