(* ===== verification/Tlv.v ===== *)
(** * TLV streams of the handshake messages (internal/codec/tlv.go)

    Parsing of canonical (strictly increasing) streams, sorting serialization,
    and the occurrence rules of the INITIAL and HANDSHAKE contexts. *)

From stdpp Require Import base list gmap strings sorting.
From S2P Require Import Prelude CodecErrors.
Local Open Scope Z_scope.
Local Open Scope wg_scope.

Definition TLVHeaderSize : Z := 3.

Definition TLVEgressPolicyVersion : Z := 0x0C.
Definition TLVDNSParameters : Z := 0x0D.
Definition TLVVersion : Z := 0x81.
Definition TLVDeploymentID : Z := 0x82.
Definition TLVClientCID : Z := 0x83.
Definition TLVServerCID : Z := 0x84.
Definition TLVCapabilities : Z := 0x85.
Definition TLVAddressFamilies : Z := 0x86.
Definition TLVMaxDatagramSize : Z := 0x87.
Definition TLVIPv4Lease : Z := 0x88.
Definition TLVIPv6Lease : Z := 0x89.
Definition TLVTunnelMTU : Z := 0x8A.
Definition TLVLeaseSeconds : Z := 0x8B.
Definition TLVClientStaticKey : Z := 0x8C.
Definition TLVEnrollmentTokenID : Z := 0x8D.
Definition TLVEnrollmentProof : Z := 0x8E.

(** [TLVContext] is a [uint8]. *)
Definition TLVContextAny : Z := 0.
Definition TLVContextInitial : Z := 1.
Definition TLVContextHandshake : Z := 2.

Record TLV : Set := mkTLV { tlv_Type : Z; tlv_Value : bytes }.
#[global] Instance TLV_eq_dec : EqDecision TLV.
Proof. solve_decision. Defined.

Definition Critical (field : TLV) : bool := negb (Z.land (tlv_Type field) 0x80 =? 0).

Definition knownTLV (fieldType : Z) : bool :=
  (fieldType =? TLVEgressPolicyVersion) || (fieldType =? TLVDNSParameters)
  || ((TLVVersion <=? fieldType) && (fieldType <=? TLVEnrollmentProof)).

Definition one_of (x : Z) (l : list Z) : bool := existsb (Z.eqb x) l.

Definition fixedTLVLength (fieldType : Z) : option Z :=
  if one_of fieldType [TLVEgressPolicyVersion; TLVClientCID; TLVServerCID; TLVCapabilities]
  then Some 8
  else if one_of fieldType [TLVVersion; TLVAddressFamilies] then Some 1
  else if one_of fieldType [TLVDeploymentID; TLVEnrollmentTokenID] then Some 16
  else if one_of fieldType [TLVMaxDatagramSize; TLVTunnelMTU] then Some 2
  else if fieldType =? TLVIPv4Lease then Some 5
  else if fieldType =? TLVIPv6Lease then Some 17
  else if fieldType =? TLVLeaseSeconds then Some 4
  else if one_of fieldType [TLVClientStaticKey; TLVEnrollmentProof] then Some 32
  else None.

Definition allowedInContext (fieldType context : Z) : bool :=
  if context =? TLVContextInitial then
    one_of fieldType [TLVVersion; TLVDeploymentID; TLVClientCID; TLVCapabilities;
      TLVAddressFamilies; TLVMaxDatagramSize; TLVClientStaticKey;
      TLVEnrollmentTokenID; TLVEnrollmentProof]
  else if context =? TLVContextHandshake then
    one_of fieldType [TLVEgressPolicyVersion; TLVDNSParameters; TLVVersion;
      TLVDeploymentID; TLVClientCID; TLVServerCID; TLVCapabilities;
      TLVAddressFamilies; TLVMaxDatagramSize; TLVIPv4Lease;
      TLVIPv6Lease; TLVTunnelMTU; TLVLeaseSeconds]
  else false.

Definition validateTLVField (field : TLV) (offset : Z) : codec unit :=
  if Critical field && negb (knownTLV (tlv_Type field))
  then decodeError ErrUnknownCriticalTLV offset "tlv.type"
  else match fixedTLVLength (tlv_Type field) with
       | Some length =>
           if negb (len (tlv_Value field) =? length)
           then decodeError ErrTLVLength offset "tlv.value" else Ok tt
       | None => Ok tt
       end.

(** The loop of [ParseTLVs]; every iteration advances [offset] by at least 3. *)
Fixpoint ParseTLVs_loop (fuel : nat) (data : bytes) (offset previous : Z) (havePrevious : bool)
    (fields : list TLV) : codec (list TLV) :=
  match fuel with
  | O => Diverge
  | S fuel =>
      if offset <? len data then
        if len data - offset <? TLVHeaderSize then decodeError ErrTruncated offset "tlv.header"
        else
          let* fieldType := index data offset in
          let* b := slice data (offset + 1) (offset + 3) in
          let* length := Uint16 b in
          if havePrevious && (fieldType <=? previous) then
            if fieldType =? previous then decodeError ErrDuplicateTLV offset "tlv.type"
            else decodeError ErrTLVOrder offset "tlv.type"
          else
            let valueOffset := offset + TLVHeaderSize in
            if len data - valueOffset <? length then decodeError ErrTruncated valueOffset "tlv.value"
            else
              let* value := slice data valueOffset (valueOffset + length) in
              let field := mkTLV fieldType value in
              do* validateTLVField field offset;
              ParseTLVs_loop fuel data (valueOffset + length) fieldType true (fields ++ [field])
      else Ok fields
  end.

Definition ParseTLVs (data : bytes) : codec (list TLV) :=
  if MaxUint16 <? len data then decodeError ErrLimit 0 "tlv.stream"
  else ParseTLVs_loop (S (length data)) data 0 0 false [].

(** [sort.Slice(canonical, less)] with [less] on the types.  Fields of equal
    type keep their order here; Go leaves it open, and [MarshalTLVs] refuses
    such a slice in either order. *)
Fixpoint insert_TLV (field : TLV) (sorted : list TLV) : list TLV :=
  match sorted with
  | [] => [field]
  | g :: rest =>
      if tlv_Type g <=? tlv_Type field then g :: insert_TLV field rest else field :: g :: rest
  end.
Definition sort_TLVs (fields : list TLV) : list TLV :=
  fold_left (fun sorted field => insert_TLV field sorted) fields [].

(** The checking loop of [MarshalTLVs]: [previous] is [canonical[index-1]]. *)
Fixpoint MarshalTLVs_check (canonical : list TLV) (previous : option TLV) (total : Z) : codec Z :=
  match canonical with
  | [] => Ok total
  | field :: rest =>
      if match previous with Some p => tlv_Type field =? tlv_Type p | None => false end
      then decodeError ErrDuplicateTLV (-1) "tlv.type"
      else
        do* validateTLVField field (-1);
        if MaxUint16 <? len (tlv_Value field) then decodeError ErrTLVLength (-1) "tlv.value"
        else if MaxUint16 - TLVHeaderSize - len (tlv_Value field) <? total
        then decodeError ErrLength (-1) "tlv.stream"
        else MarshalTLVs_check rest (Some field) (total + (TLVHeaderSize + len (tlv_Value field)))
  end.

Fixpoint MarshalTLVs_write (canonical : list TLV) (data : bytes) (offset : Z) : codec bytes :=
  match canonical with
  | [] => Ok data
  | field :: rest =>
      let* data := set_at data offset (tlv_Type field) in
      let* data := PutUint16 data (offset + 1) (u16 (len (tlv_Value field))) in
      let* data := copy_at data (offset + 3) (tlv_Value field) in
      MarshalTLVs_write rest data (offset + (TLVHeaderSize + len (tlv_Value field)))
  end.

Definition MarshalTLVs (fields : list TLV) : codec bytes :=
  let canonical := sort_TLVs fields in
  let* total := MarshalTLVs_check canonical None 0 in
  MarshalTLVs_write canonical (zeros total) 0.

(** The loop of [ValidateTLVs] that fills [seen]. *)
Fixpoint ValidateTLVs_seen (fields : list TLV) (context : Z) (seen : gmap Z TLV)
  : codec (gmap Z TLV) :=
  match fields with
  | [] => Ok seen
  | field :: rest =>
      match seen !! tlv_Type field with
      | Some _ => decodeError ErrDuplicateTLV (-1) "tlv.type"
      | None =>
          do* validateTLVField field (-1);
          if negb (context =? TLVContextAny) && knownTLV (tlv_Type field)
             && negb (allowedInContext (tlv_Type field) context)
          then decodeError ErrTLVContext (-1) "tlv.type"
          else ValidateTLVs_seen rest context (<[tlv_Type field := field]> seen)
      end
  end.

Definition present (seen : gmap Z TLV) (t : Z) : bool := bool_decide (is_Some (seen !! t)).

(** [if lease, ok := seen[t]; ok && lease.Value[i] > max { ... }] *)
Definition ValidateTLVs_prefix (seen : gmap Z TLV) (t i max : Z) (field : string) : codec unit :=
  match seen !! t with
  | Some lease =>
      let* b := index (tlv_Value lease) i in
      if max <? b then decodeError ErrTLVLength (-1) field else Ok tt
  | None => Ok tt
  end.

Definition requiredTLVs (context : Z) : list Z :=
  if context =? TLVContextInitial then
    [TLVVersion; TLVDeploymentID; TLVClientCID; TLVCapabilities;
     TLVAddressFamilies; TLVMaxDatagramSize; TLVClientStaticKey]
  else if context =? TLVContextHandshake then
    [TLVVersion; TLVDeploymentID; TLVClientCID; TLVServerCID;
     TLVCapabilities; TLVAddressFamilies; TLVMaxDatagramSize;
     TLVTunnelMTU; TLVLeaseSeconds]
  else [].

Fixpoint ValidateTLVs_required (required : list Z) (seen : gmap Z TLV) : codec unit :=
  match required with
  | [] => Ok tt
  | t :: rest =>
      if negb (present seen t) then decodeError ErrMissingTLV (-1) "tlv"
      else ValidateTLVs_required rest seen
  end.

Definition ValidateTLVs (fields : list TLV) (context : Z) : codec unit :=
  if negb (context =? TLVContextAny) && negb (context =? TLVContextInitial)
     && negb (context =? TLVContextHandshake)
  then decodeError ErrTLVContext (-1) "tlv.context"
  else
    let* seen := ValidateTLVs_seen fields context ∅ in
    if negb (Bool.eqb (present seen TLVEnrollmentTokenID) (present seen TLVEnrollmentProof))
    then decodeError ErrTLVContext (-1) "enrollment"
    else
      do* ValidateTLVs_prefix seen TLVIPv4Lease 4 32 "ipv4_lease.prefix";
      do* ValidateTLVs_prefix seen TLVIPv6Lease 16 128 "ipv6_lease.prefix";
      do* ValidateTLVs_required (requiredTLVs context) seen;
      if (context =? TLVContextHandshake)
         && negb (present seen TLVIPv4Lease) && negb (present seen TLVIPv6Lease)
      then decodeError ErrMissingTLV (-1) "tlv"
      else Ok tt.

Definition ParseTLVsFor (data : bytes) (context : Z) : codec (list TLV) :=
  let* fields := ParseTLVs data in
  do* ValidateTLVs fields context;
  Ok fields.

Definition MarshalTLVsFor (fields : list TLV) (context : Z) : codec bytes :=
  do* ValidateTLVs fields context;
  MarshalTLVs fields.

Fixpoint FindTLV (fields : list TLV) (fieldType : Z) : option bytes :=
  match fields with
  | [] => None
  | field :: rest =>
      if tlv_Type field =? fieldType then Some (tlv_Value field) else FindTLV rest fieldType
  end.

(** The Go types: a [uint8] type and a byte slice. *)
Definition TLV_ok (f : TLV) : Prop := uint_ok 8 (tlv_Type f) /\ bytes_ok (tlv_Value f).
#[global] Instance TLV_ok_dec f : Decision (TLV_ok f).
Proof. unfold TLV_ok. apply _. Defined.

(** ** Layout of a stream *)
Definition tlv_bytes (f : TLV) : bytes :=
  [tlv_Type f] ++ be_split 2 (len (tlv_Value f)) ++ tlv_Value f.
Fixpoint tlvs_bytes (fs : list TLV) : bytes :=
  match fs with
  | [] => []
  | f :: fs' => tlv_bytes f ++ tlvs_bytes fs'
  end.

(** A field accepted by [validateTLVField] whose length fits its prefix. *)
Definition field_good (f : TLV) : Prop :=
  TLV_ok f /\ validateTLVField f 0 = Ok tt /\ len (tlv_Value f) <= 65535.

Definition type_lt (f g : TLV) : Prop := tlv_Type f < tlv_Type g.
Definition increasing (fs : list TLV) : Prop := StronglySorted type_lt fs.

(** Strictly increasing types behind an optional previous type. *)
Fixpoint chain (prev : option Z) (fs : list TLV) : Prop :=
  match fs with
  | [] => True
  | f :: fs' =>
      match prev with Some p => p < tlv_Type f | None => True end
      /\ chain (Some (tlv_Type f)) fs'
  end.

Definition prev_of (previous : Z) (have : bool) : option Z :=
  if have then Some previous else None.

Lemma len_tlv_bytes f : len (tlv_bytes f) = 3 + len (tlv_Value f).
Proof. unfold tlv_bytes. len_side. Qed.

Lemma validateTLVField_offset f o o' :
  validateTLVField f o = Ok tt -> validateTLVField f o' = Ok tt.
Proof.
  unfold validateTLVField. intros H. inv_ok.
  destruct (fixedTLVLength _); [|done]. by inv_ok.
Qed.

Lemma validateTLVField_returns f o : returns (validateTLVField f o).
Proof. unfold validateTLVField. returns_tac. destruct (fixedTLVLength _); returns_tac. Qed.
#[export] Hint Resolve validateTLVField_returns : wg_returns.

Lemma chain_Some_increasing p fs :
  chain (Some p) fs -> Forall (fun f => p < tlv_Type f) fs /\ increasing fs.
Proof.
  revert p. induction fs as [|f fs IH]; intros p; simpl.
  - intros _. split; constructor.
  - intros [Hp Hc]. destruct (IH _ Hc) as [Hf Hs]. split.
    + constructor; [done|]. eapply Forall_impl; [exact Hf|]. simpl. lia.
    + constructor; [done|]. exact Hf.
Qed.

Lemma chain_None_increasing fs : chain None fs -> increasing fs.
Proof.
  destruct fs as [|f fs]; simpl; [constructor|]. intros [_ Hc].
  apply chain_Some_increasing in Hc as [Hf Hs]. by constructor.
Qed.

Lemma increasing_chain fs p :
  increasing fs -> match p with Some q => Forall (fun f => q < tlv_Type f) fs | None => True end ->
  chain p fs.
Proof.
  intros H. revert p. induction H as [|f fs Hs IH Hf]; intros p Hp; simpl; [done|].
  split; [destruct p; [by inversion Hp | done]|]. apply IH. exact Hf.
Qed.

Lemma ParseTLVs_loop_layout fs : forall fuel pre previous have acc,
  chain (prev_of previous have) fs -> Forall field_good fs ->
  (length (tlvs_bytes fs) < fuel)%nat ->
  ParseTLVs_loop fuel (pre ++ tlvs_bytes fs) (len pre) previous have acc = Ok (acc ++ fs).
Proof.
  induction fs as [|f fs IH]; intros fuel pre previous have acc Hc Hg Hfuel;
    (destruct fuel as [|fuel]; [lia|]); cbn [ParseTLVs_loop tlvs_bytes] in *.
  - rewrite !app_nil_r. by_test. done.
  - apply Forall_cons in Hg as [([Ht Hv] & Hval & Hlen) Hg]. destruct Hc as [Hp Hc].
    assert (Hl : len (pre ++ tlv_bytes f ++ tlvs_bytes fs)
                 = len pre + (3 + len (tlv_Value f)) + len (tlvs_bytes fs))
      by (rewrite !len_app, len_tlv_bytes; lia).
    rewrite Hl. unfold TLVHeaderSize in *. pose proof (len_nonneg (tlvs_bytes fs)).
    pose proof (len_nonneg (tlv_Value f)). by_test. unfold tlv_bytes at 1 2 3. rewrite <- !app_assoc.
    rewrite index_app1 by done. cbn [obind].
    rewrite app_assoc, slice_app by len_side. cbn [obind]. unfold Uint16.
    rewrite be_uint_split0 by (cbn; lia). cbn [obind].
    replace (have && (tlv_Type f <=? previous)) with false
      by (destruct have; simpl in *; lia).
    by_test. rewrite app_assoc, slice_app by len_side. cbn [obind].
    destruct f as [t v]; simpl in *.
    rewrite (validateTLVField_offset _ 0) by done. cbn [obind].
    change (pre ++ t :: (be_split 2 (len v) ++ v) ++ tlvs_bytes fs)
      with (pre ++ tlv_bytes (mkTLV t v) ++ tlvs_bytes fs).
    rewrite app_assoc. replace (len pre + 3 + len v) with (len (pre ++ tlv_bytes (mkTLV t v)))
      by (rewrite len_app, len_tlv_bytes; simpl; lia).
    rewrite IH; [by rewrite <- app_assoc | done | done |].
    rewrite length_app in Hfuel. unfold tlv_bytes in Hfuel.
    rewrite !length_app in Hfuel. simpl in Hfuel. lia.
Qed.

Lemma ParseTLVs_loop_inv fuel : forall data offset previous have acc res,
  bytes_ok data -> 0 <= offset <= len data ->
  ParseTLVs_loop fuel data offset previous have acc = Ok res ->
  exists fs, res = acc ++ fs /\ slice (E := DecodeError) data offset (len data) = Ok (tlvs_bytes fs)
             /\ chain (prev_of previous have) fs /\ Forall field_good fs.
Proof.
  induction fuel as [|fuel IH]; intros data offset previous have acc res Hd Ho H; [done|].
  cbn [ParseTLVs_loop] in H. unfold TLVHeaderSize in *. inv_ok; last first.
  { exists []. rewrite app_nil_r. replace offset with (len data) by lia.
    split_and!; [done | | done | constructor]. rewrite slice_Ok by lia.
    by replace (Z.to_nat (len data - len data)) with O by lia. }
  destruct a3. match goal with H : index _ _ = Ok ?t |- _ => rename t into ty; rename H into Hty end.
  pose proof (index_slice _ _ _ _ Hty eq_refl) as Hs0. slice_facts data Hd.
  apply IH in H as (fs & -> & Hs & Hc & Hg); [|done | lia].
  exists (mkTLV ty a2 :: fs). rewrite <- app_assoc. split; [done|].
  split; [|split].
  - pose proof (slice_join Hs0 (slice_join Ha0 (slice_join Ha2 Hs))) as Hj.
    rewrite Hj. f_equal. cbn [tlvs_bytes]. unfold tlv_bytes; simpl.
    replace (len a2) with (be_combine a0) by lia.
    rewrite be_split_combine' by (done || (unfold len in *; lia)). by rewrite <- app_assoc.
  - simpl. split; [|done]. destruct have; simpl in *; [lia | done].
  - constructor; [|done]. split; [split; [|done]|].
    + apply Forall_inv in Hok. unfold byte_ok, uint_ok in *; simpl; lia.
    + split; [by eapply validateTLVField_offset | simpl; lia].
Qed.

Lemma ParseTLVs_loop_returns fuel : forall data offset previous have acc,
  bytes_ok data -> 0 <= offset <= len data -> (length data - Z.to_nat offset < fuel)%nat ->
  returns (ParseTLVs_loop fuel data offset previous have acc).
Proof.
  induction fuel as [|fuel IH]; intros data offset previous have acc Hd Ho Hf; [lia|].
  cbn [ParseTLVs_loop]. unfold TLVHeaderSize. go_returns data Hd.
  - apply index_returns. lia.
  - apply IH; [done | unfold len in *; lia..].
Qed.

Lemma ParseTLVs_inv d fs :
  bytes_ok d -> ParseTLVs d = Ok fs ->
  d = tlvs_bytes fs /\ increasing fs /\ Forall field_good fs /\ len d <= 65535.
Proof.
  unfold ParseTLVs, MaxUint16. intros Hd H. inv_ok.
  apply ParseTLVs_loop_inv in H as (fs' & -> & Hs & Hc & Hg); [|done | pose proof (len_nonneg d); lia].
  rewrite slice_all in Hs. apply Ok_inj in Hs. simpl in *.
  split_and!; [done | by apply chain_None_increasing | done | lia].
Qed.

Lemma ParseTLVs_layout fs :
  increasing fs -> Forall field_good fs -> len (tlvs_bytes fs) <= 65535 ->
  ParseTLVs (tlvs_bytes fs) = Ok fs.
Proof.
  intros Hi Hg Hl. unfold ParseTLVs, MaxUint16. by_test.
  apply (ParseTLVs_loop_layout fs _ [] 0 false []); [|done | lia].
  by apply increasing_chain.
Qed.

(** ** Sorting *)
Lemma insert_TLV_perm f l : insert_TLV f l ≡ₚ f :: l.
Proof.
  induction l as [|g l IH]; simpl; [done|]. destruct (_ <=? _); [|done].
  rewrite IH. constructor.
Qed.

Lemma sort_TLVs_perm fs : sort_TLVs fs ≡ₚ fs.
Proof.
  unfold sort_TLVs. rewrite <- (app_nil_r fs) at 2. generalize (@nil TLV) as acc.
  induction fs as [|f fs IH]; intros acc; simpl; [done|].
  rewrite IH, insert_TLV_perm. symmetry. apply Permutation_middle.
Qed.

Definition type_le (f g : TLV) : Prop := tlv_Type f <= tlv_Type g.

Lemma insert_TLV_sorted f l : StronglySorted type_le l -> StronglySorted type_le (insert_TLV f l).
Proof.
  induction 1 as [|g l Hs IH Hg]; simpl; [repeat constructor|].
  unfold type_le in *. destruct (Z.leb_spec (tlv_Type g) (tlv_Type f)).
  - constructor; [done|]. rewrite insert_TLV_perm. by constructor.
  - constructor; [by constructor|]. constructor; [lia|].
    eapply Forall_impl; [exact Hg|]. simpl. lia.
Qed.

Lemma sort_TLVs_sorted fs : StronglySorted type_le (sort_TLVs fs).
Proof.
  unfold sort_TLVs. assert (StronglySorted type_le []) as H by constructor. revert H.
  generalize (@nil TLV) as acc. induction fs as [|f fs IH]; intros acc Ha; simpl; [done|].
  by apply IH, insert_TLV_sorted.
Qed.

#[global] Instance type_lt_antisymm : AntiSymm (=) type_lt.
Proof. intros f g. unfold type_lt. lia. Qed.
#[global] Instance type_lt_trans : Transitive type_lt.
Proof. intros f g h. unfold type_lt. lia. Qed.

(** A sorted permutation with distinct types is unique. *)
Lemma increasing_unique fs gs : increasing fs -> increasing gs -> fs ≡ₚ gs -> fs = gs.
Proof. apply StronglySorted_unique. apply _. Qed.

Lemma sorted_distinct_increasing fs :
  StronglySorted type_le fs -> NoDup (map tlv_Type fs) -> increasing fs.
Proof.
  induction 1 as [|f fs Hs IH Hf]; intros Hn; [constructor|].
  apply NoDup_cons in Hn as [Hni Hn]. constructor; [by apply IH|].
  rewrite Forall_forall in *. intros g Hg. specialize (Hf g Hg). unfold type_le, type_lt in *.
  assert (tlv_Type f <> tlv_Type g); [|lia]. intros E. apply Hni. rewrite E.
  by apply list_elem_of_fmap_2.
Qed.

Lemma increasing_NoDup fs : increasing fs -> NoDup (map tlv_Type fs).
Proof.
  induction 1 as [|f fs Hs IH Hf]; simpl; constructor; [|done].
  intros (g & Hg & Hin)%list_elem_of_fmap. rewrite Forall_forall in Hf.
  specialize (Hf g Hin). unfold type_lt in Hf. lia.
Qed.

Lemma increasing_sort fs gs : increasing fs -> gs ≡ₚ fs -> sort_TLVs gs = fs.
Proof.
  intros Hi Hp. apply increasing_unique; [|done | by rewrite sort_TLVs_perm].
  apply sorted_distinct_increasing; [apply sort_TLVs_sorted|].
  rewrite sort_TLVs_perm, Hp. by apply increasing_NoDup.
Qed.

(** ** Serialization *)
Lemma MarshalTLVs_check_inv cs : forall prev total t,
  StronglySorted type_le cs ->
  match prev with Some p => Forall (type_le p) cs | None => True end ->
  total <= 65535 -> MarshalTLVs_check cs prev total = Ok t ->
  chain (tlv_Type <$> prev) cs
  /\ Forall (fun f => validateTLVField f 0 = Ok tt /\ len (tlv_Value f) <= 65535) cs
  /\ t = total + len (tlvs_bytes cs) /\ t <= 65535.
Proof.
  induction cs as [|f cs IH]; intros prev total t Hs Hp Ht H; cbn [MarshalTLVs_check] in H.
  - inv_ok. change (len (tlvs_bytes [])) with 0. simpl. split_and!; [done | constructor | lia | lia].
  - unfold MaxUint16, TLVHeaderSize in H. inv_ok. destruct a.
    apply StronglySorted_inv in Hs as [Hs Hf].
    apply IH in H as (Hc & Hv & -> & Hb); [|done | exact Hf | lia].
    cbn [tlvs_bytes]. rewrite len_app, len_tlv_bytes. split_and!; [|constructor; [|done] | lia | lia].
    + simpl. split; [|done]. destruct prev as [p|]; simpl; [|done].
      apply Forall_inv in Hp. unfold type_le in Hp. lia.
    + split; [by eapply validateTLVField_offset | lia].
Qed.

Lemma MarshalTLVs_check_layout cs : forall prev total,
  chain (tlv_Type <$> prev) cs -> Forall field_good cs -> total + len (tlvs_bytes cs) <= 65535 ->
  MarshalTLVs_check cs prev total = Ok (total + len (tlvs_bytes cs)).
Proof.
  induction cs as [|f cs IH]; intros prev total Hc Hg Hl; cbn [MarshalTLVs_check tlvs_bytes] in *.
  - rewrite len_nil. f_equal. lia.
  - apply Forall_cons in Hg as [(_ & Hv & Hlen) Hg]. destruct Hc as [Hp Hc].
    rewrite len_app, len_tlv_bytes in *. unfold MaxUint16, TLVHeaderSize.
    pose proof (len_nonneg (tlvs_bytes cs)).
    replace (match prev with Some p => tlv_Type f =? tlv_Type p | None => false end) with false
      by (destruct prev; simpl in *; lia).
    rewrite (validateTLVField_offset _ 0) by done. cbn [obind]. by_test.
    rewrite IH; [f_equal; lia | done | done | lia].
Qed.

Lemma MarshalTLVs_write_layout cs : forall pre,
  Forall (fun f => len (tlv_Value f) <= 65535) cs ->
  MarshalTLVs_write cs (pre ++ zeros (len (tlvs_bytes cs))) (len pre) = Ok (pre ++ tlvs_bytes cs).
Proof.
  induction cs as [|f cs IH]; intros pre Hg; cbn [MarshalTLVs_write tlvs_bytes].
  - rewrite zeros_nil; [done | by rewrite len_nil].
  - apply Forall_cons in Hg as [Hlen Hg]. pose proof (len_nonneg (tlvs_bytes cs)).
    pose proof (len_nonneg (tlv_Value f)). rewrite u16_small by (unfold MaxUint16; lia).
    rewrite len_app, len_tlv_bytes. write_buf.
    replace (3 + len (tlv_Value f) + len (tlvs_bytes cs) - 1 - Z.of_nat 2 - len (tlv_Value f))
      with (len (tlvs_bytes cs)) by lia.
    unfold TLVHeaderSize. replace (len pre + (3 + len (tlv_Value f))) with (len (pre ++ tlv_bytes f))
      by (rewrite len_app, len_tlv_bytes; lia).
    rewrite (app_assoc pre (tlv_bytes f)), <- IH by done. f_equal.
    unfold tlv_bytes. by rewrite <- !app_assoc.
Qed.

Lemma MarshalTLVs_inv fs d :
  Forall TLV_ok fs -> MarshalTLVs fs = Ok d ->
  increasing (sort_TLVs fs) /\ Forall field_good (sort_TLVs fs)
  /\ d = tlvs_bytes (sort_TLVs fs) /\ len d <= 65535.
Proof.
  intros Hok H. unfold MarshalTLVs in H. inv_ok.
  apply MarshalTLVs_check_inv in Ha as (Hc & Hv & -> & Hb);
    [|apply sort_TLVs_sorted | done | lia].
  assert (Hg : Forall field_good (sort_TLVs fs)).
  { rewrite Forall_forall in *. intros f Hf. destruct (Hv f Hf). split; [|done].
    apply Hok. by rewrite <- (sort_TLVs_perm fs). }
  rewrite Z.add_0_l in *. change (zeros ?n) with ([] ++ zeros n) in H. change 0 with (len (@nil Z)) in H.
  rewrite MarshalTLVs_write_layout in H
    by (eapply Forall_impl; [exact Hg | by intros f (_ & _ & ?)]).
  inv_ok. split_and!; [by apply chain_None_increasing | done | done | done].
Qed.

Lemma MarshalTLVs_layout fs gs :
  increasing fs -> Forall field_good fs -> len (tlvs_bytes fs) <= 65535 -> gs ≡ₚ fs ->
  MarshalTLVs gs = Ok (tlvs_bytes fs).
Proof.
  intros Hi Hg Hl Hp. unfold MarshalTLVs. rewrite (increasing_sort fs gs) by done.
  rewrite MarshalTLVs_check_layout; [|by apply increasing_chain | done | lia]. cbn [obind].
  rewrite Z.add_0_l. change (zeros ?n) with ([] ++ zeros n). change 0 with (len (@nil Z)).
  rewrite MarshalTLVs_write_layout; [done|].
  eapply Forall_impl; [exact Hg | by intros f (_ & _ & ?)].
Qed.

Lemma ParseTLVs_returns d : bytes_ok d -> returns (ParseTLVs d).
Proof.
  intros Hd. unfold ParseTLVs. apply returns_if; intros; [exact I|].
  apply ParseTLVs_loop_returns; [done | pose proof (len_nonneg d); lia | lia].
Qed.

(** ** Occurrence rules *)
Lemma ValidateTLVs_seen_inv fs : forall ctx seen seen',
  ValidateTLVs_seen fs ctx seen = Ok seen' ->
  NoDup (map tlv_Type fs)
  /\ Forall (fun f => validateTLVField f 0 = Ok tt /\ seen !! tlv_Type f = None
      /\ (ctx = TLVContextAny \/ knownTLV (tlv_Type f) = false
          \/ allowedInContext (tlv_Type f) ctx = true)) fs
  /\ forall t, seen' !! t = match list_find (fun f => tlv_Type f = t) fs with
                            | Some (_, f) => Some f
                            | None => seen !! t
                            end.
Proof.
  induction fs as [|f fs IH]; intros ctx seen seen' H; cbn [ValidateTLVs_seen] in H.
  - inv_ok. split_and!; [constructor | constructor | done].
  - destruct (seen !! tlv_Type f) eqn:Hf; [done|]. inv_ok. destruct a.
    apply IH in H as (Hn & Hv & Hl).
    split_and!.
    + simpl. constructor; [|done]. intros (g & Hg & Hin)%list_elem_of_fmap.
      rewrite Forall_forall in Hv. destruct (Hv g Hin) as (_ & Hs & _).
      rewrite <- Hg, lookup_insert_eq in Hs. done.
    + constructor.
      * split; [by eapply validateTLVField_offset|]. split; [done|].
        unfold TLVContextAny in *. destruct (knownTLV _), (allowedInContext _ _); simpl in *; auto; lia.
      * eapply Forall_impl; [exact Hv|]. intros g (Hg & Hs & Hr). split; [done|]. split; [|done].
        rewrite lookup_insert in Hs. by case_decide.
    + intros t. rewrite Hl. simpl. destruct (decide (tlv_Type f = t)) as [<-|Hne].
      * destruct (list_find _ fs) as [[i g]|] eqn:Hfind; [|by rewrite lookup_insert_eq].
        exfalso. apply list_find_Some in Hfind as (Hi & Hg & _).
        rewrite Forall_forall in Hv. apply list_elem_of_lookup_2 in Hi.
        destruct (Hv g Hi) as (_ & Hs & _). rewrite Hg, lookup_insert_eq in Hs. done.
      * destruct (list_find _ fs) as [[i g]|]; simpl; [done|]. by rewrite lookup_insert_ne.
Qed.

Lemma ValidateTLVs_seen_returns fs : forall ctx seen, returns (ValidateTLVs_seen fs ctx seen).
Proof.
  induction fs as [|f fs IH]; intros; cbn [ValidateTLVs_seen]; [exact I|].
  destruct (seen !! tlv_Type f); [exact I|]. returns_tac.
Qed.

Lemma ValidateTLVs_seen_complete fs : forall ctx seen,
  NoDup (map tlv_Type fs) ->
  Forall (fun f => validateTLVField f 0 = Ok tt /\ seen !! tlv_Type f = None
      /\ (ctx = TLVContextAny \/ knownTLV (tlv_Type f) = false
          \/ allowedInContext (tlv_Type f) ctx = true)) fs ->
  exists seen', ValidateTLVs_seen fs ctx seen = Ok seen'.
Proof.
  induction fs as [|f fs IH]; intros ctx seen Hn Hv; cbn [ValidateTLVs_seen]; [by eexists|].
  apply NoDup_cons in Hn as [Hni Hn]. apply Forall_cons in Hv as [(Hf & Hs & Hc) Hv].
  rewrite Hs, (validateTLVField_offset _ 0) by done. cbn [obind].
  replace (negb _ && knownTLV _ && negb _) with false.
  2: { unfold TLVContextAny in *. destruct (knownTLV _), (allowedInContext _ _);
       destruct Hc as [-> | [? | ?]]; try done; simpl; by rewrite ?andb_false_r. }
  apply IH; [done|]. rewrite Forall_forall in *. intros g Hg. destruct (Hv g Hg) as (? & ? & ?).
  split; [done|]. split; [|done]. rewrite lookup_insert_ne; [done|].
  intros E. apply Hni. rewrite E. by apply list_elem_of_fmap_2.
Qed.

(** [seen] after the loop answers as [FindTLV] does. *)
Lemma ValidateTLVs_seen_find fs ctx seen t :
  ValidateTLVs_seen fs ctx ∅ = Ok seen -> tlv_Value <$> seen !! t = FindTLV fs t.
Proof.
  intros (_ & _ & Hl)%ValidateTLVs_seen_inv. rewrite Hl, lookup_empty. clear Hl.
  induction fs as [|f fs IH]; simpl; [done|].
  destruct (Z.eqb_spec (tlv_Type f) t); case_decide; try done.
  destruct (list_find _ fs) as [[i g]|]; simpl in *; done.
Qed.

Lemma ValidateTLVs_seen_type fs ctx seen t f :
  ValidateTLVs_seen fs ctx ∅ = Ok seen -> seen !! t = Some f ->
  tlv_Type f = t /\ f ∈ fs /\ validateTLVField f 0 = Ok tt.
Proof.
  intros (_ & Hv & Hl)%ValidateTLVs_seen_inv Hf. rewrite Hl, lookup_empty in Hf.
  destruct (list_find _ fs) as [[i g]|] eqn:E; [|done]. injection Hf as ->.
  apply list_find_Some in E as (Hi & Ht & _). apply list_elem_of_lookup_2 in Hi.
  rewrite Forall_forall in Hv. destruct (Hv f Hi). done.
Qed.

Lemma present_find fs ctx seen t :
  ValidateTLVs_seen fs ctx ∅ = Ok seen -> present seen t = bool_decide (is_Some (FindTLV fs t)).
Proof.
  intros H. unfold present. apply bool_decide_ext.
  by rewrite <- (ValidateTLVs_seen_find fs ctx seen t H), fmap_is_Some.
Qed.

Lemma fixed_length_valid f n :
  validateTLVField f 0 = Ok tt -> fixedTLVLength (tlv_Type f) = Some n -> len (tlv_Value f) = n.
Proof. unfold validateTLVField. intros H Hn. rewrite Hn in H. inv_ok. lia. Qed.

Lemma ValidateTLVs_prefix_returns fs ctx seen t i max n s :
  ValidateTLVs_seen fs ctx ∅ = Ok seen -> fixedTLVLength t = Some n -> 0 <= i < n ->
  returns (ValidateTLVs_prefix seen t i max s).
Proof.
  intros Hs Hn Hi. unfold ValidateTLVs_prefix. destruct (seen !! t) as [f|] eqn:Hf; [|exact I].
  destruct (ValidateTLVs_seen_type _ _ _ _ _ Hs Hf) as (<- & _ & Hv).
  pose proof (fixed_length_valid f n Hv Hn). returns_tac. apply index_returns. lia.
Qed.

Lemma ValidateTLVs_required_returns ts seen : returns (ValidateTLVs_required ts seen).
Proof. induction ts; simpl; [exact I|]. by destruct (negb _). Qed.

Lemma ValidateTLVs_returns fs ctx : returns (ValidateTLVs fs ctx).
Proof.
  unfold ValidateTLVs. apply returns_if; intros; [exact I|].
  apply returns_bind; [apply ValidateTLVs_seen_returns|]. intros seen Hs.
  apply returns_if; intros; [exact I|].
  apply returns_bind; [eapply (ValidateTLVs_prefix_returns fs ctx _ _ _ _ 5); [done | done | lia]|]. intros _ _.
  apply returns_bind; [eapply (ValidateTLVs_prefix_returns fs ctx _ _ _ _ 17); [done | done | lia]|]. intros _ _.
  apply returns_bind; [apply ValidateTLVs_required_returns|]. intros _ _. returns_tac.
Qed.
#[export] Hint Resolve ParseTLVs_returns ValidateTLVs_returns : wg_returns.

(** What the INITIAL and HANDSHAKE tables demand of a field list. *)
Record TLVs_valid (fs : list TLV) (ctx : Z) : Prop := {
  tv_context : ctx = TLVContextAny \/ ctx = TLVContextInitial \/ ctx = TLVContextHandshake;
  tv_distinct : NoDup (map tlv_Type fs);
  tv_fields : Forall (fun f => validateTLVField f 0 = Ok tt) fs;
  tv_placement : forall f, f ∈ fs -> ctx = TLVContextAny \/ knownTLV (tlv_Type f) = false
      \/ allowedInContext (tlv_Type f) ctx = true;
  tv_enrollment :
    is_Some (FindTLV fs TLVEnrollmentTokenID) <-> is_Some (FindTLV fs TLVEnrollmentProof);
  tv_ipv4 : forall v, FindTLV fs TLVIPv4Lease = Some v -> exists b, v !! 4%nat = Some b /\ b <= 32;
  tv_ipv6 : forall v, FindTLV fs TLVIPv6Lease = Some v -> exists b, v !! 16%nat = Some b /\ b <= 128;
  tv_required : forall t, t ∈ requiredTLVs ctx -> is_Some (FindTLV fs t);
  tv_lease : ctx = TLVContextHandshake ->
    is_Some (FindTLV fs TLVIPv4Lease) \/ is_Some (FindTLV fs TLVIPv6Lease)
}.

Lemma ValidateTLVs_prefix_spec fs ctx seen t i max s :
  ValidateTLVs_seen fs ctx ∅ = Ok seen -> 0 <= i ->
  ValidateTLVs_prefix seen t i max s = Ok tt <->
  (forall v, FindTLV fs t = Some v -> exists b, v !! Z.to_nat i = Some b /\ b <= max).
Proof.
  intros Hs Hi. rewrite <- (ValidateTLVs_seen_find fs ctx seen t Hs).
  unfold ValidateTLVs_prefix. destruct (seen !! t) as [f|]; simpl; [|naive_solver].
  unfold index. destruct (Z.ltb_spec i 0); [lia|].
  destruct (tlv_Value f !! Z.to_nat i) as [b|] eqn:Hb; simpl.
  - destruct (Z.ltb_spec max b); split; intros Hx; try done.
    + destruct (Hx _ eq_refl) as (b' & Hb' & ?). rewrite Hb in Hb'. injection Hb'. lia.
    + intros v [= <-]. exists b. split; [done | lia].
  - split; [done|]. intros Hx. destruct (Hx _ eq_refl) as (b & Hb' & _). congruence.
Qed.

Lemma ValidateTLVs_required_spec fs ctx seen ts :
  ValidateTLVs_seen fs ctx ∅ = Ok seen ->
  ValidateTLVs_required ts seen = Ok tt <-> (forall t, t ∈ ts -> is_Some (FindTLV fs t)).
Proof.
  intros Hs. induction ts as [|t ts IH]; simpl; [split; [set_solver | done]|].
  rewrite (present_find fs ctx seen t Hs). case_bool_decide as Hp; simpl.
  - rewrite IH. split; [|set_solver]. intros H t' [-> | ?]%elem_of_cons; auto.
  - split; [done|]. intros H. exfalso. apply Hp, H. left.
Qed.

Lemma ValidateTLVs_spec fs ctx : ValidateTLVs fs ctx = Ok tt <-> TLVs_valid fs ctx.
Proof.
  unfold ValidateTLVs. split.
  - intros H. inv_ok. rename a into seen, Ha into Hs. rewrite !(present_find fs ctx seen) in * by done.
    destruct a0, a1, a2. rewrite ValidateTLVs_prefix_spec in Ha0, Ha1 by (done || lia).
    rewrite ValidateTLVs_required_spec in Ha2 by done.
    pose proof Hs as (Hn & Hv & _)%ValidateTLVs_seen_inv. rewrite Forall_forall in Hv.
    split; try done; unfold TLVContextAny, TLVContextInitial, TLVContextHandshake in *.
    + lia.
    + rewrite Forall_forall. intros f Hf. by destruct (Hv f Hf).
    + intros f Hf. by destruct (Hv f Hf) as (_ & _ & ?).
    + clear E1. do 2 case_bool_decide; simpl in *; first [discriminate | tauto].
    + intros ->. clear E0. do 2 case_bool_decide; simpl in *; auto; done.
  - intros [Hc Hn Hf Hp He H4 H6 Hr Hl].
    destruct (ValidateTLVs_seen_complete fs ctx ∅ Hn) as [seen Hs].
    { rewrite Forall_forall in *. intros f Hin. split_and!; auto. }
    replace (negb _ && negb _ && negb _) with false
      by (unfold TLVContextAny, TLVContextInitial, TLVContextHandshake in *; lia).
    rewrite Hs. cbn [obind]. rewrite !(present_find fs ctx seen) by done.
    replace (Bool.eqb _ _) with true by (do 2 case_bool_decide; tauto). simpl negb. cbv iota.
    rewrite (proj2 (ValidateTLVs_prefix_spec fs ctx seen _ 4 32 _ Hs ltac:(lia)) H4). cbn [obind].
    rewrite (proj2 (ValidateTLVs_prefix_spec fs ctx seen _ 16 128 _ Hs ltac:(lia)) H6). cbn [obind].
    rewrite (proj2 (ValidateTLVs_required_spec fs ctx seen _ Hs) Hr). cbn [obind].
    destruct (Z.eqb_spec ctx TLVContextHandshake) as [Hh|]; simpl; [|done].
    destruct (Hl Hh) as [H|H]; rewrite (bool_decide_eq_true_2 _ H); simpl; by rewrite ?andb_false_r.
Qed.

(** A field found in an accepted list has its table length and is made of bytes. *)
Lemma FindTLV_elem fs t v : FindTLV fs t = Some v -> exists f, f ∈ fs /\ tlv_Type f = t /\ tlv_Value f = v.
Proof.
  induction fs as [|f fs IH]; simpl; [done|]. destruct (Z.eqb_spec (tlv_Type f) t).
  - intros [= <-]. exists f. split_and!; [left | done | done].
  - intros (g & ? & ? & ?)%IH. exists g. split_and!; [by right | done | done].
Qed.

Lemma ParseTLVsFor_inv d ctx fs :
  bytes_ok d -> ParseTLVsFor d ctx = Ok fs ->
  ParseTLVs d = Ok fs /\ TLVs_valid fs ctx /\ Forall field_good fs.
Proof.
  unfold ParseTLVsFor. intros Hd H. inv_ok. match goal with H : ValidateTLVs _ _ = Ok ?u |- _ => destruct u end.
  split_and!; [done | by apply ValidateTLVs_spec | by apply ParseTLVs_inv in Ha as (_ & _ & ? & _)].
Qed.

Lemma found_length fs t v n :
  Forall field_good fs -> FindTLV fs t = Some v -> fixedTLVLength t = Some n ->
  len v = n /\ bytes_ok v.
Proof.
  intros Hg (f & Hin & <- & <-)%FindTLV_elem Hn. rewrite Forall_forall in Hg.
  destruct (Hg f Hin) as ([_ Hb] & Hv & _). split; [|done]. by apply fixed_length_valid.
Qed.

(** Which field is found, and validity, do not depend on the order. *)
Lemma FindTLV_perm fs gs t : NoDup (map tlv_Type fs) -> fs ≡ₚ gs -> FindTLV fs t = FindTLV gs t.
Proof.
  intros Hn Hp. revert Hn. induction Hp as [|f fs gs Hp IH|f g fs|fs gs hs H1 IH1 H2 IH2]; simpl; intros Hn.
  - done.
  - apply NoDup_cons in Hn as [_ Hn]. destruct (_ =? _); [done | by apply IH].
  - apply NoDup_cons in Hn as [Hn _]. destruct (Z.eqb_spec (tlv_Type g) t), (Z.eqb_spec (tlv_Type f) t); try done.
    exfalso. apply Hn. replace (tlv_Type g) with (tlv_Type f) by lia. left.
  - rewrite IH1 by done. apply IH2. by rewrite <- H1.
Qed.

Lemma TLVs_valid_perm fs gs ctx : fs ≡ₚ gs -> TLVs_valid fs ctx -> TLVs_valid gs ctx.
Proof.
  intros Hp [Hc Hn Hf Hpl He H4 H6 Hr Hl].
  assert (HF : forall t, FindTLV gs t = FindTLV fs t) by (intros t; symmetry; by apply FindTLV_perm).
  split; rewrite ?HF; try done.
  - by rewrite <- Hp.
  - by rewrite <- Hp.
  - intros f Hin. apply Hpl. by rewrite Hp.
  - intros t. rewrite HF. apply Hr.
Qed.

Lemma tlvs_bytes_ok fs : Forall field_good fs -> bytes_ok (tlvs_bytes fs).
Proof.
  intros H. induction H as [|f fs ((Ht & Hb) & _ & Hl) _ IH]; [constructor|].
  change (tlvs_bytes (f :: fs)) with (tlv_bytes f ++ tlvs_bytes fs).
  apply bytes_ok_app. split; [|done]. unfold tlv_bytes.
  repeat (apply bytes_ok_app; split); try done; try apply be_split_ok.
  constructor; [exact Ht | constructor].
Qed.

(** What is marshalled for a context is parsed for it, sorted. *)
Lemma MarshalTLVsFor_ParseTLVsFor fs ctx d :
  Forall TLV_ok fs -> MarshalTLVsFor fs ctx = Ok d ->
  ParseTLVsFor d ctx = Ok (sort_TLVs fs) /\ (forall t, FindTLV (sort_TLVs fs) t = FindTLV fs t)
  /\ bytes_ok d /\ len d <= 65535.
Proof.
  unfold MarshalTLVsFor. intros Hok H. inv_ok. destruct a. apply ValidateTLVs_spec in Ha.
  apply MarshalTLVs_inv in H as (Hi & Hg & -> & Hl); [|done]. split_and!; [| |by apply tlvs_bytes_ok | done].
  - unfold ParseTLVsFor. rewrite ParseTLVs_layout by done. cbn [obind].
    rewrite (proj2 (ValidateTLVs_spec _ _)); [done|]. eapply TLVs_valid_perm; [|exact Ha].
    symmetry. apply sort_TLVs_perm.
  - intros t. symmetry. apply FindTLV_perm; [by destruct Ha|]. symmetry. apply sort_TLVs_perm.
Qed.

(** ** Properties *)

(** A TLV stream that [ParseTLVs] accepts is the canonical stream of the
    fields it returns: serializing them reproduces the input byte for byte,
    and the field types are strictly increasing. *)
Lemma tlv_parse_canonical d fs :
  bytes_ok d -> ParseTLVs d = Ok fs -> MarshalTLVs fs = Ok d /\ increasing fs.
Proof.
  intros Hd (-> & Hi & Hg & Hl)%ParseTLVs_inv; [|done].
  split; [by apply MarshalTLVs_layout | done].
Qed.

(** What [MarshalTLVs] emits, [ParseTLVs] reads back as the given fields in
    increasing order of type: nothing is lost, added or duplicated. *)
Lemma tlv_marshal_parse fs d :
  Forall TLV_ok fs -> MarshalTLVs fs = Ok d ->
  ParseTLVs d = Ok (sort_TLVs fs) /\ sort_TLVs fs ≡ₚ fs /\ increasing (sort_TLVs fs).
Proof.
  intros Hok (Hi & Hg & -> & Hl)%MarshalTLVs_inv; [|done].
  split_and!; [by apply ParseTLVs_layout | apply sort_TLVs_perm | done].
Qed.

(** C37: TLV streams round trip.  A stream that [ParseTLVs] accepts is the
    canonical stream of the fields it returns, which come in strictly increasing
    type order: serializing them reproduces the input byte for byte.  What
    [MarshalTLVs] emits, [ParseTLVs] reads back as the given fields in that order:
    nothing is lost, added or duplicated. *)
Theorem tlv_round_trip :
  (forall d fs, bytes_ok d -> ParseTLVs d = Ok fs -> MarshalTLVs fs = Ok d /\ increasing fs)
  /\ (forall fs d, Forall TLV_ok fs -> MarshalTLVs fs = Ok d ->
        ParseTLVs d = Ok (sort_TLVs fs) /\ sort_TLVs fs ≡ₚ fs /\ increasing (sort_TLVs fs)).
Proof. split; [apply tlv_parse_canonical | apply tlv_marshal_parse]. Qed.

Definition demo_stream : bytes := [0x0D; 0; 3; 1; 2; 3; 0x81; 0; 1; 1; 0x86; 0; 1; 3].
Definition demo_fields : list TLV :=
  [mkTLV 0x86 [3]; mkTLV 0x0D [1; 2; 3]; mkTLV 0x81 [1]].

Lemma tlv_round_trip_witness :
  (exists fs, ParseTLVs demo_stream = Ok fs /\ MarshalTLVs fs = Ok demo_stream /\ increasing fs)
  /\ ParseTLVs demo_stream = Ok [mkTLV 0x0D [1; 2; 3]; mkTLV 0x81 [1]; mkTLV 0x86 [3]].
Proof.
  split.
  - eexists. split; [vm_compute; reflexivity|].
    apply (proj1 tlv_round_trip);
      [apply (bool_decide_unpack _); vm_compute; exact I | vm_compute; reflexivity].
  - apply (proj2 tlv_round_trip demo_fields);
      [apply (bool_decide_unpack _); vm_compute; exact I | vm_compute; reflexivity].
Defined.

(** The emitted stream does not depend on the order in which the caller
    lists the fields. *)
Theorem tlv_marshal_order fs gs d :
  Forall TLV_ok fs -> fs ≡ₚ gs -> MarshalTLVs fs = Ok d -> MarshalTLVs gs = Ok d.
Proof.
  intros Hok Hp (Hi & Hg & -> & Hl)%MarshalTLVs_inv; [|done].
  apply MarshalTLVs_layout; [done | done | done |]. by rewrite sort_TLVs_perm.
Qed.

Lemma tlv_marshal_order_witness : MarshalTLVs (reverse demo_fields) = Ok demo_stream.
Proof.
  apply (tlv_marshal_order demo_fields);
    [apply (bool_decide_unpack _); vm_compute; exact I | symmetry; apply reverse_Permutation
    | vm_compute; reflexivity].
Defined.

(** C38: [ValidateTLVs] never panics (the lease prefix bytes it indexes are there)
    and accepts exactly the field lists of the INITIAL and HANDSHAKE tables:
    distinct known-or-optional fields of their fixed lengths, allowed in the
    context, enrollment fields in pairs, lease prefixes in range, required
    fields present. *)
Theorem tlv_validate_spec fs ctx :
  returns (ValidateTLVs fs ctx) /\ (ValidateTLVs fs ctx = Ok tt <-> TLVs_valid fs ctx).
Proof. split; [apply ValidateTLVs_returns | apply ValidateTLVs_spec]. Qed.

(** [ParseTLVsFor] returns on every byte string, and after it succeeds every
    field the context requires is found with exactly its fixed length, so the
    handshake code may index it unchecked. *)
Theorem tlv_required_found d ctx :
  bytes_ok d ->
  returns (ParseTLVsFor d ctx)
  /\ forall fs t n, ParseTLVsFor d ctx = Ok fs -> t ∈ requiredTLVs ctx -> fixedTLVLength t = Some n ->
     exists v, FindTLV fs t = Some v /\ len v = n /\ bytes_ok v.
Proof.
  intros Hd. split.
  - unfold ParseTLVsFor. returns_tac.
  - intros fs t n (_ & Hv & Hg)%ParseTLVsFor_inv Ht Hn; [|done].
    destruct (tv_required _ _ Hv t Ht) as [v Hf]. exists v. split; [done|]. by eapply found_length.
Qed.

Definition demo_initial_fields : list TLV :=
  [mkTLV TLVVersion [1]; mkTLV TLVDeploymentID (replicate 16 7); mkTLV TLVClientCID (be_split 8 77);
   mkTLV TLVCapabilities (be_split 8 0); mkTLV TLVAddressFamilies [3];
   mkTLV TLVMaxDatagramSize (be_split 2 1400); mkTLV TLVClientStaticKey (replicate 32 9)].

Definition demo_initial_stream : bytes :=
  match MarshalTLVsFor demo_initial_fields TLVContextInitial with Ok d => d | _ => [] end.

Lemma tlv_required_found_witness :
  exists v, FindTLV demo_initial_fields TLVClientStaticKey = Some v /\ len v = 32.
Proof.
  destruct (tlv_required_found demo_initial_stream TLVContextInitial) as [_ H].
  { apply (bool_decide_unpack _); vm_compute; exact I. }
  destruct (H demo_initial_fields TLVClientStaticKey 32) as (v & Hv & Hl & _);
    [vm_compute; reflexivity | apply (bool_decide_unpack _); vm_compute; exact I | reflexivity |].
  exists v. split; [exact Hv | exact Hl].
Defined.
