(* ===== verification/Frame.v ===== *)
(** * Inner frames of TRANSPORT packets (internal/codec/frame.go)

    The frames an authenticated plaintext carries: parsing under a plaintext
    limit, canonical serialization, the body checks of each frame type (IP
    packet headers, CONFIRM, PING/PONG, CLOSE) and the rules on which frames
    may travel together. *)

From stdpp Require Import base list sets strings.
From S2P Require Import Prelude CodecErrors WireFormat Payload Packet.
Local Open Scope Z_scope.
Local Open Scope wg_scope.

Definition FrameHeaderSize : Z := 4.
Definition DefaultMaxFramePlaintext : Z := DefaultMaxDatagramSize - HeaderSize - AEADTagSize.
Definition DefaultMaxCloseTextLength : Z := 256.
Definition ConfirmBodySize : Z := 32.
Definition ChallengeBodySize : Z := 8.

(** [FrameType] is a [uint8]; the constants of version 1. *)
Definition FrameIPPacket : Z := 1.
Definition FrameConfirm : Z := 2.
Definition FramePing : Z := 3.
Definition FramePong : Z := 4.
Definition FramePathChallenge : Z := 5.
Definition FramePathResponse : Z := 6.
Definition FrameLeaseUpdate : Z := 7.
Definition FrameClose : Z := 8.

Definition FrameType_valid (frameType : Z) : bool :=
  (FrameIPPacket <=? frameType) && (frameType <=? FrameClose).

Record Frame : Set := mkFrame {
  frame_Type : Z;
  frame_Flags : Z;
  frame_Body : bytes
}.

#[global] Instance Frame_eq_dec : EqDecision Frame.
Proof. solve_decision. Defined.

Definition normalizeFrameLimit (limit : Z) : codec Z :=
  if limit =? 0 then Ok DefaultMaxFramePlaintext
  else if (limit <? FrameHeaderSize) || (MaxUint16 <? limit)
  then decodeError ErrLimit (-1) "max_frame_plaintext"
  else Ok limit.

Definition validateIPPacket (packet : bytes) (offset : Z) : codec unit :=
  if len packet =? 0 then decodeError ErrIPPacket offset "ip_packet"
  else
    let* b0 := index packet 0 in
    if Z.shiftr b0 4 =? 4 then
      if len packet <? 20 then decodeError ErrIPPacket offset "ipv4"
      else
        let headerLength := Z.land b0 15 * 4 in
        if (headerLength <? 20) || (len packet <? headerLength)
        then decodeError ErrIPPacket offset "ipv4.ihl"
        else
          let* b := slice packet 2 4 in
          let* totalLength := Uint16 b in
          if negb (totalLength =? len packet)
          then decodeError ErrIPPacket (offset + 2) "ipv4.total_length"
          else Ok tt
    else if Z.shiftr b0 4 =? 6 then
      if len packet <? 40 then decodeError ErrIPPacket offset "ipv6"
      else
        let* b := slice packet 4 6 in
        let* payloadLength := Uint16 b in
        let totalLength := 40 + payloadLength in
        if negb (totalLength =? len packet)
        then decodeError ErrIPPacket (offset + 4) "ipv6.payload_length"
        else Ok tt
    else decodeError ErrIPPacket offset "ip.version".

(** *** [unicode/utf8.Valid]: the well-formed byte sequences of the Unicode
    standard (no overlong forms, no surrogates, nothing above U+10FFFF). *)
Definition between (lo hi b : Z) : bool := (lo <=? b) && (b <=? hi).
Definition continuation (b : Z) : bool := between 128 191 b.

Fixpoint utf8_Valid (p : bytes) : bool :=
  match p with
  | [] => true
  | b0 :: p1 =>
      if b0 <? 128 then utf8_Valid p1
      else match p1 with
      | [] => false
      | b1 :: p2 =>
          if between 194 223 b0 then continuation b1 && utf8_Valid p2
          else match p2 with
          | [] => false
          | b2 :: p3 =>
              if between 224 239 b0 then
                between (if b0 =? 224 then 160 else 128) (if b0 =? 237 then 159 else 191) b1
                && continuation b2 && utf8_Valid p3
              else match p3 with
              | [] => false
              | b3 :: p4 =>
                  between 240 244 b0
                  && between (if b0 =? 240 then 144 else 128) (if b0 =? 244 then 143 else 191) b1
                  && continuation b2 && continuation b3 && utf8_Valid p4
              end
          end
      end
  end.

(** A Go [string] is its bytes. *)
Definition EncodeClose (reason : Z) (diagnostic : bytes) : codec bytes :=
  if negb (utf8_Valid diagnostic) then decodeError ErrUTF8 (-1) "close.diagnostic"
  else if DefaultMaxCloseTextLength <? len diagnostic
  then decodeError ErrLimit (-1) "close.diagnostic"
  else
    let body := zeros (2 + len diagnostic) in
    let* body := PutUint16 body 0 reason in
    copy_at body 2 diagnostic.

Definition DecodeClose (body : bytes) : codec (Z * bytes) :=
  if len body <? 2 then decodeError ErrTruncated (len body) "close.reason"
  else if DefaultMaxCloseTextLength <? len body - 2
  then decodeError ErrLimit 2 "close.diagnostic"
  else
    let* text := slice body 2 (len body) in
    if negb (utf8_Valid text) then decodeError ErrUTF8 2 "close.diagnostic"
    else
      let* b := slice body 0 2 in
      let* reason := Uint16 b in
      Ok (reason, text).

Definition validateFrame (frame : Frame) (offset : Z) : codec unit :=
  if negb (FrameType_valid (frame_Type frame))
  then decodeError ErrUnknownFrameType offset "frame_type"
  else if negb (frame_Flags frame =? 0) then decodeError ErrFrameFlags (offset + 1) "frame_flags"
  else
    if frame_Type frame =? FrameIPPacket
    then validateIPPacket (frame_Body frame) (offset + FrameHeaderSize)
    else if frame_Type frame =? FrameConfirm then
      if negb (len (frame_Body frame) =? ConfirmBodySize)
      then decodeError ErrLength (offset + FrameHeaderSize) "confirm" else Ok tt
    else if (frame_Type frame =? FramePing) || (frame_Type frame =? FramePong) then
      if negb (len (frame_Body frame) =? ChallengeBodySize)
      then decodeError ErrLength (offset + FrameHeaderSize) "challenge" else Ok tt
    else if frame_Type frame =? FrameClose then
      do* DecodeClose (frame_Body frame); Ok tt
    else Ok tt.

(** The two loops of [validateFrameCombination]. *)
Fixpoint count_ip (frames : list Frame) (ipPackets : Z) : Z :=
  match frames with
  | [] => ipPackets
  | frame :: rest =>
      count_ip rest (if frame_Type frame =? FrameIPPacket then ipPackets + 1 else ipPackets)
  end.
Fixpoint find_confirm (frames : list Frame) (idx confirmIndex : Z) : codec Z :=
  match frames with
  | [] => Ok confirmIndex
  | frame :: rest =>
      if frame_Type frame =? FrameConfirm then
        if 0 <=? confirmIndex then decodeError ErrFrameConstraint (-1) "frames"
        else find_confirm rest (idx + 1) idx
      else find_confirm rest (idx + 1) confirmIndex
  end.

Definition validateFrameCombination (frames : list Frame) : codec unit :=
  let ipPackets := count_ip frames 0 in
  let* confirmIndex := find_confirm frames 0 (-1) in
  if 1 <? ipPackets then decodeError ErrFrameConstraint (-1) "frames"
  else if (ipPackets =? 1) && negb (len frames =? 1)
  then decodeError ErrFrameConstraint (-1) "frames"
  else if 0 <=? confirmIndex then
    if negb (len frames =? 2) || negb (confirmIndex =? 0)
    then decodeError ErrFrameConstraint (-1) "frames"
    else
      let* second := index frames 1 in
      if negb (frame_Type second =? FramePing) then decodeError ErrFrameConstraint (-1) "frames"
      else Ok tt
  else Ok tt.

(** The loop of [ParseFrames]. *)
Fixpoint ParseFrames_loop (fuel : nat) (data : bytes) (offset : Z) (frames : list Frame)
  : codec (list Frame) :=
  match fuel with
  | O => Diverge
  | S fuel =>
      if offset <? len data then
        if len data - offset <? FrameHeaderSize
        then decodeError ErrTruncated offset "frame.header"
        else
          let* frameType := index data offset in
          let* flags := index data (offset + 1) in
          let* b := slice data (offset + 2) (offset + 4) in
          let* length := Uint16 b in
          if negb (FrameType_valid frameType)
          then decodeError ErrUnknownFrameType offset "frame_type"
          else if negb (flags =? 0) then decodeError ErrFrameFlags (offset + 1) "frame_flags"
          else
            let bodyOffset := offset + FrameHeaderSize in
            if len data - bodyOffset <? length
            then decodeError ErrTruncated bodyOffset "frame.body"
            else
              let* body := slice data bodyOffset (bodyOffset + length) in
              let frame := mkFrame frameType 0 body in
              do* validateFrame frame offset;
              ParseFrames_loop fuel data (bodyOffset + length) (frames ++ [frame])
      else Ok frames
  end.

Definition ParseFrames (data : bytes) (maxPlaintext : Z) : codec (list Frame) :=
  let* limit := normalizeFrameLimit maxPlaintext in
  if len data =? 0 then decodeError ErrLength 0 "frames"
  else if limit <? len data then decodeError ErrLimit 0 "frames"
  else
    let* frames := ParseFrames_loop (S (length data)) data 0 [] in
    do* validateFrameCombination frames;
    Ok frames.

Fixpoint MarshalFrames_check (frames : list Frame) (limit total : Z) : codec Z :=
  match frames with
  | [] => Ok total
  | frame :: rest =>
      do* validateFrame frame (-1);
      if MaxUint16 <? len (frame_Body frame) then decodeError ErrLength (-1) "frame.body"
      else if limit - FrameHeaderSize - len (frame_Body frame) <? total
      then decodeError ErrLimit (-1) "frames"
      else MarshalFrames_check rest limit (total + (FrameHeaderSize + len (frame_Body frame)))
  end.

Fixpoint MarshalFrames_write (frames : list Frame) (data : bytes) (offset : Z) : codec bytes :=
  match frames with
  | [] => Ok data
  | frame :: rest =>
      let* data := set_at data offset (frame_Type frame) in
      let* data := set_at data (offset + 1) 0 in
      let* data := PutUint16 data (offset + 2) (u16 (len (frame_Body frame))) in
      let* data := copy_at data (offset + 4) (frame_Body frame) in
      MarshalFrames_write rest data (offset + (FrameHeaderSize + len (frame_Body frame)))
  end.

Definition MarshalFrames (frames : list Frame) (maxPlaintext : Z) : codec bytes :=
  let* limit := normalizeFrameLimit maxPlaintext in
  if len frames =? 0 then decodeError ErrLength 0 "frames"
  else
    do* validateFrameCombination frames;
    let* total := MarshalFrames_check frames limit 0 in
    MarshalFrames_write frames (zeros total) 0.

(** The Go types of a frame. *)
Definition Frame_ok (f : Frame) : Prop :=
  uint_ok 8 (frame_Type f) /\ uint_ok 8 (frame_Flags f) /\ bytes_ok (frame_Body f).
#[global] Instance Frame_ok_dec f : Decision (Frame_ok f).
Proof. unfold Frame_ok. apply _. Defined.

(** ** Layout *)
Definition frame_bytes (f : Frame) : bytes :=
  [frame_Type f] ++ [0] ++ be_split 2 (len (frame_Body f)) ++ frame_Body f.
Fixpoint frames_bytes (fs : list Frame) : bytes :=
  match fs with
  | [] => []
  | f :: fs' => frame_bytes f ++ frames_bytes fs'
  end.

(** A frame accepted by [validateFrame] whose length fits its prefix. *)
Definition frame_good (f : Frame) : Prop :=
  Frame_ok f /\ validateFrame f 0 = Ok tt /\ len (frame_Body f) <= 65535.

Lemma len_frame_bytes f : len (frame_bytes f) = 4 + len (frame_Body f).
Proof. unfold frame_bytes. len_side. Qed.

Lemma DecodeClose_returns body : bytes_ok body -> returns (DecodeClose body).
Proof.
  intros Hb. unfold DecodeClose. pose proof (len_nonneg body). go_returns body Hb.
Qed.

Lemma validateIPPacket_returns p o : bytes_ok p -> returns (validateIPPacket p o).
Proof.
  intros Hp. unfold validateIPPacket. pose proof (len_nonneg p). go_returns p Hp.
  apply index_returns; lia.
Qed.

Lemma validateFrame_returns f o : bytes_ok (frame_Body f) -> returns (validateFrame f o).
Proof.
  intros. unfold validateFrame. returns_tac;
    auto using validateIPPacket_returns, DecodeClose_returns with wg_returns.
Qed.

Lemma validateIPPacket_offset p o o' :
  validateIPPacket p o = Ok tt -> validateIPPacket p o' = Ok tt.
Proof.
  unfold validateIPPacket. intros H. inv_ok; rewrite ?Ha; cbn [obind];
    rewrite ?E0, ?E1, ?E2, ?Ha0; cbn [obind]; rewrite ?Ha1; cbn [obind]; rewrite ?E3, ?E4; by rewrite ?E2.
Qed.

Lemma validateFrame_offset f o o' : validateFrame f o = Ok tt -> validateFrame f o' = Ok tt.
Proof.
  unfold validateFrame. destruct (negb _); [done|]. destruct (negb _); [done|].
  destruct (_ =? FrameIPPacket); [apply validateIPPacket_offset|].
  destruct (_ =? FrameConfirm); [by destruct (negb _)|].
  destruct (_ || _); [by destruct (negb _)|]. done.
Qed.

Lemma validateFrame_facts f o :
  validateFrame f o = Ok tt -> FrameType_valid (frame_Type f) = true /\ frame_Flags f = 0.
Proof. unfold validateFrame. intros H. destruct (FrameType_valid _); [|done]. simpl in H.
  destruct (Z.eqb_spec (frame_Flags f) 0); done. Qed.

(** ** Parsing and serialization against the layout *)
Lemma ParseFrames_loop_layout fs : forall fuel pre acc,
  Forall frame_good fs -> (length (frames_bytes fs) < fuel)%nat ->
  ParseFrames_loop fuel (pre ++ frames_bytes fs) (len pre) acc = Ok (acc ++ fs).
Proof.
  induction fs as [|f fs IH]; intros fuel pre acc Hg Hfuel;
    (destruct fuel as [|fuel]; [lia|]); cbn [ParseFrames_loop frames_bytes] in *.
  - rewrite !app_nil_r. by_test. done.
  - apply Forall_cons in Hg as [(Hok & Hval & Hlen) Hg].
    destruct (validateFrame_facts _ _ Hval) as [Ht Hfl].
    assert (Hl : len (pre ++ frame_bytes f ++ frames_bytes fs)
                 = len pre + (4 + len (frame_Body f)) + len (frames_bytes fs))
      by (rewrite !len_app, len_frame_bytes; lia).
    rewrite Hl. unfold FrameHeaderSize in *. pose proof (len_nonneg (frames_bytes fs)).
    pose proof (len_nonneg (frame_Body f)). by_test.
    unfold frame_bytes at 1 2 3 4. rewrite <- !app_assoc.
    rewrite index_app1 by done. cbn [obind].
    rewrite (app_assoc pre [frame_Type f]), index_app1 by len_side. cbn [obind].
    rewrite (app_assoc _ [0]), slice_app by len_side. cbn [obind]. unfold Uint16.
    rewrite be_uint_split0 by (cbn; lia). cbn [obind]. rewrite Ht. simpl negb. cbv iota.
    by_test. rewrite (app_assoc _ (be_split 2 _)), slice_app by len_side. cbn [obind].
    destruct f as [t fl b]; simpl in *. subst fl.
    rewrite (validateFrame_offset _ 0) by done. cbn [obind].
    change (pre ++ t :: 0 :: (be_split 2 (len b) ++ b) ++ frames_bytes fs)
      with (pre ++ frame_bytes (mkFrame t 0 b) ++ frames_bytes fs). rewrite app_assoc.
    replace (len pre + 4 + len b) with (len (pre ++ frame_bytes (mkFrame t 0 b)))
      by (rewrite len_app, len_frame_bytes; simpl; lia).
    rewrite IH; [by rewrite <- app_assoc | done |].
    rewrite !length_app in Hfuel. lia.
Qed.

Lemma ParseFrames_loop_inv fuel : forall data offset acc res,
  bytes_ok data -> 0 <= offset <= len data ->
  ParseFrames_loop fuel data offset acc = Ok res ->
  exists fs, res = acc ++ fs /\ slice (E := DecodeError) data offset (len data) = Ok (frames_bytes fs)
             /\ Forall frame_good fs.
Proof.
  induction fuel as [|fuel IH]; intros data offset acc res Hd Ho H; [done|].
  cbn [ParseFrames_loop] in H. unfold FrameHeaderSize in *. inv_ok; last first.
  { exists []. rewrite app_nil_r. replace offset with (len data) by lia.
    split_and!; [done | | constructor]. rewrite slice_Ok by lia.
    by replace (Z.to_nat (len data - len data)) with O by lia. }
  destruct a4. rename a into ty, a0 into fl.
  pose proof (index_slice _ _ _ _ Ha eq_refl) as Hs0.
  pose proof (index_slice data (offset + 1) (offset + 2) fl Ha0 ltac:(lia)) as Hs1. slice_facts data Hd.
  apply IH in H as (fs & -> & Hs & Hg); [|done | lia].
  exists (mkFrame ty 0 a3 :: fs). rewrite <- app_assoc. split; [done|]. split.
  - pose proof (slice_join Hs0 (slice_join Hs1 (slice_join Ha1 (slice_join Ha3 Hs)))) as Hj.
    rewrite Hj. f_equal. cbn [frames_bytes]. unfold frame_bytes; simpl.
    replace fl with 0 by lia. replace (len a3) with (be_combine a1) by lia.
    rewrite be_split_combine' by (done || (unfold len in *; lia)). by rewrite <- app_assoc.
  - constructor; [|done]. split; [|split; [by eapply validateFrame_offset | simpl; lia]].
    unfold FrameType_valid, FrameIPPacket, FrameClose in *.
    split_and!; simpl; [unfold uint_ok; lia.. | done].
Qed.

Lemma ParseFrames_loop_returns fuel : forall data offset acc,
  bytes_ok data -> 0 <= offset <= len data -> (length data - Z.to_nat offset < fuel)%nat ->
  returns (ParseFrames_loop fuel data offset acc).
Proof.
  induction fuel as [|fuel IH]; intros data offset acc Hd Ho Hf; [lia|].
  cbn [ParseFrames_loop]. unfold FrameHeaderSize. go_returns data Hd.
  - apply index_returns. lia.
  - apply index_returns. lia.
  - by apply validateFrame_returns.
  - apply IH; [done | unfold len in *; lia..].
Qed.

Lemma MarshalFrames_check_inv fs : forall limit total t,
  MarshalFrames_check fs limit total = Ok t -> total <= limit ->
  Forall (fun f => validateFrame f 0 = Ok tt /\ len (frame_Body f) <= 65535) fs
  /\ t = total + len (frames_bytes fs) /\ t <= limit.
Proof.
  induction fs as [|f fs IH]; intros limit total t H Ht; cbn [MarshalFrames_check] in H.
  - inv_ok. change (len (frames_bytes [])) with 0. split_and!; [constructor | lia | lia].
  - unfold MaxUint16, FrameHeaderSize in H. inv_ok. destruct a.
    apply IH in H as (Hv & -> & Hb); [|lia].
    cbn [frames_bytes]. rewrite len_app, len_frame_bytes.
    split_and!; [constructor; [|done] | lia | lia]. split; [by eapply validateFrame_offset | lia].
Qed.

Lemma MarshalFrames_check_layout fs : forall limit total,
  Forall frame_good fs -> total + len (frames_bytes fs) <= limit ->
  MarshalFrames_check fs limit total = Ok (total + len (frames_bytes fs)).
Proof.
  induction fs as [|f fs IH]; intros limit total Hg Hl; cbn [MarshalFrames_check frames_bytes] in *.
  - rewrite len_nil. f_equal. lia.
  - apply Forall_cons in Hg as [(_ & Hv & Hlen) Hg].
    rewrite len_app, len_frame_bytes in *. unfold MaxUint16, FrameHeaderSize.
    pose proof (len_nonneg (frames_bytes fs)).
    rewrite (validateFrame_offset _ 0) by done. cbn [obind]. by_test.
    rewrite IH; [f_equal; lia | done | lia].
Qed.

Lemma MarshalFrames_write_layout fs : forall pre,
  Forall (fun f => len (frame_Body f) <= 65535) fs ->
  MarshalFrames_write fs (pre ++ zeros (len (frames_bytes fs))) (len pre)
  = Ok (pre ++ frames_bytes fs).
Proof.
  induction fs as [|f fs IH]; intros pre Hg; cbn [MarshalFrames_write frames_bytes].
  - rewrite zeros_nil; [done | by rewrite len_nil].
  - apply Forall_cons in Hg as [Hlen Hg]. pose proof (len_nonneg (frames_bytes fs)).
    pose proof (len_nonneg (frame_Body f)). rewrite u16_small by (unfold MaxUint16; lia).
    rewrite len_app, len_frame_bytes. write_buf.
    replace (4 + len (frame_Body f) + len (frames_bytes fs) - 1 - 1 - Z.of_nat 2 - len (frame_Body f))
      with (len (frames_bytes fs)) by lia.
    unfold FrameHeaderSize.
    replace (len pre + (4 + len (frame_Body f))) with (len (pre ++ frame_bytes f))
      by (rewrite len_app, len_frame_bytes; lia).
    rewrite (app_assoc pre (frame_bytes f)), <- IH by done. f_equal.
    unfold frame_bytes. by rewrite <- !app_assoc.
Qed.

Lemma normalizeFrameLimit_returns m : returns (normalizeFrameLimit m).
Proof. unfold normalizeFrameLimit. returns_tac. Qed.
#[export] Hint Resolve normalizeFrameLimit_returns : wg_returns.

(** A plaintext limit is large enough for one header. *)
Lemma normalizeFrameLimit_range m l : normalizeFrameLimit m = Ok l -> 4 <= l <= 65535.
Proof.
  unfold normalizeFrameLimit, FrameHeaderSize, MaxUint16. intros. inv_ok; [vm_compute; split; congruence | lia].
Qed.

(** ** Which frames may travel together *)
Definition FramesCombine (fs : list Frame) : Prop :=
  (forall f, f ∈ fs -> frame_Type f = FrameIPPacket -> fs = [f])
  /\ (forall f, f ∈ fs -> frame_Type f = FrameConfirm ->
      exists p, fs = [f; p] /\ frame_Type p = FramePing).

Lemma count_ip_app fs n : count_ip fs n = n + count_ip fs 0.
Proof.
  revert n. induction fs as [|f fs IH]; intros n; cbn [count_ip]; [lia|].
  destruct (_ =? FrameIPPacket); [rewrite (IH (n + 1)), (IH (0 + 1)); lia | by rewrite IH].
Qed.

Lemma count_ip_cons f fs :
  count_ip (f :: fs) 0 = (if frame_Type f =? FrameIPPacket then 1 else 0) + count_ip fs 0.
Proof. simpl. rewrite count_ip_app. by destruct (_ =? _). Qed.

Lemma count_ip_zero fs :
  0 <= count_ip fs 0 /\ (count_ip fs 0 = 0 <-> forall f, f ∈ fs -> frame_Type f <> FrameIPPacket).
Proof.
  induction fs as [|f fs [Hp IH]]; [split; [done | set_solver]|].
  rewrite count_ip_cons. setoid_rewrite elem_of_cons.
  destruct (Z.eqb_spec (frame_Type f) FrameIPPacket); split; [lia | | lia |].
  - split; [lia | naive_solver].
  - rewrite Z.add_0_l, IH. naive_solver.
Qed.

Lemma find_confirm_none fs i : forall c,
  (forall f, f ∈ fs -> frame_Type f <> FrameConfirm) -> find_confirm fs i c = Ok c.
Proof.
  revert i. induction fs as [|f fs IH]; intros i c H; [done|]. cbn [find_confirm].
  setoid_rewrite elem_of_cons in H. destruct (Z.eqb_spec (frame_Type f) FrameConfirm); [naive_solver|].
  apply IH. naive_solver.
Qed.

Lemma find_confirm_inv fs : forall i c r, 0 <= i ->
  find_confirm fs i c = Ok r ->
  r = c /\ (forall f, f ∈ fs -> frame_Type f <> FrameConfirm)
  \/ c < 0 /\ i <= r /\ exists f, fs !! Z.to_nat (r - i) = Some f /\ frame_Type f = FrameConfirm.
Proof.
  induction fs as [|f fs IH]; intros i c r Hi H; cbn [find_confirm] in H.
  - inv_ok. left. set_solver.
  - destruct (Z.eqb_spec (frame_Type f) FrameConfirm) as [Hf|Hf].
    + destruct (Z.leb_spec 0 c); [done|].
      apply IH in H as [[-> Hn] | (? & ? & _)]; [| lia..].
      right. split_and!; [lia.. |]. exists f. by rewrite Z.sub_diag.
    + apply IH in H as [[-> Hn] | (? & ? & g & Hg & Ht)]; [| | lia].
      * left. split; [done|]. setoid_rewrite elem_of_cons. naive_solver.
      * right. split_and!; [lia.. |]. exists g. split; [|done].
        replace (Z.to_nat (r - i)) with (S (Z.to_nat (r - (i + 1)))) by lia. done.
Qed.

Lemma find_confirm_returns fs : forall (i c : Z), returns (find_confirm fs i c).
Proof. induction fs; intros; cbn [find_confirm]; [exact I|]. returns_tac; auto. Qed.
#[export] Hint Resolve find_confirm_returns : wg_returns.

Lemma validateFrameCombination_returns fs : returns (validateFrameCombination fs).
Proof.
  unfold validateFrameCombination. returns_tac. apply index_returns.
  destruct (Z.eqb_spec (len fs) 2); [lia | done].
Qed.
#[export] Hint Resolve validateFrameCombination_returns : wg_returns.

Lemma validateFrameCombination_spec fs :
  validateFrameCombination fs = Ok tt <-> FramesCombine fs.
Proof.
  destruct (count_ip_zero fs) as [Hp Hz]. split.
  - unfold validateFrameCombination. intros H. inv_ok.
    all: apply find_confirm_inv in Ha as [[-> Hn] | (_ & Hr & f & Hf & Ht)]; [| | lia]; try lia.
    + destruct (Z.eq_dec (len fs) 2); [|lia]. destruct fs as [|c [|p [|? ?]]]; try (unfold len in *; simpl in *; lia).
      replace a with 0 in Hf by lia. simpl in Hf. injection Hf as <-.
      rewrite (index_app [c] p []) in Ha0 by done. injection Ha0 as <-.
      assert (count_ip [c; p] 0 = 0) as Hc0 by (destruct (Z.eq_dec (count_ip [c; p] 0) 1); lia).
      pose proof (proj1 Hz Hc0) as Hni. unfold FramesCombine, FrameConfirm, FramePing, FrameIPPacket in *.
      split; intros g Hg Hgt; [naive_solver|]. exists p. rewrite !elem_of_cons, elem_of_nil in Hg.
      destruct Hg as [-> | [-> | []]]; [split; [done | lia] | lia].
    + split; intros g Hg Hgt; [|naive_solver]. assert (count_ip fs 0 = 1) as H1.
      { destruct (Z.eq_dec (count_ip fs 0) 0) as [Hc|]; [|lia]. by destruct (proj1 Hz Hc g). }
      destruct (Z.eq_dec (len fs) 1); [|lia]. destruct fs as [|c [|? ?]]; try (unfold len in *; simpl in *; lia).
      set_solver.
  - intros [Hi Hc]. unfold validateFrameCombination.
    destruct (decide (Exists (fun f => frame_Type f = FrameConfirm) fs)) as [He|He].
    + apply Exists_exists in He as (c & Hcin & Hct). destruct (Hc c Hcin Hct) as (p & -> & Hpt).
      unfold FrameConfirm, FramePing, FrameIPPacket in *. simpl.
      rewrite Hct, Hpt. done.
    + assert (Hn : forall f, f ∈ fs -> frame_Type f <> FrameConfirm)
        by (intros f Hf Ht; apply He, Exists_exists; by exists f).
      rewrite find_confirm_none by done. cbn [obind].
      destruct (decide (Exists (fun f => frame_Type f = FrameIPPacket) fs)) as [Hx|Hx].
      * apply Exists_exists in Hx as (f & Hfin & Hft). rewrite (Hi f Hfin Hft). simpl. by rewrite Hft.
      * replace (count_ip fs 0) with 0; [done|]. symmetry. apply Hz. intros f Hf Ht.
        apply Hx, Exists_exists. by exists f.
Qed.

(** ** The two entry points *)
Lemma ParseFrames_inv d m fs :
  bytes_ok d -> ParseFrames d m = Ok fs ->
  exists limit, normalizeFrameLimit m = Ok limit /\ d = frames_bytes fs /\ 0 < len d <= limit
    /\ Forall frame_good fs /\ validateFrameCombination fs = Ok tt.
Proof.
  unfold ParseFrames. intros Hd H. pose proof (len_nonneg d). inv_ok. destruct a1.
  apply ParseFrames_loop_inv in Ha0 as (fs' & -> & Hs & Hg); [|done | lia].
  rewrite slice_all in Hs. apply Ok_inj in Hs. simpl in *. exists a. split_and!; [done | done | lia | lia | done | done].
Qed.

Lemma ParseFrames_layout fs m limit :
  normalizeFrameLimit m = Ok limit -> fs <> [] -> len (frames_bytes fs) <= limit ->
  Forall frame_good fs -> validateFrameCombination fs = Ok tt ->
  ParseFrames (frames_bytes fs) m = Ok fs.
Proof.
  intros Hm Hne Hl Hg Hc. unfold ParseFrames. rewrite Hm. cbn [obind].
  assert (0 < len (frames_bytes fs)).
  { destruct fs as [|f fs]; [done|]. cbn [frames_bytes]. rewrite len_app, len_frame_bytes.
    pose proof (len_nonneg (frame_Body f)). pose proof (len_nonneg (frames_bytes fs)). lia. }
  by_test. rewrite (ParseFrames_loop_layout fs _ [] []) by (done || lia). cbn [obind app].
  by rewrite Hc.
Qed.

Lemma MarshalFrames_inv fs m d :
  Forall Frame_ok fs -> MarshalFrames fs m = Ok d ->
  exists limit, normalizeFrameLimit m = Ok limit /\ d = frames_bytes fs /\ len d <= limit
    /\ fs <> [] /\ Forall frame_good fs /\ validateFrameCombination fs = Ok tt.
Proof.
  unfold MarshalFrames. intros Hok H. inv_ok. destruct a0.
  pose proof (normalizeFrameLimit_range _ _ Ha).
  apply MarshalFrames_check_inv in Ha1 as (Hv & -> & Hb); [|lia].
  rewrite Z.add_0_l in *. change (zeros ?n) with ([] ++ zeros n) in H. change 0 with (len (@nil Z)) in H.
  rewrite MarshalFrames_write_layout in H by (eapply Forall_impl; [exact Hv | by intros f [_ ?]]).
  inv_ok. exists a. split_and!; [done | done | done | by intros -> | | done].
  rewrite Forall_forall in *. intros f Hf. destruct (Hv f Hf). split; [by apply Hok | done].
Qed.

Lemma MarshalFrames_layout fs m limit :
  normalizeFrameLimit m = Ok limit -> fs <> [] -> len (frames_bytes fs) <= limit ->
  Forall frame_good fs -> validateFrameCombination fs = Ok tt ->
  MarshalFrames fs m = Ok (frames_bytes fs).
Proof.
  intros Hm Hne Hl Hg Hc. unfold MarshalFrames. rewrite Hm. cbn [obind].
  destruct (Z.eqb_spec (len fs) 0) as [E|]; [by apply len_zero_nil in E|].
  rewrite Hc. cbn [obind]. rewrite MarshalFrames_check_layout by (done || lia). cbn [obind].
  rewrite Z.add_0_l. change (zeros ?n) with ([] ++ zeros n). change 0 with (len (@nil Z)).
  rewrite MarshalFrames_write_layout; [done|].
  eapply Forall_impl; [exact Hg | by intros f (_ & _ & ?)].
Qed.

Lemma MarshalFrames_ParseFrames fs m d :
  Forall Frame_ok fs -> MarshalFrames fs m = Ok d -> ParseFrames d m = Ok fs.
Proof.
  intros Hok (limit & Hm & -> & Hl & Hne & Hg & Hc)%MarshalFrames_inv; [|done].
  by eapply ParseFrames_layout.
Qed.

Lemma ParseFrames_returns d m : bytes_ok d -> returns (ParseFrames d m).
Proof.
  intros Hd. unfold ParseFrames. returns_tac.
  apply ParseFrames_loop_returns; [done | pose proof (len_nonneg d); lia | lia].
Qed.

(** ** UTF-8 against the encoding of Unicode scalar values *)
Definition scalar (c : Z) : Prop := 0 <= c < 55296 \/ 57344 <= c <= 1114111.

Definition utf8_encode (c : Z) : bytes :=
  if c <? 128 then [c]
  else if c <? 2048 then [192 + c / 64; 128 + c mod 64]
  else if c <? 65536 then [224 + c / 4096; 128 + (c / 64) mod 64; 128 + c mod 64]
  else [240 + c / 262144; 128 + (c / 4096) mod 64; 128 + (c / 64) mod 64; 128 + c mod 64].

(** Within this part [lia] also eliminates divisions by constants. *)
Ltac Zify.zify_post_hook ::= Z.to_euclidean_division_equations; ZifyBool.elim_bool_cstr.

Lemma utf8_Valid_app c p : scalar c -> utf8_Valid (utf8_encode c ++ p) = utf8_Valid p.
Proof.
  unfold scalar, utf8_encode. intros Hc.
  repeat match goal with |- context [if ?b then _ else _] => destruct b eqn:? end;
    cbn [app utf8_Valid]; unfold between, continuation, between; by_test; [done|..].
  all: match goal with |- ?a && utf8_Valid _ = _ => replace a with true; [done|] end; symmetry.
  all: repeat match goal with |- context [if ?b then _ else _] => destruct b eqn:? end; lia.
Qed.

Lemma utf8_Valid_encode cs : Forall scalar cs -> utf8_Valid (mjoin (utf8_encode <$> cs)) = true.
Proof.
  induction 1 as [|c cs Hc Hcs IH]; [done|].
  cbn [fmap list_fmap mjoin list_join]. by rewrite utf8_Valid_app.
Qed.

Lemma utf8_encode_2 b0 b1 :
  194 <= b0 <= 223 -> 128 <= b1 <= 191 ->
  let c := (b0 - 192) * 64 + (b1 - 128) in scalar c /\ utf8_encode c = [b0; b1].
Proof. intros ? ? c. unfold scalar, utf8_encode, c. split; [lia|]. by_test. repeat f_equal; lia. Qed.

Lemma utf8_encode_3 b0 b1 b2 :
  224 <= b0 <= 239 -> (if b0 =? 224 then 160 else 128) <= b1 <= (if b0 =? 237 then 159 else 191) ->
  128 <= b2 <= 191 ->
  let c := (b0 - 224) * 4096 + (b1 - 128) * 64 + (b2 - 128) in
  scalar c /\ utf8_encode c = [b0; b1; b2].
Proof.
  intros H0 H1 H2 c. unfold scalar, utf8_encode, c.
  destruct (Z.eqb_spec b0 224), (Z.eqb_spec b0 237);
    (split; [lia|]; by_test; repeat f_equal; lia).
Qed.

Lemma utf8_encode_4 b0 b1 b2 b3 :
  240 <= b0 <= 244 -> (if b0 =? 240 then 144 else 128) <= b1 <= (if b0 =? 244 then 143 else 191) ->
  128 <= b2 <= 191 -> 128 <= b3 <= 191 ->
  let c := (b0 - 240) * 262144 + (b1 - 128) * 4096 + (b2 - 128) * 64 + (b3 - 128) in
  scalar c /\ utf8_encode c = [b0; b1; b2; b3].
Proof.
  intros H0 H1 H2 H3 c. unfold scalar, utf8_encode, c.
  destruct (Z.eqb_spec b0 240), (Z.eqb_spec b0 244);
    (split; [lia|]; by_test; repeat f_equal; lia).
Qed.

Lemma utf8_Valid_decode n : forall p, (length p <= n)%nat -> bytes_ok p -> utf8_Valid p = true ->
  exists cs, Forall scalar cs /\ p = mjoin (utf8_encode <$> cs).
Proof.
  assert (Hstep : forall c e p, scalar c /\ utf8_encode c = e ->
    (exists cs, Forall scalar cs /\ p = mjoin (utf8_encode <$> cs)) ->
    exists cs, Forall scalar cs /\ e ++ p = mjoin (utf8_encode <$> cs)).
  { intros c e p [Hc <-] (cs & Hcs & ->). exists (c :: cs). split; [by constructor | done]. }
  induction n as [|n IH]; intros p Hn Hp Hv.
  { destruct p; [by exists [] | simpl in Hn; lia]. }
  destruct p as [|b0 p]; [by exists []|]. apply Forall_cons in Hp as [Hb0 Hp]. unfold byte_ok in Hb0.
  cbn [utf8_Valid] in Hv. destruct (Z.ltb_spec b0 128).
  { apply (Hstep b0 [b0] p); [|apply IH; [simpl in Hn; lia | done | done]].
    unfold scalar, utf8_encode. split; [lia|]. by by_test. }
  destruct p as [|b1 p]; [done|]. apply Forall_cons in Hp as [_ Hp].
  unfold between, continuation, between in Hv.
  destruct (_ && _) eqn:E2 in Hv.
  { apply andb_prop in Hv as [H1 Hv]. eapply (Hstep _ [b0; b1] p); [apply utf8_encode_2; lia|].
    apply IH; [simpl in Hn; lia | done | done]. }
  destruct p as [|b2 p]; [done|]. apply Forall_cons in Hp as [_ Hp].
  destruct ((224 <=? b0) && _) eqn:E3 in Hv.
  { apply andb_prop in Hv as [[H1 H2]%andb_prop Hv].
    eapply (Hstep _ [b0; b1; b2] p); [apply utf8_encode_3; lia|].
    apply IH; [simpl in Hn; lia | done | done]. }
  destruct p as [|b3 p]; [done|]. apply Forall_cons in Hp as [_ Hp].
  apply andb_prop in Hv as [[[[H0 H1]%andb_prop H2]%andb_prop H3]%andb_prop Hv].
  eapply (Hstep _ [b0; b1; b2; b3] p); [apply utf8_encode_4; lia|].
  apply IH; [simpl in Hn; lia | done | done].
Qed.
Ltac Zify.zify_post_hook ::= ZifyBool.elim_bool_cstr.

(** ** Properties *)

(** A frame list that [MarshalFrames] accepts is read back by
    [ParseFrames] under the same limit, frame for frame. *)
Lemma frames_marshal_parse fs m d :
  Forall Frame_ok fs -> MarshalFrames fs m = Ok d -> ParseFrames d m = Ok fs.
Proof. apply MarshalFrames_ParseFrames. Qed.

(** The accepted plaintexts are exactly the canonical ones: what
    [ParseFrames] accepts, [MarshalFrames] emits again byte for byte. *)
Lemma frames_parse_canonical d m fs :
  bytes_ok d -> ParseFrames d m = Ok fs -> MarshalFrames fs m = Ok d.
Proof.
  intros Hd (limit & Hm & -> & Hl & Hg & Hc)%ParseFrames_inv; [|done].
  eapply MarshalFrames_layout; [done | | lia | done | done].
  intros ->. change (len (frames_bytes [])) with 0 in Hl. lia.
Qed.

(** C39: Frames round trip.  A frame list that [MarshalFrames] accepts is read back
    by [ParseFrames] under the same limit, frame for frame; and what [ParseFrames]
    accepts, [MarshalFrames] emits again byte for byte, so the accepted plaintexts
    are exactly the canonical ones. *)
Theorem frames_round_trip :
  (forall fs m d, Forall Frame_ok fs -> MarshalFrames fs m = Ok d -> ParseFrames d m = Ok fs)
  /\ (forall d m fs, bytes_ok d -> ParseFrames d m = Ok fs -> MarshalFrames fs m = Ok d).
Proof. split; [apply frames_marshal_parse | apply frames_parse_canonical]. Qed.

Definition demo_frames : list Frame :=
  [mkFrame FrameConfirm 0 (replicate 32 5); mkFrame FramePing 0 (be_split 8 99)].
Definition demo_plaintext : bytes :=
  [2; 0; 0; 32] ++ replicate 32 5 ++ [3; 0; 0; 8; 0; 0; 0; 0; 0; 0; 0; 99].

Lemma frames_round_trip_witness :
  ParseFrames demo_plaintext 0 = Ok demo_frames /\ MarshalFrames demo_frames 64 = Ok demo_plaintext.
Proof.
  split.
  - apply (proj1 frames_round_trip);
      [apply (bool_decide_unpack _); vm_compute; exact I | vm_compute; reflexivity].
  - apply (proj2 frames_round_trip);
      [apply (bool_decide_unpack _); vm_compute; exact I | vm_compute; reflexivity].
Defined.

(** What the session layer may rely on for one accepted frame. *)
Definition body_spec (f : Frame) : Prop :=
  let b := frame_Body f in
  if frame_Type f =? FrameIPPacket then
    (exists vihl tos tail, b = [vihl; tos] ++ be_split 2 (len b) ++ tail
       /\ Z.shiftr vihl 4 = 4 /\ 20 <= Z.land vihl 15 * 4 <= len b)
    \/ (exists v x y z tail, b = [v; x; y; z] ++ be_split 2 (len b - 40) ++ tail
       /\ Z.shiftr v 4 = 6 /\ 40 <= len b)
  else if frame_Type f =? FrameConfirm then len b = 32
  else if (frame_Type f =? FramePing) || (frame_Type f =? FramePong) then len b = 8
  else if frame_Type f =? FrameClose then
    exists reason text cs, b = be_split 2 reason ++ text /\ uint_ok 16 reason
      /\ len text <= 256 /\ Forall scalar cs /\ text = mjoin (utf8_encode <$> cs)
  else True.

Lemma DecodeClose_inv b reason text :
  bytes_ok b -> DecodeClose b = Ok (reason, text) ->
  b = be_split 2 reason ++ text /\ uint_ok 16 reason /\ bytes_ok text
  /\ len text <= 256 /\ utf8_Valid text = true.
Proof.
  unfold DecodeClose, DefaultMaxCloseTextLength. intros Hb H. inv_ok.
  slice_facts b Hb. injection H as <- <-.
  pose proof (slice_join Ha0 Ha) as Hj. rewrite slice_all in Hj. apply Ok_inj in Hj.
  split_and!; [|done | done | lia | by destruct (utf8_Valid _)].
  by rewrite be_split_combine' by (done || (unfold len in *; lia)).
Qed.

Lemma validateIPPacket_inv b o :
  bytes_ok b -> validateIPPacket b o = Ok tt ->
  (exists vihl tos tail, b = [vihl; tos] ++ be_split 2 (len b) ++ tail
     /\ Z.shiftr vihl 4 = 4 /\ 20 <= Z.land vihl 15 * 4 <= len b)
  \/ (exists v x y z tail, b = [v; x; y; z] ++ be_split 2 (len b - 40) ++ tail
     /\ Z.shiftr v 4 = 6 /\ 40 <= len b).
Proof.
  unfold validateIPPacket. intros Hb H. inv_ok; slice_facts b Hb; [left | right].
  - destruct b as [|x0 [|x1 [|x2 [|x3 t]]]]; try discriminate E1.
    apply Ok_inj in Ha; subst a. exists x0, x1, t.
    assert (a0 = [x2; x3]) as -> by (apply (Ok_inj (E := DecodeError));
      rewrite <- Ha0; by apply (slice_app [x0; x1] [x2; x3] t)).
    replace (len _) with (be_combine [x2; x3]) by lia.
    rewrite be_split_combine' by done. split_and!; [done | lia..].
  - destruct b as [|x0 [|x1 [|x2 [|x3 [|x4 [|x5 t]]]]]]; try discriminate E2.
    apply Ok_inj in Ha; subst a. exists x0, x1, x2, x3, t.
    assert (a0 = [x4; x5]) as -> by (apply (Ok_inj (E := DecodeError));
      rewrite <- Ha0; by apply (slice_app [x0; x1; x2; x3] [x4; x5] t)).
    replace (len _ - 40) with (be_combine [x4; x5]) by lia.
    rewrite be_split_combine' by done. split_and!; [done | lia..].
Qed.

Lemma frame_good_body f : frame_good f -> body_spec f.
Proof.
  intros ((_ & _ & Hb) & Hv & _). unfold validateFrame in Hv. unfold body_spec.
  do 2 (destruct (negb _); [done|]).
  destruct (_ =? FrameIPPacket); [by eapply validateIPPacket_inv|].
  destruct (_ =? FrameConfirm);
    [destruct (Z.eqb_spec (len (frame_Body f)) ConfirmBodySize); done|].
  destruct (_ || _); [destruct (Z.eqb_spec (len (frame_Body f)) ChallengeBodySize); done|].
  destruct (_ =? FrameClose); [|done]. inv_ok. destruct a as [reason text].
  apply DecodeClose_inv in Ha as (He & Hr & Ht & Hl & Hu); [|done].
  apply (utf8_Valid_decode (length text)) in Hu as (cs & Hcs & Hcat); [|done | done].
  by exists reason, text, cs.
Qed.

Lemma frames_parse_safe d m :
  bytes_ok d ->
  returns (ParseFrames d m)
  /\ forall fs, ParseFrames d m = Ok fs ->
     (exists limit, normalizeFrameLimit m = Ok limit /\ len d <= limit)
     /\ fs <> [] /\ FramesCombine fs
     /\ Forall (fun f => 1 <= frame_Type f <= 8 /\ frame_Flags f = 0 /\ body_spec f) fs.
Proof.
  intros Hd. split.
  - by apply ParseFrames_returns.
  - intros fs (limit & Hm & -> & Hl & Hg & Hc)%ParseFrames_inv; [|done]. split_and!.
    + exists limit. split; [done | lia].
    + intros ->. change (len (frames_bytes [])) with 0 in Hl. lia.
    + by apply validateFrameCombination_spec.
    + eapply Forall_impl; [exact Hg|]. intros f Hf. destruct (Hf) as (_ & Hv & _).
      apply validateFrame_facts in Hv as [Ht ?]. unfold FrameType_valid, FrameIPPacket, FrameClose in Ht. split_and!; [lia | lia | done | by apply frame_good_body].
Qed.

(** C36: Parsing untrusted input is total and bounded.  For every byte string and every
    limit [ParsePacket] and [ParseFrames] return: no index or slice panics, no loop runs
    on.  A packet that is accepted is no longer than the effective limit, has a payload of
    exactly the declared length and a valid header: version 1, a known kind, zero flags
    and reserved field, connection identifiers present or absent as the kind demands, a
    packet number on transport packets only; its payload has the layout and the minimum
    size of its kind.  Frames that are accepted are within the limit and fit for the
    session layer: known frame types, zero flags, bodies of the shape their type demands
    (IP headers that declare the frame's length, 32-byte CONFIRM, 8-byte PING and PONG,
    UTF-8 diagnostics), an IP packet alone and CONFIRM exactly before PING. *)
Theorem wire_parse_safe d d' max m :
  bytes_ok d -> bytes_ok d' ->
  (returns (ParsePacket d max)
   /\ forall p, ParsePacket d max = Ok p ->
        exists limit, normalizeDatagramLimit max = Ok limit /\ len d <= limit
        /\ len d = HeaderSize + PayloadLength (pkt_Header p)
        /\ PayloadLength (pkt_Header p) = len (pkt_Payload p)
        /\ header_rules (pkt_Header p) /\ payload_rules (Kind (pkt_Header p)) (pkt_Payload p))
  /\ (returns (ParseFrames d' m)
      /\ forall fs, ParseFrames d' m = Ok fs ->
         (exists limit, normalizeFrameLimit m = Ok limit /\ len d' <= limit)
         /\ fs <> [] /\ FramesCombine fs
         /\ Forall (fun f => 1 <= frame_Type f <= 8 /\ frame_Flags f = 0 /\ body_spec f) fs).
Proof. intros Hd Hd'. split; [by apply packet_parse_safe | by apply frames_parse_safe]. Qed.

Lemma wire_parse_safe_witness :
  (exists p, ParsePacket demo_datagram 0 = Ok p /\ header_rules (pkt_Header p) /\ payload_rules (Kind (pkt_Header p)) (pkt_Payload p))
  /\ FramesCombine demo_frames.
Proof.
  assert (Hd : bytes_ok demo_datagram) by (apply (bool_decide_unpack _); vm_compute; exact I).
  assert (Hd' : bytes_ok demo_plaintext) by (apply (bool_decide_unpack _); vm_compute; exact I).
  destruct (wire_parse_safe demo_datagram demo_plaintext 0 0 Hd Hd') as [[_ Hp] [_ Hf]]. split.
  - destruct (ParsePacket demo_datagram 0) as [p|e| |] eqn:E; [|vm_compute in E; discriminate ..].
    destruct (Hp p eq_refl) as (l & _ & _ & _ & _ & H1 & H2). exists p. split; [reflexivity | split; [exact H1 | exact H2]].
  - destruct (Hf demo_frames) as (_ & _ & H & _); [vm_compute; reflexivity | exact H].
Defined.

(** CLOSE bodies round trip: [EncodeClose] accepts exactly the UTF-8
    diagnostics of at most 256 bytes, and [DecodeClose] gives back the reason and
    the diagnostic; conversely a body that [DecodeClose] accepts is the encoding
    of what it returns. *)
Theorem close_round_trip reason text body :
  uint_ok 16 reason -> bytes_ok text -> bytes_ok body ->
  ((exists b, EncodeClose reason text = Ok b) <->
     len text <= 256 /\ exists cs, Forall scalar cs /\ text = mjoin (utf8_encode <$> cs))
  /\ (EncodeClose reason text = Ok body <-> DecodeClose body = Ok (reason, text)).
Proof.
  intros Hr Ht Hb.
  assert (Henc : EncodeClose reason text
                 = if negb (utf8_Valid text) then decodeError ErrUTF8 (-1) "close.diagnostic"
                   else if 256 <? len text then decodeError ErrLimit (-1) "close.diagnostic"
                   else Ok (be_split 2 reason ++ text)).
  { unfold EncodeClose, DefaultMaxCloseTextLength. destruct (negb _); [done|].
    destruct (_ <? _); [done|]. pose proof (len_nonneg text).
    change (zeros (2 + len text)) with ([] ++ zeros (2 + len text)). write_buf.
    rewrite (zeros_nil (_ - _)) by lia. by rewrite app_nil_r. }
  rewrite Henc. split; split.
  - intros [b H]. inv_ok. destruct (utf8_Valid text) eqn:Hu; [|done].
    split; [lia|]. by apply (utf8_Valid_decode (length text)).
  - intros [Hl (cs & Hcs & ->)]. rewrite utf8_Valid_encode by done. simpl. by_test. by eexists.
  - intros H. inv_ok. unfold DecodeClose, DefaultMaxCloseTextLength. pose proof (len_nonneg text).
    rewrite len_app, len_be_split. by_test. rewrite slice_suffix by len_side. cbn [obind].
    rewrite E. rewrite slice_prefix by len_side. cbn [obind]. unfold Uint16.
    by rewrite be_uint_split0 by exact Hr.
  - intros (-> & _ & _ & Hl & Hu)%DecodeClose_inv; [|done]. rewrite Hu. simpl. by by_test.
Qed.

Lemma close_round_trip_witness : DecodeClose [0; 7; 240; 159; 152; 128] = Ok (7, [240; 159; 152; 128]).
Proof.
  apply (close_round_trip 7 [240; 159; 152; 128] [0; 7; 240; 159; 152; 128]);
    [apply (bool_decide_unpack _); vm_compute; exact I.. | vm_compute; reflexivity].
Defined.
