(* ===== verification/Replay.v ===== *)
(** * Packet numbers and the replay window (internal/session/replay.go)

    The allocator of transport packet numbers and the 2048-bit sliding window
    of authenticated ones, word by word.  The window is refined to the history
    of accepted numbers.  Every method holds the object's mutex from entry to
    return, so a concurrent run is a sequence of these calls. *)

From stdpp Require Import base list sets numbers.
From S2P Require Import Prelude.
Local Open Scope Z_scope.
Local Open Scope wg_scope.

Definition ReplayWindowSize : Z := 2048.
Definition replayWordBits : Z := 64.
Definition replayWordCount : Z := ReplayWindowSize / replayWordBits.

Inductive ReplayErr : Set :=
| ErrPacketNumberExhausted
| ErrReplayDuplicate
| ErrReplayTooOld.

#[global] Instance ReplayErr_eq_dec : EqDecision ReplayErr.
Proof. solve_decision. Defined.

(** ** The allocator *)
Record PacketNumbers : Set := mkPacketNumbers {
  pn_next : Z;
  pn_exhausted : bool
}.

Definition NewPacketNumbers (first : Z) : PacketNumbers := mkPacketNumbers first false.

(** [Next]: the allocator after the call, and the number or the error. *)
Definition PacketNumbers_Next (p : PacketNumbers) : PacketNumbers * (Z + ReplayErr) :=
  if pn_exhausted p then (p, inr ErrPacketNumberExhausted)
  else
    let packetNumber := pn_next p in
    if pn_next p =? MaxUint64 then (mkPacketNumbers (pn_next p) true, inl packetNumber)
    else (mkPacketNumbers (u64 (pn_next p + 1)) (pn_exhausted p), inl packetNumber).

(** ** The window *)
Record ReplayError : Set := mkReplayError {
  re_Kind : ReplayErr;
  re_PacketNumber : Z;
  re_Highest : Z
}.

Record ReplaySnapshot : Set := mkReplaySnapshot {
  rs_Initialized : bool;
  rs_Highest : Z
}.

Record ReplayWindow : Set := mkReplayWindow {
  rw_initialized : bool;
  rw_highest : Z;
  rw_bitmap : list Z
}.

(** The zero value, [[32]uint64{}] included. *)
Definition zero_bitmap : list Z := zeros replayWordCount.
Definition NewReplayWindow : ReplayWindow := mkReplayWindow false 0 zero_bitmap.

Definition Precheck (w : ReplayWindow) (packetNumber : Z) : bool :=
  if negb (rw_initialized w) || (rw_highest w <? packetNumber) then true
  else
    let delta := rw_highest w - packetNumber in
    delta <? ReplayWindowSize.

(** The loop of [shiftLocked], from [destination = n - 1] down to 0. *)
Fixpoint shiftLocked_loop (n : nat) (previous : list Z) (wholeWords partialBits : Z)
    (bitmap : list Z) : outcome ReplayError (list Z) :=
  match n with
  | O => Ok bitmap
  | S destination =>
      let source := Z.of_nat destination - wholeWords in
      if source <? 0 then shiftLocked_loop destination previous wholeWords partialBits bitmap
      else
        let* word := index previous source in
        let value := u64 (Z.shiftl word partialBits) in
        let* value :=
          if negb (partialBits =? 0) && (0 <? source) then
            let* below := index previous (source - 1) in
            Ok (Z.lor value (Z.shiftr below (replayWordBits - partialBits)))
          else Ok value in
        let* bitmap := set_at bitmap (Z.of_nat destination) value in
        shiftLocked_loop destination previous wholeWords partialBits bitmap
  end.

Definition shiftLocked (bitmap : list Z) (advance : Z) : outcome ReplayError (list Z) :=
  if ReplayWindowSize <=? advance then Ok zero_bitmap
  else
    let previous := bitmap in
    let wholeWords := advance / replayWordBits in
    let partialBits := advance mod replayWordBits in
    shiftLocked_loop (Z.to_nat replayWordCount) previous wholeWords partialBits zero_bitmap.

(** [AcceptAuthenticated]: the window after the call and the error, if any. *)
Definition AcceptAuthenticated (w : ReplayWindow) (packetNumber : Z)
  : outcome ReplayError (ReplayWindow * option ReplayError) :=
  if negb (rw_initialized w) then
    let* bitmap := set_at (rw_bitmap w) 0 1 in
    Ok (mkReplayWindow true packetNumber bitmap, None)
  else if rw_highest w <? packetNumber then
    let advance := packetNumber - rw_highest w in
    let* bitmap := shiftLocked (rw_bitmap w) advance in
    let* word0 := index bitmap 0 in
    let* bitmap := set_at bitmap 0 (Z.lor word0 1) in
    Ok (mkReplayWindow (rw_initialized w) packetNumber bitmap, None)
  else
    let delta := rw_highest w - packetNumber in
    if ReplayWindowSize <=? delta
    then Ok (w, Some (mkReplayError ErrReplayTooOld packetNumber (rw_highest w)))
    else
      let word := delta / replayWordBits in
      let bit := delta mod replayWordBits in
      let mask := Z.shiftl 1 bit in
      let* v := index (rw_bitmap w) word in
      if negb (Z.land v mask =? 0)
      then Ok (w, Some (mkReplayError ErrReplayDuplicate packetNumber (rw_highest w)))
      else
        let* bitmap := set_at (rw_bitmap w) word (Z.lor v mask) in
        Ok (mkReplayWindow (rw_initialized w) (rw_highest w) bitmap, None).

Definition ReplayWindow_Snapshot (w : ReplayWindow) : ReplaySnapshot :=
  mkReplaySnapshot (rw_initialized w) (rw_highest w).

(** ** Bits of the bitmap *)
Definition bit (bm : list Z) (i : Z) : bool :=
  Z.testbit (bm !!! Z.to_nat (i / 64)) (i mod 64).

Definition bitmap_ok (bm : list Z) : Prop := length bm = 32%nat /\ Forall (uint_ok 64) bm.

Lemma zero_bitmap_ok : bitmap_ok zero_bitmap.
Proof. unfold bitmap_ok, zero_bitmap. split; [done|]. apply (bool_decide_unpack _). vm_compute. exact I. Qed.

Lemma bit_zero i : 0 <= i < 2048 -> bit zero_bitmap i = false.
Proof.
  intros Hi. unfold bit. rewrite (lookup_zeros replayWordCount (Z.to_nat (i / 64)) (_ !!! _)); [apply Z.bits_0|].
  apply list_lookup_lookup_total_lt. rewrite (proj1 zero_bitmap_ok).
  Z.to_euclidean_division_equations. lia.
Qed.

Lemma index_total {E} (bm : list Z) i :
  bitmap_ok bm -> 0 <= i < 32 -> index (E := E) bm i = Ok (bm !!! Z.to_nat i).
Proof.
  intros [Hl _] Hi. apply index_Ok. split; [lia|]. apply list_lookup_lookup_total_lt. lia.
Qed.

Lemma set_at_total {E} (bm : list Z) i v :
  length bm = 32%nat -> 0 <= i < 32 -> set_at (E := E) bm i v = Ok (<[Z.to_nat i := v]> bm).
Proof. intros Hl Hi. unfold set_at, len. rewrite Hl. by_test. done. Qed.

Lemma bitmap_ok_insert bm i v :
  bitmap_ok bm -> uint_ok 64 v -> bitmap_ok (<[i := v]> bm).
Proof. intros [Hl Hf] Hv. split; [by rewrite length_insert | by apply Forall_insert]. Qed.

Lemma bitmap_ok_word bm i : bitmap_ok bm -> (i < 32)%nat -> uint_ok 64 (bm !!! i).
Proof.
  intros [Hl Hf] Hi. rewrite Forall_lookup in Hf. apply (Hf i).
  apply list_lookup_lookup_total_lt. lia.
Qed.

Lemma testbit_high w v i : 0 <= w -> uint_ok w v -> w <= i -> Z.testbit v i = false.
Proof.
  intros Hw [H0 H1] Hi. rewrite <- (Z.mod_small v (2 ^ w)) by lia.
  apply Z.mod_pow2_bits_high. lia.
Qed.

Lemma uint_ok_bits w v :
  0 <= w -> 0 <= v -> (forall i, w <= i -> Z.testbit v i = false) -> uint_ok w v.
Proof.
  intros Hw Hv Hb. split; [done|]. assert (v mod 2 ^ w = v) as <-; [|apply Z.mod_pos_bound; lia].
  apply Z.bits_inj'. intros n Hn. destruct (Z.lt_ge_cases n w).
  - by rewrite Z.mod_pow2_bits_low.
  - rewrite Z.mod_pow2_bits_high by lia. by rewrite Hb.
Qed.

Lemma uint_ok_lor w x y : 0 <= w -> uint_ok w x -> uint_ok w y -> uint_ok w (Z.lor x y).
Proof.
  intros Hw Hx Hy. apply uint_ok_bits; [done | by apply Z.lor_nonneg; destruct Hx, Hy |].
  intros i Hi. rewrite Z.lor_spec, !(testbit_high w) by done. done.
Qed.

Lemma uint_ok_u64 v : uint_ok 64 (u64 v).
Proof. unfold uint_ok, u64. apply Z.mod_pos_bound. lia. Qed.

Lemma uint_ok_shiftr w v k : 0 <= k -> uint_ok w v -> uint_ok w (Z.shiftr v k).
Proof.
  intros Hk [H0 H1]. split; [by apply Z.shiftr_nonneg|]. rewrite Z.shiftr_div_pow2 by done.
  eapply Z.le_lt_trans; [|exact H1]. apply Z.div_le_upper_bound; [lia|].
  assert (0 < 2 ^ k) by lia. nia.
Qed.

Lemma uint_ok_mask k : 0 <= k < 64 -> uint_ok 64 (Z.shiftl 1 k).
Proof.
  intros Hk. rewrite Z.shiftl_1_l. split; [lia|]. apply Z.pow_lt_mono_r; lia.
Qed.

Lemma testbit_mask k i : 0 <= k -> 0 <= i -> Z.testbit (Z.shiftl 1 k) i = bool_decide (i = k).
Proof.
  intros Hk Hi. rewrite Z.shiftl_1_l. case_bool_decide as E.
  - subst. by apply Z.pow2_bits_true.
  - apply Z.pow2_bits_false. lia.
Qed.

Lemma land_mask v k : 0 <= k -> (Z.land v (Z.shiftl 1 k) =? 0) = negb (Z.testbit v k).
Proof.
  intros Hk. destruct (Z.testbit v k) eqn:E; simpl.
  - apply Z.eqb_neq. intros H0. assert (Z.testbit (Z.land v (Z.shiftl 1 k)) k = false) as Hb
      by (rewrite H0; apply Z.bits_0).
    rewrite Z.land_spec, testbit_mask, E, bool_decide_true in Hb by done. done.
  - apply Z.eqb_eq. apply Z.bits_inj'. intros i Hi. rewrite Z.land_spec, Z.bits_0, testbit_mask by done.
    case_bool_decide; [subst; by rewrite E | by rewrite andb_false_r].
Qed.

(** Setting one bit. *)
Lemma bit_set bm i j :
  bitmap_ok bm -> 0 <= i < 2048 -> 0 <= j < 2048 ->
  bit (<[Z.to_nat (i / 64) := Z.lor (bm !!! Z.to_nat (i / 64)) (Z.shiftl 1 (i mod 64))]> bm) j
  = bit bm j || bool_decide (j = i).
Proof.
  intros [Hl _] Hi Hj. unfold bit. destruct (decide (i / 64 = j / 64)) as [E|E].
  - rewrite E. rewrite list_lookup_total_insert_eq by (rewrite Hl; Z.to_euclidean_division_equations; lia).
    rewrite Z.lor_spec, testbit_mask by (apply Z.mod_pos_bound; lia). f_equal.
    apply bool_decide_ext. Z.to_euclidean_division_equations. lia.
  - rewrite list_lookup_total_insert_ne by (Z.to_euclidean_division_equations; lia).
    rewrite bool_decide_false, orb_false_r; [done|]. naive_solver.
Qed.

(** ** The shift *)

(** The word that [shiftLocked] writes for [destination]. *)
Definition shifted_word (previous : list Z) (ww pb : Z) (destination : Z) : Z :=
  let source := destination - ww in
  let value := u64 (Z.shiftl (previous !!! Z.to_nat source) pb) in
  if negb (pb =? 0) && (0 <? source)
  then Z.lor value (Z.shiftr (previous !!! Z.to_nat (source - 1)) (64 - pb))
  else value.

Lemma shifted_word_ok previous ww pb d :
  bitmap_ok previous -> 0 <= ww -> 0 <= pb < 64 -> ww <= d < 32 ->
  uint_ok 64 (shifted_word previous ww pb d).
Proof.
  intros Hp Hw Hb Hd. unfold shifted_word. destruct (_ && _) eqn:E; [|apply uint_ok_u64].
  apply uint_ok_lor; [done | apply uint_ok_u64|]. apply uint_ok_shiftr; [lia|].
  apply bitmap_ok_word; [done | lia].
Qed.

Lemma shiftLocked_loop_word previous ww pb bm n destination :
  bitmap_ok previous -> bitmap_ok bm -> 0 <= ww -> 0 <= pb < 64 ->
  n = S destination -> (n <= 32)%nat ->
  shiftLocked_loop n previous ww pb bm
  = shiftLocked_loop destination previous ww pb
      (if Z.of_nat destination <? ww then bm
       else <[destination := shifted_word previous ww pb (Z.of_nat destination)]> bm).
Proof.
  intros Hp [Hl _] Hw Hb -> Hn. cbn [shiftLocked_loop].
  destruct (Z.ltb_spec (Z.of_nat destination) ww); by_test; [done|].
  rewrite index_total by (done || lia). cbn [obind]. unfold replayWordBits.
  set (s := Z.of_nat destination - ww). unfold shifted_word. fold s.
  destruct (negb (pb =? 0) && (0 <? s)) eqn:E.
  - rewrite index_total by (done || lia). cbn [obind].
    rewrite set_at_total by (done || lia). cbn [obind]. by rewrite Nat2Z.id.
  - cbn [obind]. rewrite set_at_total by (done || lia). cbn [obind]. by rewrite Nat2Z.id.
Qed.

Lemma shiftLocked_loop_spec previous ww pb n : forall bm,
  bitmap_ok previous -> bitmap_ok bm -> 0 <= ww -> 0 <= pb < 64 -> (n <= 32)%nat ->
  exists bm', shiftLocked_loop n previous ww pb bm = Ok bm' /\ bitmap_ok bm'
    /\ forall d, (d < 32)%nat -> bm' !!! d =
         if (d <? n)%nat && (ww <=? Z.of_nat d) then shifted_word previous ww pb (Z.of_nat d)
         else bm !!! d.
Proof.
  induction n as [|n IH]; intros bm Hp Hbm Hw Hb Hn.
  { exists bm. split_and!; done. }
  rewrite (shiftLocked_loop_word _ _ _ _ _ n) by done.
  destruct (Z.ltb_spec (Z.of_nat n) ww) as [Hd|Hd].
  - destruct (IH bm) as (bm' & -> & Hok & Hv); [done.. | lia |]. exists bm'.
    split_and!; [done | done |]. intros d Hd32. rewrite Hv by done.
    destruct (Nat.ltb_spec d n), (Nat.ltb_spec d (S n)); try lia; try done.
    simpl. by_test. done.
  - destruct (IH (<[n := shifted_word previous ww pb (Z.of_nat n)]> bm))
      as (bm' & -> & Hok & Hv); [done | | done | done | lia |].
    { apply bitmap_ok_insert; [done|]. apply shifted_word_ok; [done | lia..]. }
    exists bm'. split_and!; [done | done |]. intros d Hd32. rewrite Hv by done.
    destruct (Nat.ltb_spec d n), (Nat.ltb_spec d (S n)); try lia; simpl.
    + destruct (ww <=? Z.of_nat d); [done|]. by rewrite list_lookup_total_insert_ne by lia.
    + replace d with n by lia. by_test.
      rewrite list_lookup_total_insert_eq; [done|]. rewrite (proj1 Hbm). lia.
    + by rewrite list_lookup_total_insert_ne by lia.
Qed.

Lemma shifted_word_testbit previous ww pb d b :
  bitmap_ok previous -> 0 <= ww -> d < 32 ->
  0 <= pb < 64 -> 0 <= b < 64 -> ww <= d ->
  Z.testbit (shifted_word previous ww pb d) b =
    if pb <=? b then Z.testbit (previous !!! Z.to_nat (d - ww)) (b - pb)
    else (ww <? d) && Z.testbit (previous !!! Z.to_nat (d - ww - 1)) (b + 64 - pb).
Proof.
  intros Hp Hww Hd32 Hpb Hb Hd. unfold shifted_word, u64.
  destruct (Z.eqb_spec pb 0) as [->|Hnz]; simpl.
  { by_test. rewrite Z.mod_pow2_bits_low by lia. by rewrite Z.shiftl_0_r, Z.sub_0_r. }
  destruct (Z.ltb_spec 0 (d - ww)); by_test.
  - rewrite Z.lor_spec, Z.mod_pow2_bits_low, Z.shiftl_spec, Z.shiftr_spec by lia.
    destruct (Z.leb_spec pb b).
    + rewrite (testbit_high 64 (previous !!! Z.to_nat (d - ww - 1)));
        [apply orb_false_r | done | apply bitmap_ok_word; [done | lia] | lia].
    + rewrite (Z.testbit_neg_r _ (b - pb)) by lia. simpl.
      replace (ww <? d) with true by lia. simpl. f_equal. lia.
  - rewrite Z.mod_pow2_bits_low, Z.shiftl_spec by lia.
    destruct (Z.leb_spec pb b); [done|]. rewrite Z.testbit_neg_r by lia.
    by replace (ww <? d) with false by lia.
Qed.

(** The shift moves bit [i - advance] to bit [i] and clears the low bits. *)
Lemma shiftLocked_spec bm advance :
  bitmap_ok bm -> 0 < advance ->
  exists bm', shiftLocked bm advance = Ok bm' /\ bitmap_ok bm'
    /\ forall i, 0 <= i < 2048 -> bit bm' i = (advance <=? i) && bit bm (i - advance).
Proof.
  intros Hbm Ha. unfold shiftLocked, ReplayWindowSize. destruct (Z.leb_spec 2048 advance).
  { exists zero_bitmap. split_and!; [done | apply zero_bitmap_ok |]. intros i Hi.
    rewrite bit_zero by done. by replace (advance <=? i) with false by lia. }
  unfold replayWordBits. set (ww := advance / 64). set (pb := advance mod 64).
  assert (Hadv : advance = 64 * ww + pb) by (apply Z.div_mod; lia).
  assert (Hpb : 0 <= pb < 64) by (apply Z.mod_pos_bound; lia). assert (Hww : 0 <= ww) by lia.
  destruct (shiftLocked_loop_spec bm ww pb 32 zero_bitmap) as (bm' & E & Hok & Hv);
    [done | apply zero_bitmap_ok | done | done | lia |].
  exists bm'. split_and!; [exact E | done |]. intros i Hi. unfold bit.
  set (d := i / 64). set (b := i mod 64). assert (Hib : i = 64 * d + b) by (apply Z.div_mod; lia).
  assert (Hb : 0 <= b < 64) by (apply Z.mod_pos_bound; lia). assert (Hd : 0 <= d < 32) by lia.
  clearbody d b ww pb. rewrite Hv by lia. rewrite Z2Nat.id by lia.
  destruct (Nat.ltb_spec (Z.to_nat d) 32); [|lia]. simpl. destruct (Z.leb_spec ww d); last first.
  { replace (advance <=? i) with false by lia. simpl.
    pose proof (bit_zero i Hi) as Hz. unfold bit in Hz. rewrite Hib in Hz.
    replace ((64 * d + b) / 64) with d in Hz by (Z.to_euclidean_division_equations; lia).
    replace ((64 * d + b) mod 64) with b in Hz by (Z.to_euclidean_division_equations; lia). done. }
  rewrite shifted_word_testbit by (done || lia). destruct (Z.leb_spec pb b).
  - replace (advance <=? i) with true by lia. simpl.
    replace ((i - advance) / 64) with (d - ww) by (Z.to_euclidean_division_equations; lia).
    by replace ((i - advance) mod 64) with (b - pb) by (Z.to_euclidean_division_equations; lia).
  - destruct (Z.ltb_spec ww d); simpl.
    + replace (advance <=? i) with true by lia. simpl.
      replace ((i - advance) / 64) with (d - ww - 1) by (Z.to_euclidean_division_equations; lia).
      by replace ((i - advance) mod 64) with (b + 64 - pb) by (Z.to_euclidean_division_equations; lia).
    + by replace (advance <=? i) with false by lia.
Qed.

(** ** The contract: a history of accepted packet numbers *)
Definition newest (h : list Z) : Z := foldr Z.max 0 h.

Definition verdict (h : list Z) (pn : Z) : option ReplayErr :=
  if bool_decide (h = []) || (newest h <? pn) then None
  else if 2048 <=? newest h - pn then Some ErrReplayTooOld
  else if bool_decide (pn ∈ h) then Some ErrReplayDuplicate
  else None.

Definition record (h : list Z) (pn : Z) : list Z :=
  match verdict h pn with None => pn :: h | Some _ => h end.

(** The window represents a history. *)
Record represents (w : ReplayWindow) (h : list Z) : Prop := {
  rep_bitmap : bitmap_ok (rw_bitmap w);
  rep_numbers : Forall (uint_ok 64) h;
  rep_init : rw_initialized w = negb (bool_decide (h = []));
  rep_highest : h <> [] -> rw_highest w = newest h;
  rep_bits : forall i, 0 <= i < 2048 ->
    bit (rw_bitmap w) i = negb (bool_decide (h = [])) && bool_decide (newest h - i ∈ h)
}.

Lemma newest_ge h pn : pn ∈ h -> pn <= newest h.
Proof. induction h as [|x h IH]; [set_solver|]. rewrite elem_of_cons. simpl. intros [-> | H%IH]; lia. Qed.

Lemma newest_nonneg h : 0 <= newest h.
Proof. induction h; simpl; lia. Qed.

Lemma newest_cons h pn : newest h < pn -> newest (pn :: h) = pn.
Proof. simpl. lia. Qed.

Lemma newest_cons_le h pn : pn <= newest h -> newest (pn :: h) = newest h.
Proof. simpl. lia. Qed.

Lemma bit_word0 bm i :
  bitmap_ok bm -> 0 <= i < 2048 -> bit (<[0%nat := Z.lor (bm !!! 0%nat) 1]> bm) i = bit bm i || bool_decide (i = 0).
Proof. intros Hb Hi. by apply (bit_set bm 0 i). Qed.

Lemma represents_empty : represents NewReplayWindow [].
Proof.
  constructor; simpl; [apply zero_bitmap_ok | constructor | done | done |].
  intros i Hi. by rewrite bit_zero.
Qed.

(** First packet. *)
Lemma accept_first w pn :
  represents w [] -> uint_ok 64 pn ->
  exists w', AcceptAuthenticated w pn = Ok (w', None) /\ represents w' [pn].
Proof.
  intros [Hb _ Hi _ Hz] Hpn. unfold AcceptAuthenticated. rewrite Hi. simpl.
  rewrite set_at_total by (apply Hb || lia). cbn [obind]. eexists. split; [done|].
  assert (H0 : <[0%nat := 1]> (rw_bitmap w) = <[0%nat := Z.lor ((<[0%nat := 0]> (rw_bitmap w)) !!! 0%nat) 1]> (<[0%nat := 0]> (rw_bitmap w))).
  { rewrite list_lookup_total_insert_eq by (rewrite (proj1 Hb); lia). by rewrite list_insert_insert_eq. }
  assert (Hb0 : bitmap_ok (<[0%nat := 0]> (rw_bitmap w))) by (by apply bitmap_ok_insert).
  constructor; cbn [rw_bitmap rw_initialized rw_highest]; change (Z.to_nat 0) with 0%nat.
  - by apply bitmap_ok_insert.
  - by constructor.
  - done.
  - intros _. cbn [newest foldr]. destruct Hpn. lia.
  - intros i Hi2. rewrite H0, bit_word0 by done. destruct Hpn.
    replace (bit _ i) with false; last first.
    { symmetry. unfold bit. destruct (decide (i / 64 = 0)) as [E|E].
      - rewrite E, list_lookup_total_insert_eq by (rewrite (proj1 Hb); simpl; lia). apply Z.bits_0.
      - rewrite list_lookup_total_insert_ne by (Z.to_euclidean_division_equations; lia).
        specialize (Hz i Hi2). by unfold bit in Hz. }
    simpl. apply bool_decide_ext. rewrite list_elem_of_singleton. simpl. lia.
Qed.

(** A packet ahead of the window. *)
Lemma accept_ahead w h pn :
  represents w h -> h <> [] -> uint_ok 64 pn -> newest h < pn ->
  exists w', AcceptAuthenticated w pn = Ok (w', None) /\ represents w' (pn :: h).
Proof.
  intros [Hb Hn Hi Hh Hz] Hne Hpn Hlt. unfold AcceptAuthenticated.
  assert (Hnil : bool_decide (h = []) = false) by (by apply bool_decide_false).
  rewrite Hi, Hh, Hnil by done. simpl. by_test.
  destruct (shiftLocked_spec (rw_bitmap w) (pn - newest h)) as (bm & -> & Hbm & Hs); [done | lia |].
  cbn [obind]. rewrite index_total by (done || lia). cbn [obind].
  rewrite set_at_total by (apply Hbm || lia). cbn [obind]. eexists. split; [done|].
  constructor; cbn [rw_bitmap rw_initialized rw_highest].
  - apply bitmap_ok_insert; [done|]. apply uint_ok_lor; [done | apply bitmap_ok_word; [done | lia] | done].
  - by constructor.
  - done.
  - intros _. by rewrite newest_cons.
  - intros i Hi2. change (Z.to_nat 0) with 0%nat. rewrite bit_word0, Hs, newest_cons by done.
    rewrite (bool_decide_false (pn :: h = [])) by done. simpl.
    destruct (Z.leb_spec (pn - newest h) i).
    + rewrite Hz, Hnil, (bool_decide_false (i = 0)) by lia.
      simpl. rewrite orb_false_r. apply bool_decide_ext. rewrite elem_of_cons.
      replace (newest h - (i - (pn - newest h))) with (pn - i) by lia. naive_solver lia.
    + simpl. apply bool_decide_ext. rewrite elem_of_cons.
      split; [left; lia|]. intros [? | Hin]; [lia|]. apply newest_ge in Hin. lia.
Qed.

(** A packet inside or behind the window. *)
Lemma accept_behind w h pn :
  represents w h -> h <> [] -> uint_ok 64 pn -> pn <= newest h ->
  exists w', AcceptAuthenticated w pn
             = Ok (w', (fun k => mkReplayError k pn (newest h)) <$> verdict h pn)
    /\ represents w' (record h pn).
Proof.
  intros Hr Hne Hpn Hle. pose proof Hr as [Hb Hn Hi Hh Hz].
  unfold AcceptAuthenticated, record, verdict, ReplayWindowSize, replayWordBits.
  assert (Hnil : bool_decide (h = []) = false) by (by apply bool_decide_false).
  rewrite Hi, Hh, Hnil by done. simpl. by_test. destruct (Z.leb_spec 2048 (newest h - pn)); [by eexists|].
  set (delta := newest h - pn).
  assert (0 <= delta / 64 < 32) by (Z.to_euclidean_division_equations; lia).
  assert (0 <= delta mod 64 < 64) by (apply Z.mod_pos_bound; lia).
  rewrite index_total by done. cbn [obind]. rewrite land_mask, negb_involutive by lia.
  change (Z.testbit _ _) with (bit (rw_bitmap w) delta).
  rewrite (Hz delta), Hnil by lia. simpl.
  replace (newest h - delta) with pn by lia. destruct (bool_decide_reflect (pn ∈ h)); [by eexists|].
  rewrite set_at_total by (apply Hb || lia). cbn [obind]. eexists. split; [done|].
  constructor; cbn [rw_bitmap rw_initialized rw_highest].
  - apply bitmap_ok_insert; [done|]. apply uint_ok_lor; [done | | by apply uint_ok_mask].
    apply bitmap_ok_word; [done | lia].
  - by constructor.
  - done.
  - intros _. by rewrite newest_cons_le.
  - intros i Hi2. rewrite bit_set, Hz, newest_cons_le by (done || lia).
    rewrite Hnil, (bool_decide_false (pn :: h = [])) by done. simpl. rewrite <- bool_decide_or. apply bool_decide_ext. rewrite elem_of_cons. subst delta.
    split; intros [?|?]; (left + right); (done || lia).
Qed.

(** One call, whatever the window and the number. *)
Lemma accept_refines w h pn :
  represents w h -> uint_ok 64 pn ->
  exists w', AcceptAuthenticated w pn
             = Ok (w', (fun k => mkReplayError k pn (newest h)) <$> verdict h pn)
    /\ represents w' (record h pn).
Proof.
  intros Hr Hpn. destruct (decide (h = [])) as [->|Hne]; [by apply accept_first|].
  destruct (Z.lt_ge_cases (newest h) pn) as [Hlt|Hge]; [|by apply accept_behind].
  destruct (accept_ahead w h pn) as (w' & Ha & Hr'); [done.. |].
  unfold record, verdict. rewrite (bool_decide_false (h = [])) by done. simpl. by_test. by exists w'.
Qed.

(** A run of the window: every call of every goroutine, in mutex order. *)
Fixpoint accept_all (w : ReplayWindow) (pns : list Z)
  : outcome ReplayError (ReplayWindow * list (option ReplayError)) :=
  match pns with
  | [] => Ok (w, [])
  | pn :: rest =>
      let* step := AcceptAuthenticated w pn in
      let* run := accept_all (fst step) rest in
      Ok (fst run, snd step :: snd run)
  end.

Definition kinds (es : list (option ReplayError)) : list (option ReplayErr) :=
  map (option_map re_Kind) es.

Fixpoint verdicts (h : list Z) (pns : list Z) : list (option ReplayErr) :=
  match pns with
  | [] => []
  | pn :: rest => verdict h pn :: verdicts (record h pn) rest
  end.

Fixpoint history (h : list Z) (pns : list Z) : list Z :=
  match pns with
  | [] => h
  | pn :: rest => history (record h pn) rest
  end.

Lemma accept_all_refines pns : forall w h,
  represents w h -> Forall (uint_ok 64) pns ->
  exists w' es, accept_all w pns = Ok (w', es)
    /\ kinds es = verdicts h pns /\ represents w' (history h pns).
Proof.
  induction pns as [|pn pns IH]; intros w h Hr Hpns; cbn [accept_all verdicts history].
  { by exists w, []. }
  apply Forall_cons_1 in Hpns as [Hpn Hpns].
  destruct (accept_refines w h pn) as (w1 & -> & Hr1); [done.. |]. cbn [obind fst snd].
  destruct (IH w1 (record h pn)) as (w' & es & -> & He & Hr'); [done.. |]. cbn [obind fst snd].
  eexists _, _. split_and!; [done | | done]. cbn. rewrite <- He. f_equal. by destruct (verdict h pn).
Qed.

Lemma record_NoDup h pn : NoDup h -> NoDup (record h pn).
Proof.
  intros Hn. unfold record, verdict. destruct (bool_decide_reflect (h = [])) as [->|Hne]; simpl.
  { apply NoDup_singleton. }
  destruct (Z.ltb_spec (newest h) pn).
  { constructor; [|done]. intros Hin%newest_ge. lia. }
  destruct (_ <=? _); [done|]. destruct (bool_decide_reflect (pn ∈ h)); [done|]. by constructor.
Qed.

Lemma history_NoDup pns : forall h, NoDup h -> NoDup (history h pns).
Proof. induction pns as [|pn pns IH]; intros h Hn; simpl; [done|]. by apply IH, record_NoDup. Qed.

(** The numbers accepted in a run, oldest call first. *)
Fixpoint accepted (pns : list Z) (es : list (option ReplayError)) : list Z :=
  match pns, es with
  | pn :: pns, None :: es => pn :: accepted pns es
  | _ :: pns, Some _ :: es => accepted pns es
  | _, _ => []
  end.

Lemma accepted_history pns : forall h es,
  kinds es = verdicts h pns -> history h pns = reverse (accepted pns es) ++ h.
Proof.
  induction pns as [|pn pns IH]; intros h es He; [by destruct es|].
  destruct es as [|e es]; [done|]. cbn in He. injection He as He1 He2.
  apply IH in He2. cbn [history accepted]. unfold record in *.
  destruct e as [e|]; simpl in He1; rewrite <- He1 in He2 |- *; rewrite He2; [done|].
  by rewrite reverse_cons, <- app_assoc.
Qed.

(** C7: the replay window implements its contract.  Over any sequence of
    packet numbers the 32-word bitmap with its multi-word shift never panics and
    gives, call by call, the answer of the history of accepted numbers: the
    first number and every number above the newest are accepted, a number 2048
    or more behind the newest is too old, any other is accepted exactly when it
    has not been accepted before; errors carry the number and the newest. *)
Theorem replay_refines_history w h pn :
  represents w h -> uint_ok 64 pn ->
  exists w', AcceptAuthenticated w pn
             = Ok (w', (fun k => mkReplayError k pn (newest h)) <$> verdict h pn)
    /\ represents w' (record h pn).
Proof. apply accept_refines. Qed.

Lemma replay_refines_history_witness :
  exists w', AcceptAuthenticated NewReplayWindow 5 = Ok (w', None) /\ represents w' [5].
Proof.
  destruct (replay_refines_history NewReplayWindow [] 5) as (w' & Ha & Hr);
    [exact represents_empty | apply (bool_decide_unpack _); vm_compute; exact I |].
  exists w'. split; [exact Ha | exact Hr].
Defined.

(** No packet number is accepted twice, over any sequence of calls on a
    new window: replays are rejected for the life of the session. *)
Theorem replay_never_twice pns :
  Forall (uint_ok 64) pns ->
  exists w es, accept_all NewReplayWindow pns = Ok (w, es)
    /\ length es = length pns /\ NoDup (accepted pns es).
Proof.
  intros Hpns. destruct (accept_all_refines pns NewReplayWindow []) as (w & es & Ha & He & _);
    [apply represents_empty | done |].
  exists w, es. split_and!; [done | |].
  - rewrite <- (length_map (option_map re_Kind)). fold (kinds es). rewrite He. clear. generalize (@nil Z) as h.
    induction pns; intros h; simpl; auto.
  - apply accepted_history in He. rewrite app_nil_r in He.
    rewrite <- (reverse_Permutation (accepted pns es)), <- He. apply history_NoDup. constructor.
Qed.

Lemma replay_never_twice_witness :
  exists w es, accept_all NewReplayWindow [5; 9; 5; 3000; 9; 2999] = Ok (w, es)
    /\ NoDup (accepted [5; 9; 5; 3000; 9; 2999] es).
Proof.
  destruct (replay_never_twice [5; 9; 5; 3000; 9; 2999]) as (w & es & Ha & _ & Hn);
    [apply (bool_decide_unpack _); vm_compute; exact I|].
  exists w, es. split; [exact Ha | exact Hn].
Defined.

(** [Precheck], run before authentication, is exact for age: on a reachable
    window it refuses a number precisely when [AcceptAuthenticated] would answer
    "too old", so it never drops a packet that could still be accepted. *)
Theorem precheck_exact w h pn :
  represents w h -> uint_ok 64 pn ->
  Precheck w pn = false <->
  exists e, AcceptAuthenticated w pn = Ok (w, Some e) /\ re_Kind e = ErrReplayTooOld.
Proof.
  intros Hr Hpn. destruct (accept_refines w h pn Hr Hpn) as (w' & Ha & Hr').
  rewrite Ha. unfold Precheck, ReplayWindowSize, verdict in *. pose proof Hr as [_ _ Hi Hh _].
  rewrite Hi. destruct (bool_decide_reflect (h = [])) as [->|Hne]; simpl; [naive_solver|].
  rewrite Hh by done. simpl in *. destruct (Z.ltb_spec (newest h) pn); [naive_solver|].
  destruct (Z.leb_spec 2048 (newest h - pn)).
  - replace (newest h - pn <? 2048) with false by lia. split; [|done]. intros _.
    unfold AcceptAuthenticated, ReplayWindowSize in Ha. rewrite Hi, Hh in Ha by done.
    simpl in Ha.
    replace (newest h <? pn) with false in Ha by lia.
    replace (2048 <=? newest h - pn) with true in Ha by lia. injection Ha as <-. by eexists.
  - replace (newest h - pn <? 2048) with true by lia. split; [done|].
    destruct (bool_decide _); naive_solver.
Qed.

Lemma precheck_exact_witness :
  exists w e, AcceptAuthenticated NewReplayWindow 5000 = Ok (w, None)
    /\ AcceptAuthenticated w 7 = Ok (w, Some e) /\ re_Kind e = ErrReplayTooOld.
Proof.
  destruct (accept_first NewReplayWindow 5000) as (w & Ha & Hr);
    [exact represents_empty | apply (bool_decide_unpack _); vm_compute; exact I |].
  destruct (precheck_exact w [5000] 7 Hr) as [H _]; [apply (bool_decide_unpack _); vm_compute; exact I|].
  destruct H as (e & He & Hk).
  - unfold Precheck. rewrite (rep_init _ _ Hr), (rep_highest _ _ Hr) by done. reflexivity.
  - exists w, e. split; [exact Ha | split; [exact He | exact Hk]].
Defined.

(** ** The allocator *)
Fixpoint Next_all (n : nat) (p : PacketNumbers) : list (Z + ReplayErr) :=
  match n with
  | O => []
  | S n => let '(p, r) := PacketNumbers_Next p in r :: Next_all n p
  end.

(** The answer to call [i] of an allocator started at [first]. *)
Definition allocation (first i : Z) : Z + ReplayErr :=
  if first + i <=? MaxUint64 then inl (first + i) else inr ErrPacketNumberExhausted.

Lemma Next_all_exhausted n p : pn_exhausted p = true ->
  Next_all n p = replicate n (inr ErrPacketNumberExhausted).
Proof.
  revert p. induction n as [|n IH]; intros p Hp; [done|]. cbn [Next_all].
  unfold PacketNumbers_Next. rewrite Hp. simpl. by rewrite IH.
Qed.

Lemma Next_all_lookup n first i :
  uint_ok 64 first -> (i < n)%nat ->
  Next_all n (NewPacketNumbers first) !! i = Some (allocation first (Z.of_nat i)).
Proof.
  unfold NewPacketNumbers. revert first i. induction n as [|n IH]; intros first i Hf Hi; [lia|].
  cbn [Next_all]. unfold PacketNumbers_Next, allocation, MaxUint64, uint_ok in *. simpl.
  destruct (Z.eqb_spec first (2 ^ 64 - 1)) as [E|E].
  - destruct i as [|i]; simpl.
    + rewrite Z.add_0_r. by replace (first <=? _) with true by lia.
    + rewrite Next_all_exhausted by done.
      replace (first + Z.of_nat (S i) <=? 2 ^ 64 - 1) with false by lia.
      apply lookup_replicate. split; [done | lia].
  - destruct i as [|i]; simpl.
    + rewrite Z.add_0_r. by replace (first <=? _) with true by lia.
    + unfold u64. rewrite Z.mod_small by lia. rewrite IH by lia.
      by replace (first + 1 + Z.of_nat i) with (first + Z.of_nat (S i)) by lia.
Qed.

(** [Next] hands out [first], [first + 1], ... up to 2^64 - 1, each exactly
    once and never wrapping, and then refuses for ever: no nonce is used twice. *)
Theorem packet_numbers_sequence n first i :
  uint_ok 64 first -> (i < n)%nat ->
  Next_all n (NewPacketNumbers first) !! i = Some (allocation first (Z.of_nat i)).
Proof. apply Next_all_lookup. Qed.

Lemma packet_numbers_sequence_witness :
  Next_all 3 (NewPacketNumbers (2 ^ 64 - 2)) !! 2%nat = Some (inr ErrPacketNumberExhausted).
Proof.
  rewrite (packet_numbers_sequence 3 (2 ^ 64 - 2) 2);
    [reflexivity | apply (bool_decide_unpack _); vm_compute; exact I | lia].
Defined.
