(* ===== verification/SessionState.v ===== *)
(** * Roles, states, events and timeouts of a session (internal/session/state.go)

    The transition table of the two roles, the timeout policy with its
    validation, and the bounded exponential backoff of retransmissions.
    Durations are Go's [int64] nanoseconds, kept at their width where they are
    multiplied. *)

From stdpp Require Import base list numbers.
From S2P Require Import Prelude.
Local Open Scope Z_scope.

(** [Role] is a [uint8]: the two named values, and any other number. *)
Inductive Role : Set :=
| RoleClient
| RoleServer
| role_other (n : Z).

#[global] Instance Role_eq_dec : EqDecision Role.
Proof. solve_decision. Defined.

Definition Role_valid (r : Role) : bool :=
  match r with RoleClient | RoleServer => true | role_other _ => false end.

Inductive State : Set :=
| StateIdle
| StateInitialSent
| StatePendingConfirm
| StateEstablished
| StateRekeying
| StateDraining
| StateClosed.

#[global] Instance State_eq_dec : EqDecision State.
Proof. solve_decision. Defined.

Inductive Event : Set :=
| EventBeginHandshake
| EventRetryReceived
| EventRetransmitInitial
| EventHandshakeComplete
| EventIssuePing
| EventRetransmitPing
| EventPong
| EventConfirmPing
| EventActivity
| EventBeginRekey
| EventBeginDrain
| EventTimeout
| EventClose.

#[global] Instance Event_eq_dec : EqDecision Event.
Proof. solve_decision. Defined.

(** The sentinel errors and the error structs with their fields. *)
Inductive SessionErr : Set :=
| ErrInvalidRole
| ErrInvalidPolicy
| ErrTimeRegression
| ErrStateTimedOut
| ErrRetriesExhausted
| ErrPingOutstanding
| ErrNoOutstandingPing
| ErrConfirmGraceExpired
| TransitionError (role : Role) (from : State) (event : Event)
| PongMismatchError (expected received : Z)
| ConfirmMismatchError (expected received : Z).

#[global] Instance SessionErr_eq_dec : EqDecision SessionErr.
Proof. solve_decision. Defined.

(** ** Timeouts *)
Record TimeoutPolicy : Set := mkTimeoutPolicy {
  InitialSent : Z;
  PendingConfirm : Z;
  EstablishedIdle : Z;
  PathValidation : Z;
  Draining : Z;
  RetryToken : Z;
  ConfirmGrace : Z;
  InitialRetryBase : Z;
  ControlRetryBase : Z;
  MaxRetryBackoff : Z;
  MaxInitialRetries : Z;
  MaxControlRetries : Z
}.

Definition Millisecond : Z := 1000000.
Definition Second : Z := 1000 * Millisecond.
Definition Minute : Z := 60 * Second.

Definition DefaultTimeoutPolicy : TimeoutPolicy := {|
  InitialSent := 10 * Second;
  PendingConfirm := 5 * Second;
  EstablishedIdle := 5 * Minute;
  PathValidation := 3 * Second;
  Draining := 30 * Second;
  RetryToken := 30 * Second;
  ConfirmGrace := 10 * Second;
  InitialRetryBase := 500 * Millisecond;
  ControlRetryBase := 500 * Millisecond;
  MaxRetryBackoff := 4 * Second;
  MaxInitialRetries := 3;
  MaxControlRetries := 3
|}.

Definition policy_durations (p : TimeoutPolicy) : list Z :=
  [InitialSent p; PendingConfirm p; EstablishedIdle p; PathValidation p; Draining p;
   RetryToken p; ConfirmGrace p; InitialRetryBase p; ControlRetryBase p; MaxRetryBackoff p].

(** The loop over [durations]: the first non-positive one is the error. *)
Fixpoint check_durations (durations : list Z) : option SessionErr :=
  match durations with
  | [] => None
  | value :: rest => if value <=? 0 then Some ErrInvalidPolicy else check_durations rest
  end.

Definition TimeoutPolicy_Validate (p : TimeoutPolicy) : option SessionErr :=
  match check_durations (policy_durations p) with
  | Some e => Some e
  | None =>
      if (MaxInitialRetries p =? 0) || (MaxControlRetries p =? 0) then Some ErrInvalidPolicy
      else if (MaxRetryBackoff p <? InitialRetryBase p) || (MaxRetryBackoff p <? ControlRetryBase p)
      then Some ErrInvalidPolicy
      else None
  end.

(** The loop of [boundedBackoff], [steps] iterations to go; [inl] is the early
    return.  Go's division of durations truncates. *)
Fixpoint boundedBackoff_loop (steps : nat) (delay maximum : Z) : Z + Z :=
  match steps with
  | O => inr delay
  | S steps =>
      if (maximum <=? delay) || (Z.quot maximum 2 <? delay) then inl maximum
      else boundedBackoff_loop steps (i64 (delay * 2)) maximum
  end.

Definition boundedBackoff (base retry maximum : Z) : Z :=
  match boundedBackoff_loop (Z.to_nat retry) base maximum with
  | inl early => early
  | inr delay => if maximum <? delay then maximum else delay
  end.

Definition initialBackoff (p : TimeoutPolicy) (retry : Z) : Z :=
  boundedBackoff (InitialRetryBase p) retry (MaxRetryBackoff p).
Definition controlBackoff (p : TimeoutPolicy) (retry : Z) : Z :=
  boundedBackoff (ControlRetryBase p) retry (MaxRetryBackoff p).

(** ** The transition table; [None] is [(0, false)]. *)
Definition nextState (role : Role) (from : State) (event : Event) : option State :=
  match event with
  | EventClose => Some StateClosed
  | _ =>
      match role with
      | RoleClient =>
          match from with
          | StateIdle =>
              match event with EventBeginHandshake => Some StateInitialSent | _ => None end
          | StateInitialSent =>
              match event with
              | EventRetryReceived | EventRetransmitInitial => Some StateInitialSent
              | EventHandshakeComplete => Some StatePendingConfirm
              | EventTimeout => Some StateClosed
              | _ => None
              end
          | StatePendingConfirm =>
              match event with
              | EventIssuePing | EventRetransmitPing => Some StatePendingConfirm
              | EventPong => Some StateEstablished
              | EventTimeout => Some StateClosed
              | _ => None
              end
          | StateEstablished =>
              match event with
              | EventActivity => Some StateEstablished
              | EventBeginRekey => Some StateRekeying
              | EventBeginDrain | EventTimeout => Some StateDraining
              | _ => None
              end
          | StateRekeying =>
              match event with
              | EventHandshakeComplete | EventIssuePing | EventRetransmitPing => Some StateRekeying
              | EventPong => Some StateEstablished
              | EventBeginDrain | EventTimeout => Some StateDraining
              | _ => None
              end
          | StateDraining => match event with EventTimeout => Some StateClosed | _ => None end
          | StateClosed => None
          end
      | RoleServer =>
          match from with
          | StateIdle =>
              match event with EventHandshakeComplete => Some StatePendingConfirm | _ => None end
          | StatePendingConfirm =>
              match event with
              | EventConfirmPing => Some StateEstablished
              | EventTimeout => Some StateClosed
              | _ => None
              end
          | StateEstablished =>
              match event with
              | EventActivity | EventConfirmPing => Some StateEstablished
              | EventBeginRekey => Some StateRekeying
              | EventBeginDrain | EventTimeout => Some StateDraining
              | _ => None
              end
          | StateRekeying =>
              match event with
              | EventHandshakeComplete => Some StateRekeying
              | EventConfirmPing => Some StateEstablished
              | EventBeginDrain | EventTimeout => Some StateDraining
              | _ => None
              end
          | StateDraining => match event with EventTimeout => Some StateClosed | _ => None end
          | StateInitialSent | StateClosed => None
          end
      | role_other _ => None
      end
  end.

(** ** What a validated policy guarantees *)
Record policy_ok (p : TimeoutPolicy) : Prop := {
  pol_InitialSent : 0 < InitialSent p;
  pol_PendingConfirm : 0 < PendingConfirm p;
  pol_EstablishedIdle : 0 < EstablishedIdle p;
  pol_Draining : 0 < Draining p;
  pol_ConfirmGrace : 0 < ConfirmGrace p;
  pol_InitialRetryBase : 0 < InitialRetryBase p <= MaxRetryBackoff p;
  pol_ControlRetryBase : 0 < ControlRetryBase p <= MaxRetryBackoff p;
  pol_MaxInitialRetries : MaxInitialRetries p <> 0;
  pol_MaxControlRetries : MaxControlRetries p <> 0
}.

Lemma Validate_ok p : TimeoutPolicy_Validate p = None -> policy_ok p.
Proof.
  unfold TimeoutPolicy_Validate, policy_durations. cbn [check_durations]. intros H.
  repeat match type of H with
  | context [if ?b then _ else _] => let E := fresh "E" in destruct b eqn:E; [discriminate H|]
  end. constructor; lia.
Qed.

(** The field ranges of the Go struct: [int64] durations, [uint8] limits. *)
Definition policy_typed (p : TimeoutPolicy) : Prop :=
  Forall (fun d => - 2 ^ 63 <= d < 2 ^ 63) (policy_durations p)
  /\ uint_ok 8 (MaxInitialRetries p) /\ uint_ok 8 (MaxControlRetries p).
#[global] Instance policy_typed_dec p : Decision (policy_typed p).
Proof. unfold policy_typed. apply _. Defined.

Lemma boundedBackoff_loop_spec steps : forall delay maximum,
  0 < delay <= maximum -> maximum < 2 ^ 63 ->
  match boundedBackoff_loop steps delay maximum with
  | inl early => early = maximum /\ maximum <= delay * 2 ^ Z.of_nat steps
  | inr d => d = delay * 2 ^ Z.of_nat steps /\ d <= maximum
  end.
Proof.
  induction steps as [|n IH]; intros delay maximum Hd Hm; cbn [boundedBackoff_loop]; [lia|].
  assert (0 < 2 ^ Z.of_nat n) by lia.
  replace (2 ^ Z.of_nat (S n)) with (2 * 2 ^ Z.of_nat n)
    by (rewrite Nat2Z.inj_succ, Z.pow_succ_r; lia).
  destruct ((_ <=? _) || _) eqn:E.
  - split; [done|]. Z.to_euclidean_division_equations. nia.
  - assert (delay * 2 <= maximum) by (Z.to_euclidean_division_equations; lia).
    rewrite i64_small by lia. rewrite Z.mul_assoc. apply IH; lia.
Qed.

(** The retransmission delay is the base doubled per retry and capped:
    [min (base * 2^retry) maximum], for every [uint8] retry count, with no
    overflow of the [int64] product on the way. *)
Theorem boundedBackoff_exact base retry maximum :
  0 < base <= maximum -> maximum < 2 ^ 63 -> uint_ok 8 retry ->
  boundedBackoff base retry maximum = Z.min (base * 2 ^ retry) maximum.
Proof.
  intros Hb Hm [Hr _]. unfold boundedBackoff.
  pose proof (boundedBackoff_loop_spec (Z.to_nat retry) base maximum Hb Hm) as H.
  rewrite Z2Nat.id in H by done. destruct (boundedBackoff_loop _ _ _) as [e|d].
  - lia.
  - destruct (maximum <? d) eqn:E; lia.
Qed.

Lemma boundedBackoff_exact_witness :
  boundedBackoff (500 * Millisecond) 255 (4 * Second) = 4 * Second.
Proof.
  rewrite (boundedBackoff_exact (500 * Millisecond) 255 (4 * Second));
    [reflexivity | unfold Second, Millisecond; lia.. | apply (bool_decide_unpack _); vm_compute; exact I].
Defined.
