(* ===== verification/Machine.v ===== *)
(** * The session state machine (internal/session/machine.go)

    Every method of [Machine] as an operation of a state-and-error monad: the
    guards in the order of the code, then the field updates.  Each method
    runs under the machine's mutex, so an interleaving of goroutines is a
    sequence of operations.  A [time.Time] is its nanoseconds since the zero
    time, which is 0 ([IsZero]); [Add] is exact. *)

From stdpp Require Import base list numbers.
From S2P Require Import Prelude SessionState.
Local Open Scope Z_scope.

Record Machine : Set := mkMachine {
  role : Role;
  state : State;
  policy : TimeoutPolicy;
  enteredAt : Z;
  lastEventAt : Z;
  deadline : Z;
  initialRetries : Z;
  controlRetries : Z;
  hasOutstandingPing : bool;
  outstandingPingID : Z;
  rekeyHandshakeReady : bool;
  hasLastConfirmID : bool;
  lastConfirmID : Z;
  confirmGraceUntil : Z
}.

(** ** Operations on a machine *)
Definition op (A : Type) : Type := Machine -> Machine * (A + SessionErr).

Definition op_ret {A} (a : A) : op A := fun m => (m, inl a).
Definition op_fail {A} (e : SessionErr) : op A := fun m => (m, inr e).
Definition op_bind {A B} (x : op A) (k : A -> op B) : op B := fun m =>
  match x m with
  | (m, inl a) => k a m
  | (m, inr e) => (m, inr e)
  end.
Definition op_get : op Machine := fun m => (m, inl m).
Definition op_update (f : Machine -> Machine) : op unit := fun m => (f m, inl tt).
Definition op_guard (bad : bool) (e : SessionErr) : op unit :=
  if bad then op_fail e else op_ret tt.

Declare Scope op_scope.
Delimit Scope op_scope with op.
Notation "'read' m ; k" := (op_bind op_get (fun m => k))
  (at level 10, m name, k at level 200) : op_scope.
Notation "'get' x := c ; k" := (op_bind c (fun x => k))
  (at level 10, x name, c at level 100, k at level 200) : op_scope.
Notation "'run' c ; k" := (op_bind c (fun _ => k))
  (at level 10, c at level 100, k at level 200) : op_scope.
Local Open Scope op_scope.

(** Assignments to fields. *)
Definition set_state (s : State) (m : Machine) : Machine :=
  mkMachine (role m) s (policy m) (enteredAt m) (lastEventAt m) (deadline m)
    (initialRetries m) (controlRetries m) (hasOutstandingPing m) (outstandingPingID m)
    (rekeyHandshakeReady m) (hasLastConfirmID m) (lastConfirmID m) (confirmGraceUntil m).
Definition set_enteredAt (t : Z) (m : Machine) : Machine :=
  mkMachine (role m) (state m) (policy m) t (lastEventAt m) (deadline m)
    (initialRetries m) (controlRetries m) (hasOutstandingPing m) (outstandingPingID m)
    (rekeyHandshakeReady m) (hasLastConfirmID m) (lastConfirmID m) (confirmGraceUntil m).
Definition set_lastEventAt (t : Z) (m : Machine) : Machine :=
  mkMachine (role m) (state m) (policy m) (enteredAt m) t (deadline m)
    (initialRetries m) (controlRetries m) (hasOutstandingPing m) (outstandingPingID m)
    (rekeyHandshakeReady m) (hasLastConfirmID m) (lastConfirmID m) (confirmGraceUntil m).
Definition set_deadline (t : Z) (m : Machine) : Machine :=
  mkMachine (role m) (state m) (policy m) (enteredAt m) (lastEventAt m) t
    (initialRetries m) (controlRetries m) (hasOutstandingPing m) (outstandingPingID m)
    (rekeyHandshakeReady m) (hasLastConfirmID m) (lastConfirmID m) (confirmGraceUntil m).
Definition set_initialRetries (n : Z) (m : Machine) : Machine :=
  mkMachine (role m) (state m) (policy m) (enteredAt m) (lastEventAt m) (deadline m)
    n (controlRetries m) (hasOutstandingPing m) (outstandingPingID m)
    (rekeyHandshakeReady m) (hasLastConfirmID m) (lastConfirmID m) (confirmGraceUntil m).
Definition set_controlRetries (n : Z) (m : Machine) : Machine :=
  mkMachine (role m) (state m) (policy m) (enteredAt m) (lastEventAt m) (deadline m)
    (initialRetries m) n (hasOutstandingPing m) (outstandingPingID m)
    (rekeyHandshakeReady m) (hasLastConfirmID m) (lastConfirmID m) (confirmGraceUntil m).
Definition set_ping (has : bool) (id : Z) (m : Machine) : Machine :=
  mkMachine (role m) (state m) (policy m) (enteredAt m) (lastEventAt m) (deadline m)
    (initialRetries m) (controlRetries m) has id
    (rekeyHandshakeReady m) (hasLastConfirmID m) (lastConfirmID m) (confirmGraceUntil m).
Definition set_rekeyHandshakeReady (b : bool) (m : Machine) : Machine :=
  mkMachine (role m) (state m) (policy m) (enteredAt m) (lastEventAt m) (deadline m)
    (initialRetries m) (controlRetries m) (hasOutstandingPing m) (outstandingPingID m)
    b (hasLastConfirmID m) (lastConfirmID m) (confirmGraceUntil m).
Definition set_lastConfirm (id grace : Z) (m : Machine) : Machine :=
  mkMachine (role m) (state m) (policy m) (enteredAt m) (lastEventAt m) (deadline m)
    (initialRetries m) (controlRetries m) (hasOutstandingPing m) (outstandingPingID m)
    (rekeyHandshakeReady m) true id grace.

(** ** The methods *)
Definition NewMachine (r : Role) (p : TimeoutPolicy) (now : Z) : Machine + SessionErr :=
  if negb (Role_valid r) then inr ErrInvalidRole
  else match TimeoutPolicy_Validate p with
  | Some e => inr e
  | None => inl (mkMachine r StateIdle p now now 0 0 0 false 0 false false 0 0)
  end.

Definition NewDefaultMachine (r : Role) (now : Z) : Machine + SessionErr :=
  NewMachine r DefaultTimeoutPolicy now.

Definition requireTimeLocked (now : Z) : op unit :=
  read m; op_guard (now <? lastEventAt m) ErrTimeRegression.

Definition requireBeforeDeadlineLocked (now : Z) : op unit :=
  read m; op_guard (negb (deadline m =? 0) && negb (now <? deadline m)) ErrStateTimedOut.

Definition requireEventLocked (event : Event) : op State :=
  read m;
  match nextState (role m) (state m) event with
  | Some next => op_ret next
  | None => op_fail (TransitionError (role m) (state m) event)
  end.

Definition clearPingLocked (m : Machine) : Machine :=
  set_controlRetries 0 (set_ping false 0 m).

Definition setStateLocked (next : State) (now : Z) (m : Machine) : Machine :=
  let m := set_lastEventAt now (set_enteredAt now (set_state next m)) in
  match next with
  | StateIdle => set_deadline 0 m
  | StateInitialSent =>
      clearPingLocked (set_initialRetries 0 (set_deadline (now + InitialSent (policy m)) m))
  | StatePendingConfirm =>
      clearPingLocked (set_controlRetries 0 (set_deadline (now + PendingConfirm (policy m)) m))
  | StateEstablished =>
      set_rekeyHandshakeReady false (set_deadline (now + EstablishedIdle (policy m)) m)
  | StateRekeying =>
      clearPingLocked (set_controlRetries 0 (set_rekeyHandshakeReady false
        (set_deadline (now + PendingConfirm (policy m)) m)))
  | StateDraining =>
      clearPingLocked (set_rekeyHandshakeReady false (set_deadline (now + Draining (policy m)) m))
  | StateClosed => clearPingLocked (set_rekeyHandshakeReady false (set_deadline 0 m))
  end.

Definition BeginHandshake (now : Z) : op unit :=
  run requireTimeLocked now;
  get next := requireEventLocked EventBeginHandshake;
  op_update (setStateLocked next now).

Definition HandleRetry (now : Z) : op unit :=
  run requireTimeLocked now;
  run requireBeforeDeadlineLocked now;
  run requireEventLocked EventRetryReceived;
  op_update (fun m => set_lastEventAt now (set_initialRetries 0 m)).

Definition RecordInitialRetransmission (now : Z) : op Z :=
  run requireTimeLocked now;
  run requireBeforeDeadlineLocked now;
  run requireEventLocked EventRetransmitInitial;
  read m;
  run op_guard (MaxInitialRetries (policy m) <=? initialRetries m) ErrRetriesExhausted;
  let delay := initialBackoff (policy m) (initialRetries m) in
  run op_update (fun m => set_lastEventAt now (set_initialRetries (u8 (initialRetries m + 1)) m));
  op_ret delay.

Definition HandshakeComplete (now : Z) : op unit :=
  run requireTimeLocked now;
  run requireBeforeDeadlineLocked now;
  get next := requireEventLocked EventHandshakeComplete;
  read m;
  if bool_decide (state m = StateRekeying) then
    op_update (fun m => set_lastEventAt now (set_deadline (now + PendingConfirm (policy m))
      (clearPingLocked (set_rekeyHandshakeReady true m))))
  else op_update (setStateLocked next now).

Definition IssuePing (operationID now : Z) : op unit :=
  run requireTimeLocked now;
  run requireBeforeDeadlineLocked now;
  run requireEventLocked EventIssuePing;
  read m;
  run op_guard (bool_decide (state m = StateRekeying) && negb (rekeyHandshakeReady m))
        (TransitionError (role m) (state m) EventIssuePing);
  run op_guard (hasOutstandingPing m) ErrPingOutstanding;
  op_update (fun m => set_lastEventAt now (set_controlRetries 0 (set_ping true operationID m))).

Definition RecordPingRetransmission (operationID now : Z) : op Z :=
  run requireTimeLocked now;
  run requireBeforeDeadlineLocked now;
  run requireEventLocked EventRetransmitPing;
  read m;
  run op_guard (negb (hasOutstandingPing m)) ErrNoOutstandingPing;
  run op_guard (negb (operationID =? outstandingPingID m))
        (PongMismatchError (outstandingPingID m) operationID);
  run op_guard (MaxControlRetries (policy m) <=? controlRetries m) ErrRetriesExhausted;
  let delay := controlBackoff (policy m) (controlRetries m) in
  run op_update (fun m => set_lastEventAt now (set_controlRetries (u8 (controlRetries m + 1)) m));
  op_ret delay.

Definition AcceptPong (operationID now : Z) : op unit :=
  run requireTimeLocked now;
  run requireBeforeDeadlineLocked now;
  get next := requireEventLocked EventPong;
  read m;
  run op_guard (negb (hasOutstandingPing m)) ErrNoOutstandingPing;
  run op_guard (negb (operationID =? outstandingPingID m))
        (PongMismatchError (outstandingPingID m) operationID);
  op_update (fun m => setStateLocked next now (clearPingLocked m)).

Definition AcceptConfirmPing (operationID now : Z) : op bool :=
  run requireTimeLocked now;
  run requireBeforeDeadlineLocked now;
  get next := requireEventLocked EventConfirmPing;
  read m;
  run op_guard (bool_decide (state m = StateRekeying) && negb (rekeyHandshakeReady m))
        (TransitionError (role m) (state m) EventConfirmPing);
  if bool_decide (state m = StateEstablished) then
    run op_guard (negb (hasLastConfirmID m) || negb (operationID =? lastConfirmID m))
          (ConfirmMismatchError (lastConfirmID m) operationID);
    run op_guard (confirmGraceUntil m <? now) ErrConfirmGraceExpired;
    run op_update (fun m => set_deadline (now + EstablishedIdle (policy m)) (set_lastEventAt now m));
    op_ret true
  else
    run op_update (fun m => setStateLocked next now
          (set_lastConfirm operationID (now + ConfirmGrace (policy m)) m));
    op_ret false.

Definition BeginRekey (now : Z) : op unit :=
  run requireTimeLocked now;
  run requireBeforeDeadlineLocked now;
  get next := requireEventLocked EventBeginRekey;
  op_update (setStateLocked next now).

Definition Touch (now : Z) : op unit :=
  run requireTimeLocked now;
  run requireBeforeDeadlineLocked now;
  run requireEventLocked EventActivity;
  op_update (fun m => set_deadline (now + EstablishedIdle (policy m)) (set_lastEventAt now m)).

Definition BeginDrain (now : Z) : op unit :=
  run requireTimeLocked now;
  get next := requireEventLocked EventBeginDrain;
  op_update (setStateLocked next now).

Definition CheckTimeout (now : Z) : op bool :=
  run requireTimeLocked now;
  read m;
  if (deadline m =? 0) || (now <? deadline m) then op_ret false
  else
    get next := requireEventLocked EventTimeout;
    run op_update (setStateLocked next now);
    op_ret true.

Definition Machine_Close (now : Z) : op unit :=
  run requireTimeLocked now;
  read m;
  if bool_decide (state m = StateClosed) then op_ret tt
  else
    get next := requireEventLocked EventClose;
    op_update (setStateLocked next now).

(** ** Calls as data: the steps of a run *)
Inductive Call : Set :=
| CallBeginHandshake (now : Z)
| CallHandleRetry (now : Z)
| CallRecordInitialRetransmission (now : Z)
| CallHandshakeComplete (now : Z)
| CallIssuePing (operationID now : Z)
| CallRecordPingRetransmission (operationID now : Z)
| CallAcceptPong (operationID now : Z)
| CallAcceptConfirmPing (operationID now : Z)
| CallBeginRekey (now : Z)
| CallTouch (now : Z)
| CallBeginDrain (now : Z)
| CallCheckTimeout (now : Z)
| CallClose (now : Z).

(** What a call returns, besides its error. *)
Inductive Reply : Set :=
| Done
| Delay (d : Z)
| Flag (b : bool).

Definition op_map {A B} (f : A -> B) (x : op A) : op B := op_bind x (fun a => op_ret (f a)).

Definition perform (c : Call) : op Reply :=
  match c with
  | CallBeginHandshake now => op_map (fun _ => Done) (BeginHandshake now)
  | CallHandleRetry now => op_map (fun _ => Done) (HandleRetry now)
  | CallRecordInitialRetransmission now => op_map Delay (RecordInitialRetransmission now)
  | CallHandshakeComplete now => op_map (fun _ => Done) (HandshakeComplete now)
  | CallIssuePing id now => op_map (fun _ => Done) (IssuePing id now)
  | CallRecordPingRetransmission id now => op_map Delay (RecordPingRetransmission id now)
  | CallAcceptPong id now => op_map (fun _ => Done) (AcceptPong id now)
  | CallAcceptConfirmPing id now => op_map Flag (AcceptConfirmPing id now)
  | CallBeginRekey now => op_map (fun _ => Done) (BeginRekey now)
  | CallTouch now => op_map (fun _ => Done) (Touch now)
  | CallBeginDrain now => op_map (fun _ => Done) (BeginDrain now)
  | CallCheckTimeout now => op_map Flag (CheckTimeout now)
  | CallClose now => op_map (fun _ => Done) (Machine_Close now)
  end.

(** ** The steps as a relation *)
Definition in_order (m : Machine) (now : Z) : Prop := lastEventAt m <= now.
Definition in_time (m : Machine) (now : Z) : Prop := deadline m = 0 \/ now < deadline m.
Definition fires (m : Machine) (event : Event) (next : State) : Prop :=
  nextState (role m) (state m) event = Some next.

Inductive step (m : Machine) : Call -> Machine -> Reply -> Prop :=
| step_begin_handshake now next :
    in_order m now -> fires m EventBeginHandshake next ->
    step m (CallBeginHandshake now) (setStateLocked next now m) Done
| step_retry now next :
    in_order m now -> in_time m now -> fires m EventRetryReceived next ->
    step m (CallHandleRetry now) (set_lastEventAt now (set_initialRetries 0 m)) Done
| step_retransmit_initial now next :
    in_order m now -> in_time m now -> fires m EventRetransmitInitial next ->
    initialRetries m < MaxInitialRetries (policy m) ->
    step m (CallRecordInitialRetransmission now)
      (set_lastEventAt now (set_initialRetries (u8 (initialRetries m + 1)) m))
      (Delay (initialBackoff (policy m) (initialRetries m)))
| step_complete_rekey now next :
    in_order m now -> in_time m now -> fires m EventHandshakeComplete next ->
    state m = StateRekeying ->
    step m (CallHandshakeComplete now)
      (set_lastEventAt now (set_deadline (now + PendingConfirm (policy m))
        (clearPingLocked (set_rekeyHandshakeReady true m)))) Done
| step_complete now next :
    in_order m now -> in_time m now -> fires m EventHandshakeComplete next ->
    state m <> StateRekeying ->
    step m (CallHandshakeComplete now) (setStateLocked next now m) Done
| step_issue_ping id now next :
    in_order m now -> in_time m now -> fires m EventIssuePing next ->
    (state m = StateRekeying -> rekeyHandshakeReady m = true) -> hasOutstandingPing m = false ->
    step m (CallIssuePing id now)
      (set_lastEventAt now (set_controlRetries 0 (set_ping true id m))) Done
| step_retransmit_ping now next :
    in_order m now -> in_time m now -> fires m EventRetransmitPing next ->
    hasOutstandingPing m = true -> controlRetries m < MaxControlRetries (policy m) ->
    step m (CallRecordPingRetransmission (outstandingPingID m) now)
      (set_lastEventAt now (set_controlRetries (u8 (controlRetries m + 1)) m))
      (Delay (controlBackoff (policy m) (controlRetries m)))
| step_pong now next :
    in_order m now -> in_time m now -> fires m EventPong next -> hasOutstandingPing m = true ->
    step m (CallAcceptPong (outstandingPingID m) now)
      (setStateLocked next now (clearPingLocked m)) Done
| step_confirm_duplicate now next :
    in_order m now -> in_time m now -> fires m EventConfirmPing next ->
    state m = StateEstablished -> hasLastConfirmID m = true -> now <= confirmGraceUntil m ->
    step m (CallAcceptConfirmPing (lastConfirmID m) now)
      (set_deadline (now + EstablishedIdle (policy m)) (set_lastEventAt now m)) (Flag true)
| step_confirm id now next :
    in_order m now -> in_time m now -> fires m EventConfirmPing next ->
    state m <> StateEstablished -> (state m = StateRekeying -> rekeyHandshakeReady m = true) ->
    step m (CallAcceptConfirmPing id now)
      (setStateLocked next now (set_lastConfirm id (now + ConfirmGrace (policy m)) m)) (Flag false)
| step_rekey now next :
    in_order m now -> in_time m now -> fires m EventBeginRekey next ->
    step m (CallBeginRekey now) (setStateLocked next now m) Done
| step_touch now next :
    in_order m now -> in_time m now -> fires m EventActivity next ->
    step m (CallTouch now) (set_deadline (now + EstablishedIdle (policy m)) (set_lastEventAt now m)) Done
| step_drain now next :
    in_order m now -> fires m EventBeginDrain next ->
    step m (CallBeginDrain now) (setStateLocked next now m) Done
| step_no_timeout now :
    in_order m now -> in_time m now -> step m (CallCheckTimeout now) m (Flag false)
| step_timeout now next :
    in_order m now -> ~ in_time m now -> fires m EventTimeout next ->
    step m (CallCheckTimeout now) (setStateLocked next now m) (Flag true)
| step_close_again now :
    in_order m now -> state m = StateClosed -> step m (CallClose now) m Done
| step_close now next :
    in_order m now -> state m <> StateClosed -> fires m EventClose next ->
    step m (CallClose now) (setStateLocked next now m) Done.

(** [run_op H]: run the operation of [H], one case per path of the code. *)
Ltac unfold_op H :=
  unfold perform, op_map, BeginHandshake, HandleRetry, RecordInitialRetransmission,
    HandshakeComplete, IssuePing, RecordPingRetransmission, AcceptPong, AcceptConfirmPing,
    BeginRekey, Touch, BeginDrain, CheckTimeout, Machine_Close, requireTimeLocked,
    requireBeforeDeadlineLocked, requireEventLocked, op_bind, op_get, op_update, op_guard,
    op_ret, op_fail in H.
Ltac run_op H :=
  unfold_op H;
  repeat (cbv beta iota in H;
    lazymatch type of H with
    | context [if ?b then _ else _] => let E := fresh "E" in destruct b eqn:E
    | context [match nextState ?r ?s ?e with _ => _ end] =>
        let E := fresh "Hfire" in destruct (nextState r s e) eqn:E
    end); cbv beta iota in H; try discriminate H.

Ltac op_side :=
  first [ done | unfold in_order, in_time; lia
        | naive_solver lia
        | repeat match goal with H : context [bool_decide ?P] |- _ =>
            destruct (bool_decide_reflect P); simpl in * end;
          first [ done | naive_solver lia ] ].

Lemma perform_step m c m' r : perform c m = (m', inl r) -> step m c m' r.
Proof.
  destruct c; intros H; run_op H; injection H as <- <-.
  all: repeat match goal with
       | E : negb (?a =? ?b) = false |- _ =>
           let E' := fresh in assert (E' : a = b) by lia; clear E; subst
       | E : _ || negb (?a =? ?b) = false |- _ => apply orb_false_elim in E as [? E]
       end.
  all: econstructor; op_side.
Qed.

(** A call that fails changes nothing. *)
Lemma perform_error m c m' e : perform c m = (m', inr e) -> m' = m.
Proof. destruct c; intros H; run_op H; congruence. Qed.

Lemma step_perform m c m' r : step m c m' r -> perform c m = (m', inl r).
Proof.
  assert (Ht : forall m now, in_order m now -> requireTimeLocked now m = (m, inl tt)).
  { intros ? now H. unfold in_order in H. unfold requireTimeLocked, op_bind, op_get, op_guard.
    by replace (now <? _) with false by lia. }
  assert (Hd : forall m now, in_time m now -> requireBeforeDeadlineLocked now m = (m, inl tt)).
  { intros ? now H. unfold in_time in H. unfold requireBeforeDeadlineLocked, op_bind, op_get, op_guard.
    by replace (negb _ && _) with false by lia. }
  assert (He : forall m ev s, fires m ev s -> requireEventLocked ev m = (m, inl s)).
  { intros ? ev s H. unfold fires in H. unfold requireEventLocked, op_bind, op_get. by rewrite H. }
  destruct 1; unfold perform, op_map, BeginHandshake, HandleRetry, RecordInitialRetransmission,
    HandshakeComplete, IssuePing, RecordPingRetransmission, AcceptPong, AcceptConfirmPing,
    BeginRekey, Touch, BeginDrain, CheckTimeout, Machine_Close, op_bind, op_get, op_update;
    rewrite ?Ht by done; rewrite ?Hd by done; try (erewrite He by done); unfold op_guard, op_ret, op_fail;
    rewrite ?Z.eqb_refl;
    repeat match goal with
    | H : ?b = true |- context [?b] => rewrite H; simpl
    | H : ?b = false |- context [?b] => rewrite H; simpl
    | H : state m = _ |- context [state m] => rewrite H; simpl
    | H : state m <> _ |- _ => rewrite (bool_decide_false _ H); simpl
    | |- context [if ?b then _ else _] =>
        first [ replace b with false by (symmetry; unfold in_time in *; lia)
              | replace b with true by (symmetry; unfold in_time in *; lia) ]
    end; try done.
  - destruct (bool_decide_reflect (state m = StateRekeying)) as [E|E]; [by rewrite (H2 E) | done].
  - destruct (bool_decide_reflect (state m = StateRekeying)) as [E|E]; [by rewrite (H3 E) | done].
  - by erewrite He by done.
  - by injection H1 as <-.
Qed.

(** ** The invariant *)

(** The deadline of a state, from the time it was entered and the last event. *)
Definition deadline_ok (m : Machine) : Prop :=
  match state m with
  | StateIdle | StateClosed => deadline m = 0
  | StateInitialSent => deadline m = enteredAt m + InitialSent (policy m)
  | StatePendingConfirm => deadline m = enteredAt m + PendingConfirm (policy m)
  | StateEstablished => deadline m = lastEventAt m + EstablishedIdle (policy m)
  | StateRekeying => deadline m <= lastEventAt m + PendingConfirm (policy m)
  | StateDraining => deadline m = enteredAt m + Draining (policy m)
  end.

Definition timed (s : State) : Prop := s <> StateIdle /\ s <> StateClosed.

Record machine_ok (m : Machine) : Prop := {
  mo_role : Role_valid (role m) = true;
  mo_policy : policy_ok (policy m) /\ policy_typed (policy m);
  mo_times : 0 <= enteredAt m <= lastEventAt m;
  mo_deadline : deadline_ok m;
  mo_live : timed (state m) -> lastEventAt m < deadline m;
  mo_initial : state m = StateInitialSent -> role m = RoleClient;
  mo_ping : hasOutstandingPing m = true ->
    role m = RoleClient /\ (state m = StatePendingConfirm
                            \/ state m = StateRekeying /\ rekeyHandshakeReady m = true);
  mo_no_ping : hasOutstandingPing m = false -> outstandingPingID m = 0 /\ controlRetries m = 0;
  mo_ready : rekeyHandshakeReady m = true -> state m = StateRekeying;
  mo_initialRetries : 0 <= initialRetries m <= MaxInitialRetries (policy m);
  mo_controlRetries : 0 <= controlRetries m <= MaxControlRetries (policy m);
  mo_confirmed : role m = RoleServer ->
    state m = StateEstablished \/ state m = StateRekeying \/ state m = StateDraining ->
    hasLastConfirmID m = true;
  mo_server : hasLastConfirmID m = true -> role m = RoleServer
}.

Lemma NewMachine_ok r p now m :
  policy_typed p -> 0 <= now -> NewMachine r p now = inl m -> machine_ok m.
Proof.
  unfold NewMachine. intros Ht Hn H. destruct (Role_valid r) eqn:Hr; [|done].
  destruct (TimeoutPolicy_Validate p) eqn:Hv; [done|]. injection H as <-.
  pose proof (Validate_ok p Hv). pose proof Ht as (_ & [? _] & [? _]).
  constructor; simpl; try done; try lia; try naive_solver lia.
  unfold timed. naive_solver.
Qed.

Lemma step_frame m c m' r : step m c m' r -> role m' = role m /\ policy m' = policy m.
Proof.
  assert (H : forall next now m0, role (setStateLocked next now m0) = role m0
                               /\ policy (setStateLocked next now m0) = policy m0)
    by (intros [] ? ?; done).
  destruct 1; rewrite ?(proj1 (H _ _ _)), ?(proj2 (H _ _ _)); done.
Qed.

(** What the table allows. *)
Lemma nextState_facts r s e next :
  nextState r s e = Some next ->
  next <> StateIdle
  /\ (next = StateInitialSent -> r = RoleClient /\ s <> StateRekeying)
  /\ (next = StatePendingConfirm -> s <> StateRekeying)
  /\ (r = RoleServer -> next = StateEstablished \/ next = StateRekeying \/ next = StateDraining ->
      e = EventConfirmPing \/ s = StateEstablished \/ s = StateRekeying \/ s = StateDraining)
  /\ (next = StateEstablished -> e = EventPong \/ e = EventConfirmPing \/ e = EventActivity)
  /\ (e = EventConfirmPing -> r = RoleServer) /\ (e = EventPong -> r = RoleClient).
Proof.
  destruct r, s, e; intros [= <-]; split_and!; intuition congruence.
Qed.

(** From where an event may fire without leaving the state. *)
Lemma nextState_from r s e next :
  nextState r s e = Some next ->
  match e with
  | EventRetryReceived | EventRetransmitInitial => r = RoleClient /\ s = StateInitialSent
  | EventIssuePing | EventRetransmitPing =>
      r = RoleClient /\ (s = StatePendingConfirm \/ s = StateRekeying)
  | EventActivity => s = StateEstablished
  | _ => True
  end.
Proof. destruct r, s, e; intros [=]; auto. Qed.

(** Entering a state re-establishes the invariant. *)
Lemma setStateLocked_ok m next now :
  machine_ok m -> in_order m now -> next <> StateIdle ->
  (next = StateInitialSent -> role m = RoleClient) ->
  (next = StateInitialSent \/ next = StatePendingConfirm -> rekeyHandshakeReady m = false) ->
  (next = StateEstablished -> hasOutstandingPing m = false) ->
  (role m = RoleServer ->
     next = StateEstablished \/ next = StateRekeying \/ next = StateDraining ->
     hasLastConfirmID m = true) ->
  machine_ok (setStateLocked next now m).
Proof.
  intros [Hr [Hp Ht] Htm _ _ _ Hpg Hnp _ Hir Hcr _ Hsv] Ho Hidle Hin Hrd Hest Hcf.
  unfold in_order in Ho. pose proof Hp as []. destruct next; [done|..]; constructor;
    try exact (conj Hp Ht); unfold deadline_ok; simpl; try done; try lia.
  all: try (intros; first [ by apply Hin | by apply Hcf; auto | by apply Hnp, Hest | intuition congruence ]).
  by intros [_ []].
Qed.

(** Clearing the ping and recording a confirmation keep the invariant. *)
Lemma clearPingLocked_ok m : machine_ok m -> machine_ok (clearPingLocked m).
Proof.
  intros [Hr [Hp Ht] Htm Hdl Hlv Hin Hpg Hnp Hrd Hir Hcr Hcf Hsv].
  pose proof Ht as (_ & _ & [? _]). by constructor.
Qed.

Lemma set_lastConfirm_ok m id grace :
  machine_ok m -> role m = RoleServer -> machine_ok (set_lastConfirm id grace m).
Proof. intros [Hr [Hp Ht] Htm Hdl Hlv Hin Hpg Hnp Hrd Hir Hcr Hcf Hsv] Hs. by constructor. Qed.

(** Leaving a state through the table. *)
Lemma fires_ok m event next now :
  machine_ok m -> in_order m now -> fires m event next ->
  (next = StateEstablished -> hasOutstandingPing m = false) ->
  (event = EventConfirmPing -> hasLastConfirmID m = true) ->
  machine_ok (setStateLocked next now m).
Proof.
  intros Hm Ho Hf He Hc. apply nextState_facts in Hf as (Hni & Hin & Hpc & Hsv & _).
  apply setStateLocked_ok; [done | done | done | naive_solver | | done |].
  - intros Hn. destruct (rekeyHandshakeReady m) eqn:Hr; [|done].
    apply (mo_ready m Hm) in Hr. naive_solver.
  - intros Hro Hnx. destruct (Hsv Hro Hnx) as [He'|Hs]; [by apply Hc | by apply (mo_confirmed m Hm)].
Qed.

(** A server has no PING of its own. *)
Lemma server_no_ping m : machine_ok m -> role m = RoleServer -> hasOutstandingPing m = false.
Proof.
  intros Hm Hr. destruct (hasOutstandingPing m) eqn:E; [|done].
  apply (mo_ping m Hm) in E as [? _]. congruence.
Qed.

(** The last event moves forward within a live state. *)
Lemma touch_ok m now :
  machine_ok m -> in_order m now -> in_time m now -> timed (state m) -> state m <> StateEstablished ->
  machine_ok (set_lastEventAt now m).
Proof.
  intros [Hr [Hp Ht] Htm Hdl Hlv Hin Hpg Hnp Hrd Hir Hcr Hcf Hsv] Ho Hi Hti Hne.
  unfold in_order, in_time in *. specialize (Hlv Hti). pose proof Hp as [].
  constructor; simpl; try done; try lia.
  unfold deadline_ok in *. simpl. destruct Hti, (state m); done || lia.
Qed.

Lemma refresh_ok m now :
  machine_ok m -> in_order m now -> state m = StateEstablished ->
  machine_ok (set_deadline (now + EstablishedIdle (policy m)) (set_lastEventAt now m)).
Proof.
  intros [Hr [Hp Ht] Htm Hdl Hlv Hin Hpg Hnp Hrd Hir Hcr Hcf Hsv] Ho Hst.
  unfold in_order in *. pose proof Hp as []. constructor; simpl; try done; try lia.
  unfold deadline_ok. simpl. by rewrite Hst.
Qed.

Lemma set_initialRetries_ok m n :
  machine_ok m -> 0 <= n <= MaxInitialRetries (policy m) -> machine_ok (set_initialRetries n m).
Proof. intros [] Hn. by constructor. Qed.

Lemma set_controlRetries_ok m n :
  machine_ok m -> 0 <= n <= MaxControlRetries (policy m) -> hasOutstandingPing m = true ->
  machine_ok (set_controlRetries n m).
Proof. intros [] Hn Hp. constructor; simpl; try done. by rewrite Hp. Qed.

Lemma issue_ok m id :
  machine_ok m -> role m = RoleClient ->
  state m = StatePendingConfirm \/ state m = StateRekeying /\ rekeyHandshakeReady m = true ->
  machine_ok (set_controlRetries 0 (set_ping true id m)).
Proof.
  intros [Hr [Hp Ht] Htm Hdl Hlv Hin Hpg Hnp Hrd Hir Hcr Hcf Hsv] Hc Hs.
  pose proof Ht as (_ & _ & [? _]). by constructor.
Qed.

Lemma rekey_ready_ok m now :
  machine_ok m -> in_order m now -> state m = StateRekeying ->
  machine_ok (set_lastEventAt now (set_deadline (now + PendingConfirm (policy m))
    (clearPingLocked (set_rekeyHandshakeReady true m)))).
Proof.
  intros [Hr [Hp Ht] Htm Hdl Hlv Hin Hpg Hnp Hrd Hir Hcr Hcf Hsv] Ho Hs.
  unfold in_order in *. pose proof Hp as []. pose proof Ht as (_ & _ & [? _]).
  constructor; simpl; try done; try lia. unfold deadline_ok. simpl. by rewrite Hs.
Qed.

Lemma fires_not_established m event next :
  fires m event next -> event <> EventConfirmPing -> event <> EventPong -> event <> EventActivity ->
  next <> StateEstablished.
Proof. intros (_ & _ & _ & _ & Hf & _)%nextState_facts; naive_solver. Qed.

Lemma step_ok m c m' r : machine_ok m -> step m c m' r -> machine_ok m'.
Proof.
  intros Hm Hs. pose proof (mo_policy m Hm) as [_ (_ & [_ Hmi] & [_ Hmc])].
  pose proof (mo_initialRetries m Hm). pose proof (mo_controlRetries m Hm).
  destruct Hs as
    [ now next Ho Hf | now next Ho Hi Hf | now next Ho Hi Hf Hlt | now next Ho Hi Hf Hst
    | now next Ho Hi Hf Hst | id now next Ho Hi Hf Hry Hno | now next Ho Hi Hf Hpi Hlt
    | now next Ho Hi Hf Hpi | now next Ho Hi Hf Hst Hlc Hgr | id now next Ho Hi Hf Hst Hry
    | now next Ho Hi Hf | now next Ho Hi Hf | now next Ho Hf | now Ho Hi | now next Ho Hi Hf
    | now Ho Hst | now next Ho Hst Hf ].
  all: try exact Hm.
  all: try (eapply fires_ok; [done | done | done | intros; exfalso; by eapply fires_not_established | done]).
  - apply nextState_from in Hf as [Hro Hst]. apply (touch_ok (set_initialRetries 0 m)); try done.
    + apply set_initialRetries_ok; [done | lia].
    + simpl. rewrite Hst. by split.
    + simpl. by rewrite Hst.
  - apply nextState_from in Hf as [Hro Hst]. rewrite u8_small by lia.
    apply (touch_ok (set_initialRetries (initialRetries m + 1) m)); try done.
    + apply set_initialRetries_ok; [done | lia].
    + simpl. rewrite Hst. by split.
    + simpl. by rewrite Hst.
  - by apply rekey_ready_ok.
  - apply nextState_from in Hf as [Hro Hst]. apply (touch_ok (set_controlRetries 0 (set_ping true id m))); try done.
    + apply issue_ok; [done | done | naive_solver].
    + simpl. destruct Hst as [-> | ->]; by split.
    + simpl. by destruct Hst as [-> | ->].
  - apply nextState_from in Hf as [Hro Hst]. rewrite u8_small by lia.
    apply (touch_ok (set_controlRetries (controlRetries m + 1) m)); try done.
    + apply set_controlRetries_ok; [done | lia | done].
    + simpl. destruct Hst as [-> | ->]; by split.
    + simpl. by destruct Hst as [-> | ->].
  - apply (fires_ok (clearPingLocked m) EventPong); try done. by apply clearPingLocked_ok.
  - by apply refresh_ok.
  - apply nextState_facts in Hf as Hro. destruct Hro as (_ & _ & _ & _ & _ & Hro & _). specialize (Hro eq_refl).
    apply (fires_ok (set_lastConfirm id (now + ConfirmGrace (policy m)) m) EventConfirmPing); try done.
    + by apply set_lastConfirm_ok.
    + intros _. exact (server_no_ping m Hm Hro).
  - apply nextState_from in Hf. by apply refresh_ok.
Qed.

(** ** Runs of a machine *)
Section Runs.
Context (r0 : Role) (p0 : TimeoutPolicy) (t0 : Z).

(** The machines a run can reach, with the log of the calls that succeeded. *)
Inductive reachable : Machine -> list Call -> Prop :=
| reach_new m : NewMachine r0 p0 t0 = inl m -> reachable m []
| reach_success m log c m' reply :
    reachable m log -> perform c m = (m', inl reply) -> reachable m' (log ++ [c])
| reach_error m log c m' e :
    reachable m log -> perform c m = (m', inr e) -> reachable m' log.

Lemma reachable_ok m log : policy_typed p0 -> 0 <= t0 -> reachable m log -> machine_ok m.
Proof.
  intros Hp Ht H. induction H as [m Hn | m log c m' reply _ IH Hs | m log c m' e _ IH He].
  - by eapply NewMachine_ok.
  - by eapply step_ok, perform_step.
  - by apply perform_error in He as ->.
Qed.

(** The handshake has completed somewhere in a log. *)
Definition completed (log : list Call) : Prop := exists t, CallHandshakeComplete t ∈ log.

(** The log shows the confirmation exchange of the role: a PING sent after the
    handshake and answered by its PONG; or a CONFIRM/PING received after it. *)
Definition confirmed (r : Role) (log : list Call) : Prop :=
  match r with
  | RoleClient => exists l1 l2 l3 id t t', completed l1
      /\ log = l1 ++ [CallIssuePing id t] ++ l2 ++ [CallAcceptPong id t'] ++ l3
  | _ => exists l1 l2 id t, completed l1 /\ log = l1 ++ [CallAcceptConfirmPing id t] ++ l2
  end.

Definition pinged (id : Z) (log : list Call) : Prop :=
  exists l1 l2 t, completed l1 /\ log = l1 ++ [CallIssuePing id t] ++ l2.

Record history_ok (m : Machine) (log : list Call) : Prop := {
  ho_completed : timed (state m) -> state m <> StateInitialSent -> completed log;
  ho_pinged : hasOutstandingPing m = true -> pinged (outstandingPingID m) log;
  ho_confirmed : state m = StateEstablished \/ state m = StateRekeying \/ state m = StateDraining ->
    confirmed (role m) log
}.

Lemma completed_app l k : completed l -> completed (l ++ k).
Proof. intros [t Ht]. exists t. rewrite elem_of_app. by left. Qed.

Lemma confirmed_app r l k : confirmed r l -> confirmed r (l ++ k).
Proof.
  destruct r; simpl.
  - intros (l1 & l2 & l3 & id & t & t' & Hc & ->). exists l1, l2, (l3 ++ k), id, t, t'.
    split; [done|]. by simplify_list_eq.
  - intros (l1 & l2 & id & t & Hc & ->). exists l1, (l2 ++ k), id, t.
    split; [done|]. by simplify_list_eq.
  - intros (l1 & l2 & id & t & Hc & ->). exists l1, (l2 ++ k), id, t.
    split; [done|]. by simplify_list_eq.
Qed.

Lemma pinged_app id l k : pinged id l -> pinged id (l ++ k).
Proof.
  intros (l1 & l2 & t & Hc & ->). exists l1, (l2 ++ k), t. split; [done|]. by simplify_list_eq.
Qed.

(** The state after a step is the one the table gives, unless nothing happens. *)
Lemma setStateLocked_fields next now m :
  state (setStateLocked next now m) = next /\ role (setStateLocked next now m) = role m
  /\ (hasOutstandingPing (setStateLocked next now m) = true ->
      hasOutstandingPing m = true /\ outstandingPingID (setStateLocked next now m) = outstandingPingID m).
Proof. by destruct next. Qed.

Definition event_of (c : Call) : Event :=
  match c with
  | CallBeginHandshake _ => EventBeginHandshake
  | CallHandleRetry _ => EventRetryReceived
  | CallRecordInitialRetransmission _ => EventRetransmitInitial
  | CallHandshakeComplete _ => EventHandshakeComplete
  | CallIssuePing _ _ => EventIssuePing
  | CallRecordPingRetransmission _ _ => EventRetransmitPing
  | CallAcceptPong _ _ => EventPong
  | CallAcceptConfirmPing _ _ => EventConfirmPing
  | CallBeginRekey _ => EventBeginRekey
  | CallTouch _ => EventActivity
  | CallBeginDrain _ => EventBeginDrain
  | CallCheckTimeout _ => EventTimeout
  | CallClose _ => EventClose
  end.

Lemma nextState_same r s e next :
  nextState r s e = Some next ->
  match e with
  | EventRetryReceived | EventRetransmitInitial | EventIssuePing | EventRetransmitPing
  | EventActivity => next = s
  | EventHandshakeComplete => s = StateRekeying -> next = s
  | EventConfirmPing => s = StateEstablished -> next = s
  | _ => True
  end.
Proof. destruct r, s, e; intros [= <-]; done. Qed.

Lemma step_state m c m' r :
  step m c m' r -> m' = m \/ fires m (event_of c) (state m').
Proof.
  destruct 1; rewrite ?(proj1 (setStateLocked_fields _ _ _)); simpl; auto; right;
    (eapply nextState_same in H1 as Hn || eapply nextState_same in H0 as Hn); simpl in Hn;
    try (by rewrite <- Hn); rewrite <- Hn; done.
Qed.

Lemma nextState_completed r s e next :
  nextState r s e = Some next -> timed next -> next <> StateInitialSent ->
  e = EventHandshakeComplete \/ timed s /\ s <> StateInitialSent.
Proof. unfold timed. destruct r, s, e; intros [= <-]; intuition congruence. Qed.

Lemma nextState_confirmed r s e next :
  nextState r s e = Some next ->
  next = StateEstablished \/ next = StateRekeying \/ next = StateDraining ->
  e = EventPong /\ r = RoleClient
  \/ e = EventConfirmPing /\ r = RoleServer /\ timed s /\ s <> StateInitialSent
  \/ s = StateEstablished \/ s = StateRekeying \/ s = StateDraining.
Proof. unfold timed. destruct r, s, e; intros [= <-]; intuition congruence. Qed.

Lemma history_completed m log c m' r :
  history_ok m log -> step m c m' r ->
  timed (state m') -> state m' <> StateInitialSent -> completed (log ++ [c]).
Proof.
  intros Hh Hs Ht Hi. destruct (step_state _ _ _ _ Hs) as [-> | Hf].
  - by apply completed_app, (ho_completed m log Hh).
  - destruct (nextState_completed _ _ _ _ Hf Ht Hi) as [He | [Hts His]].
    + destruct c; try discriminate He. exists now. rewrite elem_of_app, list_elem_of_singleton. by right.
    + by apply completed_app, (ho_completed m log Hh).
Qed.

Lemma history_pinged m log c m' r :
  history_ok m log -> step m c m' r ->
  hasOutstandingPing m' = true -> pinged (outstandingPingID m') (log ++ [c]).
Proof.
  intros Hh Hs Hp.
  assert (Hkeep : hasOutstandingPing m = true -> outstandingPingID m' = outstandingPingID m ->
            pinged (outstandingPingID m') (log ++ [c])).
  { intros H1 ->. by apply pinged_app, (ho_pinged m log Hh). }
  destruct Hs; try (by apply Hkeep);
    try (apply setStateLocked_fields in Hp as [Hp1 Hp2]; try discriminate Hp1; by apply Hkeep);
    try discriminate Hp.
  simpl. apply nextState_from in H1 as [Hr Hst]. exists log, [], now. split; [|done].
  apply (ho_completed m log Hh); destruct Hst as [-> | ->]; by try split.
Qed.

Lemma history_confirmed m log c m' r :
  history_ok m log -> step m c m' r ->
  state m' = StateEstablished \/ state m' = StateRekeying \/ state m' = StateDraining ->
  confirmed (role m') (log ++ [c]).
Proof.
  intros Hh Hs Hst. rewrite (proj1 (step_frame _ _ _ _ Hs)).
  destruct (step_state _ _ _ _ Hs) as [-> | Hf]; [by apply confirmed_app, (ho_confirmed m log Hh)|].
  destruct (nextState_confirmed _ _ _ _ Hf Hst) as [[He Hr] | [(He & Hr & Ht & Hi) | Hold]].
  - destruct c; try discriminate He. inversion Hs; subst. rewrite Hr.
    destruct (ho_pinged m log Hh) as (l1 & l2 & t & Hc & ->); [done|].
    exists l1, l2, [], (outstandingPingID m), t, now. split; [done|]. by simplify_list_eq.
  - destruct c; try discriminate He. rewrite Hr. exists log, [], operationID, now.
    split; [by apply (ho_completed m log Hh) | done].
  - by apply confirmed_app, (ho_confirmed m log Hh).
Qed.

Lemma reachable_history m log : reachable m log -> history_ok m log.
Proof.
  induction 1 as [m Hn | m log c m' reply _ IH Hs | m log c m' e _ IH He].
  - unfold NewMachine in Hn. destruct (negb _); [done|]. destruct (TimeoutPolicy_Validate _); [done|].
    injection Hn as <-. constructor; simpl; [by intros [] | done | naive_solver].
  - apply perform_step in Hs. constructor.
    + by eapply history_completed.
    + by eapply history_pinged.
    + by eapply history_confirmed.
  - by apply perform_error in He as ->.
Qed.

Lemma reachable_role m log : reachable m log -> role m = r0 /\ policy m = p0.
Proof.
  induction 1 as [m Hn | m log c m' reply _ IH Hs | m log c m' e _ IH He].
  - unfold NewMachine in Hn. destruct (negb _); [done|]. destruct (TimeoutPolicy_Validate _); [done|].
    by injection Hn as <-.
  - apply perform_step, step_frame in Hs as [-> ->]. done.
  - by apply perform_error in He as ->.
Qed.
End Runs.

(** A sequence of calls, with the log of those that succeeded. *)
Fixpoint perform_all (m : Machine) (calls : list Call) : Machine * list Call :=
  match calls with
  | [] => (m, [])
  | c :: rest =>
      match perform c m with
      | (m, inl _) => let '(m, log) := perform_all m rest in (m, c :: log)
      | (m, inr _) => perform_all m rest
      end
  end.

Lemma reachable_all r p t calls : forall m log,
  reachable r p t m log ->
  reachable r p t (fst (perform_all m calls)) (log ++ snd (perform_all m calls)).
Proof.
  induction calls as [|c calls IH]; intros m log H; simpl; [by rewrite app_nil_r|].
  destruct (perform c m) as [m' [reply|e]] eqn:E.
  - specialize (IH m' (log ++ [c]) ltac:(by eapply reach_success)).
    destruct (perform_all m' calls) as [m'' log']. simpl in *. by rewrite <- app_assoc in IH.
  - apply IH. by eapply reach_error.
Qed.

(** Runs used as concrete inputs: a client and a server that establish. *)
Definition demo_machine (r : Role) : Machine :=
  mkMachine r StateIdle DefaultTimeoutPolicy 1000 1000 0 0 0 false 0 false false 0 0.
Definition demo_client_calls : list Call :=
  [CallBeginHandshake 1000; CallRecordInitialRetransmission 1500; CallHandshakeComplete 2000;
   CallAcceptPong 7 2500; CallIssuePing 7 3000; CallAcceptPong 8 3500; CallAcceptPong 7 4000].
Definition demo_client : Machine := fst (perform_all (demo_machine RoleClient) demo_client_calls).
Definition demo_log : list Call :=
  [CallBeginHandshake 1000; CallRecordInitialRetransmission 1500; CallHandshakeComplete 2000;
   CallIssuePing 7 3000; CallAcceptPong 7 4000].
Definition demo_server : Machine :=
  fst (perform_all (demo_machine RoleServer) [CallHandshakeComplete 2000]).

Lemma demo_client_reachable : reachable RoleClient DefaultTimeoutPolicy 1000 demo_client demo_log.
Proof.
  apply (reachable_all RoleClient DefaultTimeoutPolicy 1000 demo_client_calls (demo_machine RoleClient) []).
  apply reach_new. reflexivity.
Qed.

Lemma demo_server_reachable :
  reachable RoleServer DefaultTimeoutPolicy 1000 demo_server [CallHandshakeComplete 2000].
Proof.
  apply (reachable_all RoleServer DefaultTimeoutPolicy 1000 [CallHandshakeComplete 2000]
           (demo_machine RoleServer) []).
  apply reach_new. reflexivity.
Qed.

(** C10: the invariant of the session machine holds in every state a run can
    reach from [NewMachine], whatever calls succeed or fail: times are ordered,
    a live state has a deadline ahead of its last event and within its policy
    bound (the INITIAL and confirmation deadlines are never extended), a PING is
    outstanding only on a client that awaits confirmation, counters stay within
    the policy, a server that is established has recorded its CONFIRM. *)
Theorem machine_invariant r p t m log :
  policy_typed p -> 0 <= t -> reachable r p t m log ->
  machine_ok m /\ role m = r /\ policy m = p.
Proof.
  intros Hp Ht H. split; [by eapply reachable_ok | by apply (reachable_role r p t m log)].
Qed.

Lemma machine_invariant_witness : machine_ok demo_client.
Proof.
  apply (machine_invariant RoleClient DefaultTimeoutPolicy 1000 demo_client demo_log);
    [apply (bool_decide_unpack _); vm_compute; exact I | lia | exact demo_client_reachable].
Defined.

(** C8: what each method does, exactly: a call succeeds precisely when its
    guards hold, with the effect and the reply of the step relation; the new
    state is the one the transition table gives (or nothing changed); and a call
    that returns an error leaves the machine as it was. *)
Theorem machine_calls_exact m c m' :
  (forall reply, perform c m = (m', inl reply) <-> step m c m' reply)
  /\ (forall reply, perform c m = (m', inl reply) -> m' = m \/ fires m (event_of c) (state m'))
  /\ (forall e, perform c m = (m', inr e) -> m' = m).
Proof.
  split_and!.
  - split; [apply perform_step | apply step_perform].
  - intros reply H%perform_step. by eapply step_state.
  - intros e. apply perform_error.
Qed.

(** C9: no session is established without key confirmation.  When a machine is
    Established (or past it), the log of its run has a completed handshake
    followed, on a client, by a PING and the PONG with the same operation id, and
    on a server by a CONFIRM/PING. *)
Theorem established_needs_confirmation r p t m log :
  reachable r p t m log ->
  state m = StateEstablished \/ state m = StateRekeying \/ state m = StateDraining ->
  confirmed r log.
Proof.
  intros H Hs. rewrite <- (proj1 (reachable_role r p t m log H)).
  by apply (ho_confirmed m log (reachable_history r p t m log H)).
Qed.

Lemma established_needs_confirmation_witness : confirmed RoleClient demo_log.
Proof.
  apply (established_needs_confirmation RoleClient DefaultTimeoutPolicy 1000 demo_client demo_log);
    [exact demo_client_reachable | left; reflexivity].
Defined.

(** What [CheckTimeout] does at or after the deadline of a live machine. *)
Lemma CheckTimeout_due m t :
  machine_ok m -> timed (state m) -> deadline m <= t ->
  exists next, fires m EventTimeout next /\ CheckTimeout t m = (setStateLocked next t m, inl true).
Proof.
  intros Hm Ht Hd. pose proof (mo_live m Hm Ht) as Hl. pose proof (mo_times m Hm).
  assert (Hf : exists next, fires m EventTimeout next).
  { pose proof (mo_role m Hm). pose proof (mo_initial m Hm). destruct Ht.
    unfold fires. destruct (role m), (state m); try done; naive_solver. }
  destruct Hf as [next Hf]. exists next. split; [done|].
  unfold CheckTimeout, requireTimeLocked, requireEventLocked, op_bind, op_get, op_guard, op_update, op_ret.
  replace (t <? lastEventAt m) with false by lia. cbv beta iota.
  replace ((deadline m =? 0) || (t <? deadline m)) with false by lia. by rewrite Hf.
Qed.

(** C11: sessions end.  Two due timeout checks close any machine that has left
    Idle, whatever state it was in (handshakes close at once, established
    sessions drain first), and once closed no call reopens it. *)
Theorem timeouts_close m t1 t2 c :
  machine_ok m -> timed (state m) -> deadline m <= t1 -> t1 <= t2 ->
  deadline (fst (CheckTimeout t1 m)) <= t2 ->
  state (fst (CheckTimeout t2 (fst (CheckTimeout t1 m)))) = StateClosed
  /\ state (fst (perform c (fst (CheckTimeout t2 (fst (CheckTimeout t1 m)))))) = StateClosed.
Proof.
  intros Hm Ht Hd1 H12 Hd2.
  assert (Hfinal : forall m0, state m0 = StateClosed -> state (fst (perform c m0)) = StateClosed).
  { intros m0 H0. destruct (perform c m0) as [m1 [reply|e]] eqn:E; simpl.
    - apply perform_step, step_state in E as [-> | Hf]; [done|]. unfold fires in Hf. rewrite H0 in Hf.
      destruct (role m0), (event_of c), (state m1); done.
    - by apply perform_error in E as ->. }
  cut (state (fst (CheckTimeout t2 (fst (CheckTimeout t1 m)))) = StateClosed); [auto|].
  destruct (CheckTimeout_due m t1 Hm Ht Hd1) as (n1 & Hf1 & E1). rewrite E1 in *. simpl in *.
  destruct (decide (n1 = StateClosed)) as [->|Hn].
  - unfold CheckTimeout, requireTimeLocked, op_bind, op_get, op_guard, op_ret. simpl.
    by destruct (_ <? _).
  - assert (n1 = StateDraining) as ->
      by (unfold fires in Hf1; destruct (role m), (state m), n1; done).
    destruct (CheckTimeout_due (setStateLocked StateDraining t1 m) t2) as (n2 & Hf2 & E2).
    + apply (step_ok m (CallCheckTimeout t1) _ (Flag true) Hm). apply perform_step.
      unfold perform, op_map, op_bind. by rewrite E1.
    + by split.
    + done.
    + rewrite E2. simpl. rewrite (proj1 (setStateLocked_fields _ _ _)).
      unfold fires in Hf2. simpl in Hf2. pose proof (mo_role m Hm). by destruct (role m); simplify_eq/=.
Qed.

Lemma timeouts_close_witness :
  state (fst (CheckTimeout (1000 * Second) (fst (CheckTimeout (400 * Second) demo_client)))) = StateClosed.
Proof.
  refine (proj1 (timeouts_close demo_client (400 * Second) (1000 * Second) (CallTouch 0) _ _ _ _ _));
    [ | split; vm_compute; discriminate | vm_compute; discriminate.. ].
  apply (reachable_ok RoleClient DefaultTimeoutPolicy 1000 demo_client demo_log);
    [apply (bool_decide_unpack _); vm_compute; exact I | lia | exact demo_client_reachable].
Defined.

(** CONFIRM/PING is idempotent on the server.  The operation that
    establishes the session is answered as new; until the grace period ends its
    retransmissions are answered as duplicates and change nothing but the
    activity times, so leases and state are not activated again; any other
    operation id, and the same one after the grace period, is refused without
    effect. *)
Theorem confirm_idempotent m id t m1 id' t' :
  machine_ok m -> AcceptConfirmPing id t m = (m1, inl false) ->
  t <= t' < deadline m1 ->
  state m1 = StateEstablished /\ confirmGraceUntil m1 = t + ConfirmGrace (policy m1)
  /\ AcceptConfirmPing id' t' m1 =
     if negb (id' =? id) then (m1, inr (ConfirmMismatchError id id'))
     else if t + ConfirmGrace (policy m1) <? t' then (m1, inr ErrConfirmGraceExpired)
     else (set_deadline (t' + EstablishedIdle (policy m1)) (set_lastEventAt t' m1), inl true).
Proof.
  intros Hm Ha Ht. assert (Hs : step m (CallAcceptConfirmPing id t) m1 (Flag false)).
  { apply perform_step. unfold perform, op_map, op_bind. by rewrite Ha. }
  inversion Hs as [| | | | | | | | | ? ? next Ho Hi Hf Hne Hry | | | | | | |]; subst.
  apply nextState_facts in Hf as Hfacts. destruct Hfacts as (_ & _ & _ & _ & _ & Hsv & _).
  specialize (Hsv eq_refl).
  assert (next = StateEstablished) as ->
    by (unfold fires in Hf; rewrite Hsv in Hf; destruct (state m), next; done).
  split_and!; [done | done |]. simpl in *.
  unfold AcceptConfirmPing, requireTimeLocked, requireBeforeDeadlineLocked, requireEventLocked,
    op_bind, op_get, op_guard, op_update, op_ret, op_fail. simpl.
  replace (t' <? t) with false by lia. simpl. replace (negb _ && negb _) with false by lia. simpl.
  rewrite Hsv. simpl. destruct (id' =? id) eqn:E; simpl; [|done].
  apply Z.eqb_eq in E as ->. by destruct (_ <? t').
Qed.

Definition demo_server_established : Machine := fst (AcceptConfirmPing 42 5000 demo_server).

Lemma confirm_idempotent_witness :
  snd (AcceptConfirmPing 42 6000 demo_server_established) = inl true.
Proof.
  refine (eq_trans (f_equal snd (proj2 (proj2
    (confirm_idempotent demo_server 42 5000 demo_server_established 42 6000 _ _ _)))) _).
  - apply (reachable_ok RoleServer DefaultTimeoutPolicy 1000 demo_server [CallHandshakeComplete 2000]);
      [apply (bool_decide_unpack _); vm_compute; exact I | lia | exact demo_server_reachable].
  - vm_compute. reflexivity.
  - split; [lia | vm_compute; reflexivity].
  - vm_compute. reflexivity.
Defined.
