(* ===== verification/Crypto.v ===== *)
(** * Key schedule and transport protection (internal/crypto)

    kdf.go, aead.go, transport.go, x25519.go and fingerprint.go over abstract
    primitives.  BLAKE2s, ChaCha20-Poly1305 and the X25519 function are
    parameters (class [Primitives]); what the code relies on is named in
    [PrimitivesOk].  HMAC, HKDF, base32 and everything else is modelled. *)

From stdpp Require Import base list strings numbers.
From S2P Require Import Prelude CodecErrors WireFormat Payload Packet Frame Replay.
Local Open Scope Z_scope.
Local Open Scope wg_scope.

(** ** Primitives *)
Class Primitives := {
  (** BLAKE2s-256 of a message *)
  blake2s256 : bytes -> bytes;
  (** [aead.Seal(nil, nonce, plaintext, ad)] and [aead.Open] under a key *)
  aead_Seal : bytes -> bytes -> bytes -> bytes -> bytes;
  aead_Open : bytes -> bytes -> bytes -> bytes -> option bytes;
  (** the X25519 function on a private key and a peer's public key, and the
      public key of a private key *)
  x25519 : bytes -> bytes -> bytes;
  x25519_PublicKey : bytes -> bytes
}.

Class PrimitivesOk (P : Primitives) : Prop := {
  blake2s256_size : forall m, key_ok (blake2s256 m);
  aead_Seal_size : forall k n p ad, len (aead_Seal k n p ad) = len p + 16;
  aead_Seal_bytes : forall k n p ad, bytes_ok p -> bytes_ok (aead_Seal k n p ad);
  aead_Open_Seal : forall k n p ad, aead_Open k n (aead_Seal k n p ad) ad = Some p;
  aead_Open_bytes : forall k n c ad p, bytes_ok c -> aead_Open k n c ad = Some p -> bytes_ok p;
  x25519_size : forall a p, key_ok (x25519 a p);
  x25519_PublicKey_size : forall a, key_ok (x25519_PublicKey a);
  x25519_comm : forall a b, key_ok a -> key_ok b ->
    x25519 a (x25519_PublicKey b) = x25519 b (x25519_PublicKey a)
}.

(** ** Errors (errors.go) *)
Inductive CryptoErr : Set :=
| ErrInvalidLength
| ErrInvalidRole
| ErrInvalidKey
| ErrRandomSource
| ErrDH
| ErrZeroSharedSecret
| ErrAuthentication
| ErrInvalidTransport
| ErrFrameEncoding (e : DecodeError).

Abbreviation crypto A := (outcome CryptoErr A).

(** The bytes of a Go string constant. *)
Fixpoint str (s : string) : bytes :=
  match s with
  | EmptyString => []
  | String c s => Z.of_N (Ascii.N_of_ascii c) :: str s
  end.

Definition SuiteID : bytes := str "WG-HS1-X25519-CHACHAPOLY-BLAKE2S".
Definition hashSize : Z := 32.
Definition protocolLabel : bytes := str "WG/1".
Definition m1Label : bytes := str "WG-HS1/m1".
Definition m2Label : bytes := str "WG-HS1/m2".
Definition c2sLabel : bytes := str "WG-HS1/c2s".
Definition s2cLabel : bytes := str "WG-HS1/s2c".
Definition Overhead : Z := 16.
Definition NonceSize : Z := 12.

Definition Context (deploymentID : bytes) : bytes :=
  [u8 (len protocolLabel)] ++ protocolLabel ++ deploymentID ++ [u8 (len SuiteID)] ++ SuiteID.

(** [subtle.ConstantTimeCompare(value, zero) == 1] *)
Definition isAllZero (value : bytes) : bool := bool_decide (value = zeros (len value)).

(** [0x00000000 || uint64_le(packetNumber)] *)
Definition Nonce (packetNumber : Z) : bytes := zeros 4 ++ reverse (be_split 8 packetNumber).
Definition handshakeNonce : bytes := zeros NonceSize.

Section Schedule.
Context {P : Primitives}.

(** A hash fed part by part hashes the concatenation. *)
Definition Sum256 (parts : list bytes) : bytes := blake2s256 (mjoin parts).

(** [crypto/hmac] over BLAKE2s-256, whose block size is 64 bytes. *)
Definition hmac_block : Z := 64.
Definition xor_pad (pad : Z) (key : bytes) : bytes := map (Z.lxor pad) key.
Definition hmac (key message : bytes) : bytes :=
  let key := if hmac_block <? len key then blake2s256 key else key in
  let key := key ++ zeros (hmac_block - len key) in
  blake2s256 (xor_pad 92 key ++ blake2s256 (xor_pad 54 key ++ message)).

Definition Extract (salt ikm : bytes) : bytes :=
  let salt := if len salt =? 0 then zeros hashSize else salt in
  hmac salt ikm.

(** The loop of [Expand]; [counter] is a byte. *)
Fixpoint Expand_loop (fuel : nat) (prk info : bytes) (length : Z) (output previous : bytes)
    (counter : Z) : crypto bytes :=
  match fuel with
  | O => Diverge
  | S fuel =>
      if len output <? length then
        let previous := hmac prk (previous ++ info ++ [counter]) in
        let need := length - len output in
        let need := if len previous <? need then len previous else need in
        let* chunk := slice previous 0 need in
        Expand_loop fuel prk info length (output ++ chunk) previous (u8 (counter + 1))
      else Ok output
  end.

Definition Expand (prk info : bytes) (length : Z) : crypto bytes :=
  if (length <? 0) || (255 * hashSize <? length) then Err ErrInvalidLength
  else if length =? 0 then Ok []
  else Expand_loop 256 prk info length [] [] 1.

Definition DeriveM1 (context es : bytes) : crypto (bytes * bytes) :=
  if isAllZero es then Err ErrZeroSharedSecret
  else
    let salt := Sum256 [context] in
    let prk1 := Extract salt es in
    let* expanded := Expand prk1 m1Label hashSize in
    let* k1 := copy_at (zeros hashSize) 0 expanded in
    Ok (prk1, k1).

Definition DeriveM2 (th1 es ss ee se : bytes) : crypto (bytes * bytes) :=
  if isAllZero es || isAllZero ss || isAllZero ee || isAllZero se then Err ErrZeroSharedSecret
  else
    let ikm := zeros (4 * hashSize) in
    let* ikm := copy_at ikm (0 * hashSize) es in
    let* ikm := copy_at ikm (1 * hashSize) ss in
    let* ikm := copy_at ikm (2 * hashSize) ee in
    let* ikm := copy_at ikm (3 * hashSize) se in
    let prk2 := Extract th1 ikm in
    let info := m2Label ++ th1 in
    let* expanded := Expand prk2 info hashSize in
    let* k2 := copy_at (zeros hashSize) 0 expanded in
    Ok (prk2, k2).

Definition DeriveTraffic (prk2 th2 : bytes) : crypto (bytes * bytes) :=
  let c2sInfo := c2sLabel ++ th2 in
  let s2cInfo := s2cLabel ++ th2 in
  let* c2s := Expand prk2 c2sInfo hashSize in
  let* s2c := Expand prk2 s2cInfo hashSize in
  let* clientToServer := copy_at (zeros hashSize) 0 c2s in
  let* serverToClient := copy_at (zeros hashSize) 0 s2c in
  Ok (clientToServer, serverToClient).

(** ** Handshake messages (aead.go) *)

(** [chacha20poly1305.New] accepts 32-byte keys only. *)
Definition aead_New (key : bytes) : crypto unit :=
  if negb (len key =? 32) then Err ErrInvalidKey else Ok tt.

Definition SealHandshake (key associatedData plaintext : bytes) : crypto bytes :=
  do* aead_New key;
  Ok (aead_Seal key handshakeNonce plaintext associatedData).

Definition OpenHandshake (key associatedData ciphertext : bytes) : crypto bytes :=
  if len ciphertext <? Overhead then Err ErrAuthentication
  else
    do* aead_New key;
    match aead_Open key handshakeNonce ciphertext associatedData with
    | Some plaintext => Ok plaintext
    | None => Err ErrAuthentication
    end.

(** ** Transport packets (transport.go) *)

(** Any error of the callee becomes the given one. *)
Definition as_err {E A} (e : CryptoErr) (m : outcome E A) : crypto A := wrap_err (fun _ => e) m.

Definition SealTransportPlaintext (key : bytes) (header : Header) (plaintext : bytes) : crypto Packet :=
  if negb (Kind header =? PacketTransport) then Err ErrInvalidTransport
  else if MaxUint16 - Overhead <? len plaintext then Err ErrInvalidLength
  else
    let header := with_PayloadLength header (u16 (len plaintext + Overhead)) in
    let* associatedData := as_err ErrInvalidTransport (Header_MarshalBinary header) in
    do* aead_New key;
    let nonce := Nonce (PacketNumber header) in
    let ciphertext := aead_Seal key nonce plaintext associatedData in
    Ok (mkPacket header ciphertext).

Definition SealTransport (key : bytes) (header : Header) (frames : list Frame) (maxPlaintext : Z)
  : crypto Packet :=
  if negb (Kind header =? PacketTransport) then Err ErrInvalidTransport
  else
    let* plaintext := wrap_err ErrFrameEncoding (MarshalFrames frames maxPlaintext) in
    SealTransportPlaintext key header plaintext.

Definition OpenTransportPlaintext (key : bytes) (packet : Packet) : crypto bytes :=
  let header := pkt_Header packet in
  let payload := pkt_Payload packet in
  if negb (Kind header =? PacketTransport) || (len payload <? Overhead) || (MaxUint16 <? len payload)
  then Err ErrInvalidTransport
  else if negb (PayloadLength header =? len payload) then Err ErrInvalidTransport
  else
    let* associatedData := as_err ErrInvalidTransport (Header_MarshalBinary header) in
    do* aead_New key;
    let nonce := Nonce (PacketNumber header) in
    match aead_Open key nonce payload associatedData with
    | Some plaintext => Ok plaintext
    | None => Err ErrAuthentication
    end.

Definition OpenTransport (key : bytes) (packet : Packet) (maxPlaintext : Z) : crypto (list Frame) :=
  let* plaintext := OpenTransportPlaintext key packet in
  wrap_err ErrFrameEncoding (ParseFrames plaintext maxPlaintext).

(** ** Keys (x25519.go) *)

(** An [io.Reader]: the bytes it still delivers before it fails.
    [io.ReadFull] returns [n] bytes and the rest, or an error. *)
Definition ReadFull (random : bytes) (n : Z) : option (bytes * bytes) :=
  if len random <? n then None
  else Some (take (Z.to_nat n) random, drop (Z.to_nat n) random).

(** A nil reader is [None]; X25519 private keys are any 32 random bytes. *)
Definition GenerateKeyFrom (random : option bytes) : crypto (bytes * bytes) :=
  match random with
  | None => Err ErrRandomSource
  | Some r =>
      match ReadFull r 32 with
      | Some (private, rest) => Ok (private, rest)
      | None => Err ErrRandomSource
      end
  end.

Definition PublicBytes (key : option bytes) : crypto bytes :=
  match key with
  | None => Err ErrInvalidKey
  | Some encoded =>
      if negb (len encoded =? 32) then Err ErrInvalidKey
      else copy_at (zeros 32) 0 encoded
  end.

(** [private.ECDH(peer)]: an error when the result is all zero. *)
Definition ECDH (private peer : bytes) : option bytes :=
  let shared := x25519 private peer in
  if isAllZero shared then None else Some shared.

Definition DH (private : option bytes) (peerPublic : bytes) : crypto bytes :=
  match private with
  | None => Err ErrInvalidKey
  | Some private =>
      if negb (len peerPublic =? 32) then Err ErrInvalidKey
      else match ECDH private peerPublic with
      | None => Err ErrDH
      | Some shared =>
          if negb (len shared =? 32) then Err ErrDH
          else if isAllZero shared then Err ErrZeroSharedSecret
          else copy_at (zeros 32) 0 shared
      end
  end.

End Schedule.

(** ** Fingerprints (fingerprint.go) *)

(** [base32.StdEncoding] without padding: the bytes as one bit string, cut
    into 5-bit digits from the left and filled with zero bits. *)
Definition base32_alphabet : bytes := str "ABCDEFGHIJKLMNOPQRSTUVWXYZ234567".
Definition base32_digit (d : Z) : Z := base32_alphabet !!! Z.to_nat d.
Fixpoint base32_digits (n : nat) (v : Z) : list Z :=
  match n with
  | O => []
  | S m => (v / 32 ^ Z.of_nat m) mod 32 :: base32_digits m v
  end.
Definition base32_EncodeToString (data : bytes) : bytes :=
  let n := (8 * len data + 4) / 5 in
  map base32_digit (base32_digits (Z.to_nat n) (be_combine data * 2 ^ (5 * n - 8 * len data))).

(** [strings.ToLower] on ASCII. *)
Definition ToLower (s : bytes) : bytes :=
  map (fun c => if (65 <=? c) && (c <=? 90) then c + 32 else c) s.

Inductive FingerprintRole : Set :=
| FingerprintServer
| FingerprintClient
| fingerprint_other (n : Z).

(** The loop that writes groups of four. *)
Fixpoint group4 (fuel : nat) (encoded : bytes) (index : Z) (grouped : bytes) : crypto bytes :=
  match fuel with
  | O => Diverge
  | S fuel =>
      if index <? len encoded then
        let grouped := if 0 <? index then grouped ++ [45] else grouped in
        let* group := slice encoded index (index + 4) in
        group4 fuel encoded (index + 4) (grouped ++ group)
      else Ok grouped
  end.

Definition Fingerprint `{Primitives} (role : FingerprintRole) (publicKey : bytes) : crypto bytes :=
  let write (label prefix : string) :=
    let digest := Sum256 [str label; publicKey] in
    let* short := slice digest 0 20 in
    let encoded := ToLower (base32_EncodeToString short) in
    group4 (S (length encoded)) encoded 0 (str prefix) in
  match role with
  | FingerprintServer => write "WG-FP/1/server" "wgs-"
  | FingerprintClient => write "WG-FP/1/client" "wgc-"
  | fingerprint_other _ => Err ErrInvalidRole
  end.

(** ** HKDF against RFC 5869 *)
Section Laws.
Context {P : Primitives} {HP : PrimitivesOk P}.

Lemma hmac_size key m : len (hmac key m) = 32.
Proof. apply blake2s256_size. Qed.

Lemma hmac_ok key m : key_ok (hmac key m).
Proof. apply blake2s256_size. Qed.

Lemma Sum256_ok parts : key_ok (Sum256 parts).
Proof. apply blake2s256_size. Qed.

(** T(0) is empty, T(n+1) = HMAC(prk, T(n) | info | n+1). *)
Fixpoint hkdf_T (prk info : bytes) (n : nat) : bytes :=
  match n with
  | O => []
  | S m => hmac prk (hkdf_T prk info m ++ info ++ [Z.of_nat n])
  end.

(** T(1) | ... | T(n) *)
Fixpoint hkdf_stream (prk info : bytes) (n : nat) : bytes :=
  match n with
  | O => []
  | S m => hkdf_stream prk info m ++ hkdf_T prk info n
  end.

Definition hkdf_expand (prk info : bytes) (length : Z) : bytes :=
  take (Z.to_nat length) (hkdf_stream prk info 255).

Lemma len_hkdf_stream prk info n : len (hkdf_stream prk info n) = 32 * Z.of_nat n.
Proof.
  induction n as [|n IH]; [done|]. cbn [hkdf_stream]. rewrite len_app, IH.
  cbn [hkdf_T]. rewrite hmac_size. lia.
Qed.

Lemma hkdf_stream_prefix prk info n k :
  exists s, hkdf_stream prk info (n + k) = hkdf_stream prk info n ++ s.
Proof.
  induction k as [|k [s IH]]; [exists []; by rewrite Nat.add_0_r, app_nil_r|].
  rewrite Nat.add_succ_r. cbn [hkdf_stream]. rewrite IH, <- app_assoc. by eexists.
Qed.

Lemma hkdf_take prk info n length :
  (n <= 255)%nat -> length <= 32 * Z.of_nat n ->
  take (Z.to_nat length) (hkdf_stream prk info n) = hkdf_expand prk info length.
Proof.
  intros Hn Hl. unfold hkdf_expand.
  destruct (hkdf_stream_prefix prk info n (255 - n)) as [s Hs].
  replace (n + (255 - n))%nat with 255%nat in Hs by lia. rewrite Hs.
  rewrite take_app_le; [done|]. pose proof (len_hkdf_stream prk info n). unfold len in *. lia.
Qed.

Lemma Expand_loop_spec prk info length k : forall n fuel,
  (n + k = 255)%nat -> (k < fuel)%nat -> 32 * Z.of_nat n < length <= 8160 ->
  Expand_loop fuel prk info length (hkdf_stream prk info n) (hkdf_T prk info n) (Z.of_nat n + 1)
  = Ok (hkdf_expand prk info length).
Proof.
  induction k as [|k IH]; intros n fuel Hn Hf Hl; [lia|].
  destruct fuel as [|fuel]; [lia|]. cbn [Expand_loop]. rewrite len_hkdf_stream. by_test.
  replace (Z.of_nat n + 1) with (Z.of_nat (S n)) by lia.
  change (hmac prk (hkdf_T prk info n ++ info ++ [Z.of_nat (S n)])) with (hkdf_T prk info (S n)).
  assert (HT : len (hkdf_T prk info (S n)) = 32) by apply hmac_size. rewrite HT.
  destruct (Z.ltb_spec 32 (length - 32 * Z.of_nat n)).
  - rewrite slice_Ok by lia. cbn [obind]. rewrite drop_0, take_ge by (unfold len in HT; lia).
    change (hkdf_stream prk info n ++ hkdf_T prk info (S n)) with (hkdf_stream prk info (S n)).
    rewrite u8_small by lia. apply IH; lia.
  - rewrite slice_Ok by lia. cbn [obind]. rewrite drop_0, Z.sub_0_r.
    destruct fuel as [|fuel]; [lia|]. cbn [Expand_loop].
    assert (Hout : hkdf_stream prk info n
        ++ take (Z.to_nat (length - 32 * Z.of_nat n)) (hkdf_T prk info (S n)) = hkdf_expand prk info length).
    { rewrite <- (hkdf_take prk info (S n)) by lia. cbn [hkdf_stream]. symmetry.
      pose proof (len_hkdf_stream prk info n) as Hs. unfold len in Hs.
      rewrite take_app_ge by lia. do 2 f_equal. lia. }
    rewrite Hout. replace (len (hkdf_expand prk info length)) with length; [by rewrite Z.ltb_irrefl|].
    rewrite <- (hkdf_take prk info (S n)) by lia. pose proof (len_hkdf_stream prk info (S n)) as Hs.
    unfold len in *. rewrite length_take. lia.
Qed.

Lemma Expand_spec prk info length :
  0 <= length <= 8160 -> Expand prk info length = Ok (hkdf_expand prk info length).
Proof.
  intros Hl. unfold Expand, hashSize. by_test. destruct (Z.eqb_spec length 0) as [->|]; [done|].
  apply (Expand_loop_spec prk info length 255 0); lia.
Qed.

Lemma len_hkdf_expand prk info length :
  0 <= length <= 8160 -> len (hkdf_expand prk info length) = length.
Proof.
  intros Hl. unfold hkdf_expand. pose proof (len_hkdf_stream prk info 255) as Hs.
  unfold len in *. rewrite length_take. lia.
Qed.

Lemma hkdf_stream_bytes prk info n : bytes_ok (hkdf_stream prk info n).
Proof.
  induction n as [|n IH]; [constructor|]. cbn [hkdf_stream]. apply bytes_ok_app. split; [done|].
  apply hmac_ok.
Qed.

Lemma hkdf_key_ok prk info : key_ok (hkdf_expand prk info 32).
Proof. split; [by apply len_hkdf_expand | apply bytes_ok_take, hkdf_stream_bytes]. Qed.

(** [copy(key[:], data)] of exactly 32 bytes. *)
Lemma copy_key {E} d : len d = 32 -> copy_at (E := E) (zeros 32) 0 d = Ok d.
Proof.
  intros Hd. change (zeros 32) with ([] ++ zeros 32). rewrite copy_at_zeros by (done || lia).
  rewrite zeros_nil by lia. by rewrite app_nil_r.
Qed.

Lemma key32 k : key_ok k -> len k = 32.
Proof. by intros []. Qed.

(** ** The key schedule in closed form *)
Lemma DeriveM1_spec context es :
  DeriveM1 context es =
  if isAllZero es then Err ErrZeroSharedSecret
  else Ok (Extract (Sum256 [context]) es, hkdf_expand (Extract (Sum256 [context]) es) m1Label 32).
Proof.
  unfold DeriveM1, hashSize. destruct (isAllZero es); [done|]. rewrite Expand_spec by lia. cbn [obind].
  by rewrite copy_key by (by apply len_hkdf_expand).
Qed.

Lemma DeriveM2_spec th1 es ss ee se :
  key_ok es -> key_ok ss -> key_ok ee -> key_ok se ->
  DeriveM2 th1 es ss ee se =
  if isAllZero es || isAllZero ss || isAllZero ee || isAllZero se then Err ErrZeroSharedSecret
  else let prk2 := Extract th1 (es ++ ss ++ ee ++ se) in
       Ok (prk2, hkdf_expand prk2 (m2Label ++ th1) 32).
Proof.
  intros [H1 _] [H2 _] [H3 _] [H4 _]. unfold DeriveM2, hashSize.
  destruct (_ || _); [done|]. change (zeros (4 * 32)) with ([] ++ zeros 128).
  rewrite copy_at_zeros by (change (len (@nil Z)) with 0; lia). cbn [obind]. rewrite H1.
  rewrite copy_at_zeros by (rewrite ?len_app; change (len (@nil Z)) with 0; lia). cbn [obind]. rewrite H2.
  rewrite copy_at_zeros by (rewrite ?len_app; change (len (@nil Z)) with 0; lia). cbn [obind]. rewrite H3.
  rewrite copy_at_zeros by (rewrite ?len_app; change (len (@nil Z)) with 0; lia). cbn [obind]. rewrite H4.
  rewrite (zeros_nil (_ - _)), app_nil_r by lia. rewrite Expand_spec by lia. cbn [obind].
  rewrite copy_key by (by apply len_hkdf_expand). cbn [obind app]. by rewrite <- !app_assoc.
Qed.

Lemma DeriveTraffic_spec prk2 th2 :
  DeriveTraffic prk2 th2
  = Ok (hkdf_expand prk2 (c2sLabel ++ th2) 32, hkdf_expand prk2 (s2cLabel ++ th2) 32).
Proof.
  unfold DeriveTraffic, hashSize. rewrite !Expand_spec by lia. cbn [obind].
  by rewrite !copy_key by (by apply len_hkdf_expand).
Qed.

(** ** Transport packets *)
Lemma OpenTransport_Seal key header plaintext packet :
  len key = 32 -> SealTransportPlaintext key header plaintext = Ok packet ->
  OpenTransportPlaintext key packet = Ok plaintext
  /\ pkt_Header packet = with_PayloadLength header (len (pkt_Payload packet))
  /\ len (pkt_Payload packet) = len plaintext + 16 /\ len (pkt_Payload packet) <= 65535
  /\ Kind header = PacketTransport /\ Header_validate header = Ok tt
  /\ (bytes_ok plaintext -> bytes_ok (pkt_Payload packet)).
Proof.
  intros Hk H. unfold SealTransportPlaintext, as_err, MaxUint16, Overhead in H. inv_ok.
  pose proof (len_nonneg plaintext). rewrite u16_small in * by (unfold MaxUint16; lia).
  apply Header_marshal_valid in Ha as [Hv ->].
  set (h := with_PayloadLength header (len plaintext + 16)) in *.
  unfold OpenTransportPlaintext, as_err, Overhead, MaxUint16. cbn [pkt_Header pkt_Payload].
  rewrite aead_Seal_size. change (Kind h) with (Kind header).
  change (PayloadLength h) with (len plaintext + 16). rewrite Z.eqb_refl.
  assert (HK : Kind header = PacketTransport) by lia. rewrite HK. simpl (PacketTransport =? PacketTransport).
  simpl negb. cbv iota. by_test. rewrite Header_marshal_layout by done. cbn [wrap_err obind].
  unfold aead_New. rewrite Hk. cbn [obind]. rewrite aead_Open_Seal. split_and!; try done; try lia.
  apply aead_Seal_bytes.
Qed.

Lemma OpenTransport_SealTransport key header frames m packet :
  len key = 32 -> Forall Frame_ok frames -> SealTransport key header frames m = Ok packet ->
  OpenTransport key packet m = Ok frames
  /\ (exists plaintext, OpenTransportPlaintext key packet = Ok plaintext
        /\ ParseFrames plaintext m = Ok frames)
  /\ pkt_Header packet = with_PayloadLength header (len (pkt_Payload packet))
  /\ 16 <= len (pkt_Payload packet) <= 65535
  /\ Kind header = PacketTransport /\ Header_validate header = Ok tt.
Proof.
  intros Hk Hf H. unfold SealTransport in H. inv_ok. apply MarshalFrames_ParseFrames in Ha as Hp; [|done].
  apply OpenTransport_Seal in H as (Ho & Hh & Hl & Hm & HK & Hv & _); [|done].
  pose proof (len_nonneg a). unfold OpenTransport. rewrite Ho. cbn [obind]. rewrite Hp.
  split_and!; try done; try lia. by exists a.
Qed.

(** The datagram form: what is sealed passes the packet codec. *)
Lemma transport_datagram key header frames m packet max d :
  len key = 32 -> Forall Frame_ok frames -> Header_ok header ->
  SealTransport key header frames m = Ok packet -> Packet_MarshalBinary packet max = Ok d ->
  ParsePacket d max = Ok packet /\ OpenTransport key packet m = Ok frames.
Proof.
  intros Hk Hf Hh Hs Hm. apply OpenTransport_SealTransport in Hs as (Ho & _ & He & Hl & HK & Hv); [|done..].
  split; [|done]. apply Packet_marshal_inv in Hm as Hi. destruct Hi as (Hlim & Hval & Hout & ->).
  assert (Hok : Header_ok (pkt_Header packet)).
  { rewrite He. destruct Hh as (?&?&?&?&?&?&?&?). unfold Header_ok, with_PayloadLength. simpl.
    split_and!; try done. unfold uint_ok in *. lia. }
  pose proof (Packet_parse_layout packet max Hok Hlim Hval Hout) as Hp. unfold packet_bytes in *.
  rewrite He in Hp |- *. destruct packet as [ph pp]. simpl in *. subst ph. exact Hp.
Qed.
End Laws.

(** ** Nonces *)
Lemma Nonce_inj a b : uint_ok 64 a -> uint_ok 64 b -> Nonce a = Nonce b -> a = b.
Proof.
  intros Ha Hb H. unfold Nonce in H. apply app_inv_head in H. apply (inj reverse) in H.
  rewrite <- (be_combine_split 8 a), <- (be_combine_split 8 b) by done. by rewrite H.
Qed.

Lemma len_Nonce a : len (Nonce a) = 12.
Proof. unfold Nonce. rewrite len_app, len_zeros by lia. unfold len. by rewrite length_reverse, length_be_split. Qed.

Lemma allocation_inj first i j pn :
  allocation first i = inl pn -> allocation first j = inl pn -> i = j.
Proof. unfold allocation. do 2 destruct (_ <=? _); intros [= <-] [=]. lia. Qed.

(** ** Fingerprints *)
Lemma group4_spec fuel : forall encoded index grouped,
  0 <= index <= len encoded -> (index mod 4 = 0) -> len encoded mod 4 = 0 ->
  len encoded - index < 4 * Z.of_nat fuel ->
  exists tail, group4 fuel encoded index grouped = Ok (grouped ++ tail)
    /\ filter (fun c => c <> 45) tail = filter (fun c => c <> 45) (drop (Z.to_nat index) encoded).
Proof.
  induction fuel as [|fuel IH]; intros encoded index grouped Hi Hm Hl Hf; [lia|]. cbn [group4].
  destruct (Z.ltb_spec index (len encoded)); last first.
  { exists []. rewrite app_nil_r. split; [done|]. rewrite drop_ge by (unfold len in *; lia). done. }
  assert (index + 4 <= len encoded) by (Z.to_euclidean_division_equations; lia).
  rewrite slice_Ok by lia. cbn [obind]. replace (index + 4 - index) with 4 by lia.
  set (g := take (Z.to_nat 4) _).
  destruct (IH encoded (index + 4) ((if 0 <? index then grouped ++ [45] else grouped) ++ g))
    as (tail & -> & Ht); [lia | Z.to_euclidean_division_equations; lia | done | lia |].
  exists ((if 0 <? index then [45] else []) ++ g ++ tail). split.
  - destruct (0 <? index); by rewrite <- ?app_assoc.
  - rewrite !list.filter_app, Ht.
    replace (filter (fun c => c <> 45) (if 0 <? index then [45] else [])) with (@nil Z)
      by (by destruct (0 <? index)).
    rewrite app_nil_l, <- list.filter_app. f_equal. subst g.
    replace (Z.to_nat (index + 4)) with (Z.to_nat index + Z.to_nat 4)%nat by lia.
    rewrite <- drop_drop. apply take_drop.
Qed.

Lemma base32_digits_mod n v k : base32_digits n (v + k * 32 ^ Z.of_nat n) = base32_digits n v.
Proof.
  revert k. induction n as [|n IH]; intros k; [done|]. cbn [base32_digits].
  replace (k * 32 ^ Z.of_nat (S n)) with (k * 32 * 32 ^ Z.of_nat n)
    by (rewrite Nat2Z.inj_succ, Z.pow_succ_r by lia; lia).
  rewrite IH, Z.div_add, Z.mod_add by lia. done.
Qed.

Lemma base32_digits_inj n : forall v w,
  0 <= v < 32 ^ Z.of_nat n -> 0 <= w < 32 ^ Z.of_nat n ->
  base32_digits n v = base32_digits n w -> v = w.
Proof.
  induction n as [|n IH]; intros v w Hv Hw H; [simpl in *; lia|].
  cbn [base32_digits] in H. injection H as Hd Hr.
  rewrite Nat2Z.inj_succ, Z.pow_succ_r in Hv, Hw by lia. set (b := 32 ^ Z.of_nat n) in *.
  assert (0 < b) by (subst b; lia).
  rewrite (Z.mod_small (v / b)) in Hd
    by (split; [apply Z.div_pos; lia | apply Z.div_lt_upper_bound; lia]).
  rewrite (Z.mod_small (w / b)) in Hd
    by (split; [apply Z.div_pos; lia | apply Z.div_lt_upper_bound; lia]).
  rewrite (Z.div_mod v b), (Z.div_mod w b) in Hr by lia.
  rewrite (Z.add_comm (b * (v / b))), (Z.add_comm (b * (w / b))), !(Z.mul_comm b) in Hr.
  unfold b in Hr. rewrite !base32_digits_mod in Hr. fold b in Hr.
  apply IH in Hr; [|apply Z.mod_pos_bound; lia..].
  rewrite (Z.div_mod v b), (Z.div_mod w b) by lia. by rewrite Hd, Hr.
Qed.

Lemma base32_digits_range n v : Forall (fun d => 0 <= d < 32) (base32_digits n v).
Proof. induction n; [constructor|]. constructor; [apply Z.mod_pos_bound; lia | done]. Qed.

Lemma length_base32_digits n v : length (base32_digits n v) = n.
Proof. induction n; [done|]. simpl. by f_equal. Qed.

(** The lower-case alphabet: 32 distinct characters, none of them a dash. *)
Definition lower_digit (d : Z) : Z :=
  let c := base32_digit d in if (65 <=? c) && (c <=? 90) then c + 32 else c.
Definition digit_value (c : Z) : Z := if 97 <=? c then c - 97 else c - 24.

Lemma lower_digit_spec d : 0 <= d < 32 -> digit_value (lower_digit d) = d /\ lower_digit d <> 45.
Proof.
  intros Hd. assert (H : Forall (fun n => digit_value (lower_digit (Z.of_nat n)) = Z.of_nat n
                                      /\ lower_digit (Z.of_nat n) <> 45) (seq 0 32))
    by (apply (bool_decide_unpack _); vm_compute; exact I).
  rewrite Forall_forall in H. specialize (H (Z.to_nat d)). rewrite Z2Nat.id in H by lia.
  apply H, in_seq. lia.
Qed.

Lemma lower_digits_inj l : forall k,
  Forall (fun d => 0 <= d < 32) l -> Forall (fun d => 0 <= d < 32) k ->
  map lower_digit l = map lower_digit k -> l = k.
Proof.
  induction l as [|d l IH]; intros [|e k] Hl Hk H; try done. simpl in H. injection H as H1 H2.
  apply Forall_cons_1 in Hl as [Hd Hl]. apply Forall_cons_1 in Hk as [He Hk]. f_equal; [|by apply IH].
  rewrite <- (proj1 (lower_digit_spec d Hd)), H1. by apply lower_digit_spec.
Qed.

Lemma lower_digits_filter l :
  Forall (fun d => 0 <= d < 32) l ->
  filter (fun c => c <> 45) (map lower_digit l) = map lower_digit l.
Proof.
  induction 1 as [|d l Hd Hl IH]; [done|]. simpl. rewrite filter_cons_True by (by apply lower_digit_spec).
  by rewrite IH.
Qed.

(** The encoding of a 20-byte digest. *)
Lemma encode20 d : bytes_ok d -> len d = 20 ->
  ToLower (base32_EncodeToString d) = map lower_digit (base32_digits 32 (be_combine d)).
Proof.
  intros Hb Hd. unfold base32_EncodeToString, ToLower. rewrite Hd.
  change (Z.to_nat ((8 * 20 + 4) / 5)) with 32%nat. change (5 * ((8 * 20 + 4) / 5) - 8 * 20) with 0.
  rewrite Z.mul_1_r, map_map. reflexivity.
Qed.

Section FingerprintLaws.
Context {P : Primitives} {HP : PrimitivesOk P}.

Definition fingerprint_label (r : FingerprintRole) : bytes :=
  match r with FingerprintServer => str "WG-FP/1/server" | _ => str "WG-FP/1/client" end.
Definition fingerprint_prefix (r : FingerprintRole) : bytes :=
  match r with FingerprintServer => str "wgs-" | _ => str "wgc-" end.
Definition known_role (r : FingerprintRole) : Prop := r = FingerprintServer \/ r = FingerprintClient.

(** The 160-bit digest a fingerprint displays. *)
Definition fingerprint_digest (r : FingerprintRole) (k : bytes) : bytes :=
  take 20 (Sum256 [fingerprint_label r; k]).

Lemma fingerprint_digest_ok r k :
  bytes_ok (fingerprint_digest r k) /\ len (fingerprint_digest r k) = 20.
Proof.
  destruct (Sum256_ok [fingerprint_label r; k]) as [Hl Hb]. unfold fingerprint_digest.
  split; [by apply bytes_ok_take|]. unfold len in *. rewrite length_take. lia.
Qed.

Lemma Fingerprint_spec r k :
  known_role r ->
  exists tail, Fingerprint r k = Ok (fingerprint_prefix r ++ tail)
    /\ filter (fun c => c <> 45) tail
       = map lower_digit (base32_digits 32 (be_combine (fingerprint_digest r k))).
Proof.
  intros Hr. destruct (fingerprint_digest_ok r k) as [Hb Hl].
  set (encoded := ToLower (base32_EncodeToString (fingerprint_digest r k))).
  assert (He : encoded = map lower_digit (base32_digits 32 (be_combine (fingerprint_digest r k))))
    by (by apply encode20).
  assert (Hlen : len encoded = 32) by (rewrite He; unfold len; by rewrite length_map, length_base32_digits).
  destruct (group4_spec (S (length encoded)) encoded 0 (fingerprint_prefix r)) as (tail & Hg & Ht);
    [lia | done | by rewrite Hlen | unfold len in *; lia |].
  exists tail. split.
  - rewrite <- Hg. unfold Fingerprint. destruct Hr as [-> | ->];
      (rewrite slice_Ok by (try lia; by rewrite (key32 _ (Sum256_ok _))); reflexivity).
  - rewrite Ht, He. change (Z.to_nat 0) with 0%nat. rewrite drop_0.
    apply lower_digits_filter, base32_digits_range.
Qed.
End FingerprintLaws.

(** ** A concrete instance: the laws of [PrimitivesOk] can hold

    An executable stand-in for the primitives (a polynomial checksum, a tag
    behind the plaintext, multiplication modulo a small prime), used only to run
    the theorems on concrete inputs. *)
Module Toy.
Definition checksum (m : bytes) : bytes :=
  be_split 32 (fold_left (fun acc b => (acc * 257 + b + 1) mod 65521) m 7).
Definition tag (k n p ad : bytes) : bytes := drop 16 (checksum (k ++ n ++ p ++ ad)).
Definition seal (k n p ad : bytes) : bytes := p ++ tag k n p ad.
Definition open (k n c ad : bytes) : option bytes :=
  let p := take (length c - 16) c in
  if bool_decide (c = seal k n p ad) then Some p else None.
Definition q : Z := 65521.
Definition mul (a p : bytes) : bytes := be_split 32 ((be_combine a * be_combine p) mod q).
Definition base (a : bytes) : bytes := be_split 32 ((be_combine a * 9) mod q).

#[global] Instance primitives : Primitives := {|
  blake2s256 := checksum; aead_Seal := seal; aead_Open := open;
  x25519 := mul; x25519_PublicKey := base
|}.

Lemma checksum_ok m : key_ok (checksum m).
Proof. split; [apply len_be_split | apply be_split_ok]. Qed.

Lemma tag_ok k n p ad : length (tag k n p ad) = 16%nat /\ bytes_ok (tag k n p ad).
Proof.
  unfold tag. destruct (checksum_ok (k ++ n ++ p ++ ad)) as [Hl Hb].
  split; [unfold len in Hl; rewrite length_drop; lia | by apply bytes_ok_drop].
Qed.

Lemma be_combine_mod x : be_combine (be_split 32 (x mod q)) = x mod q.
Proof.
  apply be_combine_split. pose proof (Z.mod_pos_bound x q ltac:(done)).
  split; [lia|]. eapply Z.lt_trans; [apply H|]. reflexivity.
Qed.

#[global] Instance primitives_ok : PrimitivesOk primitives.
Proof.
  constructor; simpl.
  - apply checksum_ok.
  - intros k n p ad. unfold seal. rewrite len_app. unfold len at 2. rewrite (proj1 (tag_ok _ _ _ _)). lia.
  - intros k n p ad Hp. unfold seal. apply bytes_ok_app. split; [done | apply tag_ok].
  - intros k n p ad. unfold open.
    replace (take _ (seal k n p ad)) with p; [by rewrite bool_decide_true|].
    unfold seal. rewrite length_app, (proj1 (tag_ok _ _ _ _)), Nat.add_sub. by rewrite take_app_length.
  - intros k n c ad p Hc. unfold open. case_bool_decide; [|done]. intros [= <-]. by apply bytes_ok_take.
  - intros a p. split; [apply len_be_split | apply be_split_ok].
  - intros a. split; [apply len_be_split | apply be_split_ok].
  - intros a b _ _. unfold mul, base. rewrite !be_combine_mod. f_equal.
    rewrite !Z.mul_mod_idemp_r by done. f_equal. lia.
Qed.
End Toy.

(** ** Properties *)

(** C40: [Expand] is HKDF-Expand of RFC 5869: it returns the first [length] bytes
    of T(1) | T(2) | ... for every length up to 255 blocks (its byte counter never
    wraps), and refuses exactly the other lengths. *)
Theorem expand_is_hkdf {P : Primitives} {HP : PrimitivesOk P} prk info length :
  Expand prk info length
  = if (0 <=? length) && (length <=? 8160) then Ok (hkdf_expand prk info length)
    else Err ErrInvalidLength.
Proof.
  destruct (_ && _) eqn:E.
  - apply Expand_spec. lia.
  - unfold Expand, hashSize. by replace ((length <? 0) || (255 * 32 <? length)) with true by lia.
Qed.

Lemma expand_is_hkdf_witness :
  Expand (P := Toy.primitives) [1] [2] 70 = Ok (hkdf_expand (P := Toy.primitives) [1] [2] 70).
Proof. rewrite (expand_is_hkdf (P := Toy.primitives) [1] [2] 70). reflexivity. Defined.

(** The key schedule.  INITIAL, HANDSHAKE and traffic keys are the HKDF
    expressions of WG-HS/1 (the handshake secret binds es | ss | ee | se in that
    order, under the transcript hash); they are always 32 bytes; derivation fails
    exactly when a shared secret is all zero; and the two traffic directions never
    expand the same HKDF input. *)
Theorem key_schedule {P : Primitives} {HP : PrimitivesOk P} context th1 th2 th2' prk2 es ss ee se :
  key_ok es -> key_ok ss -> key_ok ee -> key_ok se -> len th2 = len th2' ->
  DeriveM1 context es =
    (if isAllZero es then Err ErrZeroSharedSecret
     else let prk1 := hmac (Sum256 [context]) es in Ok (prk1, hkdf_expand prk1 m1Label 32))
  /\ DeriveM2 th1 es ss ee se =
    (if isAllZero es || isAllZero ss || isAllZero ee || isAllZero se then Err ErrZeroSharedSecret
     else let prk2 := Extract th1 (es ++ ss ++ ee ++ se) in
          Ok (prk2, hkdf_expand prk2 (m2Label ++ th1) 32))
  /\ DeriveTraffic prk2 th2
     = Ok (hkdf_expand prk2 (c2sLabel ++ th2) 32, hkdf_expand prk2 (s2cLabel ++ th2) 32)
  /\ (forall info, key_ok (hkdf_expand prk2 info 32))
  /\ c2sLabel ++ th2 <> s2cLabel ++ th2'.
Proof.
  intros He Hs Hee Hse Hl. split_and!.
  - rewrite DeriveM1_spec. unfold Extract. by rewrite (key32 _ (Sum256_ok [context])).
  - by apply DeriveM2_spec.
  - apply DeriveTraffic_spec.
  - intros info. apply hkdf_key_ok.
  - intros H. apply (f_equal (take 10)) in H. vm_compute in H. discriminate H.
Qed.

Lemma key_schedule_witness :
  DeriveM1 (P := Toy.primitives) [1] (be_split 32 5)
  = let prk1 := hmac (P := Toy.primitives) (Sum256 (P := Toy.primitives) [[1]]) (be_split 32 5) in
    Ok (prk1, hkdf_expand (P := Toy.primitives) prk1 m1Label 32).
Proof.
  refine (eq_trans (proj1 (key_schedule (P := Toy.primitives) [1] [] [] [] [] (be_split 32 5)
    (be_split 32 5) (be_split 32 5) (be_split 32 5) _ _ _ _ eq_refl)) _);
    [apply (bool_decide_unpack _); vm_compute; exact I.. | reflexivity].
Defined.

(** Transport nonces are unique.  Every call of a packet-number allocator
    that succeeds gives a 12-byte nonce that no other call of that allocator
    gives, so no traffic key ever seals two packets under one nonce. *)
Theorem nonces_unique n first i j a b :
  uint_ok 64 first -> i <> j ->
  Next_all n (NewPacketNumbers first) !! i = Some (inl a) ->
  Next_all n (NewPacketNumbers first) !! j = Some (inl b) ->
  len (Nonce a) = NonceSize /\ Nonce a <> Nonce b.
Proof.
  intros Hf Hij Ha Hb. split; [apply len_Nonce|].
  assert (Hlen : forall k p, length (Next_all k p) = k).
  { induction k as [|k IH]; intros p; [done|]. cbn [Next_all].
    destruct (PacketNumbers_Next p). simpl. by rewrite IH. }
  pose proof (lookup_lt_Some _ _ _ Ha) as Hi. pose proof (lookup_lt_Some _ _ _ Hb) as Hj.
  rewrite Hlen in Hi, Hj. rewrite Next_all_lookup in Ha, Hb by done.
  injection Ha as Ha. injection Hb as Hb. intros Hn. apply Nonce_inj in Hn as <-.
  - apply Hij, Nat2Z.inj. by eapply allocation_inj.
  - unfold allocation in Ha. destruct (_ <=? _) eqn:E; [|done]. injection Ha as <-.
    unfold uint_ok, MaxUint64 in *. lia.
  - unfold allocation in Hb. destruct (_ <=? _) eqn:E; [|done]. injection Hb as <-.
    unfold uint_ok, MaxUint64 in *. lia.
Qed.

Lemma nonces_unique_witness : Nonce 5 <> Nonce 6.
Proof.
  refine (proj2 (nonces_unique 2 5 0 1 5 6 _ _ _ _));
    [apply (bool_decide_unpack _); vm_compute; exact I | lia | reflexivity | reflexivity].
Defined.

(** Transport protection round trips over the wire.  Frames sealed under a
    key and a typed header, marshalled and parsed again under the same datagram
    limit, open under that key to exactly those frames; in between the header
    carries the real payload length, which is what the AEAD authenticates. *)
Theorem transport_round_trip {P : Primitives} {HP : PrimitivesOk P} key header frames m packet max d :
  len key = 32 -> Forall Frame_ok frames -> Header_ok header ->
  SealTransport key header frames m = Ok packet -> Packet_MarshalBinary packet max = Ok d ->
  ParsePacket d max = Ok packet /\ OpenTransport key packet m = Ok frames
  /\ PayloadLength (pkt_Header packet) = len (pkt_Payload packet).
Proof.
  intros Hk Hf Hh Hs Hm. destruct (transport_datagram key header frames m packet max d) as [Hp Ho]; try done.
  split_and!; [done | done |]. apply OpenTransport_SealTransport in Hs as (_ & _ & He & _); [|done..].
  by rewrite He.
Qed.

Definition demo_transport_header : Header := mkHeader 1 PacketTransport 0 11 22 7 0 0.
Definition demo_sealed : Packet :=
  match SealTransport (P := Toy.primitives) (be_split 32 3) demo_transport_header demo_frames 0 with
  | Ok p => p | _ => mkPacket demo_transport_header [] end.
Definition demo_sealed_datagram : bytes :=
  match Packet_MarshalBinary demo_sealed 0 with Ok d => d | _ => [] end.

Lemma transport_round_trip_witness :
  OpenTransport (P := Toy.primitives) (be_split 32 3) demo_sealed 0 = Ok demo_frames.
Proof.
  refine (proj1 (proj2 (transport_round_trip (P := Toy.primitives) (be_split 32 3)
    demo_transport_header demo_frames 0 demo_sealed 0 demo_sealed_datagram _ _ _ _ _)));
    [vm_compute; reflexivity | apply (bool_decide_unpack _); vm_compute; exact I..
    | vm_compute; reflexivity | vm_compute; reflexivity].
Defined.

(** Fingerprints bind role and key.  [Fingerprint] always succeeds for the
    two roles, and two equal fingerprints have the same role and the same 160-bit
    digest: the grouping, the lower-casing and base32 lose nothing. *)
Theorem fingerprint_binds {P : Primitives} {HP : PrimitivesOk P} r r' k k' s :
  known_role r -> known_role r' ->
  returns (Fingerprint r k)
  /\ (Fingerprint r k = Ok s -> Fingerprint r' k' = Ok s ->
      r = r' /\ fingerprint_digest r k = fingerprint_digest r' k').
Proof.
  intros Hr Hr'. destruct (Fingerprint_spec r k Hr) as (t & E & Ht).
  destruct (Fingerprint_spec r' k' Hr') as (t' & E' & Ht'). rewrite E, E'.
  split; [exact I|]. intros [= <-] [= H].
  assert (Hrr : r = r' /\ t' = t) by (destruct Hr as [-> | ->], Hr' as [-> | ->]; by injection H).
  destruct Hrr as [<- ->]. split; [done|].
  destruct (fingerprint_digest_ok r k) as [Hb Hl]. destruct (fingerprint_digest_ok r k') as [Hb' Hl'].
  rewrite Ht in Ht'. apply lower_digits_inj in Ht'; [|apply base32_digits_range..].
  apply base32_digits_inj in Ht'.
  - rewrite <- (be_split_combine' 20 (fingerprint_digest r k)) by (done || (unfold len in *; lia)).
    rewrite <- (be_split_combine' 20 (fingerprint_digest r k')) by (done || (unfold len in *; lia)).
    by rewrite Ht'.
  - pose proof (be_combine_bound _ Hb) as Hx. by rewrite Hl in Hx.
  - pose proof (be_combine_bound _ Hb') as Hx. by rewrite Hl' in Hx.
Qed.

Lemma fingerprint_binds_witness :
  returns (Fingerprint (H := Toy.primitives) FingerprintServer (be_split 32 1)).
Proof.
  refine (proj1 (fingerprint_binds (P := Toy.primitives) FingerprintServer FingerprintClient
    (be_split 32 1) (be_split 32 1) [] _ _)); [left; reflexivity | right; reflexivity].
Defined.
