(* ===== verification/HandshakeTypes.v ===== *)
(** * Handshake configuration (internal/handshake/types.go, errors.go)

    States and errors of the WG-HS/1 handshake, the two configurations and
    their normalization to options.  [uint16] arithmetic wraps as in Go.  Theorem:
    exactly the usable configurations are accepted, with the defaults filled in. *)

From stdpp Require Import base list strings numbers.
From S2P Require Import Prelude CodecErrors Payload Packet Frame Crypto.
Local Open Scope Z_scope.
Local Open Scope wg_scope.

Inductive State : Set :=
| StateIdle
| StateInitialSent
| StatePendingConfirm
| StatePendingPong
| StateEstablished
| StateRejected
| StateClosed.

#[global] Instance State_eq_dec : EqDecision State.
Proof. solve_decision. Defined.

(** The sentinels of errors.go; the wrapped detail text is left out. *)
Inductive HandshakeErr : Set :=
| ErrState
| ErrConfiguration
| ErrMessage
| ErrAuthentication
| ErrUnregisteredClient
| ErrEnrollmentUnsupported
| ErrTranscript
| ErrConnectionID
| ErrParameters
| ErrAttemptCapacity
| ErrAttemptExpired.

#[global] Instance HandshakeErr_eq_dec : EqDecision HandshakeErr.
Proof. solve_decision. Defined.

Abbreviation hs A := (outcome HandshakeErr A).

(** [fmt.Errorf("%w: ...", sentinel)] around an error of another package. *)
Definition as_hs {E A} (e : HandshakeErr) (m : outcome E A) : hs A := wrap_err (fun _ => e) m.

(** A nil private key or reader is [None]. *)
Record ClientConfig : Set := mkClientConfig {
  cc_DeploymentID : bytes;
  cc_StaticPrivate : option bytes;
  cc_ServerStaticPublic : bytes;
  cc_Random : option bytes;
  cc_RetryToken : bytes;
  cc_Capabilities : Z;
  cc_AddressFamilies : Z;
  cc_MaxDatagramSize : Z;
  cc_MinTunnelMTU : Z;
  cc_MaxTunnelMTU : Z
}.

Record ServerConfig : Set := mkServerConfig {
  sc_DeploymentID : bytes;
  sc_StaticPrivate : option bytes;
  sc_RegisteredClients : list bytes;
  sc_Random : option bytes;
  sc_Capabilities : Z;
  sc_AddressFamilies : Z;
  sc_MaxDatagramSize : Z;
  sc_TunnelMTU : Z;
  sc_LeaseSeconds : Z;
  sc_IPv4Lease : bytes;
  sc_IPv6Lease : bytes;
  sc_EgressPolicy : Z;
  sc_DNSParameters : bytes;
  sc_PendingAttemptTimeout : Z;
  sc_ConfirmGracePeriod : Z;
  sc_AttemptReplayRetention : Z;
  sc_MaxPendingAttempts : Z;
  sc_MaxAttemptRecords : Z
}.

Record Negotiated : Set := mkNegotiated {
  ng_Capabilities : Z;
  ng_AddressFamilies : Z;
  ng_MaxDatagramSize : Z;
  ng_TunnelMTU : Z;
  ng_LeaseSeconds : Z;
  ng_IPv4Lease : bytes;
  ng_IPv6Lease : bytes;
  ng_EgressPolicy : Z;
  ng_DNSParameters : bytes
}.

(** The random sources are state of the client and of the server, not options. *)
Record clientOptions : Set := mkClientOptions {
  co_addressFamilies : Z;
  co_maxDatagramSize : Z;
  co_minTunnelMTU : Z;
  co_maxTunnelMTU : Z;
  co_capabilities : Z;
  co_retryToken : bytes
}.

Record serverOptions : Set := mkServerOptions {
  so_addressFamilies : Z;
  so_maxDatagramSize : Z;
  so_tunnelMTU : Z;
  so_leaseSeconds : Z;
  so_capabilities : Z;
  so_ipv4Lease : bytes;
  so_ipv6Lease : bytes;
  so_egressPolicy : Z;
  so_dnsParameters : bytes;
  so_pendingAttemptTimeout : Z;
  so_confirmGracePeriod : Z;
  so_attemptReplayRetention : Z;
  so_maxPendingAttempts : Z;
  so_maxAttemptRecords : Z
}.

Definition Second : Z := 1000000000.
Definition MaxInt : Z := 2 ^ 63 - 1.

(** [v &^ mask] *)
Definition and_not (v mask : Z) : Z := Z.ldiff v mask.

(** The room a datagram leaves for an IP packet, in [uint16]. *)
Definition tunnel_room (maxDatagramSize : Z) : Z :=
  u16 (u16 (u16 (maxDatagramSize - HeaderSize) - AEADTagSize) - FrameHeaderSize).

Definition zero_id (id : bytes) : bool := bool_decide (id = zeros 16).

Definition normalizeClientConfig (config : ClientConfig) : hs clientOptions :=
  match cc_StaticPrivate config with
  | None => Err ErrConfiguration
  | Some _ =>
      if zero_id (cc_DeploymentID config) then Err ErrConfiguration
      else
        let addressFamilies := cc_AddressFamilies config in
        let addressFamilies := if addressFamilies =? 0 then 3 else addressFamilies in
        if negb (and_not addressFamilies 3 =? 0) then Err ErrConfiguration
        else
          let maxDatagramSize := cc_MaxDatagramSize config in
          let maxDatagramSize := if maxDatagramSize =? 0 then DefaultMaxDatagramSize else maxDatagramSize in
          if maxDatagramSize <? HeaderSize + AEADTagSize + FrameHeaderSize + 576
          then Err ErrConfiguration
          else
            let minTunnelMTU := cc_MinTunnelMTU config in
            let minTunnelMTU := if minTunnelMTU =? 0 then 576 else minTunnelMTU in
            let maxTunnelMTU := cc_MaxTunnelMTU config in
            let maxTunnelMTU := if maxTunnelMTU =? 0 then tunnel_room maxDatagramSize else maxTunnelMTU in
            if maxTunnelMTU <? minTunnelMTU then Err ErrConfiguration
            else Ok (mkClientOptions addressFamilies maxDatagramSize minTunnelMTU maxTunnelMTU
                       (cc_Capabilities config) (cc_RetryToken config))
  end.

(** [len(lease) != 0 && (len(lease) != size || lease[size-1] > max)] *)
Definition bad_lease (lease : bytes) (size max : Z) : hs bool :=
  if len lease =? 0 then Ok false
  else if negb (len lease =? size) then Ok true
  else let* prefix := index lease (size - 1) in Ok (max <? prefix).

Definition normalizeServerConfig (config : ServerConfig) : hs serverOptions :=
  match sc_StaticPrivate config with
  | None => Err ErrConfiguration
  | Some _ =>
      if zero_id (sc_DeploymentID config) then Err ErrConfiguration
      else if len (sc_RegisteredClients config) =? 0 then Err ErrConfiguration
      else
        let addressFamilies := sc_AddressFamilies config in
        let addressFamilies := if addressFamilies =? 0 then 1 else addressFamilies in
        if negb (and_not addressFamilies 3 =? 0) then Err ErrConfiguration
        else
          let maxDatagramSize := sc_MaxDatagramSize config in
          let maxDatagramSize := if maxDatagramSize =? 0 then DefaultMaxDatagramSize else maxDatagramSize in
          if maxDatagramSize <? HeaderSize + AEADTagSize + FrameHeaderSize + 576
          then Err ErrConfiguration
          else
            let tunnelMTU := sc_TunnelMTU config in
            let tunnelMTU := if tunnelMTU =? 0 then tunnel_room maxDatagramSize else tunnelMTU in
            if (tunnelMTU <? 576) || (tunnel_room maxDatagramSize <? tunnelMTU)
            then Err ErrConfiguration
            else
              let leaseSeconds := sc_LeaseSeconds config in
              let leaseSeconds := if leaseSeconds =? 0 then 600 else leaseSeconds in
              let ipv4Lease := sc_IPv4Lease config in
              let ipv6Lease := sc_IPv6Lease config in
              if (len ipv4Lease =? 0) && (len ipv6Lease =? 0) then Err ErrConfiguration
              else
                let* bad4 := bad_lease ipv4Lease 5 32 in
                if (bad4 : bool) then Err ErrConfiguration
                else
                  let* bad6 := bad_lease ipv6Lease 17 128 in
                  if (bad6 : bool) then Err ErrConfiguration
                  else
                    let pending := sc_PendingAttemptTimeout config in
                    let pending := if pending =? 0 then 5 * Second else pending in
                    let grace := sc_ConfirmGracePeriod config in
                    let grace := if grace =? 0 then 10 * Second else grace in
                    let retention := sc_AttemptReplayRetention config in
                    let retention := if retention =? 0 then 30 * Second else retention in
                    if (pending <? 0) || (grace <? 0) || (retention <? 0) then Err ErrConfiguration
                    else
                      let maxPending := sc_MaxPendingAttempts config in
                      let maxPending := if maxPending =? 0 then 1024 else maxPending in
                      if maxPending <? 0 then Err ErrConfiguration
                      else
                        let maxRecords := sc_MaxAttemptRecords config in
                        if (maxRecords =? 0) && (MaxInt / 4 <? maxPending) then Err ErrConfiguration
                        else
                          let maxRecords := if maxRecords =? 0 then i64 (maxPending * 4) else maxRecords in
                          if maxRecords <? maxPending then Err ErrConfiguration
                          else Ok (mkServerOptions addressFamilies maxDatagramSize tunnelMTU leaseSeconds
                                     (sc_Capabilities config) ipv4Lease ipv6Lease (sc_EgressPolicy config)
                                     (sc_DNSParameters config) pending grace retention maxPending maxRecords)
  end.

Definition encodeUint16 (value : Z) : hs bytes := PutUint16 (zeros 2) 0 value.
Definition encodeUint32 (value : Z) : hs bytes := PutUint32 (zeros 4) 0 value.
Definition encodeUint64 (value : Z) : hs bytes := PutUint64 (zeros 8) 0 value.

Lemma put_fresh {E} n v : put_uint (E := E) n (zeros (Z.of_nat n)) 0 v = Ok (be_split n v).
Proof.
  change (zeros (Z.of_nat n)) with ([] ++ zeros (Z.of_nat n)).
  rewrite put_uint_zeros by (done || lia). rewrite zeros_nil by lia. by rewrite app_nil_r.
Qed.

Lemma encodeUint16_spec v : encodeUint16 v = Ok (be_split 2 v).
Proof. apply (put_fresh 2). Qed.
Lemma encodeUint32_spec v : encodeUint32 v = Ok (be_split 4 v).
Proof. apply (put_fresh 4). Qed.
Lemma encodeUint64_spec v : encodeUint64 v = Ok (be_split 8 v).
Proof. apply (put_fresh 8). Qed.

(** ** What normalization guarantees *)
Definition families_ok (f : Z) : Prop := f = 1 \/ f = 2 \/ f = 3.

Lemma and_not_families f : uint_ok 8 f -> f <> 0 -> and_not f 3 = 0 -> families_ok f.
Proof.
  intros [H0 H1] Hf H. unfold and_not in H.
  assert (f = Z.land f 3) as E.
  { apply Z.bits_inj'. intros i Hi. rewrite Z.land_spec.
    assert (Hb : Z.testbit (Z.ldiff f 3) i = false) by (rewrite H; apply Z.bits_0).
    rewrite Z.ldiff_spec in Hb. by destruct (Z.testbit f i), (Z.testbit 3 i). }
  change 3 with (Z.ones 2) in E. rewrite Z.land_ones in E by lia. change (2 ^ 2) with 4 in E.
  unfold families_ok. pose proof (Z.mod_pos_bound f 4 ltac:(lia)). lia.
Qed.

Lemma tunnel_room_spec n : 628 <= n < 2 ^ 16 -> tunnel_room n = n - 52.
Proof.
  intros Hn. unfold tunnel_room, u16, HeaderSize, AEADTagSize, FrameHeaderSize.
  rewrite (Z.mod_small (n - 32)) by lia. rewrite (Z.mod_small (_ - 16)) by lia.
  rewrite Z.mod_small; lia.
Qed.

Record client_options_ok (o : clientOptions) : Prop := {
  cok_families : families_ok (co_addressFamilies o);
  cok_datagram : 628 <= co_maxDatagramSize o < 2 ^ 16;
  cok_mtu : 0 < co_minTunnelMTU o <= co_maxTunnelMTU o
}.

Record server_options_ok (o : serverOptions) : Prop := {
  sok_families : families_ok (so_addressFamilies o);
  sok_datagram : 628 <= so_maxDatagramSize o < 2 ^ 16;
  sok_mtu : 576 <= so_tunnelMTU o <= so_maxDatagramSize o - 52;
  sok_lease : 0 < so_leaseSeconds o;
  sok_leases : so_ipv4Lease o <> [] \/ so_ipv6Lease o <> [];
  sok_lease4 : so_ipv4Lease o <> [] -> len (so_ipv4Lease o) = 5 /\
    exists p, so_ipv4Lease o !! 4%nat = Some p /\ p <= 32;
  sok_lease6 : so_ipv6Lease o <> [] -> len (so_ipv6Lease o) = 17 /\
    exists p, so_ipv6Lease o !! 16%nat = Some p /\ p <= 128;
  sok_timeouts : 0 < so_pendingAttemptTimeout o /\ 0 < so_confirmGracePeriod o
    /\ 0 < so_attemptReplayRetention o;
  sok_limits : 0 < so_maxPendingAttempts o <= so_maxAttemptRecords o
}.

(** The Go types of the fields the normalization computes with. *)
Definition client_config_typed (c : ClientConfig) : Prop :=
  uint_ok 8 (cc_AddressFamilies c) /\ uint_ok 16 (cc_MaxDatagramSize c)
  /\ uint_ok 16 (cc_MinTunnelMTU c) /\ uint_ok 16 (cc_MaxTunnelMTU c).
Definition server_config_typed (c : ServerConfig) : Prop :=
  uint_ok 8 (sc_AddressFamilies c) /\ uint_ok 16 (sc_MaxDatagramSize c)
  /\ uint_ok 16 (sc_TunnelMTU c) /\ uint_ok 32 (sc_LeaseSeconds c).

Lemma bad_lease_Ok l size max : 0 < size -> exists b, bad_lease l size max = Ok b.
Proof.
  intros Hs. unfold bad_lease. destruct (Z.eqb_spec (len l) 0); [by eexists|].
  destruct (Z.eqb_spec (len l) size); cbn [negb]; [|by eexists].
  destruct (index_in (E := HandshakeErr) l (size - 1)) as [x ->]; [lia|]. by eexists.
Qed.

Lemma bad_lease_ok l size max :
  0 < size -> bad_lease l size max = Ok false -> l <> [] ->
  len l = size /\ exists p, l !! Z.to_nat (size - 1) = Some p /\ p <= max.
Proof.
  intros Hs H Hne. unfold bad_lease in H. destruct (Z.eqb_spec (len l) 0) as [E|E].
  { by apply len_zero_nil in E. }
  destruct (Z.eqb_spec (len l) size) as [E'|E']; [|done]. simpl in H. inv_ok.
  apply index_Ok in Ha as [_ Ha]. split; [done|]. exists a. split; [done | lia].
Qed.

Lemma normalizeClientConfig_ok c o :
  client_config_typed c -> normalizeClientConfig c = Ok o -> client_options_ok o.
Proof.
  intros (Hf & Hd & Hm & Hx) H. unfold normalizeClientConfig in H.
  destruct (cc_StaticPrivate c); [|done]. inv_ok.
  unfold HeaderSize, AEADTagSize, FrameHeaderSize, DefaultMaxDatagramSize in *.
  assert (Hd' : 628 <= (if cc_MaxDatagramSize c =? 0 then 1400 else cc_MaxDatagramSize c) < 2 ^ 16)
    by (destruct (cc_MaxDatagramSize c =? 0) eqn:?; unfold uint_ok in *; lia).
  constructor; simpl; [|done|].
  - apply and_not_families; [|destruct (cc_AddressFamilies c =? 0) eqn:?; lia |lia].
    destruct (cc_AddressFamilies c =? 0); [apply (bool_decide_unpack _); vm_compute; exact I | done].
  - destruct (cc_MinTunnelMTU c =? 0) eqn:?; unfold uint_ok in *; lia.
Qed.

Lemma normalizeServerConfig_ok c o :
  server_config_typed c -> normalizeServerConfig c = Ok o -> server_options_ok o.
Proof.
  intros (Hf & Hd & Hm & Hl) H. unfold normalizeServerConfig in H.
  destruct (sc_StaticPrivate c); [|done]. inv_ok. subst.
  unfold HeaderSize, AEADTagSize, FrameHeaderSize, DefaultMaxDatagramSize in *.
  assert (Hd' : 628 <= (if sc_MaxDatagramSize c =? 0 then 1400 else sc_MaxDatagramSize c) < 2 ^ 16)
    by (destruct (sc_MaxDatagramSize c =? 0) eqn:?; unfold uint_ok in *; lia).
  rewrite tunnel_room_spec in * by done.
  constructor; cbn [so_addressFamilies so_maxDatagramSize so_tunnelMTU so_leaseSeconds so_ipv4Lease
    so_ipv6Lease so_pendingAttemptTimeout so_confirmGracePeriod so_attemptReplayRetention
    so_maxPendingAttempts so_maxAttemptRecords]; unfold uint_ok in *; try done.
  - apply and_not_families; [|destruct (sc_AddressFamilies c =? 0) eqn:?; lia |lia].
    destruct (sc_AddressFamilies c =? 0); [apply (bool_decide_unpack _); vm_compute; exact I | done].
  - lia.
  - destruct (sc_LeaseSeconds c =? 0) eqn:?; lia.
  - destruct (sc_IPv4Lease c), (sc_IPv6Lease c); [done | by right | by left | by left].
  - by apply bad_lease_ok.
  - by apply bad_lease_ok.
  - unfold Second in *. repeat match goal with |- context [if ?b then _ else _] => destruct b eqn:? end; lia.
  - unfold MaxInt in *. destruct (sc_MaxPendingAttempts c =? 0) eqn:?, (sc_MaxAttemptRecords c =? 0) eqn:?;
      simpl in *; try lia.
Qed.

(** ** Exactly the usable configurations are accepted

    A field that is zero stands for its default; the sizes of the specification are
    integers, not [uint16]. *)
Definition or_default (v d : Z) : Z := if decide (v = 0) then d else v.

Definition client_defaults (c : ClientConfig) : clientOptions :=
  let datagram := or_default (cc_MaxDatagramSize c) 1400 in
  mkClientOptions (or_default (cc_AddressFamilies c) 3) datagram (or_default (cc_MinTunnelMTU c) 576)
    (or_default (cc_MaxTunnelMTU c) (datagram - 52)) (cc_Capabilities c) (cc_RetryToken c).

Definition server_defaults (c : ServerConfig) : serverOptions :=
  let datagram := or_default (sc_MaxDatagramSize c) 1400 in
  let pending := or_default (sc_MaxPendingAttempts c) 1024 in
  mkServerOptions (or_default (sc_AddressFamilies c) 1) datagram (or_default (sc_TunnelMTU c) (datagram - 52))
    (or_default (sc_LeaseSeconds c) 600) (sc_Capabilities c) (sc_IPv4Lease c) (sc_IPv6Lease c)
    (sc_EgressPolicy c) (sc_DNSParameters c) (or_default (sc_PendingAttemptTimeout c) (5 * Second))
    (or_default (sc_ConfirmGracePeriod c) (10 * Second)) (or_default (sc_AttemptReplayRetention c) (30 * Second))
    pending (or_default (sc_MaxAttemptRecords c) (4 * pending)).

Definition client_usable (c : ClientConfig) : Prop :=
  cc_StaticPrivate c <> None /\ cc_DeploymentID c <> zeros 16 /\ client_options_ok (client_defaults c).

(** The limit on attempt records, four times the pending ones by default, is an [int]. *)
Definition server_usable (c : ServerConfig) : Prop :=
  sc_StaticPrivate c <> None /\ sc_DeploymentID c <> zeros 16 /\ sc_RegisteredClients c <> []
  /\ server_options_ok (server_defaults c) /\ so_maxAttemptRecords (server_defaults c) <= MaxInt.

Lemma or_default_eq v d : (if v =? 0 then d else v) = or_default v d.
Proof. unfold or_default. case_decide; destruct (Z.eqb_spec v 0); congruence. Qed.

Lemma families_and_not f : families_ok f -> and_not f 3 = 0.
Proof. by intros [->|[->| ->]]. Qed.

Lemma zero_id_false id : zero_id id = false <-> id <> zeros 16.
Proof. apply bool_decide_eq_false. Qed.

Lemma bad_lease_good l size max :
  0 < size -> (l <> [] -> len l = size /\ exists p, l !! Z.to_nat (size - 1) = Some p /\ p <= max) ->
  bad_lease l size max = Ok false.
Proof.
  intros Hs H. unfold bad_lease. destruct (Z.eqb_spec (len l) 0) as [|E]; [done|].
  destruct H as (-> & p & Hp & Hle); [by intros ->|]. rewrite Z.eqb_refl. cbn [negb].
  assert (index (E := HandshakeErr) l (size - 1) = Ok p) as -> by (apply index_Ok; split; [lia | done]).
  cbn [obind]. f_equal. lia.
Qed.

Lemma client_accepts c o :
  client_config_typed c -> normalizeClientConfig c = Ok o <-> client_usable c /\ o = client_defaults c.
Proof.
  intros Ht. split.
  - intros H. assert (o = client_defaults c) as Ho; [|subst o; split; [|done]; split_and!].
    + pose proof (normalizeClientConfig_ok c o Ht H) as Hok. unfold normalizeClientConfig in H.
      destruct (cc_StaticPrivate c); [|done]. inv_ok. destruct Hok as [_ Hd _]. cbn [co_maxDatagramSize] in Hd.
      rewrite tunnel_room_spec by done. rewrite !or_default_eq. done.
    + unfold normalizeClientConfig in H. by destruct (cc_StaticPrivate c).
    + unfold normalizeClientConfig in H. destruct (cc_StaticPrivate c); [|done].
      destruct (zero_id _) eqn:E; [done|]. by apply zero_id_false.
    + by apply (normalizeClientConfig_ok c).
  - intros [(Hp & Hz & [Hf Hd Hm]) ->]. unfold normalizeClientConfig. destruct (cc_StaticPrivate c); [|done].
    apply zero_id_false in Hz. rewrite Hz, !or_default_eq. unfold client_defaults in *.
    cbn [co_addressFamilies co_maxDatagramSize co_minTunnelMTU co_maxTunnelMTU] in *.
    unfold HeaderSize, AEADTagSize, FrameHeaderSize, DefaultMaxDatagramSize.
    rewrite (families_and_not _ Hf), (tunnel_room_spec _ Hd). cbn [Z.eqb negb].
    rewrite (proj2 (Z.ltb_ge _ _)) by lia. by rewrite (proj2 (Z.ltb_ge _ _)) by lia.
Qed.

Lemma records_default p r :
  0 <= p -> (r =? 0) && (MaxInt / 4 <? p) = false -> r <= MaxInt ->
  or_default r (i64 (p * 4)) = or_default r (4 * p) /\ or_default r (4 * p) <= MaxInt.
Proof.
  intros Hp Ht Hr. unfold or_default. destruct (decide (r = 0)) as [->|]; [|done].
  rewrite Z.eqb_refl in Ht. cbn [andb] in Ht. apply Z.ltb_ge in Ht. change (MaxInt / 4) with 2305843009213693951 in Ht. change MaxInt with 9223372036854775807 in *. split; [|lia].
  unfold i64. rewrite Z.mod_small; lia.
Qed.

Lemma server_accepted c o :
  server_config_typed c -> sc_MaxAttemptRecords c <= MaxInt ->
  normalizeServerConfig c = Ok o -> server_usable c /\ o = server_defaults c.
Proof.
  intros Ht Hr H. pose proof (normalizeServerConfig_ok c o Ht H) as Hok. unfold normalizeServerConfig in H.
  destruct (sc_StaticPrivate c) eqn:Hp; [|done]. inv_ok. rewrite tunnel_room_spec in * by apply Hok.
  rewrite !or_default_eq in *. destruct (records_default _ (sc_MaxAttemptRecords c) ltac:(by apply Z.ltb_ge) ltac:(done) Hr) as [Hi Hm].
  rewrite Hi in *. split; [|done]. unfold server_usable. rewrite Hp. split_and!; [done | by apply zero_id_false | | exact Hok | exact Hm].
  by intros Hn; rewrite Hn in *.
Qed.

Lemma server_accepts c :
  server_config_typed c -> server_usable c -> normalizeServerConfig c = Ok (server_defaults c).
Proof.
  intros Ht (Hp & Hz & Hc & [Hf Hd Hm _ Hl Hl4 Hl6 Hto Hli] & Hmax). unfold normalizeServerConfig, server_defaults in *.
  destruct (sc_StaticPrivate c); [|done]. apply zero_id_false in Hz. rewrite Hz, !or_default_eq.
  cbn [so_addressFamilies so_maxDatagramSize so_tunnelMTU so_ipv4Lease so_ipv6Lease so_pendingAttemptTimeout
    so_confirmGracePeriod so_attemptReplayRetention so_maxPendingAttempts so_maxAttemptRecords] in *.
  unfold HeaderSize, AEADTagSize, FrameHeaderSize, DefaultMaxDatagramSize.
  rewrite (families_and_not _ Hf), (tunnel_room_spec _ Hd), (bad_lease_good _ 5 32), (bad_lease_good _ 17 128) by (lia || done).
  set (p := or_default (sc_MaxPendingAttempts c) 1024) in *. assert (Hr : (sc_MaxAttemptRecords c =? 0) && (MaxInt / 4 <? p) = false).
  { unfold or_default in Hmax. change (MaxInt / 4) with 2305843009213693951. change MaxInt with 9223372036854775807 in *. case_decide; lia. }
  destruct (records_default p (sc_MaxAttemptRecords c)) as [Hi _]; [lia | done | |].
  { unfold or_default in Hmax. change (MaxInt / 4) with 2305843009213693951. change MaxInt with 9223372036854775807 in *. case_decide; lia. }
  rewrite Hr, Hi. cbn [obind]. assert (Hc' : len (sc_RegisteredClients c) <> 0) by (by intros E%len_zero_nil).
  assert (He : len (sc_IPv4Lease c) <> 0 \/ len (sc_IPv6Lease c) <> 0) by (destruct Hl; [left | right]; by intros E%len_zero_nil).
  by_test. done.
Qed.

Definition answers_configuration {A} (m : hs A) : Prop :=
  match m with Ok _ => True | Err e => e = ErrConfiguration | _ => False end.

Lemma client_answers c : answers_configuration (normalizeClientConfig c).
Proof.
  unfold normalizeClientConfig. destruct (cc_StaticPrivate c); [|done].
  repeat match goal with |- context [if ?b then _ else _] => destruct b end; done.
Qed.

Lemma server_answers c : answers_configuration (normalizeServerConfig c).
Proof.
  unfold normalizeServerConfig. destruct (sc_StaticPrivate c); [|done].
  destruct (bad_lease_Ok (sc_IPv4Lease c) 5 32) as [b4 ->]; [done|].
  destruct (bad_lease_Ok (sc_IPv6Lease c) 17 128) as [b6 ->]; [done|]. cbn [obind].
  repeat match goal with |- context [if ?b then _ else _] => destruct b end; done.
Qed.

(** C23: Exactly the usable configurations are accepted.  Normalization accepts typed
    configurations exactly when the static key is there, the deployment identifier is
    not zero, the server has a registered client, and the fields, a zero one replaced
    by its default, are usable: known address families, a datagram limit with room for
    a minimal tunnel packet, for the client an interval of MTUs that is not empty, for
    the server an MTU within that room (no [uint16] wrap-around), a lease, well-formed
    leases, positive timeouts, and attempt limits that are positive, ordered and within
    an [int].  The options are then exactly those fields; every other configuration is
    answered with [ErrConfiguration]. *)
Theorem configuration_normalized c s :
  client_config_typed c -> server_config_typed s -> sc_MaxAttemptRecords s <= MaxInt ->
  (forall o, normalizeClientConfig c = Ok o <-> client_usable c /\ o = client_defaults c)
  /\ (forall o, normalizeServerConfig s = Ok o <-> server_usable s /\ o = server_defaults s)
  /\ (~ client_usable c -> normalizeClientConfig c = Err ErrConfiguration)
  /\ (~ server_usable s -> normalizeServerConfig s = Err ErrConfiguration).
Proof.
  intros Hc Hs Hr. pose proof (fun o => client_accepts c o Hc) as Ec. 
  assert (Es : forall o, normalizeServerConfig s = Ok o <-> server_usable s /\ o = server_defaults s).
  { intros o. split; [by apply server_accepted|]. intros [Hu ->]. by apply server_accepts. }
  split_and!; [done | done | intros Hn | intros Hn].
  - pose proof (client_answers c) as Ha. destruct (normalizeClientConfig c) as [o|e| |]; cbn in Ha; [|by subst | done..].
    by destruct (proj1 (Ec o) eq_refl).
  - pose proof (server_answers s) as Ha. destruct (normalizeServerConfig s) as [o|e| |]; cbn in Ha; [|by subst | done..].
    by destruct (proj1 (Es o) eq_refl).
Qed.

Definition demo_client_config : ClientConfig :=
  mkClientConfig (replicate 16 7) (Some (be_split 32 11)) (be_split 32 13) None [] 5 0 0 0 0.
Definition demo_server_config : ServerConfig :=
  mkServerConfig (replicate 16 7) (Some (be_split 32 17)) [be_split 32 19] None 5 0 0 0 0
    [10; 0; 0; 2; 24] [] 1 [] 0 0 0 0 0.

(** One byte below the least datagram *)
Definition small_client_config : ClientConfig :=
  mkClientConfig (replicate 16 7) (Some (be_split 32 11)) (be_split 32 13) None [] 5 0 627 0 0.

Lemma configuration_normalized_witness :
  normalizeServerConfig demo_server_config = Ok (server_defaults demo_server_config)
  /\ normalizeClientConfig small_client_config = Err ErrConfiguration.
Proof.
  destruct (configuration_normalized small_client_config demo_server_config) as (_ & Hs & Hc & _);
    [split_and!; apply (bool_decide_unpack _); vm_compute; exact I..| |].
  { apply (bool_decide_unpack _). vm_compute. exact I. }
  split.
  - apply Hs. split; [|done]. split_and!; [done | by vm_compute | done | | by vm_compute].
    constructor; try (apply (bool_decide_unpack _); vm_compute; exact I); cbn [so_ipv6Lease]; try done; try by left.
    intros _. split; [done|]. by exists 24.
  - apply Hc. intros (_ & _ & [_ [Hd _] _]). by apply Hd.
Defined.
