(* ===== verification/HandshakeWire.v ===== *)
(** * Handshake messages on the wire (internal/handshake/wire.go)

    The clear prefixes of INITIAL and HANDSHAKE, the datagrams around them, and
    the associated data and transcript hashes both sides compute from the raw
    bytes. *)

From stdpp Require Import base list strings numbers.
From S2P Require Import Prelude CodecErrors WireFormat Payload Packet Frame Crypto HandshakeTypes.
Local Open Scope Z_scope.
Local Open Scope wg_scope.

Definition makeInitialPrefix (token ephemeral : bytes) (encryptedLength : Z) : hs bytes :=
  if (MaxUint16 <? len token) || (encryptedLength <? AEADTagSize) || (MaxUint16 <? encryptedLength)
  then Err ErrMessage
  else
    let prefix := zeros (2 + len token + 32 + 2) in
    let* prefix := PutUint16 prefix 0 (u16 (len token)) in
    let offset := 2 in
    let* prefix := copy_at prefix offset token in
    let offset := offset + len token in
    let* prefix := copy_at prefix offset ephemeral in
    let offset := offset + 32 in
    PutUint16 prefix offset (u16 encryptedLength).

Definition makeHandshakePrefix (ephemeral : bytes) (encryptedLength : Z) : hs bytes :=
  if (encryptedLength <? AEADTagSize) || (MaxUint16 <? encryptedLength)
  then Err ErrMessage
  else
    let prefix := zeros (32 + 2) in
    let* prefix := copy_at prefix 0 ephemeral in
    PutUint16 prefix 32 (u16 encryptedLength).

Definition makeHeader (kind dcid scid packetNumber payloadLength : Z) : hs (Header * bytes) :=
  if (payloadLength <? 0) || (MaxUint16 <? payloadLength) then Err ErrMessage
  else
    let header := mkHeader Version1 kind 0 dcid scid packetNumber (u16 payloadLength) 0 in
    let* encoded := as_hs ErrMessage (Header_MarshalBinary header) in
    Ok (header, encoded).

Definition marshalWirePacket (header : Header) (prefix ciphertext : bytes) (maxDatagram : Z) : hs bytes :=
  let payload := prefix ++ ciphertext in
  as_hs ErrMessage (Packet_MarshalBinary (mkPacket header payload) maxDatagram).

Definition join (parts : list bytes) : bytes := fold_left (fun result part => result ++ part) parts [].

Definition secureEqual (left right : bytes) : bool :=
  (len left =? len right) && bool_decide (left = right).

(** The loop of [nextNonZeroCID]; the reader after the call, and the result. *)
Fixpoint nextNonZeroCID_loop (attempts : nat) (random : bytes) : bytes * hs Z :=
  match attempts with
  | O => (random, Err ErrConfiguration)
  | S attempts =>
      match ReadFull random 8 with
      | None => ([], Err ErrConfiguration)
      | Some (raw, rest) =>
          match Uint64 raw with
          | Ok cid => if negb (cid =? 0) then (rest, Ok cid) else nextNonZeroCID_loop attempts rest
          | Err e => (rest, Err e)
          | Panic => (rest, Panic)
          | Diverge => (rest, Diverge)
          end
      end
  end.
Definition nextNonZeroCID (random : bytes) : bytes * hs Z := nextNonZeroCID_loop 32 random.

Section Wire.
Context {P : Primitives}.

(** Packet, message, associated data and transcript hash of a received datagram. *)
Definition parseInitialWire (datagram : bytes) (maxDatagram : Z) (context : bytes)
  : hs (Packet * Initial * bytes * bytes) :=
  let* packet := as_hs ErrMessage (ParsePacket datagram maxDatagram) in
  if negb (Kind (pkt_Header packet) =? PacketInitial) then Err ErrMessage
  else
    let* initial := as_hs ErrMessage (ParseInitial (pkt_Payload packet)) in
    let prefixLength := len (pkt_Payload packet) - len (init_EncryptedPayload initial) in
    let adEnd := HeaderSize + prefixLength in
    if len datagram <? adEnd then Err ErrMessage
    else
      let* clear := slice datagram 0 adEnd in
      let ad := join [context; clear] in
      let th1 := Sum256 [ad; init_EncryptedPayload initial] in
      Ok (packet, initial, ad, th1).

Definition parseHandshakeWire (datagram : bytes) (maxDatagram : Z) (context th1 : bytes)
  : hs (Packet * Handshake * bytes * bytes) :=
  let* packet := as_hs ErrMessage (ParsePacket datagram maxDatagram) in
  if negb (Kind (pkt_Header packet) =? PacketHandshake) then Err ErrMessage
  else
    let* handshake := as_hs ErrMessage (ParseHandshake (pkt_Payload packet)) in
    let prefixLength := len (pkt_Payload packet) - len (hs_EncryptedPayload handshake) in
    let adEnd := HeaderSize + prefixLength in
    if len datagram <? adEnd then Err ErrMessage
    else
      let* clear := slice datagram 0 adEnd in
      let ad := join [context; th1; clear] in
      let th2 := Sum256 [ad; hs_EncryptedPayload handshake] in
      Ok (packet, handshake, ad, th2).
End Wire.

(** ** Prefixes and datagrams *)
Definition initial_prefix (token ephemeral : bytes) (n : Z) : bytes :=
  be_split 2 (len token) ++ token ++ ephemeral ++ be_split 2 n.
Definition handshake_prefix (ephemeral : bytes) (n : Z) : bytes := ephemeral ++ be_split 2 n.

Lemma join_spec parts : join parts = mjoin parts.
Proof.
  unfold join. rewrite <- (app_nil_l (mjoin parts)). generalize (@nil Z) as acc.
  induction parts as [|p parts IH]; intros acc; simpl; [by rewrite app_nil_r|].
  by rewrite IH, app_assoc.
Qed.

Lemma secureEqual_spec l r : secureEqual l r = true <-> l = r.
Proof.
  unfold secureEqual. rewrite andb_true_iff, bool_decide_eq_true.
  split; [by intros [_ ?] | intros ->; split; [apply Z.eqb_refl | done]].
Qed.

Lemma makeInitialPrefix_inv token ephemeral n d :
  key_ok ephemeral -> makeInitialPrefix token ephemeral n = Ok d ->
  d = initial_prefix token ephemeral n /\ len token <= 65535 /\ 16 <= n <= 65535.
Proof.
  intros [He _] H. unfold makeInitialPrefix, AEADTagSize, MaxUint16 in H. inv_ok.
  - pose proof (len_nonneg token). rewrite !u16_small in * by (unfold MaxUint16; lia).
    change (zeros (2 + len token + 32 + 2)) with ([] ++ zeros (2 + len token + 32 + 2)) in *.
    unfold PutUint16 in *. rewrite put_uint_zeros in Ha by (done || lia). inv_ok.
    rewrite copy_at_zeros in Ha0 by len_side. inv_ok. rewrite copy_at_zeros in Ha1 by len_side. inv_ok.
    rewrite put_uint_zeros in H by len_side. inv_ok. rewrite zeros_nil by lia.
    split; [|lia]. unfold initial_prefix. by rewrite app_nil_r, app_nil_l, <- !app_assoc.
Qed.

Lemma makeHandshakePrefix_inv ephemeral n d :
  key_ok ephemeral -> makeHandshakePrefix ephemeral n = Ok d ->
  d = handshake_prefix ephemeral n /\ 16 <= n <= 65535.
Proof.
  intros [He _] H. unfold makeHandshakePrefix, AEADTagSize, MaxUint16 in H. inv_ok.
  rewrite u16_small in * by (unfold MaxUint16; lia).
  change (zeros (32 + 2)) with ([] ++ zeros 34) in *. unfold PutUint16 in *.
  rewrite copy_at_zeros in Ha by (done || lia). inv_ok.
  rewrite put_uint_zeros in H by len_side. inv_ok. rewrite zeros_nil by lia.
  split; [|lia]. unfold handshake_prefix. by rewrite app_nil_r, app_nil_l.
Qed.

Lemma makeHeader_inv kind dcid scid pn n h e :
  makeHeader kind dcid scid pn n = Ok (h, e) ->
  h = mkHeader Version1 kind 0 dcid scid pn n 0 /\ e = header_bytes h /\ 0 <= n <= 65535.
Proof.
  unfold makeHeader, MaxUint16, as_hs. intros H. inv_ok. injection H as <- <-.
  rewrite u16_small in * by (unfold MaxUint16; lia).
  apply Header_marshal_valid in Ha as [_ ->]. split_and!; [done | done | lia | lia].
Qed.

Lemma wire_header_ok kind dcid scid n :
  uint_ok 8 kind -> uint_ok 64 dcid -> uint_ok 64 scid -> 0 <= n <= 65535 ->
  Header_ok (mkHeader Version1 kind 0 dcid scid 0 n 0).
Proof. intros ? ? ? Hn. unfold Header_ok, uint_ok in *. simpl. unfold Version1. lia. Qed.

Lemma wire_header_length kind dcid scid (p c : bytes) :
  let h := mkHeader Version1 kind 0 dcid scid 0 (len p + len c) 0 in
  with_PayloadLength h (len (p ++ c)) = h.
Proof. cbv zeta. unfold with_PayloadLength. cbn. by rewrite len_app. Qed.

Section WireLaws.
Context {P : Primitives}.

(** What a receiver makes of an INITIAL built by [marshalWirePacket]. *)
Lemma parseInitialWire_sent dcid scid token ephemeral ct max d context :
  let h := mkHeader Version1 PacketInitial 0 dcid scid 0
             (len (initial_prefix token ephemeral (len ct)) + len ct) 0 in
  key_ok ephemeral -> bytes_ok token -> bytes_ok ct -> 16 <= len ct -> len token <= 65535 ->
  uint_ok 64 dcid -> uint_ok 64 scid ->
  marshalWirePacket h (initial_prefix token ephemeral (len ct)) ct max = Ok d ->
  let ad := context ++ header_bytes h ++ initial_prefix token ephemeral (len ct) in
  parseInitialWire d max context
  = Ok (mkPacket h (initial_prefix token ephemeral (len ct) ++ ct), mkInitial token ephemeral ct,
        ad, Sum256 [ad; ct]).
Proof.
  intros h Hk Ht Hc Hc16 Htok Hd Hs Hm ad. unfold marshalWirePacket, as_hs in Hm. inv_ok.
  apply Packet_marshal_inv in Hm as (Hlim & Hv & Ho & ->). simpl in Ho.
  pose proof Hlim as (limit & _ & Hp1 & Hp2). cbn [pkt_Payload pkt_Header] in *.
  rewrite len_app in Hp1. unfold parseInitialWire, as_hs.
  assert (Hok : Header_ok h).
  { apply wire_header_ok; [by unfold uint_ok | done | done |].
    pose proof (len_nonneg (initial_prefix token ephemeral (len ct))). pose proof (len_nonneg ct). lia. }
  rewrite Packet_parse_layout by done. cbn [pkt_Header pkt_Payload].
  assert (Hwp : with_PayloadLength h (len (initial_prefix token ephemeral (len ct) ++ ct)) = h) by apply wire_header_length.
  rewrite Hwp. cbn [wrap_err obind pkt_Header pkt_Payload].
  change (Kind h =? PacketInitial) with true. simpl negb. cbv iota.
  assert (Hib : initial_prefix token ephemeral (len ct) ++ ct = initial_bytes (mkInitial token ephemeral ct)).
  { unfold initial_prefix, initial_bytes. simpl. by rewrite <- !app_assoc. }
  assert (Hpl : len (initial_prefix token ephemeral (len ct)) = len token + 36)
    by (unfold initial_prefix; destruct Hk; len_side).
  pose proof (len_nonneg token).
  rewrite Hib, Initial_parse_layout; [| by split | split; simpl; lia].
  cbn [wrap_err obind init_EncryptedPayload]. rewrite <- Hib, len_app.
  unfold packet_bytes, HeaderSize. cbn [pkt_Header pkt_Payload].
  rewrite Hwp, !len_app, len_header_bytes, Hpl.
  by_test. rewrite app_assoc, slice_prefix
    by (rewrite len_app, len_header_bytes, Hpl; lia). cbn [obind].
  rewrite join_spec. cbn [mjoin list_join]. rewrite !app_nil_r. done.
Qed.

(** What a receiver makes of a HANDSHAKE built by [marshalWirePacket], under
    any limit that admits it. *)
Lemma parseHandshakeWire_sent dcid scid ephemeral ct max max' d context th1 :
  let h := mkHeader Version1 PacketHandshake 0 dcid scid 0
             (len (handshake_prefix ephemeral (len ct)) + len ct) 0 in
  key_ok ephemeral -> bytes_ok ct -> 16 <= len ct ->
  uint_ok 64 dcid -> uint_ok 64 scid -> 0 < max <= max' -> max' <= 65535 ->
  marshalWirePacket h (handshake_prefix ephemeral (len ct)) ct max = Ok d ->
  let ad := context ++ th1 ++ header_bytes h ++ handshake_prefix ephemeral (len ct) in
  parseHandshakeWire d max' context th1
  = Ok (mkPacket h (handshake_prefix ephemeral (len ct) ++ ct), mkHandshake ephemeral ct,
        ad, Sum256 [ad; ct]).
Proof.
  intros h Hk Hc Hc16 Hd Hs Hmax Hmax' Hm ad. unfold marshalWirePacket, as_hs in Hm. inv_ok.
  apply Packet_marshal_inv in Hm as (Hlim & Hv & Ho & ->). simpl in Ho.
  assert (Hlim' : packet_limit_ok (mkPacket h (handshake_prefix ephemeral (len ct) ++ ct)) max').
  { destruct Hlim as (limit & Hn & H1 & H2). exists max'. split_and!; [|done|].
    - unfold normalizeDatagramLimit, HeaderSize, MaxUint16 in *. inv_ok; by_test; try done; lia.
    - unfold normalizeDatagramLimit in Hn. inv_ok; lia. }
  pose proof Hlim' as (limit & _ & Hp1 & Hp2). cbn [pkt_Payload pkt_Header] in *.
  rewrite len_app in Hp1. unfold parseHandshakeWire, as_hs.
  assert (Hok : Header_ok h).
  { apply wire_header_ok; [by unfold uint_ok | done | done |].
    pose proof (len_nonneg (handshake_prefix ephemeral (len ct))). pose proof (len_nonneg ct). lia. }
  rewrite Packet_parse_layout by done. cbn [pkt_Header pkt_Payload].
  assert (Hwp : with_PayloadLength h (len (handshake_prefix ephemeral (len ct) ++ ct)) = h) by apply wire_header_length.
  rewrite Hwp. cbn [wrap_err obind pkt_Header pkt_Payload].
  change (Kind h =? PacketHandshake) with true. simpl negb. cbv iota.
  assert (Hib : handshake_prefix ephemeral (len ct) ++ ct = handshake_bytes (mkHandshake ephemeral ct)).
  { unfold handshake_prefix, handshake_bytes. simpl. by rewrite <- !app_assoc. }
  assert (Hpl : len (handshake_prefix ephemeral (len ct)) = 34)
    by (unfold handshake_prefix; destruct Hk; len_side).
  rewrite Hib, Handshake_parse_layout; [| by split | split; simpl; lia].
  cbn [wrap_err obind hs_EncryptedPayload]. rewrite <- Hib, len_app.
  unfold packet_bytes, HeaderSize. cbn [pkt_Header pkt_Payload].
  rewrite Hwp, !len_app, len_header_bytes, Hpl.
  by_test. rewrite app_assoc, slice_prefix
    by (rewrite len_app, len_header_bytes, Hpl; lia). cbn [obind].
  rewrite join_spec. cbn [mjoin list_join]. rewrite !app_nil_r. done.
Qed.
End WireLaws.
