(* ===== verification/HandshakeServer.v ===== *)
(** * Server state, attempt cache and session shutdown
    (internal/handshake/server.go, cache.go)

    The server with its attempt cache.  Entries and sessions are heap objects:
    they are named by identifiers, and the maps and leases hold identifiers,
    so that "the same entry" means the same object as in the code.  A clock
    reading is an argument of the call that takes it.  Each definition that the
    code runs under [attemptMu] is one atomic step. *)

From stdpp Require Import base list strings numbers gmap.
From S2P Require Import Prelude CodecErrors WireFormat Payload Packet Tlv Frame Replay Crypto HandshakeTypes HandshakeWire.
Local Open Scope Z_scope.
Local Open Scope wg_scope.

Inductive attemptPhase : Set :=
| attemptBuilding
| attemptReady
| attemptTombstone
| attemptFailed.

#[global] Instance attemptPhase_eq_dec : EqDecision attemptPhase.
Proof. solve_decision. Defined.

(** [ae_done]: the channel is closed. *)
Record attemptEntry : Set := mkAttemptEntry {
  ae_key : bytes;
  ae_initial : bytes;
  ae_phase : attemptPhase;
  ae_done : bool;
  ae_response : bytes;
  ae_session : option nat;
  ae_expiresAt : Z;
  ae_forgetAt : Z;
  ae_confirmed : bool;
  ae_err : option HandshakeErr
}.

Record ServerSession : Set := mkServerSession {
  ss_state : State;
  ss_clientCID : Z;
  ss_serverCID : Z;
  ss_clientStatic : bytes;
  ss_th2 : bytes;
  ss_c2sKey : bytes;
  ss_s2cKey : bytes;
  ss_sendPN : Z;
  ss_receiveWindow : ReplayWindow;
  ss_maxDatagram : Z;
  ss_closedCID : bool;
  ss_attemptKey : bytes;
  ss_hasAttempt : bool;
  ss_confirmChallenge : bytes;
  ss_haveConfirmChallenge : bool
}.

(** The fields of the struct, the heap of entries and of sessions, and the next
    free identifiers. *)
Record Server : Set := mkServer {
  sv_deploymentID : bytes;
  sv_staticPrivate : option bytes;
  sv_registeredClients : list bytes;
  sv_options : serverOptions;
  sv_context : bytes;
  sv_random : bytes;
  sv_activeCIDs : gset Z;
  sv_attempts : gmap bytes nat;
  sv_activeAttempts : Z;
  sv_entries : gmap nat attemptEntry;
  sv_nextEntry : nat;
  sv_sessions : gmap nat ServerSession;
  sv_nextSession : nat
}.

Definition server_with_random (r : bytes) (s : Server) : Server :=
  mkServer (sv_deploymentID s) (sv_staticPrivate s) (sv_registeredClients s) (sv_options s)
    (sv_context s) r (sv_activeCIDs s) (sv_attempts s) (sv_activeAttempts s)
    (sv_entries s) (sv_nextEntry s) (sv_sessions s) (sv_nextSession s).
Definition server_with_CIDs (cids : gset Z) (s : Server) : Server :=
  mkServer (sv_deploymentID s) (sv_staticPrivate s) (sv_registeredClients s) (sv_options s)
    (sv_context s) (sv_random s) cids (sv_attempts s) (sv_activeAttempts s)
    (sv_entries s) (sv_nextEntry s) (sv_sessions s) (sv_nextSession s).
Definition server_with_attempts (a : gmap bytes nat) (active : Z) (s : Server) : Server :=
  mkServer (sv_deploymentID s) (sv_staticPrivate s) (sv_registeredClients s) (sv_options s)
    (sv_context s) (sv_random s) (sv_activeCIDs s) a active
    (sv_entries s) (sv_nextEntry s) (sv_sessions s) (sv_nextSession s).
Definition server_with_entries (es : gmap nat attemptEntry) (next : nat) (s : Server) : Server :=
  mkServer (sv_deploymentID s) (sv_staticPrivate s) (sv_registeredClients s) (sv_options s)
    (sv_context s) (sv_random s) (sv_activeCIDs s) (sv_attempts s) (sv_activeAttempts s)
    es next (sv_sessions s) (sv_nextSession s).
Definition server_with_sessions (ss : gmap nat ServerSession) (next : nat) (s : Server) : Server :=
  mkServer (sv_deploymentID s) (sv_staticPrivate s) (sv_registeredClients s) (sv_options s)
    (sv_context s) (sv_random s) (sv_activeCIDs s) (sv_attempts s) (sv_activeAttempts s)
    (sv_entries s) (sv_nextEntry s) ss next.

Abbreviation srv A := (act Server HandshakeErr A).

(** Dereference and update of heap objects. *)
Definition get_entry (id : nat) : srv attemptEntry := fun s =>
  match sv_entries s !! id with Some e => (s, Ok e) | None => (s, Panic) end.
Definition put_entry (id : nat) (e : attemptEntry) : srv unit :=
  act_set (fun s => server_with_entries (<[id := e]> (sv_entries s)) (sv_nextEntry s) s).
Definition get_session (id : nat) : srv ServerSession := fun s =>
  match sv_sessions s !! id with Some x => (s, Ok x) | None => (s, Panic) end.
Definition put_session (id : nat) (x : ServerSession) : srv unit :=
  act_set (fun s => server_with_sessions (<[id := x]> (sv_sessions s)) (sv_nextSession s) s).

(** [&ServerSession{...}] *)
Definition new_session (x : ServerSession) : srv nat := fun s =>
  (server_with_sessions (<[sv_nextSession s := x]> (sv_sessions s)) (S (sv_nextSession s)) s,
   Ok (sv_nextSession s)).

Definition entry_ready (e : attemptEntry) (sid : nat) (response : bytes) (expires : Z) : attemptEntry :=
  mkAttemptEntry (ae_key e) (ae_initial e) attemptReady true response (Some sid)
    expires (ae_forgetAt e) (ae_confirmed e) (ae_err e).
Definition entry_failed (e : attemptEntry) (failure : HandshakeErr) : attemptEntry :=
  mkAttemptEntry (ae_key e) (ae_initial e) attemptFailed true (ae_response e) (ae_session e)
    (ae_expiresAt e) (ae_forgetAt e) (ae_confirmed e) (Some failure).
Definition entry_confirmed (e : attemptEntry) (expires : Z) : attemptEntry :=
  mkAttemptEntry (ae_key e) (ae_initial e) (ae_phase e) (ae_done e) (ae_response e) (ae_session e)
    expires (ae_forgetAt e) true (ae_err e).
Definition entry_tombstone (e : attemptEntry) (reason : HandshakeErr) (forget : Z) : attemptEntry :=
  mkAttemptEntry (ae_key e) (ae_initial e) attemptTombstone true [] None
    0 forget false (Some reason).

Definition active_phase (p : attemptPhase) : bool :=
  match p with attemptBuilding | attemptReady => true | _ => false end.

(** ** The attempt cache *)
Definition tombstoneAttemptLocked (id : nat) (reason : HandshakeErr) (now : Z) : srv unit :=
  let! e := get_entry id in
  let! s := act_get in
  do! (if active_phase (ae_phase e)
       then act_set (fun s => server_with_attempts (sv_attempts s) (sv_activeAttempts s - 1) s)
       else act_ret tt);
  put_entry id (entry_tombstone e reason (now + so_attemptReplayRetention (sv_options s))).

(** One iteration of the cleanup loop: the sessions to close and the count. *)
Definition cleanup_entry (now : Z) (key : bytes) (id : nat) (expired : list nat) (changed : Z)
  : srv (list nat * Z) :=
  let! e := get_entry id in
  match ae_phase e with
  | attemptBuilding | attemptReady =>
      if now <? ae_expiresAt e then act_ret (expired, changed)
      else
        let expired :=
          if bool_decide (ae_phase e = attemptReady) && negb (ae_confirmed e)
          then match ae_session e with Some sid => expired ++ [sid] | None => expired end
          else expired in
        do! tombstoneAttemptLocked id ErrAttemptExpired now;
        act_ret (expired, changed + 1)
  | attemptTombstone =>
      if negb (now <? ae_forgetAt e) then
        do! act_set (fun s => server_with_attempts (delete key (sv_attempts s)) (sv_activeAttempts s) s);
        act_ret (expired, changed + 1)
      else act_ret (expired, changed)
  | attemptFailed =>
      do! act_set (fun s => server_with_attempts (delete key (sv_attempts s)) (sv_activeAttempts s) s);
      act_ret (expired, changed + 1)
  end.

Fixpoint cleanup_loop (now : Z) (items : list (bytes * nat)) (expired : list nat) (changed : Z)
  : srv (list nat * Z) :=
  match items with
  | [] => act_ret (expired, changed)
  | (key, id) :: rest =>
      let! r := cleanup_entry now key id expired changed in
      cleanup_loop now rest (fst r) (snd r)
  end.

(** The order in which Go ranges over the map is not specified; one order here. *)
Definition cleanupAttemptsLocked (now : Z) : srv (list nat * Z) :=
  let! s := act_get in
  cleanup_loop now (map_to_list (sv_attempts s)) [] 0.

Definition removeAttempt (key : bytes) (sid : nat) (reason : HandshakeErr) (now : Z) : srv unit :=
  let! s := act_get in
  match sv_attempts s !! key with
  | None => act_ret tt
  | Some id =>
      let! e := get_entry id in
      if negb (bool_decide (ae_phase e = attemptReady)) || negb (bool_decide (ae_session e = Some sid))
      then act_ret tt
      else tombstoneAttemptLocked id reason now
  end.

Definition releaseCID (cid : Z) : srv unit :=
  act_set (fun s => server_with_CIDs (sv_activeCIDs s ∖ {[cid]}) s).

Definition session_closed (x : ServerSession) (st : State) : ServerSession :=
  mkServerSession st (ss_clientCID x) (ss_serverCID x) (ss_clientStatic x) (ss_th2 x)
    (zeros 32) (zeros 32) (ss_sendPN x) (ss_receiveWindow x) (ss_maxDatagram x)
    (ss_closedCID x) (ss_attemptKey x) (ss_hasAttempt x) (zeros 8) false.
Definition session_detached (x : ServerSession) : ServerSession :=
  mkServerSession (ss_state x) (ss_clientCID x) (ss_serverCID x) (ss_clientStatic x) (ss_th2 x)
    (ss_c2sKey x) (ss_s2cKey x) (ss_sendPN x) (ss_receiveWindow x) (ss_maxDatagram x)
    (ss_closedCID x) (ss_attemptKey x) false (ss_confirmChallenge x) (ss_haveConfirmChallenge x).
Definition session_CID_closed (x : ServerSession) : ServerSession :=
  mkServerSession (ss_state x) (ss_clientCID x) (ss_serverCID x) (ss_clientStatic x) (ss_th2 x)
    (ss_c2sKey x) (ss_s2cKey x) (ss_sendPN x) (ss_receiveWindow x) (ss_maxDatagram x)
    true (ss_attemptKey x) (ss_hasAttempt x) (ss_confirmChallenge x) (ss_haveConfirmChallenge x).

(** [ServerSession.closeLocked] *)
Definition session_closeLocked (sid : nat) (st : State) (now : Z) : srv unit :=
  let! x := get_session sid in
  let x := session_closed x st in
  do! put_session sid x;
  let! x := (if ss_hasAttempt x then
        let reason := if bool_decide (st = StateRejected) then ErrTranscript else ErrState in
        do! removeAttempt (ss_attemptKey x) sid reason now;
        let x := session_detached x in
        do! put_session sid x;
        act_ret x
      else act_ret x) in
  if negb (ss_closedCID x) then
    do! releaseCID (ss_serverCID x);
    put_session sid (session_CID_closed x)
  else act_ret tt.

Definition ServerSession_Close (sid : nat) (now : Z) : srv unit := session_closeLocked sid StateClosed now.

Fixpoint closeExpiredSessions (sessions : list nat) (now : Z) : srv unit :=
  match sessions with
  | [] => act_ret tt
  | sid :: rest => do! ServerSession_Close sid now; closeExpiredSessions rest now
  end.

(** An [attemptLease], or a goroutine parked on an entry that is being built. *)
Inductive Acquired : Set :=
| Leased (entry : nat) (builder : bool) (session : option nat) (response : bytes)
| Parked (entry : nat).

(** The part under [attemptMu]: the sessions that expired, which are closed after the
    mutex is released, and the answer. *)
Definition acquireAttempt_locked (key initial : bytes) (now : Z) : srv (list nat * hs Acquired) :=
  let! r := cleanupAttemptsLocked now in
  let expiredSessions := fst r in
  let! s := act_get in
  match sv_attempts s !! key with
  | Some id =>
      let! existing := get_entry id in
      act_ret (expiredSessions,
        if negb (secureEqual (ae_initial existing) initial) then Err ErrTranscript
        else match ae_phase existing with
        | attemptBuilding => Ok (Parked id)
        | attemptReady => Ok (Leased id false (ae_session existing) (ae_response existing))
        | attemptTombstone => Err (match ae_err existing with Some e => e | None => ErrAttemptExpired end)
        | attemptFailed =>
            match ae_err existing with
            | Some e => Err e
            | None => Ok (Leased id false None [])
            end
        end)
  | None =>
      if (so_maxPendingAttempts (sv_options s) <=? sv_activeAttempts s)
         || (so_maxAttemptRecords (sv_options s) <=? Z.of_nat (size (sv_attempts s)))
      then act_ret (expiredSessions, Err ErrAttemptCapacity)
      else
        let id := sv_nextEntry s in
        let entry := mkAttemptEntry key initial attemptBuilding false [] None
                       (now + so_pendingAttemptTimeout (sv_options s)) 0 false None in
        do! act_set (fun s => server_with_entries (<[id := entry]> (sv_entries s)) (S id) s);
        do! act_set (fun s => server_with_attempts (<[key := id]> (sv_attempts s))
                                (sv_activeAttempts s + 1) s);
        act_ret (expiredSessions, Ok (Leased id true None []))
  end.
(** [now'] is the clock the closed sessions read. *)
Definition acquireAttempt (key initial : bytes) (now now' : Z) : srv Acquired :=
  let! r := acquireAttempt_locked key initial now in
  do! closeExpiredSessions (fst r) now';
  act_lift (snd r).

(** What a parked goroutine reads once the channel is closed. *)
Definition resultOfAttempt (id : nat) : srv Acquired :=
  let! e := get_entry id in
  match ae_phase e with
  | attemptReady => act_ret (Leased id false (ae_session e) (ae_response e))
  | attemptTombstone | attemptFailed =>
      act_fail (match ae_err e with Some err => err | None => ErrAttemptExpired end)
  | attemptBuilding => act_fail ErrState
  end.

Definition session_attached (x : ServerSession) (key : bytes) : ServerSession :=
  mkServerSession (ss_state x) (ss_clientCID x) (ss_serverCID x) (ss_clientStatic x) (ss_th2 x)
    (ss_c2sKey x) (ss_s2cKey x) (ss_sendPN x) (ss_receiveWindow x) (ss_maxDatagram x)
    (ss_closedCID x) key true (ss_confirmChallenge x) (ss_haveConfirmChallenge x).

Definition publishAttempt (id sid : nat) (response : bytes) (now : Z) : srv unit :=
  let! e := get_entry id in
  let! s := act_get in
  if negb (bool_decide (sv_attempts s !! ae_key e = Some id))
     || negb (bool_decide (ae_phase e = attemptBuilding))
  then act_fail (match ae_err e with Some err => err | None => ErrAttemptExpired end)
  else
    do! put_entry id (entry_ready e sid response (now + so_pendingAttemptTimeout (sv_options s)));
    let! x := get_session sid in
    put_session sid (session_attached x (ae_key e)).

Definition failAttempt (id : nat) (failure : HandshakeErr) : srv unit :=
  let! e := get_entry id in
  let! s := act_get in
  if bool_decide (sv_attempts s !! ae_key e = Some id) && bool_decide (ae_phase e = attemptBuilding)
  then
    do! act_set (fun s => server_with_attempts (delete (ae_key e) (sv_attempts s))
                            (sv_activeAttempts s - 1) s);
    put_entry id (entry_failed e failure)
  else act_ret tt.

Definition promoteAttempt (key : bytes) (sid : nat) (now : Z) : srv bool :=
  let! s := act_get in
  match sv_attempts s !! key with
  | None => act_ret false
  | Some id =>
      let! e := get_entry id in
      if negb (bool_decide (ae_phase e = attemptReady)) || negb (bool_decide (ae_session e = Some sid))
         || negb (now <? ae_expiresAt e)
      then
        if bool_decide (ae_phase e = attemptReady) && bool_decide (ae_session e = Some sid)
        then do! tombstoneAttemptLocked id ErrAttemptExpired now; act_ret false
        else act_ret false
      else
        do! put_entry id (entry_confirmed e (now + so_confirmGracePeriod (sv_options s)));
        act_ret true
  end.

Definition confirmGraceActive (key : bytes) (sid : nat) (now : Z) : srv bool :=
  let! s := act_get in
  match sv_attempts s !! key with
  | None => act_ret false
  | Some id =>
      let! e := get_entry id in
      if negb (bool_decide (ae_phase e = attemptReady)) || negb (bool_decide (ae_session e = Some sid))
         || negb (ae_confirmed e)
      then act_ret false
      else if negb (now <? ae_expiresAt e)
      then do! tombstoneAttemptLocked id ErrAttemptExpired now; act_ret false
      else act_ret true
  end.

Definition CleanupExpired (now now' : Z) : srv Z :=
  let! r := cleanupAttemptsLocked now in
  do! closeExpiredSessions (fst r) now';
  act_ret (snd r).

(** [NewServer] *)
Definition NewServer (config : ServerConfig) (random : bytes) : hs Server :=
  let* options := normalizeServerConfig config in
  Ok (mkServer (sc_DeploymentID config) (sc_StaticPrivate config) (sc_RegisteredClients config)
        options (Context (sc_DeploymentID config)) random ∅ ∅ 0 ∅ 0 ∅ 0).
