(* ===== verification/AttemptCache.v ===== *)
(** * The attempt cache is bounded and consistent (internal/handshake/cache.go)

    The cache is refined to an abstract map from transcript hashes to phases.
    Every atomic step of every goroutine keeps the concrete cache consistent
    with it: the counter of active attempts is exact and within its limit, the
    map is within its limit, no entry is lost or shared.  A step is one section under
    a lock; [acquireAttempt], [CleanupExpired] and closing a session are shown to be
    runs of such steps. *)

From stdpp Require Import base list numbers gmap.
From S2P Require Import Prelude Tlv Replay Crypto HandshakeTypes HandshakeWire HandshakeServer.
Local Open Scope Z_scope.
Local Open Scope wg_scope.

(** ** Counting active phases *)
Definition weight (p : attemptPhase) : Z := if active_phase p then 1 else 0.
Definition active_count (m : gmap bytes attemptPhase) : Z :=
  Z.of_nat (size (filter (fun kv => active_phase kv.2 = true) m)).

Lemma active_count_insert m k p :
  m !! k = None -> active_count (<[k := p]> m) = active_count m + weight p.
Proof.
  intros Hk. unfold active_count, weight. destruct (active_phase p) eqn:Hp.
  - rewrite map_filter_insert_True by done. rewrite map_size_insert_None; [lia|].
    apply map_lookup_filter_None. by left.
  - rewrite map_filter_insert_False by (simpl; congruence). rewrite delete_id by done. lia.
Qed.

Lemma active_count_delete m k p :
  m !! k = Some p -> active_count (delete k m) = active_count m - weight p.
Proof.
  intros Hk. rewrite <- (insert_delete_id m k p) at 2 by done.
  rewrite active_count_insert by apply lookup_delete_eq. lia.
Qed.

Lemma active_count_update m k p q :
  m !! k = Some p -> active_count (<[k := q]> m) = active_count m - weight p + weight q.
Proof.
  intros Hk. rewrite <- insert_delete_eq. rewrite active_count_insert by apply lookup_delete_eq.
  by rewrite (active_count_delete m k p).
Qed.

Lemma active_count_nonneg m : 0 <= active_count m.
Proof. unfold active_count. lia. Qed.

(** ** The abstract cache *)
Definition phases (s : Server) : gmap bytes attemptPhase :=
  omap (fun id => ae_phase <$> sv_entries s !! id) (sv_attempts s).

Record cache_ok (s : Server) : Prop := {
  co_entries : forall key id, sv_attempts s !! key = Some id ->
    exists e, sv_entries s !! id = Some e /\ ae_key e = key /\ ae_phase e <> attemptFailed;
  co_count : sv_activeAttempts s = active_count (phases s);
  co_pending : sv_activeAttempts s <= so_maxPendingAttempts (sv_options s);
  co_records : Z.of_nat (size (sv_attempts s)) <= so_maxAttemptRecords (sv_options s);
  co_fresh : forall id e, sv_entries s !! id = Some e -> (id < sv_nextEntry s)%nat;
  co_done : forall id e, sv_entries s !! id = Some e ->
    ae_done e = negb (bool_decide (ae_phase e = attemptBuilding));
  co_ready : forall id e, sv_entries s !! id = Some e -> ae_phase e = attemptReady ->
    exists sid x, ae_session e = Some sid /\ sv_sessions s !! sid = Some x
}.

Lemma phases_lookup s key :
  phases s !! key = (sv_attempts s !! key) ≫= fun id => ae_phase <$> sv_entries s !! id.
Proof. apply lookup_omap. Qed.

Lemma phases_Some s key id e :
  sv_attempts s !! key = Some id -> sv_entries s !! id = Some e -> phases s !! key = Some (ae_phase e).
Proof. intros Ha He. rewrite phases_lookup, Ha. simpl. by rewrite He. Qed.

(** Two keys never share an entry. *)
Lemma attempts_inj s k k' id :
  cache_ok s -> sv_attempts s !! k = Some id -> sv_attempts s !! k' = Some id -> k = k'.
Proof.
  intros Hs H H'. destruct (co_entries s Hs k id H) as (e & He & <- & _).
  destruct (co_entries s Hs k' id H') as (e' & He' & <- & _). congruence.
Qed.

(** Changing the entry of one key changes the phase of that key only. *)
Lemma phases_update s key id e :
  cache_ok s -> sv_attempts s !! key = Some id ->
  phases (server_with_entries (<[id := e]> (sv_entries s)) (sv_nextEntry s) s)
  = <[key := ae_phase e]> (phases s).
Proof.
  intros Hs Hk. apply map_eq. intros k. rewrite phases_lookup. simpl.
  destruct (decide (k = key)) as [->|Hne].
  - rewrite Hk, lookup_insert_eq. simpl. by rewrite lookup_insert_eq.
  - rewrite lookup_insert_ne, phases_lookup by done.
    destruct (sv_attempts s !! k) as [id'|] eqn:E; [|done]. simpl.
    rewrite lookup_insert_ne; [done|]. intros <-. apply Hne. by eapply attempts_inj.
Qed.

Lemma phases_delete s key a :
  phases (server_with_attempts (delete key (sv_attempts s)) a s) = delete key (phases s).
Proof.
  apply map_eq. intros k. rewrite phases_lookup. simpl. destruct (decide (k = key)) as [->|Hne].
  - by rewrite !lookup_delete_eq.
  - by rewrite !lookup_delete_ne, phases_lookup by done.
Qed.

(** ** Ownership of the heap parts by the operations *)

(** [s'] differs from [s] only in its sessions and connection identifiers. *)
Definition same_cache (s s' : Server) : Prop :=
  sv_attempts s' = sv_attempts s /\ sv_activeAttempts s' = sv_activeAttempts s
  /\ sv_entries s' = sv_entries s /\ sv_nextEntry s' = sv_nextEntry s /\ sv_options s' = sv_options s
  /\ (forall sid, is_Some (sv_sessions s !! sid) -> is_Some (sv_sessions s' !! sid)).

Lemma same_cache_ok s s' : same_cache s s' -> cache_ok s -> cache_ok s'.
Proof.
  intros (Ha & Hc & He & Hn & Ho & Hs) [H1 H2 H3 H4 H5 H6 H7].
  constructor; unfold phases in *; rewrite ?Ha, ?Hc, ?He, ?Hn, ?Ho; try done.
  intros id e Hid Hr. destruct (H7 id e Hid Hr) as (sid & x & Hx & Hsx).
  destruct (Hs sid) as [y Hy]; [by eexists|]. by exists sid, y.
Qed.

(** An entry found through the map becomes [e'], with its key. *)
Lemma update_ok s key id e e' active :
  cache_ok s -> sv_attempts s !! key = Some id -> sv_entries s !! id = Some e ->
  ae_key e' = ae_key e -> ae_phase e' <> attemptFailed ->
  ae_done e' = negb (bool_decide (ae_phase e' = attemptBuilding)) ->
  (ae_phase e' = attemptReady -> exists sid x, ae_session e' = Some sid /\ sv_sessions s !! sid = Some x) ->
  active = sv_activeAttempts s - weight (ae_phase e) + weight (ae_phase e') ->
  weight (ae_phase e') <= weight (ae_phase e) ->
  cache_ok (server_with_entries (<[id := e']> (sv_entries s)) (sv_nextEntry s)
              (server_with_attempts (sv_attempts s) active s)).
Proof.
  intros Hs Hk He Hkey Hf Hd Hr -> Hw.
  pose proof (phases_update s key id e' Hs Hk) as Hp. pose proof Hs as [H1 H2 H3 H4 H5 H6 H7].
  pose proof (phases_Some s key id e Hk He) as Hold.
  constructor; simpl in *.
  - intros k i Hi. destruct (decide (i = id)) as [->|Hne].
    + rewrite lookup_insert_eq. exists e'. split_and!; [done | | done].
      destruct (H1 k id Hi) as (e0 & He0 & <- & _). congruence.
    + rewrite lookup_insert_ne by done. by apply H1.
  - unfold phases in *. simpl in *. rewrite Hp. rewrite (active_count_update _ key (ae_phase e)) by done. lia.
  - lia.
  - done.
  - intros i e0. destruct (decide (i = id)) as [->|Hne].
    + intros _. by eapply H5.
    + rewrite lookup_insert_ne by done. apply H5.
  - intros i e0. destruct (decide (i = id)) as [->|Hne].
    + rewrite lookup_insert_eq. by intros [= <-].
    + rewrite lookup_insert_ne by done. apply H6.
  - intros i e0. destruct (decide (i = id)) as [->|Hne].
    + rewrite lookup_insert_eq. by intros [= <-].
    + rewrite lookup_insert_ne by done. apply H7.
Qed.

(** An entry leaves the map; the heap object may change, staying with its key. *)
Lemma remove_ok s key id e active :
  cache_ok s -> sv_attempts s !! key = Some id -> sv_entries s !! id = Some e ->
  active = sv_activeAttempts s - weight (ae_phase e) ->
  cache_ok (server_with_attempts (delete key (sv_attempts s)) active s).
Proof.
  intros Hs Hk He ->. pose proof (phases_Some s key id e Hk He) as Hold.
  pose proof (phases_delete s key (sv_activeAttempts s - weight (ae_phase e))) as Hp.
  pose proof Hs as [H1 H2 H3 H4 H5 H6 H7]. constructor; simpl in *; try done.
  - intros k i Hi. apply lookup_delete_Some in Hi as [_ Hi]. by apply H1.
  - unfold phases in *. simpl in *. rewrite Hp, (active_count_delete _ _ (ae_phase e)) by done. lia.
  - unfold weight. destruct (active_phase _); lia.
  - assert (size (delete key (sv_attempts s)) <= size (sv_attempts s))%nat; [|lia].
    rewrite map_size_delete. destruct (_ !! _); simpl; lia.
Qed.

(** ** The cache operations *)
Lemma tombstone_run s id e reason now :
  sv_entries s !! id = Some e ->
  tombstoneAttemptLocked id reason now s =
  (server_with_entries
     (<[id := entry_tombstone e reason (now + so_attemptReplayRetention (sv_options s))]> (sv_entries s))
     (sv_nextEntry s)
     (server_with_attempts (sv_attempts s) (sv_activeAttempts s - weight (ae_phase e)) s), Ok tt).
Proof.
  intros He. unfold tombstoneAttemptLocked, act_bind, get_entry, act_get. rewrite He.
  unfold weight. destruct (active_phase (ae_phase e)); [done|].
  unfold act_ret, put_entry, act_set. rewrite Z.sub_0_r. by destruct s.
Qed.

Lemma tombstone_ok s key id e reason now :
  cache_ok s -> sv_attempts s !! key = Some id -> sv_entries s !! id = Some e ->
  exists s', tombstoneAttemptLocked id reason now s = (s', Ok tt) /\ cache_ok s'
    /\ sv_attempts s' = sv_attempts s /\ sv_sessions s' = sv_sessions s
    /\ sv_options s' = sv_options s /\ sv_nextEntry s' = sv_nextEntry s
    /\ sv_entries s' = <[id := entry_tombstone e reason (now + so_attemptReplayRetention (sv_options s))]>
                         (sv_entries s).
Proof.
  intros Hs Hk He. eexists. rewrite (tombstone_run s id e) by done. split_and!; try done.
  eapply update_ok; try done; unfold weight; simpl; destruct (active_phase _); lia.
Qed.

(** One iteration of the cleanup: what it may touch. *)
Record cleaned (s s' : Server) (key : bytes) (id : nat) : Prop := {
  cl_ok : cache_ok s';
  cl_attempts : forall k, k <> key -> sv_attempts s' !! k = sv_attempts s !! k;
  cl_entries : forall i, i <> id -> sv_entries s' !! i = sv_entries s !! i;
  cl_sessions : sv_sessions s' = sv_sessions s;
  cl_options : sv_options s' = sv_options s
}.

Definition live (now : Z) (e : attemptEntry) : Prop :=
  active_phase (ae_phase e) = true /\ now < ae_expiresAt e.

Lemma cleanup_entry_spec s key id e now expired changed :
  cache_ok s -> sv_attempts s !! key = Some id -> sv_entries s !! id = Some e ->
  Forall (fun sid => is_Some (sv_sessions s !! sid)) expired ->
  exists s' expired' changed',
    cleanup_entry now key id expired changed s = (s', Ok (expired', changed'))
    /\ cleaned s s' key id /\ (live now e -> s' = s)
    /\ Forall (fun sid => is_Some (sv_sessions s !! sid)) expired'.
Proof.
  intros Hs Hk He Hx. unfold cleanup_entry, act_bind at 1, get_entry. rewrite He.
  assert (Hsame : cleaned s s key id) by (by constructor).
  assert (Hgone : forall active, active = sv_activeAttempts s - weight (ae_phase e) ->
    cleaned s (server_with_attempts (delete key (sv_attempts s)) active s) key id).
  { intros active Ha. constructor; simpl; try done; [by eapply remove_ok|].
    intros k Hne. by rewrite lookup_delete_ne. }
  destruct (tombstone_ok s key id e ErrAttemptExpired now Hs Hk He)
    as (s1 & E1 & Hs1 & Ha1 & Hss1 & Ho1 & _ & He1).
  assert (Htomb : cleaned s s1 key id).
  { constructor; rewrite ?Ha1, ?He1; try done. intros i Hi. by rewrite lookup_insert_ne. }
  assert (Hready : forall sid, ae_phase e = attemptReady -> ae_session e = Some sid ->
            Forall (fun sid => is_Some (sv_sessions s !! sid)) (expired ++ [sid])).
  { intros sid Hp Hsid. destruct (co_ready s Hs id e He Hp) as (sid' & x & Hsid' & Hx').
    apply Forall_app_2; [done|]. constructor; [|constructor]. exists x. congruence. }
  unfold live. destruct (ae_phase e) eqn:Hp.
  - destruct (Z.ltb_spec now (ae_expiresAt e)); [by eexists _, _, _|].
    unfold act_bind. rewrite E1. eexists _, _, _. split_and!; [done | done | lia | done].
  - destruct (Z.ltb_spec now (ae_expiresAt e)); [by eexists _, _, _|].
    unfold act_bind. rewrite E1. eexists _, _, _. split_and!; [done | done | lia |].
    simpl. destruct (negb _), (ae_session e) eqn:Hse; try done. by apply Hready.
  - destruct (negb _).
    + eexists _, _, _. split_and!; [done | by apply Hgone; unfold weight; simpl; lia | by intros [] | done].
    + by eexists _, _, _.
  - by destruct (co_entries s Hs key id Hk) as (e' & He' & _ & []); simplify_eq.
Qed.

Lemma cleanup_loop_spec now items : forall s expired changed,
  cache_ok s -> NoDup items.*1 -> Forall (fun ki => sv_attempts s !! ki.1 = Some ki.2) items ->
  Forall (fun sid => is_Some (sv_sessions s !! sid)) expired ->
  exists s' expired' changed', cleanup_loop now items expired changed s = (s', Ok (expired', changed'))
    /\ cache_ok s' /\ sv_sessions s' = sv_sessions s /\ sv_options s' = sv_options s
    /\ Forall (fun sid => is_Some (sv_sessions s !! sid)) expired'
    /\ (forall key id e, sv_attempts s !! key = Some id -> sv_entries s !! id = Some e -> live now e ->
        sv_attempts s' !! key = Some id /\ sv_entries s' !! id = Some e).
Proof.
  induction items as [|[k i] items IH]; intros s expired changed Hs Hn Hi Hx; cbn [cleanup_loop].
  { exists s, expired, changed. split_and!; try done. }
  apply NoDup_cons in Hn as [Hni Hn]. apply Forall_cons in Hi as [Hki Hi]. simpl in Hki.
  destruct (co_entries s Hs k i Hki) as (e & He & _ & _).
  destruct (cleanup_entry_spec s k i e now expired changed) as (s1 & x1 & c1 & E & Hc & Hl & Hx1); [done..|].
  unfold act_bind. rewrite E. simpl. destruct Hc as [Hs1 Ha1 He1 Hss1 Ho1].
  destruct (IH s1 x1 c1) as (s' & x' & c' & -> & Hs' & Hss' & Ho' & Hx' & Hlive); [done | done | | by rewrite Hss1 |].
  { rewrite Forall_forall in *. intros [k' i'] Hin. simpl. rewrite Ha1; [by apply (Hi (k', i'))|].
    intros ->. apply Hni. by apply list_elem_of_fmap_2 with (f := fst) in Hin. }
  exists s', x', c'. rewrite Hss1 in *. split_and!; try done; [congruence.. |].
  intros key id e0 Hk0 He0 Hl0. apply Hlive; [| |done].
  - destruct (decide (key = k)) as [->|Hne]; [|by rewrite Ha1].
    rewrite Hki in Hk0. injection Hk0 as <-. rewrite He in He0. injection He0 as <-. by rewrite Hl.
  - destruct (decide (id = i)) as [->|Hne]; [|by rewrite He1].
    rewrite He in He0. injection He0 as <-. by rewrite Hl.
Qed.

Lemma cleanupAttemptsLocked_spec now s :
  cache_ok s ->
  exists s' expired changed, cleanupAttemptsLocked now s = (s', Ok (expired, changed))
    /\ cache_ok s' /\ sv_sessions s' = sv_sessions s /\ sv_options s' = sv_options s
    /\ Forall (fun sid => is_Some (sv_sessions s !! sid)) expired
    /\ (forall key id e, sv_attempts s !! key = Some id -> sv_entries s !! id = Some e -> live now e ->
        sv_attempts s' !! key = Some id /\ sv_entries s' !! id = Some e).
Proof.
  intros Hs. unfold cleanupAttemptsLocked, act_bind, act_get.
  destruct (cleanup_loop_spec now (map_to_list (sv_attempts s)) s [] 0)
    as (s' & x & c & E & H1 & H2 & H3 & H4 & H5); [done | apply NoDup_fst_map_to_list | | constructor |].
  - apply Forall_forall. intros [k i] Hin. by apply elem_of_map_to_list in Hin.
  - exists s', x, c. by split_and!.
Qed.

(** What every step guarantees: a consistent cache, and no session lost. *)
Definition evolves (s s' : Server) : Prop :=
  cache_ok s' /\ sv_options s' = sv_options s
  /\ forall sid, is_Some (sv_sessions s !! sid) -> is_Some (sv_sessions s' !! sid).

Lemma evolves_refl s : cache_ok s -> evolves s s.
Proof. by intros. Qed.

Lemma evolves_trans s1 s2 s3 : evolves s1 s2 -> evolves s2 s3 -> evolves s1 s3.
Proof. intros (_ & H1 & H2) (H3 & H4 & H5). split_and!; [done | congruence | auto]. Qed.

(** A step that returns from every consistent state and [evolves]. *)
Definition proper {A} (pre : Server -> Prop) (m : srv A) : Prop :=
  forall s, cache_ok s -> pre s ->
  match m s with
  | (s', Ok _) | (s', Err _) => evolves s s'
  | _ => False
  end.

(** The same for a step without an error path. *)
Definition proper_ok {A} (pre : Server -> Prop) (m : srv A) : Prop :=
  forall s, cache_ok s -> pre s ->
  match m s with
  | (s', Ok _) => evolves s s'
  | _ => False
  end.

Lemma proper_ok_proper {A} pre (m : srv A) : proper_ok pre m -> proper pre m.
Proof. intros H s Hs Hp. specialize (H s Hs Hp). by destruct (m s) as [s' []]. Qed.

Definition always (s : Server) : Prop := True.
Definition known_entry (id : nat) (s : Server) : Prop := is_Some (sv_entries s !! id).
Definition known_session (sid : nat) (s : Server) : Prop := is_Some (sv_sessions s !! sid).

Lemma tombstone_evolves s key id e reason now :
  cache_ok s -> sv_attempts s !! key = Some id -> sv_entries s !! id = Some e ->
  exists s', tombstoneAttemptLocked id reason now s = (s', Ok tt) /\ evolves s s'.
Proof.
  intros Hs Hk He. destruct (tombstone_ok s key id e reason now Hs Hk He)
    as (s' & E & Hs' & _ & Hss & Ho & _). exists s'. split; [done|]. split_and!; [done | done | by rewrite Hss].
Qed.

Ltac run_get He := unfold act_bind, act_get, get_entry, get_session, act_ret; rewrite ?He; cbv beta iota.

Lemma removeAttempt_proper key sid reason now : proper_ok always (removeAttempt key sid reason now).
Proof.
  intros s Hs _. unfold removeAttempt. run_get Hs. destruct (sv_attempts s !! key) as [id|] eqn:Hk;
    [|by apply evolves_refl].
  destruct (co_entries s Hs key id Hk) as (e & He & _). run_get He.
  destruct (_ || _); [by apply evolves_refl|].
  by destruct (tombstone_evolves s key id e reason now Hs Hk He) as (s' & -> & ?).
Qed.

Lemma promoteAttempt_proper key sid now : proper always (promoteAttempt key sid now).
Proof.
  intros s Hs _. unfold promoteAttempt. run_get Hs. destruct (sv_attempts s !! key) as [id|] eqn:Hk;
    [|by apply evolves_refl].
  destruct (co_entries s Hs key id Hk) as (e & He & Hkey & Hnf). run_get He.
  destruct (_ || _) eqn:Hb.
  - destruct (_ && _); [|by apply evolves_refl].
    by destruct (tombstone_evolves s key id e ErrAttemptExpired now Hs Hk He) as (s' & -> & ?).
  - unfold put_entry, act_set. cbv beta iota.
    set (e' := entry_confirmed e _).
    assert (H : cache_ok (server_with_entries (<[id := e']> (sv_entries s)) (sv_nextEntry s)
        (server_with_attempts (sv_attempts s) (sv_activeAttempts s) s))).
    { eapply update_ok; try done;
        [exact (co_done s Hs id e He) | exact (co_ready s Hs id e He) | simpl; lia]. }
    split_and!; [|done|done]. by destruct s.
Qed.

Lemma confirmGraceActive_proper key sid now : proper always (confirmGraceActive key sid now).
Proof.
  intros s Hs _. unfold confirmGraceActive. run_get Hs. destruct (sv_attempts s !! key) as [id|] eqn:Hk;
    [|by apply evolves_refl].
  destruct (co_entries s Hs key id Hk) as (e & He & _). run_get He.
  destruct (_ || _); [by apply evolves_refl|]. destruct (negb _); [|by apply evolves_refl].
  by destruct (tombstone_evolves s key id e ErrAttemptExpired now Hs Hk He) as (s' & -> & ?).
Qed.

Lemma put_session_evolves s sid x :
  cache_ok s -> evolves s (server_with_sessions (<[sid := x]> (sv_sessions s)) (sv_nextSession s) s).
Proof.
  intros Hs. assert (Hsame : same_cache s (server_with_sessions (<[sid := x]> (sv_sessions s)) (sv_nextSession s) s)).
  { split_and!; try done. simpl. intros i Hi. destruct (decide (i = sid)) as [->|Hne].
    - rewrite lookup_insert_eq. by eexists.
    - by rewrite lookup_insert_ne. }
  split_and!; [by eapply same_cache_ok | done | apply Hsame].
Qed.

Lemma releaseCID_evolves s cid : cache_ok s -> evolves s (server_with_CIDs (sv_activeCIDs s ∖ {[cid]}) s).
Proof.
  intros Hs. split_and!; try done. apply (same_cache_ok s); [by split_and! | done].
Qed.

Lemma session_closeLocked_proper sid st now : proper_ok (known_session sid) (session_closeLocked sid st now).
Proof.
  intros s Hs [x Hx]. unfold session_closeLocked. unfold act_bind at 1, get_session. rewrite Hx.
  cbv beta iota zeta. set (x0 := session_closed x st). unfold act_bind at 1, put_session, act_set.
  cbv beta iota. set (s0 := server_with_sessions _ _ s).
  assert (H0 : evolves s s0) by (by apply put_session_evolves). clearbody s0.
  assert (Hrel : forall s1 x1, evolves s s1 ->
    match (if negb (ss_closedCID x1) then do! releaseCID (ss_serverCID x1); put_session sid (session_CID_closed x1)
           else act_ret tt) s1 with
    | (s', Ok _) => evolves s s' | _ => False end).
  { intros s1 x1 H1. destruct (negb _); [|done]. unfold act_bind, releaseCID, put_session, act_set. cbv beta iota.
    eapply evolves_trans; [exact H1|]. eapply evolves_trans; [apply releaseCID_evolves, H1|].
    apply put_session_evolves. exact (proj1 (releaseCID_evolves s1 _ (proj1 H1))). }
  destruct (ss_hasAttempt x0); [|by apply (Hrel s0 x0)].
  pose proof (removeAttempt_proper (ss_attemptKey x0) sid
    (if bool_decide (st = StateRejected) then ErrTranscript else ErrState) now s0 (proj1 H0) I) as Hr.
  unfold act_bind. destruct (removeAttempt _ _ _ _ s0) as [s1 [u|e| |]]; try done.
  apply Hrel. eapply evolves_trans; [exact H0|]. eapply evolves_trans; [exact Hr|].
  apply put_session_evolves, Hr.
Qed.

Lemma closeExpiredSessions_proper sessions now :
  proper_ok (fun s => Forall (fun sid => known_session sid s) sessions) (closeExpiredSessions sessions now).
Proof.
  induction sessions as [|sid rest IH]; intros s Hs Hp; [by apply evolves_refl|].
  apply Forall_cons in Hp as [Hsid Hp]. cbn [closeExpiredSessions]. unfold act_bind, ServerSession_Close.
  pose proof (session_closeLocked_proper sid StateClosed now s Hs Hsid) as H1.
  destruct (session_closeLocked _ _ _ s) as [s1 [u|e| |]]; try done.
  assert (Hp1 : Forall (fun sid => known_session sid s1) rest).
  { eapply Forall_impl; [exact Hp|]. intros i Hi. by apply H1. }
  specialize (IH s1 (proj1 H1) Hp1). destruct (closeExpiredSessions rest now s1) as [s2 [b|e| |]]; try done;
    by eapply evolves_trans.
Qed.

Lemma cleanupAttemptsLocked_proper now : proper always (cleanupAttemptsLocked now).
Proof.
  intros s Hs _. destruct (cleanupAttemptsLocked_spec now s Hs) as (s1 & x & c & -> & Hs1 & Hss & Ho & _).
  split_and!; [done | done | by rewrite Hss].
Qed.

(** A new entry under a key the map does not hold. *)
Lemma create_ok s key initial expires :
  cache_ok s -> sv_attempts s !! key = None ->
  sv_activeAttempts s < so_maxPendingAttempts (sv_options s) ->
  Z.of_nat (size (sv_attempts s)) < so_maxAttemptRecords (sv_options s) ->
  let id := sv_nextEntry s in
  let entry := mkAttemptEntry key initial attemptBuilding false [] None expires 0 false None in
  let s1 := server_with_entries (<[id := entry]> (sv_entries s)) (S id) s in
  cache_ok (server_with_attempts (<[key := id]> (sv_attempts s1)) (sv_activeAttempts s1 + 1) s1).
Proof.
  intros Hs Hk Hp Hr id entry s1. pose proof Hs as [H1 H2 H3 H4 H5 H6 H7].
  assert (Hfresh : sv_entries s !! id = None).
  { destruct (sv_entries s !! id) eqn:E; [|done]. apply H5 in E. subst id. lia. }
  constructor; simpl.
  - intros k i Hi. destruct (decide (k = key)) as [->|Hne].
    + rewrite lookup_insert_eq in Hi. injection Hi as <-. rewrite lookup_insert_eq. by exists entry.
    + rewrite lookup_insert_ne in Hi by done. destruct (H1 k i Hi) as (e & He & Hkey).
      exists e. rewrite lookup_insert_ne; [done|]. intros <-. congruence.
  - match goal with |- _ = active_count (phases ?t) =>
      replace (phases t) with (<[key := attemptBuilding]> (phases s)) end.
    + rewrite active_count_insert; [by rewrite H2|]. by rewrite phases_lookup, Hk.
    + apply map_eq. intros k. rewrite phases_lookup. simpl. destruct (decide (k = key)) as [->|Hne].
      * rewrite !lookup_insert_eq. simpl. by rewrite lookup_insert_eq.
      * rewrite !lookup_insert_ne by done. rewrite phases_lookup.
        destruct (sv_attempts s !! k) as [i|] eqn:Ei; [|done]. simpl.
        rewrite lookup_insert_ne; [done|]. intros <-. destruct (H1 k id Ei) as (e & He & _). congruence.
  - lia.
  - rewrite map_size_insert_None by done. lia.
  - intros i e. destruct (decide (i = id)) as [->|Hne]; [lia|].
    rewrite lookup_insert_ne by done. intros He%H5. lia.
  - intros i e. destruct (decide (i = id)) as [->|Hne].
    + rewrite lookup_insert_eq. by intros [= <-].
    + rewrite lookup_insert_ne by done. apply H6.
  - intros i e. destruct (decide (i = id)) as [->|Hne].
    + rewrite lookup_insert_eq. by intros [= <-].
    + rewrite lookup_insert_ne by done. apply H7.
Qed.

Lemma acquireAttempt_locked_spec key initial now s : cache_ok s ->
  exists s1 expired r, acquireAttempt_locked key initial now s = (s1, Ok (expired, r)) /\ evolves s s1
    /\ Forall (fun sid => known_session sid s1) expired /\ returns r.
Proof.
  intros Hs. unfold acquireAttempt_locked.
  destruct (cleanupAttemptsLocked_spec now s Hs) as (s1 & x & c & E & Hs1 & Hss & Ho & Hx & _).
  unfold act_bind at 1. rewrite E. cbn [fst snd]. unfold act_bind at 1, act_get. cbv beta iota.
  assert (H1 : evolves s s1) by (split_and!; [done | done | by rewrite Hss]).
  assert (Hx1 : Forall (fun sid => known_session sid s1) x) by (unfold known_session; by rewrite Hss).
  destruct (sv_attempts s1 !! key) as [id|] eqn:Hk.
  - destruct (co_entries s1 Hs1 key id Hk) as (e & He & _).
    unfold act_bind at 1, get_entry. rewrite He. unfold act_ret. do 3 eexists. split; [reflexivity|]. split; [done|]. split; [done|].
    destruct (negb _); [done|]. destruct (ae_phase e); try done. by destruct (ae_err e).
  - destruct (_ || _) eqn:Hcap; [unfold act_ret; do 3 eexists; split; [reflexivity|]; by split_and!|].
    unfold act_bind, act_set, act_ret. cbv beta iota.
    pose proof (create_ok s1 key initial (now + so_pendingAttemptTimeout (sv_options s1)) Hs1 Hk) as Hc. cbv zeta in Hc.
    do 3 eexists. split; [reflexivity|]. split; [|by split].
    split; [apply Hc; lia|]. split; [done|]. cbn. by rewrite Hss.
Qed.
Lemma acquireAttempt_locked_proper key initial now : proper always (acquireAttempt_locked key initial now).
Proof. intros s Hs _. by destruct (acquireAttempt_locked_spec key initial now s Hs) as (s1 & x & r & -> & H & _). Qed.

Lemma resultOfAttempt_proper id : proper (known_entry id) (resultOfAttempt id).
Proof.
  intros s Hs [e He]. unfold resultOfAttempt. run_get He.
  destruct (ae_phase e); by apply evolves_refl.
Qed.

Lemma publishAttempt_proper id sid response now :
  proper (fun s => known_entry id s /\ known_session sid s) (publishAttempt id sid response now).
Proof.
  intros s Hs [[e He] [x Hx]]. unfold publishAttempt. unfold act_bind at 1, get_entry. rewrite He.
  unfold act_bind at 1, act_get. cbv beta iota. destruct (_ || _) eqn:Hb; [by apply evolves_refl|].
  apply orb_false_elim in Hb as [Hk Hp]. apply negb_false_iff, bool_decide_eq_true in Hk, Hp.
  unfold put_entry, act_bind, act_set. cbv beta iota.
  set (e' := entry_ready e sid response _). set (s1 := server_with_entries _ _ s).
  assert (H1 : evolves s s1).
  { split_and!; [|done|done].
    assert (H : cache_ok (server_with_entries (<[id := e']> (sv_entries s)) (sv_nextEntry s)
        (server_with_attempts (sv_attempts s) (sv_activeAttempts s) s))).
    { eapply update_ok; try done; [by exists sid, x | rewrite Hp; unfold weight; simpl; lia | by rewrite Hp]. }
    subst s1. by destruct s. }
  unfold get_session. change (sv_sessions s1) with (sv_sessions s). rewrite Hx.
  unfold put_session, act_set. cbv beta iota. eapply evolves_trans; [exact H1|].
  apply put_session_evolves, H1.
Qed.

Lemma failAttempt_proper id failure : proper (known_entry id) (failAttempt id failure).
Proof.
  intros s Hs [e He]. unfold failAttempt. unfold act_bind at 1, get_entry. rewrite He.
  unfold act_bind at 1, act_get. cbv beta iota. destruct (_ && _) eqn:Hb; [|by apply evolves_refl].
  apply andb_true_iff in Hb as [Hk Hp]. apply bool_decide_eq_true in Hk, Hp.
  unfold act_bind, act_set, put_entry. cbv beta iota. unfold act_set. split_and!; [|done|done].
  assert (H : cache_ok (server_with_attempts (delete (ae_key e) (sv_attempts s)) (sv_activeAttempts s - 1) s))
    by (eapply remove_ok; [done | done | done |]; by rewrite Hp).
  assert (Hout : forall k, sv_attempts s !! k = Some id -> k = ae_key e).
  { intros k Hk'. exact (attempts_inj s k (ae_key e) id Hs Hk' Hk). }
  destruct H as [H1 H2 H3 H4 H5 H6 H7]. constructor; simpl in *; try done.
  - intros k i Hi. destruct (decide (i = id)) as [->|Hne].
    + apply lookup_delete_Some in Hi as [Hne Hi]. apply Hout in Hi. congruence.
    + rewrite lookup_insert_ne by done. by apply H1.
  - rewrite H2. f_equal. apply map_eq. intros k. rewrite !phases_lookup. simpl.
    destruct (delete (ae_key e) (sv_attempts s) !! k) as [i|] eqn:Ei; [|done]. simpl.
    rewrite lookup_insert_ne; [done|]. intros <-. apply lookup_delete_Some in Ei as [Hne Ei].
    apply Hout in Ei. congruence.
  - intros i e0. destruct (decide (i = id)) as [->|Hne]; [intros _; by eapply H5|].
    rewrite lookup_insert_ne by done. apply H5.
  - intros i e0. destruct (decide (i = id)) as [->|Hne].
    + rewrite lookup_insert_eq. by intros [= <-].
    + rewrite lookup_insert_ne by done. apply H6.
  - intros i e0. destruct (decide (i = id)) as [->|Hne].
    + rewrite lookup_insert_eq. by intros [= <-].
    + rewrite lookup_insert_ne by done. apply H7.
Qed.

Lemma new_session_proper x : proper_ok always (new_session x).
Proof.
  intros s Hs _. unfold new_session. split_and!; [|done|].
  - apply (same_cache_ok s); [|done]. split_and!; try done. simpl. intros i Hi.
    destruct (decide (i = sv_nextSession s)) as [->|Hne]; [rewrite lookup_insert_eq; by eexists|].
    by rewrite lookup_insert_ne.
  - simpl. intros i Hi. destruct (decide (i = sv_nextSession s)) as [->|Hne];
      [rewrite lookup_insert_eq; by eexists|]. by rewrite lookup_insert_ne.
Qed.

(** ** Interleavings

    The atomic steps goroutines take on a server: the sections under [attemptMu], the
    release of an identifier under its mutex, and writes to a session under the mutex of
    the session.  A step names heap objects it has a pointer to.  Closing a session is a
    sequence of such steps, and so are acquiring an attempt and a cleanup, which close
    the expired sessions after they have released [attemptMu]. *)
Inductive Step : Set :=
| StepAcquire (key initial : bytes) (now : Z)
| StepResult (id : nat)
| StepNewSession (x : ServerSession)
| StepPublish (id sid : nat) (response : bytes) (now : Z)
| StepFail (id : nat) (failure : HandshakeErr)
| StepPromote (key : bytes) (sid : nat) (now : Z)
| StepGrace (key : bytes) (sid : nat) (now : Z)
| StepRemove (key : bytes) (sid : nat) (reason : HandshakeErr) (now : Z)
| StepSession (sid : nat) (x : ServerSession)
| StepRelease (cid : Z)
| StepCleanup (now : Z).

Definition enabled (c : Step) (s : Server) : Prop :=
  match c with
  | StepResult id | StepFail id _ => known_entry id s
  | StepPublish id sid _ _ => known_entry id s /\ known_session sid s
  | StepSession sid _ => known_session sid s
  | _ => True
  end.

Definition forget {A} (m : srv A) : srv unit := do! m; act_ret tt.

Definition run_step (c : Step) : srv unit :=
  match c with
  | StepAcquire key initial now => forget (acquireAttempt_locked key initial now)
  | StepResult id => forget (resultOfAttempt id)
  | StepNewSession x => forget (new_session x)
  | StepPublish id sid response now => publishAttempt id sid response now
  | StepFail id failure => failAttempt id failure
  | StepPromote key sid now => forget (promoteAttempt key sid now)
  | StepGrace key sid now => forget (confirmGraceActive key sid now)
  | StepRemove key sid reason now => removeAttempt key sid reason now
  | StepSession sid x => put_session sid x
  | StepRelease cid => releaseCID cid
  | StepCleanup now => forget (cleanupAttemptsLocked now)
  end.

Inductive server_reachable (config : ServerConfig) (random : bytes) : Server -> Prop :=
| server_new s : NewServer config random = Ok s -> server_reachable config random s
| server_step s c s' r :
    server_reachable config random s -> enabled c s -> run_step c s = (s', r) ->
    server_reachable config random s'.

Lemma forget_proper {A} pre (m : srv A) : proper pre m -> proper pre (forget m).
Proof.
  intros H s Hs Hp. specialize (H s Hs Hp). unfold forget, act_bind.
  by destruct (m s) as [s' [a|e| |]].
Qed.

Lemma run_step_proper c : proper (enabled c) (run_step c).
Proof.
  assert (Hweak : forall (pre : Server -> Prop) A (m : srv A), proper always m -> proper pre m)
    by (intros pre A m H s Hs _; by apply H).
  destruct c; simpl.
  - apply forget_proper, Hweak, acquireAttempt_locked_proper.
  - apply forget_proper, resultOfAttempt_proper.
  - apply forget_proper, Hweak, proper_ok_proper, new_session_proper.
  - apply publishAttempt_proper.
  - apply failAttempt_proper.
  - apply forget_proper, Hweak, promoteAttempt_proper.
  - apply forget_proper, Hweak, confirmGraceActive_proper.
  - apply Hweak, proper_ok_proper, removeAttempt_proper.
  - intros s Hs _. by apply put_session_evolves.
  - intros s Hs _. by apply releaseCID_evolves.
  - apply forget_proper, Hweak, cleanupAttemptsLocked_proper.
Qed.

(** The methods that release a mutex on the way are runs of these steps, so that other
    goroutines may come in between. *)
Definition stepped (s s' : Server) : Prop := exists c r, enabled c s /\ run_step c s = (s', r).

Lemma session_closeLocked_steps sid st now s : cache_ok s -> known_session sid s -> rtc stepped s (fst (session_closeLocked sid st now s)).
Proof.
  intros Hs [x Hx]. unfold session_closeLocked. unfold act_bind at 1, get_session. rewrite Hx. cbv zeta. set (x0 := session_closed x st). clearbody x0.
  assert (Hput : forall s x, known_session sid s -> stepped s (fst (put_session sid x s))) by (intros s1 x1 H; by exists (StepSession sid x1), (Ok tt)).
  assert (Hknown : forall s x, known_session sid (fst (put_session sid x s))) by (intros s1 x1; cbn; unfold known_session; cbn; rewrite lookup_insert_eq; by eexists).
  unfold act_bind at 1. change (put_session sid x0 s) with (fst (put_session sid x0 s), Ok tt : hs unit). cbv beta iota.
  eapply rtc_l; [apply (Hput s x0); by eexists|]. pose proof (put_session_evolves s sid x0 Hs) as Hs0. set (s0 := fst (put_session sid x0 s)).
  assert (Hk0 : known_session sid s0) by apply Hknown. change (evolves s s0) in Hs0. clearbody s0.
  assert (Hend : forall s1 x1, known_session sid s1 -> rtc stepped s1 (fst ((if negb (ss_closedCID x1) then do! releaseCID (ss_serverCID x1); put_session sid (session_CID_closed x1) else act_ret tt) s1))).
  { intros s1 x1 Hk. destruct (negb _); [|apply rtc_refl]. eapply rtc_l; [by exists (StepRelease (ss_serverCID x1)), (Ok tt)|]. apply rtc_once, (Hput _ (session_CID_closed x1)), Hk. }
  destruct (ss_hasAttempt x0); [|by apply Hend]. unfold act_bind.
  pose proof (removeAttempt_proper (ss_attemptKey x0) sid (if bool_decide (st = StateRejected) then ErrTranscript else ErrState) now s0 (proj1 Hs0) I) as Hr.
  destruct (removeAttempt _ _ _ _ s0) as [s1 [[]|e| |]] eqn:E; try done.
  eapply rtc_l; [by eexists (StepRemove _ _ _ _), _|]. eapply rtc_l; [apply (Hput s1 (session_detached x0)), Hr, Hk0|]. apply Hend, Hknown.
Qed.

Lemma closeExpiredSessions_steps sessions now : forall s, cache_ok s -> Forall (fun sid => known_session sid s) sessions ->
  rtc stepped s (fst (closeExpiredSessions sessions now s)).
Proof.
  induction sessions as [|sid rest IH]; intros s Hs Hp; [apply rtc_refl|]. apply Forall_cons in Hp as [Hsid Hp]. cbn [closeExpiredSessions].
  unfold act_bind, ServerSession_Close. pose proof (session_closeLocked_steps sid StateClosed now s Hs Hsid) as H1.
  pose proof (session_closeLocked_proper sid StateClosed now s Hs Hsid) as H2. destruct (session_closeLocked _ _ _ s) as [s1 [u|e| |]]; try done.
  etrans; [exact H1|]. apply IH; [apply H2|]. eapply Forall_impl; [exact Hp|]. intros i Hi. by apply H2.
Qed.

Lemma acquireAttempt_steps key initial now now' s : cache_ok s -> rtc stepped s (fst (acquireAttempt key initial now now' s)).
Proof.
  intros Hs. destruct (acquireAttempt_locked_spec key initial now s Hs) as (s1 & x & r & E & H1 & Hx & _).
  unfold acquireAttempt, act_bind. rewrite E. cbn [fst snd]. pose proof (closeExpiredSessions_steps x now' s1 (proj1 H1) Hx) as H2.
  eapply rtc_l; [exists (StepAcquire key initial now), (Ok tt); split; [done|]; cbn; unfold forget, act_bind; by rewrite E|].
  by destruct (closeExpiredSessions x now' s1) as [s2 [u|e| |]].
Qed.

Lemma CleanupExpired_steps now now' s : cache_ok s -> rtc stepped s (fst (CleanupExpired now now' s)).
Proof.
  intros Hs. destruct (cleanupAttemptsLocked_spec now s Hs) as (s1 & x & c & E & Hs1 & Hss & _ & Hx & _).
  assert (Hx1 : Forall (fun sid => known_session sid s1) x) by (unfold known_session; by rewrite Hss).
  unfold CleanupExpired, act_bind. rewrite E. cbn [fst snd]. pose proof (closeExpiredSessions_steps x now' s1 Hs1 Hx1) as H2.
  eapply rtc_l; [exists (StepCleanup now), (Ok tt); split; [done|]; cbn; unfold forget, act_bind; by rewrite E|].
  by destruct (closeExpiredSessions x now' s1) as [s2 [u|e| |]].
Qed.

Lemma reachable_steps config random s s' : server_reachable config random s -> rtc stepped s s' -> server_reachable config random s'.
Proof. intros Hr. induction 1 as [|s s1 s' (c & r & He & H) _ IH]; [done|]. apply IH. by eapply server_step. Qed.

Lemma NewServer_ok config random s :
  server_config_typed config -> NewServer config random = Ok s -> cache_ok s.
Proof.
  intros Ht H. unfold NewServer in H. inv_ok. apply normalizeServerConfig_ok in Ha as [_ _ _ _ _ _ _ _ Hl]; [|done].
  constructor; simpl; try done; try lia.
  rewrite map_size_empty. lia.
Qed.

Lemma reachable_cache_ok config random s :
  server_config_typed config -> server_reachable config random s -> cache_ok s.
Proof.
  intros Ht H. induction H as [s Hn | s c s' r _ IH He Hr].
  - by eapply NewServer_ok.
  - pose proof (run_step_proper c s IH He) as H. rewrite Hr in H.
    destruct r as [u|e| |]; try done; apply H.
Qed.

(** C12: the attempt cache stays bounded and consistent under every interleaving
    of the atomic steps of concurrent handshakes, confirmations, closings and
    cleanups: [activeAttempts] equals the number of entries being built or ready
    and never exceeds its limit, the map never exceeds its limit, the channel of an
    entry is closed exactly once building ends, ready entries have their session;
    and no enabled step panics (no dangling entry, no double close). *)
Theorem attempt_cache_invariant config random s c :
  server_config_typed config -> server_reachable config random s -> enabled c s ->
  cache_ok s /\ returns (snd (run_step c s)) /\ cache_ok (fst (run_step c s)).
Proof.
  intros Ht Hr He. pose proof (reachable_cache_ok config random s Ht Hr) as Hs.
  pose proof (run_step_proper c s Hs He) as H.
  destruct (run_step c s) as [s' [u|e| |]]; try done; split_and!; try done; apply H.
Qed.

Definition demo_server : Server :=
  match NewServer demo_server_config [] with
  | Ok s => s
  | _ => mkServer [] None [] (mkServerOptions 0 0 0 0 0 [] [] 0 [] 0 0 0 0 0) [] [] ∅ ∅ 0 ∅ 0 ∅ 0
  end.

Lemma attempt_cache_invariant_witness :
  cache_ok (fst (run_step (StepAcquire (be_split 32 1) [1; 2] 5) demo_server)).
Proof.
  refine (proj2 (proj2 (attempt_cache_invariant demo_server_config [] demo_server
    (StepAcquire (be_split 32 1) [1; 2] 5) _ _ _))).
  - split_and!; apply (bool_decide_unpack _); vm_compute; exact I.
  - apply server_new. vm_compute. reflexivity.
  - exact I.
Defined.

(** C13: an INITIAL is built once.  While an attempt is live, a retransmission of
    the same INITIAL either waits for the goroutine that is building the response
    or receives the very session and response already built, and a different
    datagram under the same transcript hash is refused; no second builder is let in.
    A builder is let in only for a hash the cache does not hold, with room left. *)
Theorem attempt_built_once s key initial now now' :
  cache_ok s ->
  (forall id e, sv_attempts s !! key = Some id -> sv_entries s !! id = Some e -> live now e ->
     snd (acquireAttempt key initial now now' s) =
       if negb (secureEqual (ae_initial e) initial) then Err ErrTranscript
       else if bool_decide (ae_phase e = attemptBuilding) then Ok (Parked id)
       else Ok (Leased id false (ae_session e) (ae_response e)))
  /\ (forall id session response,
     snd (acquireAttempt key initial now now' s) = Ok (Leased id true session response) ->
     exists s1, sv_attempts s1 !! key = None /\ fst (cleanupAttemptsLocked now s) = s1
       /\ sv_activeAttempts s1 < so_maxPendingAttempts (sv_options s)
       /\ Z.of_nat (size (sv_attempts s1)) < so_maxAttemptRecords (sv_options s)).
Proof.
  intros Hs. destruct (acquireAttempt_locked_spec key initial now s Hs) as (s3 & x3 & r3 & E3 & H3 & Hx3 & _).
  assert (Hans : snd (acquireAttempt key initial now now' s) = r3).
  { unfold acquireAttempt, act_bind. rewrite E3. cbn [fst snd]. pose proof (closeExpiredSessions_proper x3 now' s3 (proj1 H3) Hx3) as H.
    by destruct (closeExpiredSessions x3 now' s3) as [s4 [u|e| |]]. }
  rewrite Hans. clear Hans. unfold acquireAttempt_locked, act_bind, act_get, get_entry in E3.
  destruct (cleanupAttemptsLocked_spec now s Hs) as (s1 & x & c & E & Hs1 & Hss & Ho & Hx & Hlive). rewrite E in *. cbn [fst snd] in *. split.
  - intros id e Hk He Hl. destruct (Hlive key id e Hk He Hl) as [Hk1 He1]. rewrite Hk1, He1 in E3. injection E3 as _ _ <-.
    destruct (negb _); [done|]. destruct Hl as [Hact _]. by destruct (ae_phase e).
  - intros id session response ->. exists s1. destruct (sv_attempts s1 !! key) as [id1|] eqn:Hk.
    + destruct (co_entries s1 Hs1 key id1 Hk) as (e & He & _). rewrite He in E3. injection E3 as _ _ E3. destruct (negb _); [done|].
      destruct (ae_phase e); try done. by destruct (ae_err e).
    + destruct (_ || _) eqn:Hcap; [done|]. rewrite <- Ho. split_and!; [done | done | lia | lia].
Qed.

Definition demo_acquired : Server :=
  fst (acquireAttempt (be_split 32 1) [1; 2] 5 5 demo_server).

Lemma attempt_built_once_witness :
  snd (acquireAttempt (be_split 32 1) [1; 2] 6 6 demo_acquired) = Ok (Parked 0).
Proof.
  assert (Hok : cache_ok demo_acquired).
  { apply (reachable_cache_ok demo_server_config []).
    - split_and!; apply (bool_decide_unpack _); vm_compute; exact I.
    - eapply reachable_steps; [apply server_new; vm_compute; reflexivity|]. apply acquireAttempt_steps, (reachable_cache_ok demo_server_config []);
        [split_and!; apply (bool_decide_unpack _); vm_compute; exact I | apply server_new; vm_compute; reflexivity]. }
  refine (eq_trans (proj1 (attempt_built_once demo_acquired (be_split 32 1) [1; 2] 6 6 Hok) 0%nat
    (mkAttemptEntry (be_split 32 1) [1; 2] attemptBuilding false [] None (5 + 5 * Second) 0 false None)
    _ _ _) _).
  - vm_compute. reflexivity.
  - vm_compute. reflexivity.
  - split; [reflexivity | vm_compute; reflexivity].
  - vm_compute. reflexivity.
Defined.
