(* ===== verification/ServerHandshake.v ===== *)
(** * The server's side of the handshake and of the transport
    (internal/handshake/server.go, transport.go)

    [HandleInitial] with every exit path, deferred calls included, and the
    session methods that confirm, seal and open.  A goroutine that would park
    on an attempt another one is building does not come back on its own: its
    outcome is [Diverge]. *)

From stdpp Require Import base list strings numbers gmap.
From S2P Require Import Prelude CodecErrors WireFormat Payload Packet Tlv Frame Replay Crypto HandshakeTypes HandshakeWire HandshakeServer.
Local Open Scope Z_scope.
Local Open Scope wg_scope.

Definition rehandshakePacketNumber : Z := Z.shiftl 1 32.

Definition minUint16 (left right : Z) : Z := if left <? right then left else right.

Definition maxPlaintextForDatagram (maxDatagram : Z) : Z := maxDatagram - HeaderSize - AEADTagSize.

Definition parseTransportDatagram (datagram : bytes) (maxDatagram : Z) : hs Packet :=
  let* packet := as_hs ErrMessage (ParsePacket datagram maxDatagram) in
  if negb (Kind (pkt_Header packet) =? PacketTransport) then Err ErrMessage
  else Ok packet.

(** [value, _ := FindTLV(...)]: nil when absent. *)
Definition find_or_nil (fields : list TLV) (t : Z) : bytes := default [] (FindTLV fields t).

(** [subtle.ConstantTimeCompare] over all registered keys. *)
Definition isRegistered (registeredClients : list bytes) (candidate : bytes) : bool :=
  fold_left (fun matched registered => matched || bool_decide (candidate = registered))
    registeredClients false.

Definition validateInitialFields (s : Server) (fields : list TLV) (outerClientCID : Z)
  : hs (bytes * Z * Z) :=
  match FindTLV fields TLVEnrollmentTokenID, FindTLV fields TLVEnrollmentProof with
  | Some _, _ => Err ErrEnrollmentUnsupported
  | None, Some _ => Err ErrEnrollmentUnsupported
  | None, None =>
      let version := find_or_nil fields TLVVersion in
      let deployment := find_or_nil fields TLVDeploymentID in
      let clientCID := find_or_nil fields TLVClientCID in
      let addressFamilies := find_or_nil fields TLVAddressFamilies in
      let maxDatagram := find_or_nil fields TLVMaxDatagramSize in
      let clientStaticValue := find_or_nil fields TLVClientStaticKey in
      let* v := index version 0 in
      if negb (v =? Version1) then Err ErrParameters
      else if negb (secureEqual deployment (sv_deploymentID s)) then Err ErrParameters
      else
        let* cid := Uint64 clientCID in
        if negb (cid =? outerClientCID) then Err ErrConnectionID
        else
          let* requestedFamilies := index addressFamilies 0 in
          if (requestedFamilies =? 0) || negb (and_not requestedFamilies 3 =? 0) then Err ErrParameters
          else
            let* clientMaxDatagram := Uint16 maxDatagram in
            if clientMaxDatagram <? HeaderSize + AEADTagSize + FrameHeaderSize then Err ErrParameters
            else
              let* clientStatic := copy_at (zeros 32) 0 clientStaticValue in
              if negb (isRegistered (sv_registeredClients s) clientStatic) then Err ErrUnregisteredClient
              else Ok (clientStatic, requestedFamilies, clientMaxDatagram)
  end.

Definition handshakeFields (s : Server) (clientCID serverCID families maxDatagram tunnelMTU : Z)
  : hs (list TLV) :=
  let o := sv_options s in
  let* egress := encodeUint64 (so_egressPolicy o) in
  let* client := encodeUint64 clientCID in
  let* server := encodeUint64 serverCID in
  let* capabilities := encodeUint64 (so_capabilities o) in
  let* datagram := encodeUint16 maxDatagram in
  let* mtu := encodeUint16 tunnelMTU in
  let* lease := encodeUint32 (so_leaseSeconds o) in
  let fields :=
    [mkTLV TLVEgressPolicyVersion egress; mkTLV TLVVersion [Version1];
     mkTLV TLVDeploymentID (sv_deploymentID s); mkTLV TLVClientCID client;
     mkTLV TLVServerCID server; mkTLV TLVCapabilities capabilities;
     mkTLV TLVAddressFamilies [families]; mkTLV TLVMaxDatagramSize datagram;
     mkTLV TLVTunnelMTU mtu; mkTLV TLVLeaseSeconds lease] in
  let fields := if negb (len (so_dnsParameters o) =? 0)
    then fields ++ [mkTLV TLVDNSParameters (so_dnsParameters o)] else fields in
  let fields := if negb (Z.land families 1 =? 0) && negb (len (so_ipv4Lease o) =? 0)
    then fields ++ [mkTLV TLVIPv4Lease (so_ipv4Lease o)] else fields in
  let fields := if negb (Z.land families 2 =? 0) && negb (len (so_ipv6Lease o) =? 0)
    then fields ++ [mkTLV TLVIPv6Lease (so_ipv6Lease o)] else fields in
  Ok fields.

(** The reader advances; the result is that of [nextNonZeroCID]. *)
Definition draw_CID : srv Z := fun s =>
  let '(rest, r) := nextNonZeroCID (sv_random s) in (server_with_random rest s, r).

Fixpoint reserveServerCID_loop (attempts : nat) : srv Z :=
  match attempts with
  | O => act_fail ErrConfiguration
  | S attempts =>
      let! cid := draw_CID in
      let! s := act_get in
      if bool_decide (cid ∈ sv_activeCIDs s) then reserveServerCID_loop attempts
      else
        do! act_set (fun s => server_with_CIDs (sv_activeCIDs s ∪ {[cid]}) s);
        act_ret cid
  end.
Definition reserveServerCIDLocked : srv Z := reserveServerCID_loop 32.

(** A deferred call that runs when the function returns an error. *)
Definition on_error {A} (m : srv A) (h : HandshakeErr -> srv unit) : srv A := fun s =>
  match m s with
  | (s, Err e) => let '(s, _) := h e s in (s, Err e)
  | r => r
  end.

Section Exchange.
Context {P : Primitives}.

Definition draw_key : srv bytes := fun s =>
  match GenerateKeyFrom (Some (sv_random s)) with
  | Ok (private, rest) => (server_with_random rest s, Ok private)
  | _ => (server_with_random [] s, Err ErrConfiguration)
  end.

(** [HandleInitial] from the reserved identifier to the published attempt;
    [keepCID] is true from the publication on. *)
Definition buildResponse (packet : Packet) (initial : Initial) (th1 es clientStatic : bytes)
    (requestedFamilies clientMaxDatagram serverCID : Z) (ephemeralPrivate : bytes)
  : srv (ServerSession * bytes) :=
  let! s := act_get in
  let o := sv_options s in
  let! ephemeralPublic := act_lift (as_hs ErrConfiguration (PublicBytes (Some (x25519_PublicKey ephemeralPrivate)))) in
  let! ss := act_lift (as_hs ErrAuthentication (DH (sv_staticPrivate s) clientStatic)) in
  let! ee := act_lift (as_hs ErrAuthentication (DH (Some ephemeralPrivate) (init_ClientEphemeralPublic initial))) in
  let! se := act_lift (as_hs ErrAuthentication (DH (Some ephemeralPrivate) clientStatic)) in
  let! keys := act_lift (as_hs ErrAuthentication (DeriveM2 th1 es ss ee se)) in
  let prk2 := fst keys in
  let k2 := snd keys in
  let availableFamilies := so_addressFamilies o in
  let availableFamilies := if len (so_ipv4Lease o) =? 0 then and_not availableFamilies 1 else availableFamilies in
  let availableFamilies := if len (so_ipv6Lease o) =? 0 then and_not availableFamilies 2 else availableFamilies in
  let selectedFamilies := Z.land requestedFamilies availableFamilies in
  if selectedFamilies =? 0 then act_fail ErrParameters
  else
    let selectedMaxDatagram := minUint16 clientMaxDatagram (so_maxDatagramSize o) in
    let maxTunnelMTU := tunnel_room selectedMaxDatagram in
    let selectedTunnelMTU := minUint16 (so_tunnelMTU o) maxTunnelMTU in
    if selectedTunnelMTU <? 576 then act_fail ErrParameters
    else
      let clientCID := SCID (pkt_Header packet) in
      let! fields := act_lift (handshakeFields s clientCID serverCID selectedFamilies
                                 selectedMaxDatagram selectedTunnelMTU) in
      let! encodedFields := act_lift (as_hs ErrMessage (MarshalTLVsFor fields TLVContextHandshake)) in
      let ciphertextLength := len encodedFields + AEADTagSize in
      let! prefix := act_lift (makeHandshakePrefix ephemeralPublic ciphertextLength) in
      let! hdr := act_lift (makeHeader PacketHandshake clientCID serverCID 0 (len prefix + ciphertextLength)) in
      let m2AD := join [sv_context s; th1; snd hdr; prefix] in
      let! ciphertext := act_lift (as_hs ErrAuthentication (SealHandshake k2 m2AD encodedFields)) in
      if negb (len ciphertext =? ciphertextLength) then act_fail ErrMessage
      else
        let! response := act_lift (marshalWirePacket (fst hdr) prefix ciphertext selectedMaxDatagram) in
        let th2 := Sum256 [m2AD; ciphertext] in
        let! traffic := act_lift (as_hs ErrAuthentication (DeriveTraffic prk2 th2)) in
        act_ret (mkServerSession StatePendingConfirm clientCID serverCID clientStatic th2
                   (fst traffic) (snd traffic) 0 NewReplayWindow selectedMaxDatagram
                   false [] false (zeros 8) false, response).

(** The builder's path, under the deferred [failAttempt]. *)
Definition buildAttempt (packet : Packet) (initial : Initial) (m1AD th1 : bytes) (entry : nat) (now : Z)
  : srv (option nat * bytes) :=
  let! s := act_get in
  let! es := act_lift (as_hs ErrAuthentication (DH (sv_staticPrivate s) (init_ClientEphemeralPublic initial))) in
  let! keys := act_lift (as_hs ErrAuthentication (DeriveM1 (sv_context s) es)) in
  let! plaintext := act_lift (as_hs ErrAuthentication (OpenHandshake (snd keys) m1AD (init_EncryptedPayload initial))) in
  let! fields := act_lift (as_hs ErrMessage (ParseTLVsFor plaintext TLVContextInitial)) in
  let! checked := act_lift (validateInitialFields s fields (SCID (pkt_Header packet))) in
  let clientStatic := fst (fst checked) in
  let requestedFamilies := snd (fst checked) in
  let clientMaxDatagram := snd checked in
  let! serverCID := reserveServerCIDLocked in
  let! ephemeralPrivate := on_error draw_key (fun _ => releaseCID serverCID) in
  let! built := on_error
    (buildResponse packet initial th1 es clientStatic requestedFamilies clientMaxDatagram
       serverCID ephemeralPrivate)
    (fun _ => releaseCID serverCID) in
  let! sid := new_session (fst built) in
  do! on_error (publishAttempt entry sid (snd built) now) (fun _ => ServerSession_Close sid now);
  act_ret (Some sid, snd built).

Definition HandleInitial (datagram : bytes) (now now' now'' : Z) : srv (option nat * bytes) :=
  let! s := act_get in
  let! parsed := act_lift (parseInitialWire datagram (so_maxDatagramSize (sv_options s)) (sv_context s)) in
  let '(packet, initial, m1AD, th1) := parsed in
  if negb (DCID (pkt_Header packet) =? 0) || (SCID (pkt_Header packet) =? 0) then act_fail ErrConnectionID
  else
    let! lease := acquireAttempt th1 datagram now now' in
    match lease with
    | Parked _ => act_lift Diverge
    | Leased _ false session response => act_ret (session, response)
    | Leased entry true _ _ =>
        on_error (buildAttempt packet initial m1AD th1 entry now'')
          (fun failure => failAttempt entry failure)
    end.

(** ** Sessions *)
Definition session_with_sendPN (x : ServerSession) (pn : Z) : ServerSession :=
  mkServerSession (ss_state x) (ss_clientCID x) (ss_serverCID x) (ss_clientStatic x) (ss_th2 x)
    (ss_c2sKey x) (ss_s2cKey x) pn (ss_receiveWindow x) (ss_maxDatagram x)
    (ss_closedCID x) (ss_attemptKey x) (ss_hasAttempt x) (ss_confirmChallenge x) (ss_haveConfirmChallenge x).
Definition session_with_window (x : ServerSession) (w : ReplayWindow) : ServerSession :=
  mkServerSession (ss_state x) (ss_clientCID x) (ss_serverCID x) (ss_clientStatic x) (ss_th2 x)
    (ss_c2sKey x) (ss_s2cKey x) (ss_sendPN x) w (ss_maxDatagram x)
    (ss_closedCID x) (ss_attemptKey x) (ss_hasAttempt x) (ss_confirmChallenge x) (ss_haveConfirmChallenge x).
Definition session_confirmed (x : ServerSession) (challenge : bytes) : ServerSession :=
  mkServerSession StateEstablished (ss_clientCID x) (ss_serverCID x) (ss_clientStatic x) (ss_th2 x)
    (ss_c2sKey x) (ss_s2cKey x) (ss_sendPN x) (ss_receiveWindow x) (ss_maxDatagram x)
    (ss_closedCID x) (ss_attemptKey x) (ss_hasAttempt x) challenge true.

(** [openLocked]: parse, check identifiers and age, authenticate, claim the
    packet number, and only then parse the frames. *)
Definition session_openLocked (sid : nat) (datagram : bytes) : srv (list Frame) :=
  let! x := get_session sid in
  let! packet := act_lift (parseTransportDatagram datagram (ss_maxDatagram x)) in
  let h := pkt_Header packet in
  if negb (DCID h =? ss_serverCID x) || negb (SCID h =? ss_clientCID x) then act_fail ErrConnectionID
  else if (rehandshakePacketNumber <=? PacketNumber h) || negb (Precheck (ss_receiveWindow x) (PacketNumber h))
  then act_fail ErrMessage
  else
    let! plaintext := act_lift (as_hs ErrAuthentication (OpenTransportPlaintext (ss_c2sKey x) packet)) in
    let! accepted := act_lift (as_hs ErrMessage (AcceptAuthenticated (ss_receiveWindow x) (PacketNumber h))) in
    do! put_session sid (session_with_window x (fst accepted));
    match snd accepted with
    | Some _ => act_fail ErrMessage
    | None => act_lift (as_hs ErrMessage (ParseFrames plaintext (maxPlaintextForDatagram (ss_maxDatagram x))))
    end.

Definition session_sealLocked (sid : nat) (frames : list Frame) (now : Z) : srv bytes :=
  let! x := get_session sid in
  if rehandshakePacketNumber <=? ss_sendPN x then
    do! session_closeLocked sid StateClosed now; act_fail ErrState
  else
    let pn := ss_sendPN x in
    do! put_session sid (session_with_sendPN x (u64 (ss_sendPN x + 1)));
    let header := mkHeader Version1 PacketTransport 0 (ss_clientCID x) (ss_serverCID x) pn 0 0 in
    let! packet := act_lift (as_hs ErrMessage
        (SealTransport (ss_s2cKey x) header frames (maxPlaintextForDatagram (ss_maxDatagram x)))) in
    act_lift (as_hs ErrMessage (Packet_MarshalBinary packet (ss_maxDatagram x))).

Definition ServerSession_Open (sid : nat) (datagram : bytes) : srv (list Frame) :=
  let! x := get_session sid in
  if negb (bool_decide (ss_state x = StateEstablished)) then act_fail ErrState
  else session_openLocked sid datagram.

Definition ServerSession_Seal (sid : nat) (frames : list Frame) (now : Z) : srv bytes :=
  let! x := get_session sid in
  if negb (bool_decide (ss_state x = StateEstablished)) then act_fail ErrState
  else session_sealLocked sid frames now.

Definition HandleConfirm (sid : nat) (datagram : bytes) (now : Z) : srv bytes :=
  let! x := get_session sid in
  if negb (bool_decide (ss_state x = StatePendingConfirm)) && negb (bool_decide (ss_state x = StateEstablished))
  then act_fail ErrState
  else
    let wasEstablished := bool_decide (ss_state x = StateEstablished) in
    let! frames := session_openLocked sid datagram in
    match frames with
    | [confirm; ping] =>
        if negb (frame_Type confirm =? FrameConfirm) || negb (frame_Type ping =? FramePing)
        then act_fail ErrMessage
        else if negb (secureEqual (frame_Body confirm) (ss_th2 x)) then
          do! (if wasEstablished then act_ret tt else session_closeLocked sid StateRejected now);
          act_fail ErrTranscript
        else
          let challenge := frame_Body ping in
          let! x := get_session sid in
          do! (if (wasEstablished : bool) then
                 if negb (ss_haveConfirmChallenge x) || negb (secureEqual challenge (ss_confirmChallenge x))
                 then act_fail ErrMessage
                 else
                   let! active := (if ss_hasAttempt x
                     then confirmGraceActive (ss_attemptKey x) sid now else act_ret false) in
                   if (active : bool) then act_ret tt else act_fail ErrAttemptExpired
               else
                 let! promoted := (if ss_hasAttempt x
                   then promoteAttempt (ss_attemptKey x) sid now else act_ret false) in
                 if (promoted : bool) then
                   let! copied := act_lift (copy_at (zeros 8) 0 challenge) in
                   put_session sid (session_confirmed x copied)
                 else do! session_closeLocked sid StateClosed now; act_fail ErrAttemptExpired);
          on_error (session_sealLocked sid [mkFrame FramePong 0 challenge] now)
            (fun _ => session_closeLocked sid StateClosed now)
    | _ => act_fail ErrMessage
    end.
End Exchange.
