(* ===== verification/ServerFrames.v ===== *)
(** * What the server's methods leave alone

    Frame properties of the server code, proved by following it: the identity
    and the options never change, the cleanup adds no attempt, and a connection
    identifier is taken only by [reserveServerCIDLocked]. *)

From stdpp Require Import base list strings numbers gmap.
From S2P Require Import Prelude CodecErrors WireFormat Payload Packet Tlv Frame Replay Crypto HandshakeTypes HandshakeWire HandshakeServer AttemptCache ServerHandshake.
Local Open Scope Z_scope.
Local Open Scope wg_scope.

(** ** Random bytes *)
Lemma ReadFull_inv r n v rest :
  0 <= n -> ReadFull r n = Some (v, rest) -> r = v ++ rest /\ len v = n.
Proof.
  intros Hn H. unfold ReadFull in H. destruct (Z.ltb_spec (len r) n); [done|]. injection H as <- <-.
  split; [by rewrite take_drop|]. unfold len in *. rewrite length_take. lia.
Qed.

Lemma nextNonZeroCID_spec r :
  bytes_ok r ->
  bytes_ok (fst (nextNonZeroCID r)) /\ returns (snd (nextNonZeroCID r))
  /\ forall cid, snd (nextNonZeroCID r) = Ok cid -> 0 < cid < 2 ^ 64.
Proof.
  unfold nextNonZeroCID. generalize 32%nat as n. intros n. revert r.
  induction n as [|n IH]; intros r Hr; simpl; [by split_and!|].
  destruct (ReadFull r 8) as [[raw r']|] eqn:Er; [|split_and!; [constructor | done | done]].
  apply ReadFull_inv in Er as [-> Hl]; [|lia]. apply bytes_ok_app in Hr as [Hraw Hr].
  assert (Hret : returns (E := HandshakeErr) (Uint64 raw)) by (apply be_uint_returns; unfold len in Hl; lia).
  destruct (Uint64 raw) as [v|e| |] eqn:Ev; try done.
  destruct (negb (v =? 0)) eqn:Hz; [|by apply IH]. split_and!; [done | done |]. intros cid [= <-].
  apply be_uint_bound in Ev; [|done]. change (256 ^ Z.of_nat 8) with (2 ^ 64) in Ev. lia.
Qed.

Lemma nextNonZeroCID_inv r rest cid :
  bytes_ok r -> nextNonZeroCID r = (rest, Ok cid) -> 0 < cid < 2 ^ 64 /\ bytes_ok rest.
Proof.
  intros Hr H. destruct (nextNonZeroCID_spec r Hr) as (Hb & _ & Hc). rewrite H in *. by auto.
Qed.

Lemma GenerateKeyFrom_inv r k rest :
  bytes_ok r -> GenerateKeyFrom (Some r) = Ok (k, rest) -> key_ok k /\ bytes_ok rest.
Proof.
  intros Hr H. unfold GenerateKeyFrom in H. destruct (ReadFull r 32) as [[v r']|] eqn:Er; [|done].
  injection H as -> ->. apply ReadFull_inv in Er as [-> Hl]; [|lia]. apply bytes_ok_app in Hr as [??].
  split; [by split | done].
Qed.

(** ** Identity and options *)
Definition identity_kept (s s' : Server) : Prop :=
  sv_deploymentID s' = sv_deploymentID s /\ sv_staticPrivate s' = sv_staticPrivate s
  /\ sv_registeredClients s' = sv_registeredClients s /\ sv_options s' = sv_options s
  /\ sv_context s' = sv_context s /\ (bytes_ok (sv_random s) -> bytes_ok (sv_random s')).

#[export] Instance identity_kept_pre : PreOrder identity_kept.
Proof.
  split; [by intros s; split_and!|].
  intros s1 s2 s3 (?&?&?&?&?&?) (?&?&?&?&?&?). split_and!; (congruence || auto).
Qed.

(** The keys of the attempt map only shrink. *)
Definition attempts_shrink (s s' : Server) : Prop :=
  forall key, sv_attempts s !! key = None -> sv_attempts s' !! key = None.

#[export] Instance attempts_shrink_pre : PreOrder attempts_shrink.
Proof. split; [by intros s key | by intros s1 s2 s3 H1 H2 key H; apply H2, H1]. Qed.

(** The connection identifiers in use only shrink. *)
Definition CIDs_shrink (s s' : Server) : Prop := sv_activeCIDs s' ⊆ sv_activeCIDs s.

#[export] Instance CIDs_shrink_pre : PreOrder CIDs_shrink.
Proof. unfold CIDs_shrink. split; [by intros s | intros s1 s2 s3 H1 H2; by etransitivity]. Qed.

(** All three at once, for the code of the cache. *)
Definition cache_step (s s' : Server) : Prop :=
  identity_kept s s' /\ attempts_shrink s s' /\ CIDs_shrink s s'.

#[export] Instance cache_step_pre : PreOrder cache_step.
Proof.
  split; [intros s; split_and!; reflexivity|].
  intros s1 s2 s3 (?&?&?) (?&?&?). split_and!; by etransitivity.
Qed.

Lemma cache_step_same s s' :
  identity_kept s s' -> sv_attempts s' = sv_attempts s -> sv_activeCIDs s' = sv_activeCIDs s -> cache_step s s'.
Proof. intros Hi Ha Hc. split_and!; [done | by intros k; rewrite Ha | by unfold CIDs_shrink; rewrite Hc]. Qed.

Lemma get_entry_keeps id : keeps cache_step (get_entry id).
Proof. intros s. unfold get_entry. destruct (_ !! _); reflexivity. Qed.
Lemma get_session_keeps id : keeps cache_step (get_session id).
Proof. intros s. unfold get_session. destruct (_ !! _); reflexivity. Qed.
Lemma put_entry_keeps id e : keeps cache_step (put_entry id e).
Proof. apply keeps_set. intros s. by apply cache_step_same; [split_and!|..]. Qed.
Lemma put_session_keeps id e : keeps cache_step (put_session id e).
Proof. apply keeps_set. intros s. by apply cache_step_same; [split_and!|..]. Qed.
Lemma new_session_keeps x : keeps cache_step (new_session x).
Proof. intros s. by apply cache_step_same; [split_and!|..]. Qed.
Lemma releaseCID_keeps cid : keeps cache_step (releaseCID cid).
Proof. apply keeps_set. intros s. split_and!; [by split_and! | by intros key | unfold CIDs_shrink; simpl; set_solver]. Qed.
#[export] Hint Resolve get_entry_keeps get_session_keeps put_entry_keeps put_session_keeps
  new_session_keeps releaseCID_keeps : wg_keeps.

Lemma tombstoneAttemptLocked_keeps id reason now : keeps cache_step (tombstoneAttemptLocked id reason now).
Proof. unfold tombstoneAttemptLocked. keeps_tac. by apply cache_step_same; [split_and!|..]. Qed.
#[export] Hint Resolve tombstoneAttemptLocked_keeps : wg_keeps.

Lemma attempts_deleted s key active : cache_step s (server_with_attempts (delete key (sv_attempts s)) active s).
Proof.
  split_and!; [by split_and! | | by unfold CIDs_shrink].
  intros k Hk. simpl. destruct (decide (k = key)) as [->|Hne]; [apply lookup_delete_eq|].
  by rewrite lookup_delete_ne.
Qed.

Lemma cleanup_entry_keeps now key id expired changed : keeps cache_step (cleanup_entry now key id expired changed).
Proof. unfold cleanup_entry. keeps_tac; apply attempts_deleted. Qed.
#[export] Hint Resolve cleanup_entry_keeps : wg_keeps.

Lemma cleanup_loop_keeps now items : forall expired changed, keeps cache_step (cleanup_loop now items expired changed).
Proof. induction items as [|[k i] items IH]; intros; cbn [cleanup_loop]; keeps_tac. Qed.
#[export] Hint Resolve cleanup_loop_keeps : wg_keeps.

Lemma cleanupAttemptsLocked_keeps now : keeps cache_step (cleanupAttemptsLocked now).
Proof. unfold cleanupAttemptsLocked. keeps_tac. Qed.

Lemma removeAttempt_keeps key sid reason now : keeps cache_step (removeAttempt key sid reason now).
Proof. unfold removeAttempt. keeps_tac. Qed.

Lemma promoteAttempt_keeps key sid now : keeps cache_step (promoteAttempt key sid now).
Proof. unfold promoteAttempt. keeps_tac. Qed.

Lemma confirmGraceActive_keeps key sid now : keeps cache_step (confirmGraceActive key sid now).
Proof. unfold confirmGraceActive. keeps_tac. Qed.
#[export] Hint Resolve cleanupAttemptsLocked_keeps removeAttempt_keeps promoteAttempt_keeps
  confirmGraceActive_keeps : wg_keeps.

Lemma session_closeLocked_keeps sid st now : keeps cache_step (session_closeLocked sid st now).
Proof. unfold session_closeLocked. keeps_tac. Qed.
#[export] Hint Resolve session_closeLocked_keeps : wg_keeps.

Lemma closeExpiredSessions_keeps sessions now : keeps cache_step (closeExpiredSessions sessions now).
Proof.
  induction sessions as [|sid rest IH]; cbn [closeExpiredSessions]; [keeps_tac|].
  unfold ServerSession_Close. keeps_tac.
Qed.
#[export] Hint Resolve closeExpiredSessions_keeps : wg_keeps.

Lemma failAttempt_keeps id failure : keeps cache_step (failAttempt id failure).
Proof. unfold failAttempt. keeps_tac. apply attempts_deleted. Qed.

Lemma publishAttempt_keeps id sid response now : keeps cache_step (publishAttempt id sid response now).
Proof. unfold publishAttempt. keeps_tac. Qed.
#[export] Hint Resolve failAttempt_keeps publishAttempt_keeps : wg_keeps.

(** ** From the datagram to the response *)
Definition quiet (s s' : Server) : Prop := identity_kept s s' /\ CIDs_shrink s s'.

#[export] Instance quiet_pre : PreOrder quiet.
Proof.
  split; [intros s; split; reflexivity|]. intros s1 s2 s3 [??] [??]. split; by etransitivity.
Qed.

Lemma quiet_cache {A} (m : srv A) : keeps cache_step m -> keeps quiet m.
Proof. intros H s. destruct (H s) as (?&_&?). by split. Qed.
#[export] Hint Resolve quiet_cache : wg_keeps.

Lemma acquireAttempt_keeps key initial now now' : keeps quiet (acquireAttempt key initial now now').
Proof. unfold acquireAttempt, acquireAttempt_locked. keeps_tac; (split; [by split_and! | by unfold CIDs_shrink]). Qed.

(** A hash the cache does not hold makes its caller the builder. *)
Lemma acquireAttempt_fresh key initial now now' s s' lease :
  sv_attempts s !! key = None -> acquireAttempt key initial now now' s = (s', Ok lease) ->
  exists id, lease = Leased id true None [].
Proof.
  intros Hk H. unfold acquireAttempt, acquireAttempt_locked in H. inv_act.
  pose proof (keeps_run _ _ _ _ _ (cleanupAttemptsLocked_keeps now) Ha1) as (_ & Hs & _).
  rewrite (Hs key Hk) in Ha. inv_act; cbn [snd] in H; [done|]. simplify_eq. by eexists.
Qed.

Definition taken (s : Server) (rest : bytes) (cid : Z) : Server :=
  server_with_CIDs (sv_activeCIDs s ∪ {[cid]}) (server_with_random rest s).

Lemma reserveServerCIDLocked_spec s :
  bytes_ok (sv_random s) ->
  exists rest, bytes_ok rest /\
  (match reserveServerCIDLocked s with
  | (s', Ok cid) => s' = taken s rest cid /\ (cid ∉ sv_activeCIDs s) /\ 0 < cid < 2 ^ 64
  | (s', Err _) => s' = server_with_random rest s
  | _ => False
   end).
Proof.
  unfold reserveServerCIDLocked. generalize 32%nat as n. intros n. revert s.
  induction n as [|n IH]; intros s Hr; cbn [reserveServerCID_loop].
  { exists (sv_random s). split; [done|]. simpl. by destruct s. }
  unfold act_bind at 1, draw_CID.
  destruct (nextNonZeroCID_spec (sv_random s) Hr) as (Hb & Hret & Hc).
  destruct (nextNonZeroCID (sv_random s)) as [rest [cid|e| |]]; simpl in Hb, Hret, Hc; try done; [|by exists rest].
  unfold act_bind at 1, act_get. cbv beta iota. cbn [sv_activeCIDs server_with_random]. case_bool_decide as Hin.
  - destruct (IH (server_with_random rest s) Hb) as (rest' & Hb' & H). exists rest'. split; [done|].
    destruct (reserveServerCID_loop n _) as [s' [cid'|e| |]]; [|done..]. exact H.
  - exists rest. split; [done|]. unfold act_bind, act_set, act_ret. cbv beta iota. split_and!; try done; by apply Hc.
Qed.

Lemma draw_key_spec `{Primitives} s :
  bytes_ok (sv_random s) ->
  exists rest, bytes_ok rest /\
  (match draw_key s with
  | (s', Ok k) => s' = server_with_random rest s /\ key_ok k
  | (s', Err _) => s' = server_with_random rest s
  | _ => False
   end).
Proof.
  intros Hr. unfold draw_key. destruct (GenerateKeyFrom (Some (sv_random s))) as [[k rest]|e| |] eqn:E;
    [apply GenerateKeyFrom_inv in E as [??]; [|done]; by exists rest | exists []; split; [constructor | done]..].
Qed.

Lemma on_error_Ok {A} (m : srv A) h s s' a : on_error m h s = (s', Ok a) -> m s = (s', Ok a).
Proof.
  unfold on_error. destruct (m s) as [s1 [b|e| |]]; try done. destruct (h e s1). done.
Qed.
