(* ===== verification/GoStrings.v ===== *)
(** * Go strings (packages strings, strconv, unicode/utf8)

    A Go string is a byte string.  Here is what the program uses of the standard
    library on strings: trimming of Unicode white space, case mapping over the
    decoded runes, splitting, prefixes and suffixes, and decimal numbers.  The
    case tables of non-ASCII runes are a parameter (class [Unicode]). *)

From stdpp Require Import base strings numbers gmap list sorting.
From S2P Require Import Prelude CodecErrors Frame.
Local Open Scope Z_scope.
Local Open Scope wg_scope.

(** A string literal. *)
Definition lit (s : string) : bytes :=
  map (fun c => Z.of_nat (Ascii.nat_of_ascii c)) (String.list_ascii_of_string s).
#[global] Arguments lit : simpl never.

(** [HasPrefix], [HasSuffix], [TrimPrefix], [TrimSuffix] *)
Fixpoint cut_prefix (p s : bytes) : option bytes :=
  match p, s with
  | [], _ => Some s
  | x :: p, y :: s => if x =? y then cut_prefix p s else None
  | _ :: _, [] => None
  end.
Definition cut_suffix (p s : bytes) : option bytes := reverse <$> cut_prefix (reverse p) (reverse s).
Definition HasPrefix (s p : bytes) : bool := match cut_prefix p s with Some _ => true | None => false end.
Definition HasSuffix (s p : bytes) : bool := match cut_suffix p s with Some _ => true | None => false end.
Definition TrimPrefix (s p : bytes) : bytes := default s (cut_prefix p s).
Definition TrimSuffix (s p : bytes) : bytes := default s (cut_suffix p s).

(** [Contains] *)
Fixpoint Contains (s sub : bytes) : bool :=
  HasPrefix s sub || match s with [] => false | _ :: s => Contains s sub end.

(** [IndexByte] and [LastIndexByte], as the parts before and after the byte. *)
Fixpoint cut_at (c : Z) (s : bytes) : option (bytes * bytes) :=
  match s with
  | [] => None
  | x :: s => if x =? c then Some ([], s)
              else match cut_at c s with Some (a, b) => Some (x :: a, b) | None => None end
  end.
Definition cut_last (c : Z) (s : bytes) : option (bytes * bytes) :=
  match cut_at c (reverse s) with Some (b, a) => Some (reverse a, reverse b) | None => None end.

(** [Split] on a one-byte separator *)
Fixpoint Split (s : bytes) (c : Z) : list bytes :=
  match s with
  | [] => [[]]
  | x :: s =>
      if x =? c then [] :: Split s c
      else match Split s c with
      | part :: rest => (x :: part) :: rest
      | [] => [[x]]
      end
  end.

(** [s < t] on strings *)
Fixpoint strings_lt (s t : bytes) : bool :=
  match s, t with
  | _, [] => false
  | [], _ :: _ => true
  | x :: s, y :: t => (x <? y) || ((x =? y) && strings_lt s t)
  end.

(** [sort.Slice], as an insertion sort; the orders it is used with are total on the
    elements of the slice, so any sort gives the same list. *)
Fixpoint insert_by {A : Type} (lt : A -> A -> bool) (x : A) (l : list A) : list A :=
  match l with
  | [] => [x]
  | y :: l' => if lt y x then y :: insert_by lt x l' else x :: l
  end.
Definition sort_by {A : Type} (lt : A -> A -> bool) (l : list A) : list A := foldr (insert_by lt) [] l.

(** ** White space

    [unicode.IsSpace], as the UTF-8 encodings of its runes. *)
Definition spaces : list bytes :=
  [[9]; [10]; [11]; [12]; [13]; [32]; [194; 133]; [194; 160]; [225; 154; 128];
   [226; 128; 128]; [226; 128; 129]; [226; 128; 130]; [226; 128; 131]; [226; 128; 132]; [226; 128; 133];
   [226; 128; 134]; [226; 128; 135]; [226; 128; 136]; [226; 128; 137]; [226; 128; 138];
   [226; 128; 168]; [226; 128; 169]; [226; 128; 175]; [226; 129; 159]; [227; 128; 128]].

Fixpoint strip (seps : list bytes) (s : bytes) : option bytes :=
  match seps with
  | [] => None
  | sp :: seps => match cut_prefix sp s with Some rest => Some rest | None => strip seps s end
  end.
Fixpoint trim (seps : list bytes) (fuel : nat) (s : bytes) : bytes :=
  match fuel with
  | O => s
  | S fuel => match strip seps s with Some rest => trim seps fuel rest | None => s end
  end.
Definition trim_left (s : bytes) : bytes := trim spaces (length s) s.
Definition trim_right (s : bytes) : bytes := reverse (trim (map reverse spaces) (length s) (reverse s)).
Definition TrimSpace (s : bytes) : bytes := trim_right (trim_left s).

(** [Fields]: the maximal runs without white space. *)
Fixpoint fields_loop (fuel : nat) (s current : bytes) : list bytes :=
  let flush := if bool_decide (current = []) then [] else [current] in
  match fuel with
  | O => flush
  | S fuel =>
      match strip spaces s with
      | Some rest => flush ++ fields_loop fuel rest []
      | None => match s with [] => flush | b :: s => fields_loop fuel s (current ++ [b]) end
      end
  end.
Definition Fields (s : bytes) : list bytes := fields_loop (S (length s)) s [].

(** ** Runes *)
Definition RuneError : Z := 65533.

(** [utf8.DecodeRune]: the rune and its width; an ill-formed byte counts one. *)
Definition DecodeRune (p : bytes) : Z * nat :=
  match p with
  | [] => (RuneError, 0%nat)
  | b0 :: p1 =>
      if b0 <? 128 then (b0, 1%nat)
      else match p1 with
      | [] => (RuneError, 1%nat)
      | b1 :: p2 =>
          if between 194 223 b0 then
            if continuation b1 then ((b0 - 192) * 64 + (b1 - 128), 2%nat) else (RuneError, 1%nat)
          else match p2 with
          | [] => (RuneError, 1%nat)
          | b2 :: p3 =>
              if between 224 239 b0 then
                if between (if b0 =? 224 then 160 else 128) (if b0 =? 237 then 159 else 191) b1 && continuation b2
                then ((b0 - 224) * 4096 + (b1 - 128) * 64 + (b2 - 128), 3%nat) else (RuneError, 1%nat)
              else match p3 with
              | [] => (RuneError, 1%nat)
              | b3 :: _ =>
                  if between 240 244 b0
                     && between (if b0 =? 240 then 144 else 128) (if b0 =? 244 then 143 else 191) b1
                     && continuation b2 && continuation b3
                  then ((b0 - 240) * 262144 + (b1 - 128) * 4096 + (b2 - 128) * 64 + (b3 - 128), 4%nat)
                  else (RuneError, 1%nat)
              end
          end
      end
  end.

(** [for _, r := range s] *)
Fixpoint runes_loop (fuel : nat) (s : bytes) : list Z :=
  match fuel, s with
  | O, _ | _, [] => []
  | S fuel, _ => let '(r, width) := DecodeRune s in r :: runes_loop fuel (drop width s)
  end.
Definition runes (s : bytes) : list Z := runes_loop (length s) s.

(** [utf8.AppendRune]: what is no scalar value becomes U+FFFD. *)
Definition AppendRune (r : Z) : bytes :=
  if ((0 <=? r) && (r <? 55296)) || ((57344 <=? r) && (r <=? 1114111)) then utf8_encode r else utf8_encode RuneError.

(** [strings.Map] *)
Definition strings_Map (f : Z -> Z) (s : bytes) : bytes := mjoin ((fun r => AppendRune (f r)) <$> runes s).

(** ** Case mapping *)
Class Unicode := {
  (** [unicode.ToLower], [unicode.ToUpper] and equality under [unicode.SimpleFold]
      when a rune above U+007F is involved *)
  special_lower : Z -> Z;
  special_upper : Z -> Z;
  special_fold : Z -> Z -> bool
}.

(** Case tables of the ASCII letters only. *)
Definition ascii_only : Unicode := {|
  special_lower := fun r => r;
  special_upper := fun r => r;
  special_fold := fun _ _ => false
|}.

Definition lower_ascii (r : Z) : Z := if between 65 90 r then r + 32 else r.
Definition upper_ascii (r : Z) : Z := if between 97 122 r then r - 32 else r.

Section Case.
Context {U : Unicode}.
Definition unicode_ToLower (r : Z) : Z := if r <? 128 then lower_ascii r else special_lower r.
Definition unicode_ToUpper (r : Z) : Z := if r <? 128 then upper_ascii r else special_upper r.
Definition ToLower (s : bytes) : bytes := strings_Map unicode_ToLower s.
Definition ToUpper (s : bytes) : bytes := strings_Map unicode_ToUpper s.

Definition same_fold (a b : Z) : bool :=
  (a =? b) || (if (a <? 128) && (b <? 128) then lower_ascii a =? lower_ascii b else special_fold (Z.min a b) (Z.max a b)).
Fixpoint fold_all (s t : list Z) : bool :=
  match s, t with
  | [], [] => true
  | a :: s, b :: t => same_fold a b && fold_all s t
  | _, _ => false
  end.
Definition EqualFold (s t : bytes) : bool := fold_all (runes s) (runes t).
End Case.

(** ** Numbers (package strconv) *)
Fixpoint format_loop (base : Z) (digit : Z -> Z) (fuel : nat) (v : Z) (acc : bytes) : bytes :=
  let acc := digit (v mod base) :: acc in
  if v <? base then acc
  else match fuel with O => acc | S fuel => format_loop base digit fuel (v / base) acc end.

Definition decimal_digit (d : Z) : Z := 48 + d.
Definition hex_digit (d : Z) : Z := if d <? 10 then 48 + d else 87 + d.

(** [FormatUint(v, 10)]: twenty digits are enough for 64 bits. *)
Definition FormatUint (v : Z) : bytes := format_loop 10 decimal_digit 20 v [].
Definition Itoa (v : Z) : bytes := if v <? 0 then 45 :: FormatUint (- v) else FormatUint v.

Definition is_digit (c : Z) : bool := between 48 57 c.

Inductive NumErr : Set := ErrSyntax | ErrRange.

(** [ParseUint(s, 10, bits)]: digit by digit, clamped where the range is left. *)
Fixpoint parse_digits (max n : Z) (s : bytes) : Z * option NumErr :=
  match s with
  | [] => (n, None)
  | c :: s =>
      if negb (is_digit c) then (0, Some ErrSyntax)
      else
        let n := n * 10 + (c - 48) in
        if max <? n then (max, Some ErrRange) else parse_digits max n s
  end.
Definition ParseUint (s : bytes) (bits : Z) : Z * option NumErr :=
  if bool_decide (s = []) then (0, Some ErrSyntax) else parse_digits (2 ^ bits - 1) 0 s.

(** [Atoi] on 64-bit integers *)
Definition Atoi (s : bytes) : Z * option NumErr :=
  let '(negative, digits) := match s with
    | 45 :: d => (true, d)
    | 43 :: d => (false, d)
    | _ => (false, s)
    end in
  match ParseUint digits 64 with
  | (_, Some ErrSyntax) => (0, Some ErrSyntax)
  | (v, _) =>
      if negative then if v <=? 2 ^ 63 then (- v, None) else (- 2 ^ 63, Some ErrRange)
      else if v <? 2 ^ 63 then (v, None) else (2 ^ 63 - 1, Some ErrRange)
  end.

(** ** Lemmas: prefixes and suffixes *)
Lemma cut_prefix_Some p s rest : cut_prefix p s = Some rest <-> s = p ++ rest.
Proof.
  revert s. induction p as [|x p IH]; intros [|y s]; cbn; try (split; [congruence | done]); try (split; congruence).
  destruct (Z.eqb_spec x y) as [->|Hne]; [rewrite IH; split; congruence | split; [done | congruence]].
Qed.

Lemma cut_suffix_Some p s rest : cut_suffix p s = Some rest <-> s = rest ++ p.
Proof.
  unfold cut_suffix. rewrite fmap_Some. split.
  - intros (r & H%cut_prefix_Some & ->). apply (f_equal reverse) in H. by rewrite reverse_involutive, reverse_app, reverse_involutive in H.
  - intros ->. exists (reverse rest). rewrite reverse_involutive, reverse_app. split; [by apply cut_prefix_Some | done].
Qed.

Lemma HasPrefix_spec s p : HasPrefix s p = true <-> exists rest, s = p ++ rest.
Proof.
  unfold HasPrefix. destruct (cut_prefix p s) as [rest|] eqn:E.
  - apply cut_prefix_Some in E. split; [by exists rest | done].
  - split; [done|]. intros [rest H%cut_prefix_Some]. congruence.
Qed.

Lemma HasSuffix_spec s p : HasSuffix s p = true <-> exists rest, s = rest ++ p.
Proof.
  unfold HasSuffix. destruct (cut_suffix p s) as [rest|] eqn:E.
  - apply cut_suffix_Some in E. split; [by exists rest | done].
  - split; [done|]. intros [rest H%cut_suffix_Some]. congruence.
Qed.

Lemma TrimSuffix_none s p : HasSuffix s p = false -> TrimSuffix s p = s.
Proof. unfold HasSuffix, TrimSuffix. by destruct (cut_suffix p s). Qed.

Lemma Contains_byte s c : Contains s [c] = bool_decide (c ∈ s).
Proof.
  induction s as [|x s IH]; cbn [Contains]; [by rewrite bool_decide_false by (by intros ?%elem_of_nil)|].
  rewrite IH. unfold HasPrefix. cbn. destruct (Z.eqb_spec c x) as [->|Hne]; cbn.
  - symmetry. apply bool_decide_true. by left.
  - apply bool_decide_ext. rewrite elem_of_cons. naive_solver.
Qed.

Lemma cut_at_Some c s a b : cut_at c s = Some (a, b) <-> s = a ++ c :: b /\ c ∉ a.
Proof.
  revert a b. induction s as [|x s IH]; intros a b; cbn.
  - split; [done|]. intros [H _]. by destruct a.
  - destruct (Z.eqb_spec x c) as [->|Hne].
    + split.
      * intros [= <- <-]. split; [done | by intros ?%elem_of_nil].
      * intros [H Hn]. destruct a as [|y a]; [by injection H as <-|]. injection H as <- _. exfalso. apply Hn. by left.
    + destruct (cut_at c s) as [[a' b']|] eqn:E.
      * split.
        -- intros [= <- <-]. destruct (proj1 (IH a' b') eq_refl) as [-> Hn]. split; [done|].
           intros [->|?]%elem_of_cons; done.
        -- intros [H Hn]. destruct a as [|y a]; [by injection H as -> _|]. injection H as <- H.
           assert (Hn' : c ∉ a) by (intros ?; apply Hn; by right).
           pose proof (proj2 (IH a b) (conj H Hn')) as Hab. by injection Hab as -> ->.
      * split; [done|]. intros [H Hn]. destruct a as [|y a]; [by injection H as -> _|]. injection H as <- H.
        discriminate (proj2 (IH a b)). split; [done|]. intros ?. apply Hn. by right.
Qed.

Lemma cut_at_None c s : cut_at c s = None <-> c ∉ s.
Proof.
  split.
  - intros H Hin. apply list_elem_of_split in Hin as (a & b & ->).
    induction a as [|x a IH]; cbn in H; [by rewrite Z.eqb_refl in H|].
    destruct (x =? c); [done|]. destruct (cut_at c (a ++ c :: b)) as [[]|]; [done | by apply IH].
  - destruct (cut_at c s) as [[a b]|] eqn:E; [|done]. apply cut_at_Some in E as [-> _]. intros H. exfalso. apply H, elem_of_app. right. by left.
Qed.

(** ** Lemmas: white space *)
Lemma strip_None seps s : strip seps s = None <-> Forall (fun sp => forall rest, s <> sp ++ rest) seps.
Proof.
  induction seps as [|sp seps IH]; cbn; [done|]. rewrite Forall_cons. destruct (cut_prefix sp s) as [rest|] eqn:E.
  - apply cut_prefix_Some in E. split; [done|]. intros [H _]. by destruct (H rest).
  - rewrite IH. split; [|naive_solver]. intros H. split; [|done]. intros rest Hr%cut_prefix_Some. congruence.
Qed.

Lemma strip_Some seps s rest : strip seps s = Some rest -> exists sp, sp ∈ seps /\ s = sp ++ rest.
Proof.
  induction seps as [|sp seps IH]; cbn; [done|]. destruct (cut_prefix sp s) as [r|] eqn:E.
  - intros [= ->]. apply cut_prefix_Some in E. exists sp. split; [by left | done].
  - intros (sp' & Hin & ->)%IH. exists sp'. split; [by right | done].
Qed.

Lemma trim_stays seps fuel s : strip seps s = None -> trim seps fuel s = s.
Proof. intros H. destruct fuel; cbn; [done | by rewrite H]. Qed.

Lemma trim_suffix seps fuel : forall s, exists front, s = front ++ trim seps fuel s.
Proof.
  induction fuel as [|fuel IH]; intros s; cbn; [by exists []|].
  destruct (strip seps s) as [rest|] eqn:E; [|by exists []].
  apply strip_Some in E as (sp & _ & ->). destruct (IH rest) as [front Hf]. exists (sp ++ front). by rewrite <- app_assoc, <- Hf.
Qed.

Lemma trim_done seps fuel : forall s,
  Forall (fun sp => sp <> []) seps -> (length s <= fuel)%nat -> strip seps (trim seps fuel s) = None.
Proof.
  induction fuel as [|fuel IH]; intros s Hne Hl; cbn.
  - destruct s; [|cbn in Hl; lia]. apply strip_None. eapply Forall_impl; [exact Hne|]. intros sp H rest E. by destruct sp.
  - destruct (strip seps s) as [rest|] eqn:E; [|done]. apply IH; [done|].
    apply strip_Some in E as (sp & Hin & ->). rewrite Forall_forall in Hne. specialize (Hne sp Hin).
    rewrite length_app in Hl. destruct sp; [done | cbn in Hl; lia].
Qed.

(** No white space at either end. *)
Definition trimmed (s : bytes) : Prop := strip spaces s = None /\ strip (map reverse spaces) (reverse s) = None.

Lemma TrimSpace_stays s : trimmed s -> TrimSpace s = s.
Proof.
  intros [H1 H2]. unfold TrimSpace, trim_right, trim_left. rewrite !(trim_stays spaces) by done.
  rewrite trim_stays by done. apply reverse_involutive.
Qed.

Lemma TrimSpace_trimmed s : trimmed (TrimSpace s).
Proof.
  unfold TrimSpace, trim_right. set (t := trim_left s).
  assert (H1 : strip spaces t = None).
  { apply trim_done; [apply (bool_decide_unpack _); vm_compute; exact I | lia]. }
  split.
  - destruct (trim_suffix (map reverse spaces) (length t) (reverse t)) as [front Hf].
    apply (f_equal reverse) in Hf. rewrite reverse_involutive, reverse_app in Hf.
    apply strip_None. apply strip_None in H1. eapply Forall_impl; [exact H1|]. intros sp Hsp rest Hr. cbn in Hsp.
    apply (Hsp (rest ++ reverse front)). rewrite Hf at 1. rewrite Hr. by rewrite app_assoc.
  - rewrite reverse_involutive. apply trim_done; [apply (bool_decide_unpack _); vm_compute; exact I | by rewrite length_reverse].
Qed.

Lemma TrimSpace_idemp s : TrimSpace (TrimSpace s) = TrimSpace s.
Proof. apply TrimSpace_stays, TrimSpace_trimmed. Qed.

(** ASCII characters that are no white space. *)
Definition solid (c : Z) : bool := between 33 127 c.

(** The bytes of a white-space encoding: none of them is a solid character. *)
Lemma spaces_not_solid sp c : sp ∈ spaces -> c ∈ sp -> solid c = false.
Proof.
  intros Hsp Hc. assert (Hall : Forall (Forall (fun c => solid c = false)) spaces)
    by (apply (bool_decide_unpack _); vm_compute; exact I).
  rewrite Forall_forall in Hall. specialize (Hall sp Hsp). rewrite Forall_forall in Hall. by apply Hall.
Qed.

Lemma spaces_nonempty sp : sp ∈ spaces -> sp <> [].
Proof.
  intros Hsp. assert (Hall : Forall (fun sp : bytes => sp <> []) spaces) by (apply (bool_decide_unpack _); vm_compute; exact I).
  rewrite Forall_forall in Hall. by apply Hall.
Qed.

Lemma solid_front c s : solid c = true -> strip spaces (c :: s) = None.
Proof.
  intros Hc. apply strip_None, Forall_forall. intros sp Hsp rest E.
  destruct sp as [|x sp]; [by apply spaces_nonempty in Hsp|]. injection E as -> _.
  pose proof (spaces_not_solid (x :: sp) x Hsp). rewrite H in Hc; [done | by left].
Qed.

(** A solid character cuts the end of a string off. *)
Lemma solid_back a c z :
  solid c = true -> strip (map reverse spaces) (reverse z) = None -> strip (map reverse spaces) (reverse (a ++ c :: z)) = None.
Proof.
  intros Hc Hz. apply strip_None, Forall_forall. intros rsp Hin rest E.
  apply list_elem_of_fmap in Hin as (sp & -> & Hsp). apply (f_equal reverse) in E. rewrite reverse_involutive, reverse_app, reverse_involutive in E.
  rewrite strip_None, Forall_forall in Hz. specialize (Hz (reverse sp)). 
  assert (Hn : c ∉ sp) by (intros Hin; rewrite (spaces_not_solid sp c Hsp Hin) in Hc; done).
  apply app_eq_app in E as [l [[-> E] | [E E']]].
  - subst sp. exfalso. apply Hn, elem_of_app. right. by left.
  - destruct l as [|y l]; cbn in E'; [subst sp; exfalso; apply Hn; by left|]. injection E' as -> ->.
    apply (Hz ltac:(by apply list_elem_of_fmap_2) (reverse l)). by rewrite reverse_app.
Qed.

(** ** Lemmas: ASCII strings *)
Definition ascii (s : bytes) : Prop := Forall (fun c => 0 <= c < 128) s.

Lemma runes_loop_ascii s : forall fuel, (length s <= fuel)%nat -> ascii s -> runes_loop fuel s = s.
Proof.
  induction s as [|c s IH]; intros [|fuel] Hl Ha; cbn in Hl; try done; [lia|].
  apply Forall_cons in Ha as [Hc Ha]. cbn [runes_loop DecodeRune]. by_test. cbn [drop]. rewrite IH; [done | lia | done].
Qed.

Lemma runes_ascii s : ascii s -> runes s = s.
Proof. by apply runes_loop_ascii. Qed.

(** A string whose runes are all ASCII is an ASCII string. *)
Lemma DecodeRune_big b s : 128 <= b < 256 -> 127 < fst (DecodeRune (b :: s)).
Proof.
  intros Hb. unfold DecodeRune, between, continuation, between, RuneError. by_test.
  destruct s as [|b1 [|b2 [|b3 s]]];
    repeat match goal with |- context [if ?c then _ else _] => destruct c eqn:? end; cbn [fst];
    try destruct (Z.eqb_spec b 224); try destruct (Z.eqb_spec b 240); lia.
Qed.

Lemma runes_loop_big s : forall fuel, (length s <= fuel)%nat -> bytes_ok s ->
  Forall (fun r => r <= 127) (runes_loop fuel s) -> ascii s.
Proof.
  induction s as [|c s IH]; intros [|fuel] Hl Hb H; cbn in Hl; try constructor; try lia;
    apply Forall_cons in Hb as [Hc Hb]; unfold byte_ok in Hc; cbn [runes_loop] in H.
  - split; [lia|]. destruct (Z.ltb_spec c 128); [done|]. pose proof (DecodeRune_big c s ltac:(lia)) as Hr.
    destruct (DecodeRune (c :: s)) as [r w]. apply Forall_cons in H as [H _]. cbn in Hr. lia.
  - destruct (Z.ltb_spec c 128) as [Hlt|Hge].
    + cbn [DecodeRune] in H. replace (c <? 128) with true in H by (symmetry; lia). apply Forall_cons in H as [_ H].
      apply (IH fuel); [lia | done | exact H].
    + pose proof (DecodeRune_big c s ltac:(lia)) as Hr. destruct (DecodeRune (c :: s)) as [r w].
      apply Forall_cons in H as [H _]. cbn in Hr. lia.
Qed.

Lemma runes_big s : bytes_ok s -> Forall (fun r => r <= 127) (runes s) -> ascii s.
Proof. by apply runes_loop_big. Qed.

Lemma AppendRune_ascii c : 0 <= c < 128 -> AppendRune c = [c].
Proof. intros H. unfold AppendRune, utf8_encode. by by_test. Qed.

Lemma strings_Map_ascii f s : ascii s -> (forall c, 0 <= c < 128 -> 0 <= f c < 128) -> strings_Map f s = map f s.
Proof.
  intros Ha Hf. unfold strings_Map. rewrite runes_ascii by done. induction Ha as [|c s Hc Ha IH]; [done|].
  cbn [fmap list_fmap mjoin list_join map]. rewrite AppendRune_ascii by (by apply Hf). cbn. by f_equal.
Qed.

Lemma lower_ascii_range c : 0 <= c < 128 -> 0 <= lower_ascii c < 128.
Proof. intros H. unfold lower_ascii, between. destruct (_ && _) eqn:?; lia. Qed.
Lemma upper_ascii_range c : 0 <= c < 128 -> 0 <= upper_ascii c < 128.
Proof. intros H. unfold upper_ascii, between. destruct (_ && _) eqn:?; lia. Qed.

Section CaseLemmas.
Context {U : Unicode}.

Lemma ToLower_ascii s : ascii s -> ToLower s = map lower_ascii s.
Proof.
  intros Ha. unfold ToLower. rewrite strings_Map_ascii; [|done|].
  - apply map_ext_in. intros c Hc. apply list_elem_of_In in Hc. unfold ascii in Ha. rewrite Forall_forall in Ha. specialize (Ha c Hc).
    unfold unicode_ToLower. by by_test.
  - intros c Hc. unfold unicode_ToLower. by_test. by apply lower_ascii_range.
Qed.

(** Characters that lower-casing leaves alone. *)
Definition lowered (c : Z) : bool := between 0 127 c && negb (between 65 90 c).

Lemma ToLower_stays s : forallb lowered s = true -> ToLower s = s.
Proof.
  intros H. rewrite forallb_forall in H. rewrite ToLower_ascii.
  - rewrite <- (map_id s) at 2. apply map_ext_in. intros c Hc. specialize (H c Hc).
    unfold lowered, lower_ascii, between in *. by by_test.
  - apply Forall_forall. intros c Hc%list_elem_of_In. specialize (H c Hc). unfold lowered, between in H. lia.
Qed.

Lemma ToUpper_ascii s : ascii s -> ToUpper s = map upper_ascii s.
Proof.
  intros Ha. unfold ToUpper. rewrite strings_Map_ascii; [|done|].
  - apply map_ext_in. intros c Hc. apply list_elem_of_In in Hc. unfold ascii in Ha. rewrite Forall_forall in Ha. specialize (Ha c Hc).
    unfold unicode_ToUpper. by by_test.
  - intros c Hc. unfold unicode_ToUpper. by_test. by apply upper_ascii_range.
Qed.
End CaseLemmas.

(** Strings of solid characters are trimmed; the end of a trimmed string is. *)
Lemma solid_trimmed s : Forall (fun c => solid c = true) s -> trimmed s.
Proof.
  intros H. destruct s as [|c s]; [done|]. split; [apply Forall_cons in H as [H _]; by apply solid_front|].
  destruct (@exists_last _ (c :: s) ltac:(done)) as (a & z & E). rewrite E in *. apply Forall_app in H as [_ H].
  apply Forall_cons in H as [H _]. by apply solid_back.
Qed.

Lemma trimmed_back a z : strip (map reverse spaces) (reverse (a ++ z)) = None -> strip (map reverse spaces) (reverse z) = None.
Proof.
  rewrite !strip_None. intros H. eapply Forall_impl; [exact H|]. intros sp Hsp rest E. apply (Hsp (rest ++ reverse a)).
  by rewrite reverse_app, E, app_assoc.
Qed.

(** A property of the characters, part by part. *)
Lemma Split_Forall (P : Z -> Prop) c s : P c -> Forall (Forall P) (Split s c) -> Forall P s.
Proof.
  intros Hc. induction s as [|x s IH]; cbn; [constructor|]. destruct (Z.eqb_spec x c) as [->|Hne].
  - intros H. apply Forall_cons in H as [_ H]. constructor; [done | by apply IH].
  - destruct (Split s c) as [|part rest] eqn:E.
    + intros H. apply Forall_cons in H as [H _]. apply Forall_cons in H as [H _]. constructor; [done | apply IH; constructor].
    + intros H. apply Forall_cons in H as [H Hr]. apply Forall_cons in H as [H Hp]. constructor; [done|]. apply IH. by constructor.
Qed.

Lemma AppendRune_ok r : bytes_ok (AppendRune r).
Proof.
  unfold AppendRune. assert (H : forall r, (0 <= r < 55296 \/ 57344 <= r <= 1114111) -> bytes_ok (utf8_encode r)).
  { clear. intros r Hr. unfold utf8_encode. repeat case_match; rewrite ?Z.ltb_lt, ?Z.ltb_ge in *;
      repeat constructor; unfold byte_ok; Z.to_euclidean_division_equations; lia. }
  destruct (_ || _) eqn:E; apply H; unfold RuneError; lia.
Qed.

Lemma strings_Map_ok f s : bytes_ok (strings_Map f s).
Proof.
  unfold strings_Map. induction (runes s) as [|r rs IH]; [constructor|]. cbn. apply Forall_app. split; [apply AppendRune_ok | done].
Qed.

(** ** Lemmas: numbers *)
Definition horner (base : Z) (value : Z -> Z) (n : Z) (l : bytes) : Z := fold_left (fun n c => n * base + value c) l n.

Lemma horner_snoc base value n l c : horner base value n (l ++ [c]) = horner base value n l * base + value c.
Proof. unfold horner. by rewrite fold_left_app. Qed.

(** What [format_loop] writes in front of [acc]. *)
Lemma format_loop_spec base digit value fuel : forall v acc,
  2 <= base -> (forall d, 0 <= d < base -> value (digit d) = d) -> 0 <= v < base ^ (Z.of_nat fuel + 1) ->
  exists ds, format_loop base digit fuel v acc = ds ++ acc /\ horner base value 0 ds = v
    /\ ds <> [] /\ (length ds <= S fuel)%nat /\ Forall (fun c => exists d, 0 <= d < base /\ c = digit d) ds
    /\ (forall d, head ds = Some (digit d) -> 0 <= d < base -> d = 0 -> v = 0).
Proof.
  induction fuel as [|fuel IH]; intros v acc Hb Hd Hv; cbn [format_loop];
    pose proof (Z.mod_pos_bound v base ltac:(lia)) as Hm.
  - assert (v < base) by (change (Z.of_nat 0 + 1) with 1 in Hv; rewrite Z.pow_1_r in Hv; lia).
    replace (v <? base) with true by (symmetry; lia). rewrite (Z.mod_small v base) in * by lia.
    exists [digit v]. split_and!; [done | | done | cbn; lia | |].
    + cbn. rewrite Hd by done. lia.
    + constructor; [by exists v | constructor].
    + intros d [= E] Hr ->. apply (f_equal value) in E. rewrite !Hd in E by lia. lia.
  - destruct (Z.ltb_spec v base) as [Hlt|Hge].
    + rewrite (Z.mod_small v base) in * by lia. exists [digit v]. split_and!; [done | | done | cbn; lia | |].
      * cbn. rewrite Hd by done. lia.
      * constructor; [by exists v | constructor].
      * intros d [= E] Hr ->. apply (f_equal value) in E. rewrite !Hd in E by lia. lia.
    + assert (Hq : 0 <= v / base < base ^ (Z.of_nat fuel + 1)).
      { split; [apply Z.div_pos; lia|]. apply Z.div_lt_upper_bound; [lia|].
        replace (Z.of_nat (S fuel) + 1) with (Z.succ (Z.of_nat fuel + 1)) in Hv by lia. rewrite Z.pow_succ_r in Hv by lia. lia. }
      destruct (IH (v / base) (digit (v mod base) :: acc) Hb Hd Hq) as (ds & E & Hh & Hne & Hl & Hf & H0).
      exists (ds ++ [digit (v mod base)]). split_and!.
      * rewrite E, <- app_assoc. done.
      * rewrite horner_snoc, Hh, Hd by done. pose proof (Z.div_mod v base ltac:(lia)). lia.
      * by destruct ds.
      * rewrite length_app. cbn. lia.
      * apply Forall_app_2; [done|]. constructor; [by exists (v mod base) | constructor].
      * intros d Hhd Hr Hz. destruct ds as [|x ds]; [done|]. specialize (H0 d Hhd Hr Hz).
        assert (0 < v / base) by (apply Z.div_str_pos; lia). lia.
Qed.

Lemma FormatUint_spec v : 0 <= v < 2 ^ 64 ->
  exists ds, FormatUint v = ds /\ horner 10 (fun c => c - 48) 0 ds = v /\ ds <> []
    /\ Forall (fun c => is_digit c = true) ds /\ (head ds = Some 48 -> v = 0).
Proof.
  intros Hv. destruct (format_loop_spec 10 decimal_digit (fun c => c - 48) 20 v []) as (ds & E & Hh & Hne & _ & Hf & H0).
  - lia.
  - intros d _. unfold decimal_digit. lia.
  - assert (2 ^ 64 < 10 ^ (Z.of_nat 20 + 1)) by (vm_compute; reflexivity). lia.
  - exists ds. unfold FormatUint. rewrite E, app_nil_r. split_and!; try done.
    + eapply Forall_impl; [exact Hf|]. intros c (d & Hd & ->). unfold is_digit, between, decimal_digit. lia.
    + intros Hhd. apply (H0 0); [done | lia | done].
Qed.

Lemma FormatUint_inj a b : 0 <= a < 2 ^ 64 -> 0 <= b < 2 ^ 64 -> FormatUint a = FormatUint b -> a = b.
Proof.
  intros Ha Hb E. destruct (FormatUint_spec a Ha) as (da & Ea & Ha' & _). destruct (FormatUint_spec b Hb) as (db & Eb & Hb' & _).
  congruence.
Qed.

Lemma FormatUint_digits v : 0 <= v < 2 ^ 64 -> Forall (fun c => is_digit c = true) (FormatUint v) /\ FormatUint v <> [].
Proof. intros Hv. by destruct (FormatUint_spec v Hv) as (ds & -> & _ & ? & ? & _). Qed.

Lemma horner_grows n l : 0 <= n -> Forall (fun c => is_digit c = true) l -> n <= horner 10 (fun c => c - 48) n l.
Proof.
  intros Hn H. revert n Hn. induction H as [|c l Hc Hl IH]; intros n Hn; [cbn; lia|].
  unfold is_digit, between in Hc. cbn. specialize (IH (n * 10 + (c - 48)) ltac:(lia)). unfold horner in IH. lia.
Qed.

Lemma parse_digits_ok max l : forall n,
  0 <= n -> Forall (fun c => is_digit c = true) l -> horner 10 (fun c => c - 48) n l <= max ->
  parse_digits max n l = (horner 10 (fun c => c - 48) n l, None).
Proof.
  induction l as [|c l IH]; intros n Hn Hd Hm; cbn [parse_digits]; [done|].
  apply Forall_cons in Hd as [Hc Hd]. rewrite Hc. cbn [negb].
  assert (0 <= c - 48) by (unfold is_digit, between in Hc; lia).
  pose proof (horner_grows (n * 10 + (c - 48)) l ltac:(lia) Hd) as Hg. change (horner 10 _ n (c :: l)) with (horner 10 (fun c => c - 48) (n * 10 + (c - 48)) l) in *.
  replace (max <? n * 10 + (c - 48)) with false by (symmetry; lia). apply IH; [lia | done | done].
Qed.

Lemma parse_digits_range max l : forall n v, 0 <= n <= max -> parse_digits max n l = (v, None) -> 0 <= v <= max.
Proof.
  induction l as [|c l IH]; intros n v Hn; cbn [parse_digits]; [by intros [= <-]|].
  destruct (is_digit c) eqn:Hc; cbn [negb]; [|done]. unfold is_digit, between in Hc.
  destruct (Z.ltb_spec max (n * 10 + (c - 48))); [done|]. apply IH. lia.
Qed.

Lemma ParseUint_range s bits v : 0 <= bits -> ParseUint s bits = (v, None) -> 0 <= v < 2 ^ bits.
Proof.
  unfold ParseUint. destruct (bool_decide _); [done|]. pose proof (Z.pow_pos_nonneg 2 bits). intros Hb H1%parse_digits_range; lia.
Qed.

Lemma ParseUint_FormatUint v bits : 0 <= v < 2 ^ bits -> 0 <= bits <= 64 -> ParseUint (FormatUint v) bits = (v, None).
Proof.
  intros Hv Hb. assert (2 ^ bits <= 2 ^ 64) by (apply Z.pow_le_mono_r; lia).
  destruct (FormatUint_spec v ltac:(lia)) as (ds & -> & Hh & Hne & Hd & _).
  unfold ParseUint. rewrite bool_decide_false by done. rewrite parse_digits_ok; [by rewrite Hh | lia | done | lia].
Qed.

Lemma Atoi_FormatUint v : 0 <= v < 2 ^ 63 -> Atoi (FormatUint v) = (v, None).
Proof.
  intros Hv. pose proof (ParseUint_FormatUint v 64 ltac:(lia) ltac:(lia)) as Hp.
  destruct (FormatUint_spec v ltac:(lia)) as (ds & E & _ & Hne & Hd & _).
  assert (Hs : match FormatUint v with 45 :: d => (true, d) | 43 :: d => (false, d) | _ => (false, FormatUint v) end = (false, FormatUint v)).
  { rewrite E. destruct ds as [|c ds]; [done|]. apply Forall_cons in Hd as [Hc _]. unfold is_digit, between in Hc.
    assert (48 <= c <= 57) by lia. assert (c = 48 \/ c = 49 \/ c = 50 \/ c = 51 \/ c = 52 \/ c = 53 \/ c = 54 \/ c = 55 \/ c = 56 \/ c = 57) by lia.
    by repeat match goal with H : _ \/ _ |- _ => destruct H as [-> | H] | H : c = _ |- _ => subst c end. }
  unfold Atoi. rewrite Hs, Hp. by replace (v <? 2 ^ 63) with true by (symmetry; lia).
Qed.

(** ** Lemmas: order and sorting *)
Lemma strings_lt_irrefl s : strings_lt s s = false.
Proof. induction s as [|x s IH]; cbn; [done|]. rewrite IH. lia. Qed.

Lemma strings_lt_trans s : forall t u, strings_lt s t = true -> strings_lt t u = true -> strings_lt s u = true.
Proof.
  induction s as [|x s IH]; intros [|y t] [|z u] H1 H2; cbn in *; try done.
  destruct (Z.ltb_spec x y), (Z.ltb_spec y z), (Z.eqb_spec x y), (Z.eqb_spec y z), (Z.ltb_spec x z), (Z.eqb_spec x z);
    cbn in *; try done; try lia. by eapply IH.
Qed.

Lemma strings_lt_total s : forall t, strings_lt s t = true \/ s = t \/ strings_lt t s = true.
Proof.
  induction s as [|x s IH]; intros [|y t]; cbn; auto.
  destruct (Z.lt_trichotomy x y) as [H|[->|H]].
  - left. replace (x <? y) with true by (symmetry; lia). done.
  - rewrite Z.ltb_irrefl, Z.eqb_refl. cbn. destruct (IH t) as [?|[->|?]]; auto.
  - right. right. replace (y <? x) with true by (symmetry; lia). done.
Qed.

Section Sort.
Context {A : Type} (lt : A -> A -> bool).
Lemma insert_by_perm x l : insert_by lt x l ≡ₚ x :: l.
Proof. induction l as [|y l IH]; cbn; [done|]. destruct (lt y x); [|done]. rewrite IH. constructor. Qed.

Lemma sort_by_perm l : sort_by lt l ≡ₚ l.
Proof. induction l as [|x l IH]; cbn; [done|]. by rewrite insert_by_perm, IH. Qed.

Context (lt_trans : forall a b c, lt a b = true -> lt b c = true -> lt a c = true).
Let before (a b : A) : Prop := lt a b = true.

(** The elements of the list are comparable, so they come out strictly increasing. *)
Lemma insert_by_sorted x l : StronglySorted before l -> (forall y, y ∈ l -> before x y \/ before y x) -> StronglySorted before (insert_by lt x l).
Proof.
  induction 1 as [|y l Hl IH Hy]; intros Hx; cbn; [constructor; constructor|].
  destruct (lt y x) eqn:E.
  - constructor; [apply IH; intros z Hz; apply Hx; by right|]. rewrite insert_by_perm. by constructor.
  - assert (Hxy : before x y) by (destruct (Hx y) as [|H]; [by left | done | unfold before in H; congruence]).
    constructor; [by constructor|]. constructor; [done|]. eapply Forall_impl; [exact Hy|]. intros z Hz. by eapply lt_trans.
Qed.

Lemma sort_by_sorted l : ForallOrdPairs (fun a b => before a b \/ before b a) l -> StronglySorted before (sort_by lt l).
Proof.
  induction 1 as [|x l Hx Hl IH]; cbn; [constructor|]. fold (sort_by lt l). apply insert_by_sorted; [done|].
  intros y Hy. rewrite sort_by_perm in Hy. rewrite Forall_forall in Hx. by apply Hx.
Qed.
End Sort.
