(* ===== verification/Flag.v ===== *)
(** * Command lines (package flag)

    What the commands use of a [flag.FlagSet]: string and boolean flags that write the
    variables they were defined with, here the fields of an options record, and
    [Parse], which reads arguments until one is not a flag.  At the end, how the two
    HTTP servers come to an end. *)

From stdpp Require Import base strings numbers gmap list.
From S2P Require Import Prelude CodecErrors GoStrings.
Local Open Scope Z_scope.
Local Open Scope wg_scope.

(** [flag.ErrHelp] and the errors of syntax, name and value *)
Inductive FlagErr : Set := ErrHelp | ErrFlag.

(** [strconv.ParseBool] *)
Definition ParseBool (s : bytes) : option bool :=
  if bool_decide (s ∈ (lit <$> ["1"; "t"; "T"; "TRUE"; "true"; "True"])) then Some true
  else if bool_decide (s ∈ (lit <$> ["0"; "f"; "F"; "FALSE"; "false"; "False"])) then Some false
  else None.

(** The name and the value that one argument gives: [None] when the argument is no
    flag, an error when it is ill formed. *)
Definition flag_argument (s : bytes) : outcome FlagErr (option (bytes * option bytes)) :=
  match s with
  | 45 :: (_ :: _) as tail =>
      let name := if bool_decide (head tail = Some 45) then drop 1 tail else tail in
      match name with
      | [] | 45 :: _ | 61 :: _ => Err ErrFlag
      | _ => match cut_at 61 name with
             | Some (name, value) => Ok (Some (name, Some value))
             | None => Ok (Some (name, None))
             end
      end
  | _ => Ok None
  end.

Section FlagSet.
Context {O : Type}.

(** A flag of the set and the variable that it writes *)
Inductive flag : Type :=
| StringVar (set : bytes -> O -> O)
| BoolVar (set : bool -> O -> O).
Context (flags : list (bytes * flag)).

Definition find_flag (name : bytes) : option flag := (fun '(_, (_, flag)) => flag) <$> list_find (fun '(n, _) => n = name) flags.

(** [FlagSet.Parse]: the options and the arguments that are left *)
Fixpoint flags_Parse (arguments : list bytes) (options : O) : outcome FlagErr (O * list bytes) :=
  match arguments with
  | [] => Ok (options, [])
  | s :: rest =>
      if bool_decide (s = lit "--") then Ok (options, rest)
      else
        let* parsed := flag_argument s in
        match parsed with
        | None => Ok (options, arguments)
        | Some (name, value) =>
            match find_flag name with
            | None => if bool_decide (name = lit "help") || bool_decide (name = lit "h") then Err ErrHelp else Err ErrFlag
            | Some (BoolVar set) =>
                match ParseBool (default (lit "true") value) with
                | None => Err ErrFlag
                | Some v => flags_Parse rest (set v options)
                end
            | Some (StringVar set) =>
                match value, rest with
                | Some v, _ => flags_Parse rest (set v options)
                | None, v :: rest => flags_Parse rest (set v options)
                | None, [] => Err ErrFlag
                end
            end
        end
  end.

(** ** A flag given with its value as the next argument *)
Lemma flags_Parse_string name v set rest options :
  flag_argument (45 :: name) = Ok (Some (name, None)) -> name <> lit "-" -> find_flag name = Some (StringVar set) ->
  flags_Parse ((45 :: name) :: v :: rest) options = flags_Parse rest (set v options).
Proof.
  intros Ha Hn Hf. cbn [flags_Parse]. rewrite bool_decide_false; [|intros E; apply Hn; by injection E]. rewrite Ha. cbn [obind]. by rewrite Hf.
Qed.

(** ** Flags that start off are on at the end only if an argument turned them on *)

(** The argument turns on the boolean flag called [name]. *)
Definition turns_on (name argument : bytes) : Prop :=
  exists value, flag_argument argument = Ok (Some (name, value)) /\ ParseBool (default (lit "true") value) = Some true.

(** [get] reads the variable of the boolean flag called [name]. *)
Definition flag_reads (name : bytes) (get : O -> bool) : Prop :=
  Forall (fun '(n, flag) =>
    match flag with
    | StringVar set => forall v o, get (set v o) = get o
    | BoolVar set => if decide (n = name) then forall v o, get (set v o) = v else forall v o, get (set v o) = get o
    end) flags.

Lemma find_flag_elem name flag : find_flag name = Some flag -> (name, flag) ∈ flags.
Proof.
  unfold find_flag. destruct (list_find _ flags) as [[i [n g]]|] eqn:E; [|done]. intros [= ->].
  apply list_find_Some in E as (Hi & -> & _). by eapply list_elem_of_lookup_2.
Qed.

Lemma flags_Parse_on name get : flag_reads name get -> forall arguments o o' rest,
  flags_Parse arguments o = Ok (o', rest) -> get o' = true -> get o = true \/ exists a, a ∈ arguments /\ turns_on name a.
Proof.
  intros Hr. assert (H : forall n arguments o o' rest, (length arguments <= n)%nat ->
    flags_Parse arguments o = Ok (o', rest) -> get o' = true -> get o = true \/ exists a, a ∈ arguments /\ turns_on name a); [|intros; by eapply H].
  induction n as [|n IH]; intros [|s arguments] o o' rest Hn H Hg; cbn in Hn; try lia; cbn [flags_Parse] in H;
    try (injection H as <- <-; by left).
  destruct (bool_decide _); [injection H as <- <-; by left|]. apply obind_Ok in H as ([[nm value]|] & Ha & H); [|injection H as <- <-; by left].
  destruct (find_flag nm) as [flag|] eqn:Hf; [|by destruct (_ || _) in H].
  apply find_flag_elem in Hf. unfold flag_reads in Hr. rewrite Forall_forall in Hr. specialize (Hr _ Hf). cbn in Hr.
  assert (Hlater : forall more o1, more `suffix_of` arguments -> flags_Parse more o1 = Ok (o', rest) -> get o1 = true \/ exists a, a ∈ s :: arguments /\ turns_on name a).
  { intros more o1 [pre ->] H1. rewrite length_app in Hn. destruct (IH more o1 o' rest ltac:(lia) H1 Hg) as [|(a & Hin & Hon)]; [by left | right].
    exists a. split; [set_solver | done]. }
  destruct flag as [set|set].
  - destruct value as [v|]; [|destruct arguments as [|v arguments]; [done|]].
    + destruct (Hlater arguments _ (reflexivity _) H) as [Hl|]; [|by right]. rewrite Hr in Hl. by left.
    + destruct (Hlater arguments _ (suffix_cons_r _ _ _ (reflexivity _)) H) as [Hl|]; [|by right]. rewrite Hr in Hl. by left.
  - destruct (ParseBool _) as [v|] eqn:Hp; [|done]. destruct (Hlater arguments _ (reflexivity _) H) as [Hl|]; [|by right].
    destruct (decide (nm = name)) as [->|]; rewrite Hr in Hl; [|by left]. subst v. right. exists s. split; [apply elem_of_cons; by left | by exists value].
Qed.


Lemma flag_argument_returns s : returns (flag_argument s).
Proof. unfold flag_argument. repeat case_match; done. Qed.

Lemma flags_Parse_returns arguments options : returns (flags_Parse arguments options).
Proof.
  assert (H : forall n arguments options, (length arguments <= n)%nat -> returns (flags_Parse arguments options)); [|by eapply H].
  clear arguments options. induction n as [|n IH]; intros [|s rest] options Hn; cbn in Hn; try lia; try done. cbn [flags_Parse].
  destruct (bool_decide _); [done|]. pose proof (flag_argument_returns s). destruct (flag_argument s) as [[[name value]|]| | |]; try done. cbn [obind].
  destruct (find_flag name) as [[set|set]|]; [| |by destruct (_ || _)].
  - destruct value as [v|]; [apply IH; lia|]. destruct rest as [|v rest]; [done|]. apply IH. cbn in Hn. lia.
  - destruct (ParseBool _); [apply IH; lia | done].
Qed.
End FlagSet.
Arguments flag : clear implicits.

(** ** The end of a server command

    [Serve] returns, because the server was closed or with another error, or a signal
    arrives and the server is shut down, in time or not. *)
Inductive serve_end : Set := ServeReturned (closed : bool) | SignalReceived (shutdown : bool).
Definition served_well (e : serve_end) : bool := match e with ServeReturned closed => closed | SignalReceived shutdown => shutdown end.
Definition exit_code {E A : Type} (r : outcome E A) : Z := match r with Ok _ => 0 | _ => 1 end.
