(* ===== verification/Netip.v ===== *)
(** * Addresses and prefixes (package net/netip)

    What the program uses of net/netip: an IPv4 address by its four bytes, an IPv6
    address by its sixteen and its zone, classification, the textual forms with
    their parsers, and prefixes.  The theorems of this file are the round trips
    between addresses and their canonical texts. *)

From stdpp Require Import base strings numbers gmap list.
From S2P Require Import Prelude CodecErrors Frame GoStrings.
Local Open Scope Z_scope.
Local Open Scope wg_scope.

Inductive Addr : Set :=
| Addr4 (b : bytes)
| Addr6 (b zone : bytes).

#[global] Instance Addr_eq_dec : EqDecision Addr.
Proof. solve_decision. Defined.

Definition AddrFrom4 (b : bytes) : Addr := Addr4 b.
Definition AddrFrom16 (b : bytes) : Addr := Addr6 b [].
Definition Is4 (ip : Addr) : bool := match ip with Addr4 _ => true | _ => false end.
Definition BitLen (ip : Addr) : Z := match ip with Addr4 _ => 32 | Addr6 _ _ => 128 end.

Definition mapped_prefix : bytes := zeros 10 ++ [255; 255].
Definition Is4In6 (ip : Addr) : bool :=
  match ip with Addr4 _ => false | Addr6 b _ => bool_decide (take 12 b = mapped_prefix) end.

(** The zone of a mapped address is dropped. *)
Definition Unmap (ip : Addr) : Addr :=
  match ip with
  | Addr6 b _ => if Is4In6 ip then Addr4 (drop 12 b) else ip
  | Addr4 _ => ip
  end.

Definition byte_at (b : bytes) (i : nat) : Z := default 0 (b !! i).

(** ** Classification *)
Definition IsLoopback (ip : Addr) : bool :=
  match Unmap ip with
  | Addr4 b => byte_at b 0 =? 127
  | Addr6 b _ => bool_decide (b = zeros 15 ++ [1])
  end.

Definition IsMulticast (ip : Addr) : bool :=
  match Unmap ip with
  | Addr4 b => Z.land (byte_at b 0) 240 =? 224
  | Addr6 b _ => byte_at b 0 =? 255
  end.

Definition IsLinkLocalUnicast (ip : Addr) : bool :=
  match Unmap ip with
  | Addr4 b => (byte_at b 0 =? 169) && (byte_at b 1 =? 254)
  | Addr6 b _ => Z.land (256 * byte_at b 0 + byte_at b 1) 65472 =? 65152
  end.

Definition IsGlobalUnicast (ip : Addr) : bool :=
  let ip := Unmap ip in
  if bool_decide (ip = Addr4 (zeros 4)) || bool_decide (ip = Addr4 [255; 255; 255; 255]) then false
  else negb (bool_decide (ip = Addr6 (zeros 16) [])) && negb (IsLoopback ip) && negb (IsMulticast ip)
       && negb (IsLinkLocalUnicast ip).

Definition IsPrivate (ip : Addr) : bool :=
  match Unmap ip with
  | Addr4 b => (byte_at b 0 =? 10) || ((byte_at b 0 =? 172) && (Z.land (byte_at b 1) 240 =? 16))
               || ((byte_at b 0 =? 192) && (byte_at b 1 =? 168))
  | Addr6 b _ => Z.land (byte_at b 0) 254 =? 252
  end.

(** [IsUnspecified] does not unmap. *)
Definition IsUnspecified (ip : Addr) : bool :=
  bool_decide (ip = Addr4 (zeros 4)) || bool_decide (ip = Addr6 (zeros 16) []).

(** ** Texts *)
Definition join_with (c : Z) (parts : list bytes) : bytes :=
  match parts with
  | [] => []
  | p :: parts => p ++ mjoin (cons c <$> parts)
  end.

Definition string4 (b : bytes) : bytes := join_with 46 (FormatUint <$> b).

Definition hex_group (g : Z) : bytes := format_loop 16 hex_digit 3 g [].

(** The eight 16-bit groups of an address. *)
Fixpoint groups_of (b : bytes) : list Z :=
  match b with
  | hi :: lo :: b => hi * 256 + lo :: groups_of b
  | _ => []
  end.
Definition bytes_of (gs : list Z) : bytes := mjoin ((fun g => [g / 256; g mod 256]) <$> gs).

Fixpoint zero_len (gs : list Z) : nat :=
  match gs with
  | g :: gs => if g =? 0 then S (zero_len gs) else 0%nat
  | [] => 0%nat
  end.

(** The first longest run of two or more zero groups: its start and its length. *)
Fixpoint zero_run (i : nat) (gs : list Z) (best : option (nat * nat)) : option (nat * nat) :=
  match gs with
  | [] => best
  | _ :: rest =>
      let l := zero_len gs in
      let found := match best with Some (_, n) => n | None => 0%nat end in
      zero_run (S i) rest (if (2 <=? l)%nat && (found <? l)%nat then Some (i, l) else best)
  end.

Definition string6 (b : bytes) : bytes :=
  let gs := groups_of b in
  match zero_run 0 gs None with
  | Some (start, n) =>
      join_with 58 (hex_group <$> take start gs) ++ [58; 58] ++ join_with 58 (hex_group <$> drop (start + n) gs)
  | None => join_with 58 (hex_group <$> gs)
  end.

Definition Addr_String (ip : Addr) : bytes :=
  match ip with
  | Addr4 b => string4 b
  | Addr6 b zone =>
      (if Is4In6 ip then lit "::ffff:" ++ string4 (drop 12 b) else string6 b)
      ++ (if bool_decide (zone = []) then [] else 37 :: zone)
  end.

(** ** Parsers; the error texts are left out. *)

(** [parseIPv4Fields]: [digLen] is 0 at the start and after a dot. *)
Fixpoint parse_v4 (s : bytes) (val digLen : Z) (fields : bytes) : option bytes :=
  match s with
  | [] => if len fields <? 3 then None else Some (fields ++ [val])
  | c :: rest =>
      if is_digit c then
        if (digLen =? 1) && (val =? 0) then None
        else
          let val := val * 10 + (c - 48) in
          if 255 <? val then None else parse_v4 rest val (digLen + 1) fields
      else if c =? 46 then
        if (digLen =? 0) || bool_decide (rest = []) then None
        else if len fields =? 3 then None
        else parse_v4 rest 0 0 (fields ++ [val])
      else None
  end.

Definition hex_value (c : Z) : option Z :=
  if between 48 57 c then Some (c - 48)
  else if between 97 102 c then Some (c - 87)
  else if between 65 70 c then Some (c - 55)
  else None.

(** One hexadecimal field: its value, its number of digits and what follows. *)
Fixpoint scan_hex (s : bytes) (off acc : Z) : option (Z * Z * bytes) :=
  match s with
  | [] => Some (acc, off, [])
  | c :: rest =>
      match hex_value c with
      | None => Some (acc, off, s)
      | Some d =>
          let acc := acc * 16 + d in
          if (3 <? off) || (65535 <? acc) then None else scan_hex rest (off + 1) acc
      end
  end.

(** The loop of [parseIPv6]: at most [n] more fields; the bytes read, the position
    of the ellipsis and the rest of the text. *)
Fixpoint v6_loop (n : nat) (s ip : bytes) (ellipsis : option nat) : option (bytes * option nat * bytes) :=
  match n with
  | O => Some (ip, ellipsis, s)
  | S n =>
      match scan_hex s 0 0 with
      | None => None
      | Some (acc, off, rest) =>
          if off =? 0 then None
          else
            let ip' := ip ++ [acc / 256; acc mod 256] in
            match rest with
            | [] => Some (ip', ellipsis, [])
            | c :: rest =>
                if c =? 46 then
                  if bool_decide (ellipsis = None) && negb (len ip =? 12) then None
                  else if 16 <? len ip + 4 then None
                  else match parse_v4 s 0 0 [] with
                  | Some fields => Some (ip ++ fields, ellipsis, [])
                  | None => None
                  end
                else if negb (c =? 58) then None
                else match rest with
                | [] => None
                | c :: rest' =>
                    if c =? 58 then
                      match ellipsis with
                      | Some _ => None
                      | None =>
                          if bool_decide (rest' = []) then Some (ip', Some (length ip'), [])
                          else v6_loop n rest' ip' (Some (length ip'))
                      end
                    else v6_loop n rest ip' ellipsis
                end
            end
      end
  end.

Definition v6_finish (r : option (bytes * option nat * bytes)) : option bytes :=
  match r with
  | Some (ip, ellipsis, []) =>
      if len ip <? 16 then
        match ellipsis with
        | None => None
        | Some e => Some (take e ip ++ zeros (16 - len ip) ++ drop e ip)
        end
      else match ellipsis with None => Some ip | Some _ => None end
  | _ => None
  end.

Definition parse_v6 (s : bytes) : option bytes :=
  match cut_prefix [58; 58] s with
  | Some [] => Some (zeros 16)
  | Some s => v6_finish (v6_loop 8 s [] (Some 0%nat))
  | None => v6_finish (v6_loop 8 s [] None)
  end.

Definition parseIPv6 (s : bytes) : option Addr :=
  match cut_at 37 s with
  | Some (_, []) => None
  | Some (s, zone) => (fun b => Addr6 b zone) <$> parse_v6 s
  | None => (fun b => Addr6 b []) <$> parse_v6 s
  end.

(** [ParseAddr]: the first of the three characters decides. *)
Fixpoint addr_kind (s : bytes) : option Z :=
  match s with
  | [] => None
  | c :: s => if (c =? 46) || (c =? 58) || (c =? 37) then Some c else addr_kind s
  end.
Definition ParseAddr (s : bytes) : option Addr :=
  match addr_kind s with
  | Some 46 => Addr4 <$> parse_v4 s 0 0 []
  | Some 58 => parseIPv6 s
  | _ => None
  end.

(** ** Prefixes *)
Record Prefix : Set := mkPrefix { pf_Addr : Addr; pf_Bits : Z }.
#[global] Instance Prefix_eq_dec : EqDecision Prefix.
Proof. solve_decision. Defined.

Definition without_zone (ip : Addr) : Addr := match ip with Addr6 b _ => Addr6 b [] | _ => ip end.
(** [PrefixFrom] on an address and a length within its range *)
Definition PrefixFrom (ip : Addr) (bits : Z) : Prefix := mkPrefix (without_zone ip) bits.

Definition mask_bytes (n : nat) (bits : Z) (b : bytes) : bytes :=
  be_split n (Z.ldiff (be_combine b) (Z.ones (8 * Z.of_nat n - bits))).
Definition Masked (p : Prefix) : Prefix :=
  mkPrefix (match pf_Addr p with
    | Addr4 b => Addr4 (mask_bytes 4 (pf_Bits p) b)
    | Addr6 b zone => Addr6 (mask_bytes 16 (pf_Bits p) b) zone
    end) (pf_Bits p).

(** [Contains]: the first [Bits] bits agree; never across families, never a zone. *)
Definition agree (n : nat) (bits : Z) (a b : bytes) : bool :=
  Z.shiftr (Z.lxor (be_combine a) (be_combine b)) (8 * Z.of_nat n - bits) =? 0.
Definition Prefix_Contains (p : Prefix) (ip : Addr) : bool :=
  match pf_Addr p, ip with
  | Addr4 a, Addr4 b => agree 4 (pf_Bits p) a b
  | Addr6 a _, Addr6 b zone => bool_decide (zone = []) && agree 16 (pf_Bits p) a b
  | _, _ => false
  end.

Definition Prefix_String (p : Prefix) : bytes := Addr_String (pf_Addr p) ++ 47 :: Itoa (pf_Bits p).

Definition ParsePrefix (s : bytes) : option Prefix :=
  match cut_last 47 s with
  | None => None
  | Some (addr, digits) =>
      match ParseAddr addr with
      | None => None
      | Some ip =>
          if match ip with Addr6 _ zone => negb (bool_decide (zone = [])) | _ => false end then None
          else if (1 <? len digits) && negb (match digits with c :: _ => between 49 57 c | [] => true end) then None
          else match Atoi digits with
          | (_, Some _) => None
          | (bits, None) =>
              if (bits <? 0) || (BitLen ip <? bits) then None else Some (PrefixFrom ip bits)
          end
      end
  end.

(** ** Addresses with ports *)
Definition AddrPort_String (ip : Addr) (port : Z) : bytes :=
  match ip with
  | Addr4 b => string4 b ++ 58 :: FormatUint port
  | Addr6 _ _ => [91] ++ Addr_String ip ++ [93; 58] ++ FormatUint port
  end.

Definition ParseAddrPort (s : bytes) : option (Addr * Z) :=
  match cut_last 58 s with
  | None => None
  | Some (host, port) =>
      if bool_decide (host = []) || bool_decide (port = []) then None
      else
        let bracketed := match host with 91 :: _ => true | _ => false end in
        let inner := if bracketed then match cut_suffix [93] (drop 1 host) with Some a => Some a | None => None end
                     else Some host in
        match inner with
        | None => None
        | Some host =>
            match ParseUint port 16 with
            | (_, Some _) => None
            | (port, None) =>
                match ParseAddr host with
                | None => None
                | Some ip => if Bool.eqb bracketed (Is4 ip) then None else Some (ip, port)
                end
            end
        end
  end.

Example parse_print :
  map (fun s => Addr_String <$> ParseAddr (lit s))
    ["10.0.0.1"; "2001:DB8:0:0:1:0:0:1"; "::ffff:1.2.3.4"; "fe80::1%eth0"; "::"; "1::"; "01.2.3.4"; "1::2::3"; "1:2:3:4:5:6:7:8:9"]%string
  = [Some (lit "10.0.0.1"); Some (lit "2001:db8::1:0:0:1"); Some (lit "::ffff:1.2.3.4"); Some (lit "fe80::1%eth0");
     Some (lit "::"); Some (lit "1::"); None; None; None].
Proof. vm_compute. reflexivity. Qed.

(** ** Well-formed addresses *)
Definition Addr_ok (ip : Addr) : Prop :=
  match ip with
  | Addr4 b => len b = 4 /\ bytes_ok b
  | Addr6 b _ => len b = 16 /\ bytes_ok b
  end.

(** ** IPv4 texts *)
Definition octet_digits (v : Z) : bytes :=
  if v <? 10 then [48 + v] else if v <? 100 then [48 + v / 10; 48 + v mod 10]
  else [48 + v / 100; 48 + v / 10 mod 10; 48 + v mod 10].

Lemma FormatUint_octet v : 0 <= v < 256 -> FormatUint v = octet_digits v.
Proof.
  intros Hv. assert (H : Forall (fun v => FormatUint v = octet_digits v) (seqZ 0 256))
    by (apply (bool_decide_unpack _); vm_compute; exact I).
  rewrite Forall_forall in H. apply H, elem_of_seqZ. lia.
Qed.

Lemma octet_div v : 0 <= v < 256 -> 0 <= v / 100 <= 2 /\ 0 <= v / 10 mod 10 <= 9 /\ 0 <= v mod 10 <= 9 /\ v / 10 = v / 100 * 10 + v / 10 mod 10
  /\ v = v / 10 * 10 + v mod 10.
Proof. intros Hv. Z.to_euclidean_division_equations. lia. Qed.

(** One octet and the dot or the end that follows it. *)
Lemma parse_v4_octet v s fields :
  byte_ok v -> match s with [] => True | c :: _ => c = 46 end ->
  exists n, 0 < n /\ parse_v4 (FormatUint v ++ s) 0 0 fields = parse_v4 s v n fields.
Proof.
  intros Hv Hs. unfold byte_ok in Hv. rewrite FormatUint_octet by done. destruct (octet_div v Hv) as (H1 & H2 & H3 & H4 & H5).
  unfold octet_digits. destruct (Z.ltb_spec v 10); [|destruct (Z.ltb_spec v 100)]; cbn [app parse_v4]; unfold is_digit, between.
  - exists 1. split; [lia|]. by_test. f_equal. lia.
  - exists 2. split; [lia|]. assert (v / 100 = 0) by (apply Z.div_small; lia). by_test.
    replace ((0 * 10 + (48 + v / 10 - 48)) * 10 + (48 + v mod 10 - 48)) with v by lia. by_test. done.
  - exists 3. split; [lia|]. assert (1 <= v / 100) by (apply Z.div_le_lower_bound; lia). by_test.
    replace (((0 * 10 + (48 + v / 100 - 48)) * 10 + (48 + v / 10 mod 10 - 48)) * 10 + (48 + v mod 10 - 48)) with v by lia. by_test. done.
Qed.

Lemma parse_v4_dot v n c s fields :
  0 < n -> len fields < 3 -> parse_v4 (46 :: c :: s) v n fields = parse_v4 (c :: s) 0 0 (fields ++ [v]).
Proof.
  intros Hn Hf. remember (c :: s) as rest eqn:E. cbn [parse_v4]. unfold is_digit, between. cbn [Z.leb Z.compare andb Z.eqb Pos.eqb].
  rewrite bool_decide_false by (by subst). by_test. done.
Qed.

Lemma FormatUint_head v : byte_ok v -> exists c ds, FormatUint v = c :: ds /\ is_digit c = true.
Proof.
  intros Hv. destruct (FormatUint_digits v) as [Hd Hne]; [unfold byte_ok in Hv; lia|].
  destruct (FormatUint v) as [|c ds]; [done|]. apply Forall_cons in Hd as [Hc _]. by exists c, ds.
Qed.

Lemma parse_v4_string4 b : len b = 4 -> bytes_ok b -> parse_v4 (string4 b) 0 0 [] = Some b.
Proof.
  intros Hl Hb. destruct b as [|b0 [|b1 [|b2 [|b3 [|? ?]]]]]; unfold len in Hl; cbn in Hl; try lia. clear Hl.
  apply Forall_cons in Hb as [H0 Hb]. apply Forall_cons in Hb as [H1 Hb]. apply Forall_cons in Hb as [H2 Hb]. apply Forall_cons in Hb as [H3 _].
  unfold string4. cbn [fmap list_fmap join_with mjoin list_join app]. rewrite app_nil_r.
  destruct (FormatUint_head b1 H1) as (c1 & d1 & E1 & _). destruct (FormatUint_head b2 H2) as (c2 & d2 & E2 & _).
  destruct (FormatUint_head b3 H3) as (c3 & d3 & E3 & _).
  destruct (parse_v4_octet b0 (46 :: FormatUint b1 ++ 46 :: FormatUint b2 ++ 46 :: FormatUint b3) [] H0 eq_refl) as (n0 & Hn0 & ->).
  rewrite E1 at 1. cbn [app]. rewrite parse_v4_dot by done. rewrite app_comm_cons, <- E1. cbn [app].
  destruct (parse_v4_octet b1 (46 :: FormatUint b2 ++ 46 :: FormatUint b3) [b0] H1 eq_refl) as (n1 & Hn1 & ->).
  rewrite E2 at 1. cbn [app]. rewrite parse_v4_dot by done. rewrite app_comm_cons, <- E2. cbn [app].
  destruct (parse_v4_octet b2 (46 :: FormatUint b3) [b0; b1] H2 eq_refl) as (n2 & Hn2 & ->).
  rewrite E3 at 1. rewrite parse_v4_dot by done. rewrite <- E3. cbn [app].
  rewrite <- (app_nil_r (FormatUint b3)).
  destruct (parse_v4_octet b3 [] [b0; b1; b2] H3 I) as (n3 & Hn3 & ->). done.
Qed.

Lemma addr_kind_skip s c rest : Forall (fun c => negb ((c =? 46) || (c =? 58) || (c =? 37)) = true) s ->
  (c =? 46) || (c =? 58) || (c =? 37) = true -> addr_kind (s ++ c :: rest) = Some c.
Proof. intros Hs Hc. induction Hs as [|x s Hx Hs IH]; cbn; [by rewrite Hc | apply negb_true_iff in Hx; by rewrite Hx]. Qed.

Lemma digits_skip s : Forall (fun c => is_digit c = true) s -> Forall (fun c => negb ((c =? 46) || (c =? 58) || (c =? 37)) = true) s.
Proof. intros H. eapply Forall_impl; [exact H|]. intros c Hc. unfold is_digit, between in Hc. cbv beta. lia. Qed.

Lemma ParseAddr_string4 b : len b = 4 -> bytes_ok b -> ParseAddr (string4 b) = Some (Addr4 b).
Proof.
  intros Hl Hb. unfold ParseAddr. rewrite parse_v4_string4 by done.
  destruct b as [|b0 [|b1 bs]]; try done. apply Forall_cons in Hb as [H0 _].
  unfold string4. cbn [fmap list_fmap join_with mjoin list_join app]. rewrite addr_kind_skip; [done | | done].
  apply digits_skip, FormatUint_digits. unfold byte_ok in H0. lia.
Qed.

(** ** IPv6 texts *)
Definition hexv (c : Z) : Z := default 0 (hex_value c).
Definition hex_char (c : Z) : Prop := is_Some (hex_value c).

Lemma hex_value_digit d : 0 <= d < 16 -> hex_value (hex_digit d) = Some d.
Proof.
  intros Hd. unfold hex_value, hex_digit, between. destruct (Z.ltb_spec d 10); by_test; f_equal; lia.
Qed.

Lemma hex_value_range c d : hex_value c = Some d -> 0 <= d < 16.
Proof. unfold hex_value, between. intros H. repeat case_match; simplify_eq; lia. Qed.

Lemma hex_char_range c : hex_char c -> 48 <= c <= 102 /\ c <> 58.
Proof. intros [d H]. unfold hex_value, between in H. repeat case_match; simplify_eq; lia. Qed.

Definition hex_stop (s : bytes) : Prop := match s with [] => True | c :: _ => hex_value c = None end.

Lemma scan_hex_stop s off acc : hex_stop s -> scan_hex s off acc = Some (acc, off, s).
Proof. destruct s as [|c s]; cbn; [done|]. by intros ->. Qed.

Lemma horner_hex_grows n l : 0 <= n -> n <= horner 16 hexv n l.
Proof.
  revert n. induction l as [|c l IH]; intros n Hn; [cbn; lia|]. cbn.
  assert (0 <= hexv c) by (unfold hexv; destruct (hex_value c) eqn:E; cbn; [apply hex_value_range in E|]; lia).
  specialize (IH (n * 16 + hexv c) ltac:(lia)). unfold horner in IH. lia.
Qed.

Lemma scan_hex_digits ds : forall s off acc,
  Forall hex_char ds -> off + len ds <= 4 -> 0 <= acc -> horner 16 hexv acc ds < 65536 -> hex_stop s ->
  scan_hex (ds ++ s) off acc = Some (horner 16 hexv acc ds, off + len ds, s).
Proof.
  induction ds as [|c ds IH]; intros s off acc Hd Ho Ha Hh Hs.
  - rewrite len_nil, Z.add_0_r. by apply scan_hex_stop.
  - apply Forall_cons in Hd as [[d Hc] Hd]. rewrite len_cons in *. change (horner 16 hexv acc (c :: ds)) with (horner 16 hexv (acc * 16 + hexv c) ds) in *.
    assert (Hv : hexv c = d) by (unfold hexv; by rewrite Hc). rewrite Hv in *. apply hex_value_range in Hc as Hr.
    pose proof (horner_hex_grows (acc * 16 + d) ds ltac:(lia)). pose proof (len_nonneg ds).
    cbn [app scan_hex]. rewrite Hc. by_test. rewrite IH by (try done; lia). do 3 f_equal. lia.
Qed.

Definition group_ok (g : Z) : Prop := 0 <= g < 65536.

Lemma hex_group_spec g : group_ok g ->
  exists ds, hex_group g = ds /\ horner 16 hexv 0 ds = g /\ 0 < len ds <= 4 /\ Forall hex_char ds.
Proof.
  intros Hg. destruct (format_loop_spec 16 hex_digit hexv 3 g []) as (ds & E & Hh & Hne & Hl & Hf & _).
  - lia.
  - intros d Hd. unfold hexv. by rewrite hex_value_digit.
  - exact Hg.
  - exists ds. unfold hex_group. rewrite E, app_nil_r. split_and!; try done.
    + destruct ds; [done | len_lia].
    + unfold len. lia.
    + eapply Forall_impl; [exact Hf|]. intros c (d & Hd & ->). eexists. by apply hex_value_digit.
Qed.

Lemma scan_group g s : group_ok g -> hex_stop s -> exists n, 0 < n /\ scan_hex (hex_group g ++ s) 0 0 = Some (g, n, s).
Proof.
  intros Hg Hs. destruct (hex_group_spec g Hg) as (ds & -> & Hh & Hl & Hd). exists (len ds). split; [lia|].
  rewrite scan_hex_digits; [by rewrite Hh | done | lia | lia | unfold group_ok in Hg; lia | done].
Qed.

Lemma hex_group_head g : group_ok g -> exists c ds, hex_group g = c :: ds /\ hex_char c.
Proof.
  intros Hg. destruct (hex_group_spec g Hg) as (ds & -> & _ & Hl & Hd). destruct ds as [|c ds]; [len_lia|].
  apply Forall_cons in Hd as [Hc _]. by exists c, ds.
Qed.

Definition body6 (gs : list Z) : bytes := join_with 58 (hex_group <$> gs).

Lemma body6_cons g gs : body6 (g :: gs) = hex_group g ++ match gs with [] => [] | _ => 58 :: body6 gs end.
Proof. destruct gs; [by cbn; rewrite app_nil_r | done]. Qed.

Lemma body6_head g gs s : group_ok g -> exists c ds, body6 (g :: gs) ++ s = c :: ds /\ hex_char c.
Proof.
  intros Hg. destruct (hex_group_head g Hg) as (c & ds & E & Hc). rewrite body6_cons, E. eexists c, _. split; [|done]. cbn [app]. reflexivity.
Qed.

Lemma bytes_of_cons g gs : bytes_of (g :: gs) = [g / 256; g mod 256] ++ bytes_of gs.
Proof. done. Qed.

Lemma bytes_of_app a b : bytes_of (a ++ b) = bytes_of a ++ bytes_of b.
Proof. induction a as [|g a IH]; [done|]. cbn [app]. by rewrite !bytes_of_cons, IH, app_assoc. Qed.

Lemma v6_loop_body gs : forall n ip e,
  Forall group_ok gs -> gs <> [] -> (length gs <= n)%nat -> v6_loop n (body6 gs) ip e = Some (ip ++ bytes_of gs, e, []).
Proof.
  induction gs as [|g gs IH]; intros n ip e Hg Hne Hn; [done|]. destruct n as [|n]; cbn in Hn; [lia|].
  apply Forall_cons in Hg as [Hg Hgs]. rewrite body6_cons, bytes_of_cons. cbn [v6_loop].
  destruct gs as [|g' gs].
  - destruct (scan_group g [] Hg I) as (k & Hk & ->). by_test. by rewrite app_nil_r.
  - destruct (scan_group g (58 :: body6 (g' :: gs)) Hg eq_refl) as (k & Hk & ->). by_test.
    apply Forall_cons in Hgs as Hh. destruct (body6_head g' gs [] (proj1 Hh)) as (c & ds & E & Hc). rewrite app_nil_r in E.
    rewrite E. apply hex_char_range in Hc. cbn [Z.eqb Pos.eqb negb]. by_test. rewrite <- E.
    rewrite IH by (done || cbn in *; lia). by rewrite app_assoc.
Qed.

Lemma v6_loop_ellipsis gs : forall n ip rest,
  Forall group_ok gs -> gs <> [] -> (length gs <= n)%nat ->
  v6_loop n (body6 gs ++ 58 :: 58 :: rest) ip None
  = let ip' := ip ++ bytes_of gs in
    if bool_decide (rest = []) then Some (ip', Some (length ip'), [])
    else v6_loop (n - length gs) rest ip' (Some (length ip')).
Proof.
  induction gs as [|g gs IH]; intros n ip rest Hg Hne Hn; [done|]. destruct n as [|n]; cbn in Hn; [lia|].
  apply Forall_cons in Hg as [Hg Hgs]. rewrite body6_cons, bytes_of_cons. cbn [v6_loop]. cbv zeta.
  destruct gs as [|g' gs].
  - cbn [app length]. rewrite app_nil_r. destruct (scan_group g (58 :: 58 :: rest) Hg eq_refl) as (k & Hk & ->). by_test.
    cbn [Z.eqb Pos.eqb negb]. change (bytes_of []) with (@nil Z). cbn [app]. by rewrite Nat.sub_succ, Nat.sub_0_r.
  - rewrite <- app_assoc. cbn [app]. destruct (scan_group g (58 :: body6 (g' :: gs) ++ 58 :: 58 :: rest) Hg eq_refl) as (k & Hk & ->). by_test.
    apply Forall_cons in Hgs as Hh. destruct (body6_head g' gs (58 :: 58 :: rest) (proj1 Hh)) as (c & ds & E & Hc).
    rewrite E. apply hex_char_range in Hc. cbn [Z.eqb Pos.eqb negb]. by_test. rewrite <- E.
    rewrite IH by (done || cbn in *; lia). cbv zeta. by rewrite <- !app_assoc.
Qed.

Lemma groups_of_spec n : forall b, length b = (2 * n)%nat -> bytes_ok b ->
  length (groups_of b) = n /\ Forall group_ok (groups_of b) /\ bytes_of (groups_of b) = b.
Proof.
  induction n as [|n IH]; intros [|h [|l b]] Hl Hb; cbn in Hl; try lia; [done|].
  apply Forall_cons in Hb as [Hh Hb]. apply Forall_cons in Hb as [Hlo Hb]. unfold byte_ok in *.
  destruct (IH b ltac:(lia) Hb) as (H1 & H2 & H3). cbn [groups_of length]. split_and!; [by f_equal | |].
  - constructor; [unfold group_ok; lia | done].
  - rewrite bytes_of_cons, H3. cbn. f_equal; [|f_equal].
    + rewrite Z.div_add_l, Z.div_small by lia. lia.
    + rewrite Z.add_comm, Z.mod_add, Z.mod_small by lia. done.
Qed.

#[local] Transparent zeros.
Lemma bytes_of_zeros n : bytes_of (replicate n 0) = zeros (2 * Z.of_nat n).
Proof.
  induction n as [|n IH]; [done|]. cbn [replicate]. rewrite bytes_of_cons, IH. unfold zeros.
  by replace (Z.to_nat (2 * Z.of_nat (S n))) with (S (S (Z.to_nat (2 * Z.of_nat n)))) by lia.
Qed.

Lemma length_bytes_of gs : length (bytes_of gs) = (2 * length gs)%nat.
Proof. induction gs as [|g gs IH]; [done|]. rewrite bytes_of_cons. cbn. lia. Qed.

(** What [zero_run] finds is a run of zero groups. *)
Lemma zero_len_spec gs : exists rest, gs = replicate (zero_len gs) 0 ++ rest.
Proof.
  induction gs as [|g gs [rest IH]]; [by exists []|]. cbn. destruct (Z.eqb_spec g 0) as [->|]; [|by eexists].
  exists rest. cbn. by f_equal.
Qed.

Definition is_run (gs : list Z) (r : nat * nat) : Prop :=
  exists pre post, gs = pre ++ replicate r.2 0 ++ post /\ length pre = r.1 /\ (2 <= r.2)%nat.

Lemma zero_run_spec all gs : forall pre best r,
  all = pre ++ gs -> (forall r, best = Some r -> is_run all r) -> zero_run (length pre) gs best = Some r -> is_run all r.
Proof.
  induction gs as [|g gs IH]; intros pre best r Hall Hbest Hr; [by apply Hbest|].
  cbn [zero_run] in Hr. replace (S (length pre)) with (length (pre ++ [g])) in Hr by (rewrite length_app; cbn; lia).
  eapply IH; [| |exact Hr]; [by rewrite <- app_assoc|].
  destruct (_ && _) eqn:E; [|done]. apply andb_true_iff in E as [E _]. apply Nat.leb_le in E.
  intros r' [= <-]. destruct (zero_len_spec (g :: gs)) as [post Hp]. exists pre, post. cbn [fst snd]. split_and!; [|done|done].
  rewrite Hall. f_equal. exact Hp.
Qed.

Lemma parse_v6_string6 b : len b = 16 -> bytes_ok b -> parse_v6 (string6 b) = Some b.
Proof.
  intros Hl Hb. destruct (groups_of_spec 8 b) as (Hn & Hg & Hof); [unfold len in Hl; lia | done|].
  unfold string6. set (gs := groups_of b) in *. destruct (zero_run 0 gs None) as [[start n]|] eqn:Hz.
  - destruct (zero_run_spec gs gs [] None (start, n) eq_refl ltac:(done) Hz) as (pre & post & E & Hp & Hn2). cbn [fst snd] in *.
    rewrite E in Hn, Hg, Hof. rewrite !length_app, length_replicate in Hn. apply Forall_app in Hg as [Hpre Hg]. apply Forall_app in Hg as [_ Hpost].
    rewrite !bytes_of_app, bytes_of_zeros in Hof.
    assert (Hd : drop (start + n) gs = post).
    { rewrite E, app_assoc. apply drop_app_length'. rewrite length_app, length_replicate. lia. }
    assert (Ht : take start gs = pre) by (rewrite E; by apply take_app_length').
    rewrite Hd, Ht. fold (body6 pre) (body6 post). unfold parse_v6.
    destruct pre as [|g pre].
    + cbn [body6 fmap list_fmap join_with app cut_prefix]. rewrite Z.eqb_refl. destruct post as [|g post].
      * cbn. cbn in Hof, Hn. rewrite <- Hof. f_equal. rewrite app_nil_r. f_equal. lia.
      * apply Forall_cons in Hpost as Hh. destruct (body6_head g post [] (proj1 Hh)) as (c & ds & E' & _). rewrite app_nil_r in E'.
        rewrite E'. cbv iota. rewrite <- E'. rewrite v6_loop_body by (done || cbn in *; lia). cbn [app v6_finish].
        pose proof (length_bytes_of (g :: post)) as Hlb. cbn [length app] in Hn, Hof, Hlb. unfold len. by_test.
        rewrite take_0, drop_0, <- Hof. change (bytes_of []) with (@nil Z). cbn [app]. do 3 f_equal. lia.
    + apply Forall_cons in Hpre as Hh. destruct (body6_head g pre ([58; 58] ++ body6 post) (proj1 Hh)) as (c & ds & E' & Hc).
      rewrite E'. apply hex_char_range in Hc. cbn [cut_prefix]. by_test. rewrite <- E'. clear E' Hc Hh c ds. cbn [app].
      rewrite v6_loop_ellipsis by (done || cbn in *; lia). cbv zeta. cbn [app].
      pose proof (length_bytes_of (g :: pre)) as Hlp. pose proof (length_bytes_of post) as Hlo. destruct post as [|g' post].
      * cbn [body6 fmap list_fmap join_with]. rewrite bool_decide_true by done. cbn [v6_finish]. cbn [length] in *. unfold len. by_test.
        rewrite firstn_all, drop_all. rewrite <- Hof. change (bytes_of []) with (@nil Z). do 4 f_equal. lia.
      * apply Forall_cons in Hpost as Hh. destruct (body6_head g' post [] (proj1 Hh)) as (c & ds & E' & _). rewrite app_nil_r in E'.
        rewrite bool_decide_false by (by rewrite E'). rewrite v6_loop_body by (done || cbn in *; lia). cbn [v6_finish]. cbn [length] in *.
        unfold len. rewrite length_app. by_test. rewrite take_app_length, drop_app_length. rewrite <- Hof. do 4 f_equal. lia.
  - destruct gs as [|g gs]; [done|]. fold (body6 (g :: gs)). unfold parse_v6. apply Forall_cons in Hg as Hh.
    destruct (body6_head g gs [] (proj1 Hh)) as (c & ds & E' & Hc). rewrite app_nil_r in E'.
    rewrite E'. apply hex_char_range in Hc. cbn [cut_prefix]. by_test. rewrite <- E'.
    rewrite v6_loop_body by (done || cbn in *; lia). cbn [app v6_finish]. rewrite Hof, Hl. done.
Qed.

(** ** Addresses *)
Definition v6_char (c : Z) : Prop := hex_char c \/ c = 58.

Lemma body6_chars gs : Forall group_ok gs -> Forall v6_char (body6 gs).
Proof.
  induction 1 as [|g gs Hg Hgs IH]; [constructor|]. rewrite body6_cons.
  destruct (hex_group_spec g Hg) as (ds & -> & _ & _ & Hd). apply Forall_app. split.
  - eapply Forall_impl; [exact Hd|]. intros c Hc. by left.
  - destruct gs; [constructor|]. constructor; [by right | done].
Qed.

Lemma string6_chars b : len b = 16 -> bytes_ok b -> Forall v6_char (string6 b) /\ 58 ∈ string6 b.
Proof.
  intros Hl Hb. destruct (groups_of_spec 8 b) as (Hn & Hg & _); [unfold len in Hl; lia | done|].
  unfold string6. destruct (zero_run 0 (groups_of b) None) as [[start n]|].
  - fold (body6 (take start (groups_of b))) (body6 (drop (start + n) (groups_of b))). split.
    + apply Forall_app. split; [apply body6_chars; by apply Forall_take|].
      repeat (constructor; [by right|]). apply body6_chars. by apply Forall_drop.
    + apply elem_of_app. right. by left.
  - fold (body6 (groups_of b)). split; [by apply body6_chars|].
    destruct (groups_of b) as [|g [|g' gs]]; try done. rewrite body6_cons. apply elem_of_app. right. by left.
Qed.

Lemma addr_kind_v6 l t : Forall v6_char l -> 58 ∈ l -> addr_kind (l ++ t) = Some 58.
Proof.
  induction 1 as [|c l Hc Hl IH]; intros Hin; [by apply elem_of_nil in Hin|]. cbn.
  destruct Hc as [Hc| ->]; [|done]. apply hex_char_range in Hc as Hr.
  destruct (Z.eqb_spec c 46) as [->|]; [by destruct Hc|].
  replace (c =? 58) with false by (symmetry; lia). replace (c =? 37) with false by (symmetry; lia). cbn. apply IH.
  apply elem_of_cons in Hin as [E|]; [lia | done].
Qed.

(** A zone follows the text of an address. *)
Lemma parseIPv6_zone s b zone :
  37 ∉ s -> parse_v6 s = Some b -> parseIPv6 (s ++ (if bool_decide (zone = []) then [] else 37 :: zone)) = Some (Addr6 b zone).
Proof.
  intros Hs Hp. unfold parseIPv6. destruct (bool_decide_reflect (zone = [])) as [->|Hne].
  - rewrite app_nil_r. rewrite (proj2 (cut_at_None 37 s)) by done. by rewrite Hp.
  - rewrite (proj2 (cut_at_Some 37 (s ++ 37 :: zone) s zone)) by done. destruct zone; [done|]. by rewrite Hp.
Qed.

Definition v4_char (c : Z) : Prop := is_digit c = true \/ c = 46.
Lemma string4_chars b : bytes_ok b -> Forall v4_char (string4 b).
Proof.
  intros Hb. assert (Hd : forall v, byte_ok v -> Forall v4_char (FormatUint v)).
  { intros v Hv. unfold byte_ok in Hv. eapply Forall_impl; [apply (FormatUint_digits v); lia|]. intros c Hc. by left. }
  destruct Hb as [|v b Hv Hb]; [constructor|]. unfold string4. cbn [fmap list_fmap join_with]. apply Forall_app. split; [by apply Hd|].
  induction Hb as [|w b Hw Hb IH]; [constructor|]. cbn. constructor; [by right|]. apply Forall_app. split; [by apply Hd | done].
Qed.

Lemma octet_as_hex v : byte_ok v ->
  Forall (fun c => is_Some (hex_value c)) (FormatUint v) /\ 0 < len (FormatUint v) <= 3 /\ horner 16 hexv 0 (FormatUint v) < 65536.
Proof.
  intros Hv. assert (H : Forall (fun v => Forall (fun c => is_Some (hex_value c)) (FormatUint v) /\ 0 < len (FormatUint v) <= 3
    /\ horner 16 hexv 0 (FormatUint v) < 65536) (seqZ 0 256)) by (apply (bool_decide_unpack _); vm_compute; exact I).
  rewrite Forall_forall in H. apply H, elem_of_seqZ. unfold byte_ok in Hv. lia.
Qed.

(** The hexadecimal scanner stops at the first dot of an IPv4 text. *)
Lemma scan_string4 v w b : byte_ok v -> exists k a s, 0 < k /\ scan_hex (string4 (v :: w :: b)) 0 0 = Some (a, k, 46 :: s).
Proof.
  intros Hv. destruct (octet_as_hex v Hv) as (Hd & Hn & Hh). unfold string4. cbn [fmap list_fmap join_with mjoin list_join app].
  eexists (len (FormatUint v)), _, _. split; [lia|].
  rewrite (scan_hex_digits (FormatUint v)); [reflexivity | done | lia | lia | done | done].
Qed.

Lemma parse_v6_mapped b : len b = 4 -> bytes_ok b -> parse_v6 (lit "::ffff:" ++ string4 b) = Some (mapped_prefix ++ b).
Proof.
  intros Hl Hb. pose proof (parse_v4_string4 b Hl Hb) as Hp.
  destruct b as [|v [|w b]]; try done. apply Forall_cons in Hb as [Hv Hb].
  destruct (scan_string4 v w b Hv) as (k & a & s & Hk & Hs).
  assert (Hhd : exists c ds, string4 (v :: w :: b) = c :: ds /\ is_digit c = true).
  { destruct (FormatUint_head v Hv) as (c & ds & E & Hc). unfold string4. cbn [fmap list_fmap join_with]. rewrite E. by eexists c, _. }
  destruct Hhd as (c & ds & E & Hc). unfold is_digit, between in Hc. unfold parse_v6.
  change (cut_prefix [58; 58] (lit "::ffff:" ++ string4 (v :: w :: b))) with (Some (102 :: 102 :: 102 :: 102 :: 58 :: string4 (v :: w :: b))).
  cbv iota. assert (H1 : v6_loop 8 (102 :: 102 :: 102 :: 102 :: 58 :: string4 (v :: w :: b)) [] (Some 0%nat)
    = v6_loop 7 (string4 (v :: w :: b)) [255; 255] (Some 0%nat)).
  { rewrite E. remember (c :: ds) as t eqn:Ht. cbn [v6_loop scan_hex]. cbn [hex_value between Z.leb Z.compare Pos.compare Pos.compare_cont andb].
    cbn. rewrite Ht. by_test. done. }
  rewrite H1. remember 6%nat as m. cbn [v6_loop]. rewrite Hs. by_test. cbn [Z.eqb Pos.eqb]. rewrite bool_decide_false by done. cbn [andb].
  rewrite len_cons, len_cons, len_nil. cbn [Z.add Z.ltb Z.compare Pos.compare Pos.add Pos.succ Pos.compare_cont]. rewrite Hp.
  change (16 <? 1 + (1 + 0) + 4) with false. cbv iota. unfold v6_finish. cbn [app]. rewrite !(len_cons 255), Hl. done.
Qed.

Lemma is_digit_not_37 c : v4_char c -> c <> 37.
Proof. unfold v4_char, is_digit, between. intros [?|?]; lia. Qed.

Lemma ParseAddr_String ip : Addr_ok ip -> ParseAddr (Addr_String ip) = Some ip.
Proof.
  destruct ip as [b|b zone]; intros [Hl Hb]; [by apply ParseAddr_string4|].
  unfold Addr_String. destruct (Is4In6 (Addr6 b zone)) eqn:Hm.
  - unfold Is4In6 in Hm. apply bool_decide_eq_true in Hm.
    assert (E : b = mapped_prefix ++ drop 12 b) by (rewrite <- Hm; by rewrite take_drop).
    assert (Hb' : bytes_ok (drop 12 b)) by (by apply Forall_drop).
    change (ParseAddr ((lit "::ffff:" ++ string4 (drop 12 b)) ++ _)) with
      (parseIPv6 ((lit "::ffff:" ++ string4 (drop 12 b)) ++ (if bool_decide (zone = []) then [] else 37 :: zone))).
    rewrite (parseIPv6_zone _ (mapped_prefix ++ drop 12 b)); [by rewrite <- E | |].
    + assert (Hno : 37 ∉ lit "::ffff:") by (apply (bool_decide_unpack _); vm_compute; exact I).
      intros [H|H]%elem_of_app; [done|].
      pose proof (string4_chars _ Hb') as Hc. rewrite Forall_forall in Hc. by apply (is_digit_not_37 37 (Hc 37 H)).
    + apply parse_v6_mapped; [|done]. unfold len in *. rewrite length_drop. lia.
  - destruct (string6_chars b Hl Hb) as [Hc Hin]. unfold ParseAddr. rewrite addr_kind_v6 by done.
    apply parseIPv6_zone; [|by apply parse_v6_string6]. intros H. rewrite Forall_forall in Hc.
    destruct (Hc 37 H) as [Hx|]; [apply hex_char_range in Hx; lia | done].
Qed.

(** ** Prefixes *)
Definition Prefix_ok (p : Prefix) : Prop :=
  Addr_ok (pf_Addr p) /\ without_zone (pf_Addr p) = pf_Addr p /\ 0 <= pf_Bits p <= BitLen (pf_Addr p).

Lemma cut_last_Some c a b : c ∉ b -> cut_last c (a ++ c :: b) = Some (a, b).
Proof.
  intros Hb. unfold cut_last. rewrite reverse_app, reverse_cons, <- app_assoc. cbn [app].
  rewrite (proj2 (cut_at_Some c _ (reverse b) (reverse a))); [by rewrite !reverse_involutive|].
  split; [done|]. by rewrite elem_of_reverse.
Qed.

Lemma ParsePrefix_String p : Prefix_ok p -> ParsePrefix (Prefix_String p) = Some p.
Proof.
  destruct p as [ip bits]. intros (Hip & Hz & Hbits). cbn [pf_Addr pf_Bits] in *.
  assert (Hb : 0 <= bits < 2 ^ 63) by (destruct ip; cbn in Hbits; lia).
  destruct (FormatUint_spec bits ltac:(lia)) as (ds & E & _ & Hne & Hd & H0).
  unfold Prefix_String. cbn [pf_Addr pf_Bits]. unfold Itoa. by_test. unfold ParsePrefix. rewrite cut_last_Some.
  - rewrite ParseAddr_String by done.
    assert (match ip with Addr6 _ zone => negb (bool_decide (zone = [])) | Addr4 _ => false end = false) as ->.
    { destruct ip as [|b zone]; [done|]. cbn in Hz. injection Hz as <-. done. }
    rewrite Atoi_FormatUint by done. by_test. unfold PrefixFrom. rewrite Hz.
    destruct (1 <? len (FormatUint bits)) eqn:Hl; [|done]. cbn [andb].
    rewrite E in *. destruct ds as [|c ds]; [done|]. apply Forall_cons in Hd as [Hc _]. unfold is_digit in Hc.
    destruct (Z.eqb_spec c 48) as [->|Hc'].
    + specialize (H0 eq_refl) as ->. cbn in E. injection E as <-. done.
    + unfold between in *. by by_test.
  - rewrite E. rewrite Forall_forall in Hd. intros Hin. specialize (Hd 47 Hin). done.
Qed.

Lemma mask_bytes_ok n bits b : len (mask_bytes n bits b) = Z.of_nat n /\ bytes_ok (mask_bytes n bits b).
Proof. unfold mask_bytes. split; [apply len_be_split | apply be_split_ok]. Qed.

Lemma Masked_ok p : Prefix_ok p -> Prefix_ok (Masked p).
Proof.
  destruct p as [[b|b zone] bits]; intros (Hip & Hz & Hbits); unfold Prefix_ok, Masked; cbn in *.
  - split_and!; [apply (mask_bytes_ok 4) .. | done | lia | lia].
  - injection Hz as <-. split_and!; [apply (mask_bytes_ok 16) .. | done | lia | lia].
Qed.

Lemma be_combine_app a b : be_combine (a ++ b) = be_combine a * 256 ^ len b + be_combine b.
Proof.
  induction a as [|x a IH]; [change (be_combine []) with 0; cbn [app]; lia|]. cbn [app]. rewrite !be_combine_cons, IH, len_app, Z.pow_add_r by apply len_nonneg. lia.
Qed.

Lemma be_combine_inj a b : bytes_ok a -> bytes_ok b -> length a = length b -> be_combine a = be_combine b -> a = b.
Proof. intros Ha Hb Hl E. rewrite <- (be_split_combine a Ha), <- (be_split_combine b Hb). by rewrite Hl, E. Qed.

Lemma ldiff_bound x k n : 0 <= k -> 0 <= x < 2 ^ n -> 0 <= Z.ldiff x (Z.ones k) < 2 ^ n.
Proof.
  intros Hk Hx. rewrite Z.ldiff_ones_r, Z.shiftl_mul_pow2, Z.shiftr_div_pow2 by done.
  pose proof (Z.pow_pos_nonneg 2 k). pose proof (Z.mul_div_le x (2 ^ k)). pose proof (Z.div_pos x (2 ^ k)). nia.
Qed.

(** The value of a masked address. *)
Lemma mask_bytes_value n bits b : bytes_ok b -> length b = n -> bits <= 8 * Z.of_nat n ->
  be_combine (mask_bytes n bits b) = Z.ldiff (be_combine b) (Z.ones (8 * Z.of_nat n - bits)).
Proof.
  intros Hb Hl Hbits. unfold mask_bytes. apply be_combine_split. pose proof (be_combine_bound b Hb) as Hv.
  unfold len in Hv. rewrite Hl in Hv. change 256 with (2 ^ 8) in *. rewrite <- Z.pow_mul_r in * by lia.
  apply ldiff_bound; [lia | done].
Qed.

Lemma mask_bytes_idemp n bits b : bytes_ok b -> length b = n -> bits <= 8 * Z.of_nat n ->
  mask_bytes n bits (mask_bytes n bits b) = mask_bytes n bits b.
Proof.
  intros Hb Hl Hbits. unfold mask_bytes at 1. rewrite mask_bytes_value by done.
  by rewrite Z.ldiff_ldiff_l, Z.lor_diag.
Qed.

Lemma take12_value b : bytes_ok b -> length b = 16%nat -> be_combine (take 12 b) = Z.shiftr (be_combine b) 32.
Proof.
  intros Hb Hl. rewrite <- (take_drop 12 b) at 2. rewrite be_combine_app, Z.shiftr_div_pow2 by lia.
  assert (Hd : len (drop 12 b) = 4) by (unfold len; rewrite length_drop; lia).
  pose proof (be_combine_bound (drop 12 b) (Forall_drop _ 12 b Hb)) as Hr. rewrite Hd in *.
  change (256 ^ 4) with (2 ^ 32) in *. rewrite Z.div_add_l, Z.div_small by lia. lia.
Qed.

(** Masking never makes an address an IPv4-mapped one. *)
Lemma mask_not_mapped bits b : bytes_ok b -> length b = 16%nat -> 0 <= bits <= 128 ->
  take 12 (mask_bytes 16 bits b) = mapped_prefix -> take 12 b = mapped_prefix.
Proof.
  intros Hb Hl Hbits E. destruct (mask_bytes_ok 16 bits b) as [Hml Hmo]. unfold len in Hml.
  pose proof (take12_value (mask_bytes 16 bits b) Hmo ltac:(lia)) as Hv. rewrite E, mask_bytes_value, Z.shiftr_ldiff in Hv by (done || lia).
  change (8 * Z.of_nat 16) with 128 in Hv. assert (Hm : be_combine mapped_prefix = 65535) by (vm_compute; reflexivity). rewrite Hm in Hv.
  destruct (Z.le_gt_cases (128 - bits) 32) as [Hle|Hgt].
  - apply be_combine_inj; [by apply Forall_take | apply (bool_decide_unpack _); vm_compute; exact I | rewrite length_take, Hl; done|].
    rewrite take12_value by done. rewrite Hm, Hv. replace (Z.shiftr (Z.ones (128 - bits)) 32) with 0; [by rewrite Z.ldiff_0_r|].
    symmetry. apply Z.bits_inj'. intros i Hi. rewrite Z.shiftr_spec, Z.bits_0, Z.testbit_ones by lia. lia.
  - apply (f_equal (fun x => Z.testbit x 0)) in Hv. rewrite Z.ldiff_spec, !Z.shiftr_spec, Z.testbit_ones in Hv by lia.
    replace ((0 <=? 0 + 32) && (0 + 32 <? 128 - bits)) with true in Hv by (symmetry; lia). by rewrite andb_false_r in Hv.
Qed.

(** ** What the parsers accept is well-formed *)
Lemma parse_v4_ok s : forall val digLen fields b,
  parse_v4 s val digLen fields = Some b -> byte_ok val -> bytes_ok fields -> len fields <= 3 -> len b = 4 /\ bytes_ok b.
Proof.
  induction s as [|c s IH]; intros val digLen fields b H Hv Hf Hl; cbn [parse_v4] in H.
  - destruct (Z.ltb_spec (len fields) 3); [done|]. injection H as <-. split; [rewrite len_app, len_cons, len_nil; lia|].
    apply Forall_app. split; [done | by constructor].
  - unfold is_digit, between, byte_ok in *. destruct (_ && _) eqn:Hd.
    + destruct (_ && _) in H; [done|]. destruct (Z.ltb_spec 255 (val * 10 + (c - 48))); [done|].
      eapply IH; [exact H | lia | done | done].
    + destruct (c =? 46); [|done]. destruct (_ || _); [done|]. destruct (Z.eqb_spec (len fields) 3); [done|].
      eapply IH; [exact H | lia | apply Forall_app; split; [done | by constructor] | rewrite len_app, len_cons, len_nil; lia].
Qed.

Lemma scan_hex_range s : forall off acc a n rest, scan_hex s off acc = Some (a, n, rest) -> 0 <= acc < 65536 -> 0 <= a < 65536.
Proof.
  induction s as [|c s IH]; intros off acc a n rest H Ha; cbn in H; [by injection H as <- <- <-|].
  destruct (hex_value c) as [d|] eqn:Hd; [|by injection H as <- <- <-]. apply hex_value_range in Hd.
  destruct (_ || _) eqn:E; [done|]. eapply IH; [exact H | lia].
Qed.

Lemma v6_loop_ok n : forall s ip e ip' e' rest,
  v6_loop n s ip e = Some (ip', e', rest) -> bytes_ok ip -> len ip + 2 * Z.of_nat n <= 16 -> bytes_ok ip' /\ len ip' <= 16.
Proof.
  induction n as [|n IH]; intros s ip e ip' e' rest H Hb Hl; cbn [v6_loop] in H; [injection H as <- <- <-; split; [done | lia]|].
  destruct (scan_hex s 0 0) as [[[acc off] more]|] eqn:Hs; [|done]. apply scan_hex_range in Hs; [|lia].
  destruct (off =? 0); [done|].
  assert (Hb' : bytes_ok (ip ++ [acc / 256; acc mod 256]) /\ len (ip ++ [acc / 256; acc mod 256]) + 2 * Z.of_nat n <= 16).
  { split; [|rewrite len_app, !len_cons, len_nil; lia]. apply Forall_app. split; [done|]. unfold byte_ok.
    repeat constructor; Z.to_euclidean_division_equations; lia. }
  destruct Hb' as [Hb1 Hl1]. pose proof (len_nonneg (ip ++ [acc / 256; acc mod 256])). destruct more as [|c more]; [injection H as <- <- <-; split; [done | lia]|].
  destruct (c =? 46).
  - destruct (_ && _); [done|]. destruct (Z.ltb_spec 16 (len ip + 4)); [done|].
    destruct (parse_v4 s 0 0 []) as [fields|] eqn:Hp; [|done]. injection H as <- <- <-.
    apply parse_v4_ok in Hp as [Hp1 Hp2]; [|unfold byte_ok; lia | constructor | done].
    split; [by apply Forall_app | rewrite len_app; lia].
  - destruct (negb (c =? 58)); [done|]. destruct more as [|c' more]; [done|].
    destruct (c' =? 58); [|by eapply IH; [exact H | |]].
    destruct e; [done|]. destruct (bool_decide_reflect (more = [])); [injection H as <- <- <-; split; [done | lia] | by eapply IH; [exact H | |]].
Qed.

Lemma v6_finish_ok r b : v6_finish r = Some b ->
  (forall ip e rest, r = Some (ip, e, rest) -> bytes_ok ip /\ len ip <= 16) -> len b = 16 /\ bytes_ok b.
Proof.
  destruct r as [[[ip e] [|? ?]]|]; try done. intros H Hr. destruct (Hr ip e [] eq_refl) as [Hb Hl]. cbn in H.
  destruct (Z.ltb_spec (len ip) 16), e as [e|]; try done.
  - injection H as <-. split.
    + unfold len, zeros in *. rewrite !length_app, length_take, length_drop, length_replicate. lia.
    + apply Forall_app. split; [by apply Forall_take|]. apply Forall_app. split; [|by apply Forall_drop].
      apply Forall_replicate. unfold byte_ok. lia.
  - injection H as <-. split; [lia | done].
Qed.

Lemma parse_v6_ok s b : parse_v6 s = Some b -> len b = 16 /\ bytes_ok b.
Proof.
  unfold parse_v6. destruct (cut_prefix [58; 58] s) as [[|c s']|]; intros H.
  - injection H as <-. apply (bool_decide_unpack _). vm_compute. exact I.
  - eapply v6_finish_ok; [exact H|]. intros ip e rest Hr. eapply v6_loop_ok; [exact Hr | constructor | done].
  - eapply v6_finish_ok; [exact H|]. intros ip e rest Hr. eapply v6_loop_ok; [exact Hr | constructor | done].
Qed.

Lemma parseIPv6_ok s ip : parseIPv6 s = Some ip -> Addr_ok ip.
Proof.
  unfold parseIPv6. destruct (cut_at 37 s) as [[a [|z zone]]|]; try done; intros (b & H & ->)%fmap_Some; by apply parse_v6_ok in H.
Qed.

Lemma ParseAddr_cases s ip : ParseAddr s = Some ip ->
  addr_kind s = Some 46 /\ Addr4 <$> parse_v4 s 0 0 [] = Some ip \/ addr_kind s = Some 58 /\ parseIPv6 s = Some ip.
Proof.
  unfold ParseAddr. destruct (addr_kind s) as [k|]; [|done].
  destruct (decide (k = 46)) as [->|]; [by left|]. destruct (decide (k = 58)) as [->|]; [by right|].
  intros H. exfalso. repeat case_match; done.
Qed.

Lemma ParseAddr_ok s ip : ParseAddr s = Some ip -> Addr_ok ip.
Proof.
  intros [[_ (b & H & ->)%fmap_Some]|[_ H]]%ParseAddr_cases; [|by apply parseIPv6_ok in H].
  apply parse_v4_ok in H; [done | unfold byte_ok; lia | constructor | done].
Qed.

Lemma ParsePrefix_ok s p : ParsePrefix s = Some p -> Prefix_ok p.
Proof.
  unfold ParsePrefix. destruct (cut_last 47 s) as [[addr digits]|]; [|done]. destruct (ParseAddr addr) as [ip|] eqn:Hp; [|done].
  apply ParseAddr_ok in Hp. destruct (match ip with Addr6 _ zone => _ | Addr4 _ => false end); [done|]. destruct (_ && _); [done|].
  destruct (Atoi digits) as [bits [|]]; [done|]. destruct (_ || _) eqn:Hr; [done|]. intros [= <-].
  unfold PrefixFrom, Prefix_ok. cbn [pf_Addr pf_Bits]. destruct ip; cbn in *; (split; [done | split; [done | lia]]).
Qed.

Lemma Unmap_ok ip : Addr_ok ip -> Addr_ok (Unmap ip) /\ Is4In6 (Unmap ip) = false /\ Unmap (Unmap ip) = Unmap ip.
Proof.
  destruct ip as [b|b zone]; [done|]. intros [Hl Hb]. unfold Unmap. destruct (Is4In6 (Addr6 b zone)) eqn:E.
  - split_and!; try done. split; [unfold len in *; rewrite length_drop; lia | by apply Forall_drop].
  - by rewrite E.
Qed.

(** ** Every IPv4 text that is accepted is canonical *)
Definition fields_text (fields : bytes) : bytes := mjoin ((fun v => FormatUint v ++ [46]) <$> fields).

Lemma fields_text_snoc fields v : fields_text (fields ++ [v]) = fields_text fields ++ FormatUint v ++ [46].
Proof. unfold fields_text. rewrite fmap_app, join_app. cbn. by rewrite !app_nil_r. Qed.

Lemma string4_fields fields v : string4 (fields ++ [v]) = fields_text fields ++ FormatUint v.
Proof.
  destruct fields as [|f fields]; [cbn [app]; unfold string4, fields_text; cbn [fmap list_fmap join_with mjoin list_join app]; by rewrite app_nil_r|].
  revert f. induction fields as [|g fields IH]; intros f.
  - unfold string4, fields_text. cbn [app fmap list_fmap join_with mjoin list_join]. by rewrite !app_nil_r, <- app_assoc.
  - specialize (IH g). unfold string4, fields_text in *. cbn [app fmap list_fmap join_with mjoin list_join] in *.
    rewrite <- !app_assoc in *. f_equal. cbn [app]. f_equal. exact IH.
Qed.

Lemma FormatUint_snoc v d : 1 <= v <= 25 -> 0 <= d <= 9 -> FormatUint (v * 10 + d) = FormatUint v ++ [48 + d].
Proof.
  intros Hv Hd. assert (H : Forall (fun v => Forall (fun d => FormatUint (v * 10 + d) = FormatUint v ++ [48 + d]) (seqZ 0 10)) (seqZ 1 25))
    by (apply (bool_decide_unpack _); vm_compute; exact I).
  rewrite Forall_forall in H. specialize (H v ltac:(apply elem_of_seqZ; lia)). rewrite Forall_forall in H. apply H, elem_of_seqZ. lia.
Qed.

Lemma FormatUint_digit d : 0 <= d <= 9 -> FormatUint d = [48 + d].
Proof.
  intros Hd. assert (H : Forall (fun d => FormatUint d = [48 + d]) (seqZ 0 10)) by (apply (bool_decide_unpack _); vm_compute; exact I).
  rewrite Forall_forall in H. apply H, elem_of_seqZ. lia.
Qed.

Lemma parse_v4_canonical s : forall val digLen fields cur b,
  parse_v4 s val digLen fields = Some b -> 0 <= digLen -> 0 <= val <= 255 ->
  (digLen = 0 -> cur = [] /\ val = 0 /\ (s <> [] \/ len fields < 3)) -> (0 < digLen -> cur = FormatUint val) -> (1 < digLen -> 0 < val) ->
  fields_text fields ++ cur ++ s = string4 b.
Proof.
  induction s as [|c s IH]; intros val digLen fields cur b H Hd Hv H0 Hcur Hpos; cbn [parse_v4] in H.
  - destruct (Z.ltb_spec (len fields) 3); [done|]. injection H as <-. rewrite string4_fields, app_nil_r.
    destruct (Z.eqb_spec digLen 0) as [E|]; [destruct (H0 E) as (_ & _ & [|]); [done | lia] | by rewrite (Hcur ltac:(lia))].
  - unfold is_digit, between in H. destruct (_ && _) eqn:Hc.
    + destruct (_ && _) eqn:Hz in H; [done|]. destruct (Z.ltb_spec 255 (val * 10 + (c - 48))); [done|].
      assert (E : cur ++ c :: s = FormatUint (val * 10 + (c - 48)) ++ s).
      { destruct (Z.eqb_spec digLen 0) as [E|].
        - destruct (H0 E) as (-> & -> & _). rewrite Z.mul_0_l, Z.add_0_l, FormatUint_digit by lia. cbn. f_equal. lia.
        - rewrite FormatUint_snoc by lia. rewrite (Hcur ltac:(lia)), <- app_assoc. cbn. do 2 f_equal. lia. }
      rewrite E. eapply IH; [exact H | lia | lia | lia | done |]. destruct (Z.eqb_spec digLen 0); [lia|].
      intros _. assert (0 < val) by (destruct (Z.eqb_spec digLen 1); [lia | apply Hpos; lia]). lia.
    + destruct (Z.eqb_spec c 46) as [->|]; [|done]. destruct (_ || _) eqn:Hr; [done|]. apply orb_false_iff in Hr as [Hr1 Hr2].
      apply bool_decide_eq_false in Hr2. destruct (len fields =? 3) eqn:Hf; [done|].
      apply (IH 0 0 (fields ++ [val]) []) in H; [|lia|lia|auto|lia|lia].
      rewrite fields_text_snoc in H. rewrite (Hcur ltac:(lia)). rewrite <- !app_assoc in H. exact H.
Qed.

Lemma ParseAddr_v4_text s b : ParseAddr s = Some (Addr4 b) -> s = string4 b.
Proof.
  intros [[_ (b' & H & [= ->])%fmap_Some]|[_ H]]%ParseAddr_cases.
  - apply (parse_v4_canonical s 0 0 [] []) in H; try done; try lia. intros _. split_and!; try done. right. done.
  - unfold parseIPv6 in H. destruct (cut_at 37 s) as [[a [|? ?]]|]; try done; by apply fmap_Some in H as (? & _ & ?).
Qed.

(** ** Host and port (package net) *)
Definition SplitHostPort (hostport : bytes) : option (bytes * bytes) :=
  match cut_last 58 hostport with
  | None => None
  | Some (before, port) =>
      if bool_decide (head hostport = Some 91) then
        let rest := drop 1 hostport in
        match cut_at 93 rest with
        | None => None
        | Some (host, after) =>
            (* the bracket must end just before the last colon *)
            if negb (bool_decide (after = 58 :: port)) then None
            else if bool_decide (91 ∈ rest) || bool_decide (93 ∈ after) then None
            else Some (host, port)
        end
      else if bool_decide (58 ∈ before) then None
      else if bool_decide (91 ∈ hostport) || bool_decide (93 ∈ hostport) then None
      else Some (before, port)
  end.

Definition JoinHostPort (host port : bytes) : bytes :=
  if bool_decide (58 ∈ host) then [91] ++ host ++ [93; 58] ++ port else host ++ 58 :: port.

(** Text without brackets *)
Definition unbracketed (s : bytes) : Prop := (91 ∉ s) /\ (93 ∉ s).

Lemma SplitHostPort_Join host port : unbracketed host -> unbracketed port -> 58 ∉ port -> SplitHostPort (JoinHostPort host port) = Some (host, port).
Proof.
  intros [H1 H2] [P1 P2] Hp. unfold JoinHostPort, SplitHostPort. destruct (bool_decide_reflect (58 ∈ host)) as [Hc|Hc].
  - replace ([91] ++ host ++ [93; 58] ++ port) with (([91] ++ host ++ [93]) ++ 58 :: port) by (by rewrite <- !app_assoc).
    rewrite cut_last_Some by done. cbn [app head drop]. rewrite (bool_decide_true (Some 91 = Some 91)) by done. replace ((host ++ [93]) ++ 58 :: port) with (host ++ 93 :: 58 :: port) by (by rewrite <- app_assoc).
    rewrite (proj2 (cut_at_Some 93 _ host (58 :: port))) by done. rewrite (bool_decide_true (58 :: port = 58 :: port)) by done.
    rewrite !bool_decide_false; [done | |].
    + rewrite elem_of_cons. intros [|]; done.
    + rewrite drop_0, elem_of_app, !elem_of_cons. intros [|[|[|]]]; done.
  - rewrite cut_last_Some by done. assert (Hn : forall c, (c ∉ host) -> (c ∉ port) -> c <> 58 -> c ∉ host ++ 58 :: port).
    { intros c A C D. rewrite elem_of_app, elem_of_cons. intros [|[|]]; done. }
    rewrite !bool_decide_false; [done | by apply Hn | by apply Hn | done|].
    destruct host as [|x host]; [done|]. intros [= ->]. apply H1. by left.
Qed.
