(* ===== verification/ClientHandshake.v ===== *)
(** * The client's side of the handshake and of the transport
    (internal/handshake/client.go, transport.go)

    One connection attempt: [Start], [Finish], [BuildConfirm], [HandlePong] and
    then [Seal] and [Open].  Every method runs under the client's mutex and is
    one atomic step; the random reader is part of the client's state. *)

From stdpp Require Import base list strings numbers.
From S2P Require Import Prelude CodecErrors WireFormat Payload Packet Tlv Frame Replay Crypto HandshakeTypes HandshakeWire HandshakeServer ServerHandshake Netip.
Local Open Scope Z_scope.
Local Open Scope wg_scope.

Record Client : Set := mkClient {
  cl_state : State;
  cl_deploymentID : bytes;
  cl_staticPrivate : option bytes;
  cl_staticPublic : bytes;
  cl_serverStaticPublic : bytes;
  cl_options : clientOptions;
  cl_random : bytes;
  cl_context : bytes;
  cl_clientCID : Z;
  cl_serverCID : Z;
  cl_ephemeralPrivate : option bytes;
  cl_es : bytes;
  cl_th1 : bytes;
  cl_th2 : bytes;
  cl_c2sKey : bytes;
  cl_s2cKey : bytes;
  cl_sendPN : Z;
  cl_receiveWindow : ReplayWindow;
  cl_transportMaxSize : Z;
  cl_pendingChallenge : bytes;
  cl_haveChallenge : bool;
  cl_negotiated : Negotiated
}.

Definition zero_negotiated : Negotiated := mkNegotiated 0 0 0 0 0 [] [] 0 [].

Abbreviation cli A := (act Client HandshakeErr A).

Definition client_with_random (r : bytes) (c : Client) : Client :=
  mkClient (cl_state c) (cl_deploymentID c) (cl_staticPrivate c) (cl_staticPublic c)
    (cl_serverStaticPublic c) (cl_options c) r (cl_context c) (cl_clientCID c) (cl_serverCID c)
    (cl_ephemeralPrivate c) (cl_es c) (cl_th1 c) (cl_th2 c) (cl_c2sKey c) (cl_s2cKey c) (cl_sendPN c)
    (cl_receiveWindow c) (cl_transportMaxSize c) (cl_pendingChallenge c) (cl_haveChallenge c)
    (cl_negotiated c).
Definition client_started (cid : Z) (ephemeral es th1 : bytes) (c : Client) : Client :=
  mkClient StateInitialSent (cl_deploymentID c) (cl_staticPrivate c) (cl_staticPublic c)
    (cl_serverStaticPublic c) (cl_options c) (cl_random c) (cl_context c) cid (cl_serverCID c)
    (Some ephemeral) es th1 (cl_th2 c) (cl_c2sKey c) (cl_s2cKey c) (cl_sendPN c)
    (cl_receiveWindow c) (cl_transportMaxSize c) (cl_pendingChallenge c) (cl_haveChallenge c)
    (cl_negotiated c).
Definition client_finished (cid : Z) (th2 c2s s2c : bytes) (n : Negotiated) (c : Client) : Client :=
  mkClient StatePendingConfirm (cl_deploymentID c) (cl_staticPrivate c) (cl_staticPublic c)
    (cl_serverStaticPublic c) (cl_options c) (cl_random c) (cl_context c) (cl_clientCID c) cid
    None (zeros 32) (cl_th1 c) th2 c2s s2c (cl_sendPN c)
    (cl_receiveWindow c) (ng_MaxDatagramSize n) (cl_pendingChallenge c) (cl_haveChallenge c) n.
Definition client_closed (st : State) (c : Client) : Client :=
  mkClient st (cl_deploymentID c) (cl_staticPrivate c) (cl_staticPublic c)
    (cl_serverStaticPublic c) (cl_options c) (cl_random c) (cl_context c) (cl_clientCID c) (cl_serverCID c)
    None (zeros 32) (cl_th1 c) (cl_th2 c) (zeros 32) (zeros 32) (cl_sendPN c)
    (cl_receiveWindow c) (cl_transportMaxSize c) (zeros 8) false (cl_negotiated c).
Definition client_with_sendPN (pn : Z) (c : Client) : Client :=
  mkClient (cl_state c) (cl_deploymentID c) (cl_staticPrivate c) (cl_staticPublic c)
    (cl_serverStaticPublic c) (cl_options c) (cl_random c) (cl_context c) (cl_clientCID c) (cl_serverCID c)
    (cl_ephemeralPrivate c) (cl_es c) (cl_th1 c) (cl_th2 c) (cl_c2sKey c) (cl_s2cKey c) pn
    (cl_receiveWindow c) (cl_transportMaxSize c) (cl_pendingChallenge c) (cl_haveChallenge c)
    (cl_negotiated c).
Definition client_with_window (w : ReplayWindow) (c : Client) : Client :=
  mkClient (cl_state c) (cl_deploymentID c) (cl_staticPrivate c) (cl_staticPublic c)
    (cl_serverStaticPublic c) (cl_options c) (cl_random c) (cl_context c) (cl_clientCID c) (cl_serverCID c)
    (cl_ephemeralPrivate c) (cl_es c) (cl_th1 c) (cl_th2 c) (cl_c2sKey c) (cl_s2cKey c) (cl_sendPN c)
    w (cl_transportMaxSize c) (cl_pendingChallenge c) (cl_haveChallenge c) (cl_negotiated c).
Definition client_challenged (st : State) (challenge : bytes) (have : bool) (c : Client) : Client :=
  mkClient st (cl_deploymentID c) (cl_staticPrivate c) (cl_staticPublic c)
    (cl_serverStaticPublic c) (cl_options c) (cl_random c) (cl_context c) (cl_clientCID c) (cl_serverCID c)
    (cl_ephemeralPrivate c) (cl_es c) (cl_th1 c) (cl_th2 c) (cl_c2sKey c) (cl_s2cKey c) (cl_sendPN c)
    (cl_receiveWindow c) (cl_transportMaxSize c) challenge have (cl_negotiated c).

Definition client_closeLocked (st : State) : cli unit := act_set (client_closed st).
Definition Client_Close : cli unit := client_closeLocked StateClosed.

(** States are ordered as declared. *)
Definition negotiated_visible (st : State) : bool :=
  match st with
  | StatePendingConfirm | StatePendingPong | StateEstablished => true
  | StateIdle | StateInitialSent | StateRejected | StateClosed => false
  end.
Definition Client_Negotiated (c : Client) : Negotiated * bool :=
  if negotiated_visible (cl_state c) then (cl_negotiated c, true) else (zero_negotiated, false).

(** [!address.IsGlobalUnicast() || address.IsLoopback()] *)
Definition unacceptable (address : Addr) : bool := negb (IsGlobalUnicast address) || IsLoopback address.

Definition validateHandshakeFields (c : Client) (fields : list TLV) (outerServerCID : Z)
  : hs (Negotiated * Z) :=
  let version := find_or_nil fields TLVVersion in
  let deployment := find_or_nil fields TLVDeploymentID in
  let clientCIDValue := find_or_nil fields TLVClientCID in
  let serverCIDValue := find_or_nil fields TLVServerCID in
  let capabilities := find_or_nil fields TLVCapabilities in
  let addressFamilies := find_or_nil fields TLVAddressFamilies in
  let maxDatagram := find_or_nil fields TLVMaxDatagramSize in
  let tunnelMTU := find_or_nil fields TLVTunnelMTU in
  let leaseSeconds := find_or_nil fields TLVLeaseSeconds in
  let* wrong := (if negb (len version =? 1) then Ok true
                 else let* v := index version 0 in Ok (negb (v =? Version1))) in
  if (wrong : bool) then Err ErrParameters
  else if negb (secureEqual deployment (cl_deploymentID c)) then Err ErrParameters
  else
    let* clientCID := Uint64 clientCIDValue in
    if negb (clientCID =? cl_clientCID c) then Err ErrConnectionID
    else
      let* serverCID := Uint64 serverCIDValue in
      if (serverCID =? 0) || negb (serverCID =? outerServerCID) then Err ErrConnectionID
      else
        let* returnedFamilies := index addressFamilies 0 in
        if (returnedFamilies =? 0)
           || negb (and_not returnedFamilies (co_addressFamilies (cl_options c)) =? 0)
        then Err ErrParameters
        else
          let* returnedMaxDatagram := Uint16 maxDatagram in
          if (returnedMaxDatagram <? HeaderSize + AEADTagSize + FrameHeaderSize)
             || (co_maxDatagramSize (cl_options c) <? returnedMaxDatagram)
          then Err ErrParameters
          else
            let* returnedMTU := Uint16 tunnelMTU in
            if (returnedMTU <? co_minTunnelMTU (cl_options c))
               || (co_maxTunnelMTU (cl_options c) <? returnedMTU)
               || (tunnel_room returnedMaxDatagram <? returnedMTU)
            then Err ErrParameters
            else
              let* returnedLeaseSeconds := Uint32 leaseSeconds in
              if returnedLeaseSeconds =? 0 then Err ErrParameters
              else
                let ipv4Lease := FindTLV fields TLVIPv4Lease in
                let ipv6Lease := FindTLV fields TLVIPv6Lease in
                let hasIPv4 := bool_decide (is_Some ipv4Lease) in
                let hasIPv6 := bool_decide (is_Some ipv6Lease) in
                if negb (Bool.eqb hasIPv4 (negb (Z.land returnedFamilies 1 =? 0)))
                   || negb (Bool.eqb hasIPv6 (negb (Z.land returnedFamilies 2 =? 0)))
                then Err ErrParameters
                else
                  let* bad4 := (match ipv4Lease with
                    | Some lease => let* a := slice lease 0 4 in Ok (unacceptable (AddrFrom4 a))
                    | None => Ok false end) in
                  if (bad4 : bool) then Err ErrParameters
                  else
                    let* bad6 := (match ipv6Lease with
                      | Some lease => let* a := slice lease 0 16 in Ok (unacceptable (AddrFrom16 a))
                      | None => Ok false end) in
                    if (bad6 : bool) then Err ErrParameters
                    else
                      let* egressPolicy := (match FindTLV fields TLVEgressPolicyVersion with
                        | Some value => Uint64 value
                        | None => Ok 0 end) in
                      let dnsParameters := find_or_nil fields TLVDNSParameters in
                      let* caps := Uint64 capabilities in
                      Ok (mkNegotiated caps returnedFamilies returnedMaxDatagram returnedMTU
                            returnedLeaseSeconds (default [] ipv4Lease) (default [] ipv6Lease)
                            egressPolicy dnsParameters, serverCID).

Definition draw_client_CID : cli Z := fun c =>
  let '(rest, r) := nextNonZeroCID (cl_random c) in (client_with_random rest c, r).

(** [if err != nil { closeLocked(StateRejected) }], deferred *)
Definition reject_on_error {A} (m : cli A) : cli A := fun c =>
  match m c with
  | (c, Err e) => (client_closed StateRejected c, Err e)
  | r => r
  end.

(** The fields of INITIAL. *)
Definition initialFields (c : Client) (clientCID : Z) : hs (list TLV) :=
  let* cid := encodeUint64 clientCID in
  let* capabilities := encodeUint64 (co_capabilities (cl_options c)) in
  let* datagram := encodeUint16 (co_maxDatagramSize (cl_options c)) in
  Ok [mkTLV TLVVersion [Version1]; mkTLV TLVDeploymentID (cl_deploymentID c);
      mkTLV TLVClientCID cid; mkTLV TLVCapabilities capabilities;
      mkTLV TLVAddressFamilies [co_addressFamilies (cl_options c)];
      mkTLV TLVMaxDatagramSize datagram; mkTLV TLVClientStaticKey (cl_staticPublic c)].

Section Client.
Context {P : Primitives}.

Definition NewClient (config : ClientConfig) (random : bytes) : hs Client :=
  let* options := normalizeClientConfig config in
  match cc_StaticPrivate config with
  | None => Panic
  | Some private =>
      let* staticPublic := as_hs ErrConfiguration (PublicBytes (Some (x25519_PublicKey private))) in
      Ok (mkClient StateIdle (cc_DeploymentID config) (Some private) staticPublic
            (cc_ServerStaticPublic config) options random (Context (cc_DeploymentID config))
            0 0 None (zeros 32) (zeros 32) (zeros 32) (zeros 32) (zeros 32) 0 NewReplayWindow
            (co_maxDatagramSize options) (zeros 8) false zero_negotiated)
  end.

Definition draw_client_key : cli bytes := fun c =>
  match GenerateKeyFrom (Some (cl_random c)) with
  | Ok (private, rest) => (client_with_random rest c, Ok private)
  | _ => (client_with_random [] c, Err ErrConfiguration)
  end.

(** INITIAL and its transcript hash, from the drawn identifier and key. *)
Definition buildInitial (c : Client) (clientCID : Z) (ephemeralPrivate : bytes)
  : hs (bytes * bytes * bytes) :=
  let* ephemeralPublic := as_hs ErrConfiguration (PublicBytes (Some (x25519_PublicKey ephemeralPrivate))) in
  let* es := as_hs ErrAuthentication (DH (Some ephemeralPrivate) (cl_serverStaticPublic c)) in
  let* keys := as_hs ErrAuthentication (DeriveM1 (cl_context c) es) in
  let* fields := initialFields c clientCID in
  let* plaintext := as_hs ErrMessage (MarshalTLVsFor fields TLVContextInitial) in
  let ciphertextLength := len plaintext + AEADTagSize in
  let* prefix := makeInitialPrefix (co_retryToken (cl_options c)) ephemeralPublic ciphertextLength in
  let* hdr := makeHeader PacketInitial 0 clientCID 0 (len prefix + ciphertextLength) in
  let m1AD := join [cl_context c; snd hdr; prefix] in
  let* ciphertext := as_hs ErrAuthentication (SealHandshake (snd keys) m1AD plaintext) in
  if negb (len ciphertext =? ciphertextLength) then Err ErrMessage
  else
    let* datagram := marshalWirePacket (fst hdr) prefix ciphertext (co_maxDatagramSize (cl_options c)) in
    Ok (datagram, es, Sum256 [m1AD; ciphertext]).

Definition Start : cli bytes :=
  let! c := act_get in
  if negb (bool_decide (cl_state c = StateIdle)) then act_fail ErrState
  else
    let! clientCID := draw_client_CID in
    let! ephemeralPrivate := draw_client_key in
    let! built := act_lift (buildInitial c clientCID ephemeralPrivate) in
    let '(datagram, es, th1) := built in
    do! act_set (client_started clientCID ephemeralPrivate es th1);
    act_ret datagram.

(** What [Finish] computes before it changes the client. *)
Definition openHandshake (c : Client) (datagram : bytes)
  : hs (Negotiated * Z * bytes * (bytes * bytes)) :=
  let* parsed := parseHandshakeWire datagram (co_maxDatagramSize (cl_options c)) (cl_context c) (cl_th1 c) in
  let '(packet, message, m2AD, th2) := parsed in
  if negb (DCID (pkt_Header packet) =? cl_clientCID c) || (SCID (pkt_Header packet) =? 0)
  then Err ErrConnectionID
  else
    let* ss := as_hs ErrAuthentication (DH (cl_staticPrivate c) (cl_serverStaticPublic c)) in
    let* ee := as_hs ErrAuthentication (DH (cl_ephemeralPrivate c) (hs_ServerEphemeralPublic message)) in
    let* se := as_hs ErrAuthentication (DH (cl_staticPrivate c) (hs_ServerEphemeralPublic message)) in
    let* keys := as_hs ErrAuthentication (DeriveM2 (cl_th1 c) (cl_es c) ss ee se) in
    let* plaintext := as_hs ErrAuthentication (OpenHandshake (snd keys) m2AD (hs_EncryptedPayload message)) in
    let* fields := as_hs ErrMessage (ParseTLVsFor plaintext TLVContextHandshake) in
    let* checked := validateHandshakeFields c fields (SCID (pkt_Header packet)) in
    let* traffic := as_hs ErrAuthentication (DeriveTraffic (fst keys) th2) in
    Ok (fst checked, snd checked, th2, traffic).

Definition Finish (datagram : bytes) : cli unit :=
  let! c := act_get in
  if negb (bool_decide (cl_state c = StateInitialSent)) || bool_decide (cl_ephemeralPrivate c = None)
  then act_fail ErrState
  else reject_on_error (
    let! opened := act_lift (openHandshake c datagram) in
    let '(negotiated, serverCID, th2, traffic) := opened in
    act_set (client_finished serverCID th2 (fst traffic) (snd traffic) negotiated)).

(** ** Transport (transport.go) *)
Definition client_sealLocked (frames : list Frame) : cli bytes :=
  let! c := act_get in
  if rehandshakePacketNumber <=? cl_sendPN c then
    do! client_closeLocked StateClosed; act_fail ErrState
  else
    let pn := cl_sendPN c in
    do! act_set (client_with_sendPN (u64 (cl_sendPN c + 1)));
    let header := mkHeader Version1 PacketTransport 0 (cl_serverCID c) (cl_clientCID c) pn 0 0 in
    let! packet := act_lift (as_hs ErrMessage
        (SealTransport (cl_c2sKey c) header frames (maxPlaintextForDatagram (cl_transportMaxSize c)))) in
    act_lift (as_hs ErrMessage (Packet_MarshalBinary packet (cl_transportMaxSize c))).

Definition client_openLocked (datagram : bytes) : cli (list Frame) :=
  let! c := act_get in
  let! packet := act_lift (parseTransportDatagram datagram (cl_transportMaxSize c)) in
  let h := pkt_Header packet in
  if negb (DCID h =? cl_clientCID c) || negb (SCID h =? cl_serverCID c) then act_fail ErrConnectionID
  else if (rehandshakePacketNumber <=? PacketNumber h) || negb (Precheck (cl_receiveWindow c) (PacketNumber h))
  then act_fail ErrMessage
  else
    let! plaintext := act_lift (as_hs ErrAuthentication (OpenTransportPlaintext (cl_s2cKey c) packet)) in
    let! accepted := act_lift (as_hs ErrMessage (AcceptAuthenticated (cl_receiveWindow c) (PacketNumber h))) in
    do! act_set (client_with_window (fst accepted));
    match snd accepted with
    | Some _ => act_fail ErrMessage
    | None => act_lift (as_hs ErrMessage (ParseFrames plaintext (maxPlaintextForDatagram (cl_transportMaxSize c))))
    end.

Definition confirm_frames (th2 challenge : bytes) : list Frame :=
  [mkFrame FrameConfirm 0 th2; mkFrame FramePing 0 challenge].

Definition BuildConfirm : cli (bytes * bytes) :=
  let! c := act_get in
  if negb (bool_decide (cl_state c = StatePendingConfirm)) then act_fail ErrState
  else
    match ReadFull (cl_random c) 8 with
    | None => do! act_set (client_with_random []); act_fail ErrConfiguration
    | Some (challenge, rest) =>
        do! act_set (client_with_random rest);
        let! datagram := client_sealLocked (confirm_frames (cl_th2 c) challenge) in
        do! act_set (client_challenged StatePendingPong challenge true);
        act_ret (datagram, challenge)
    end.

Definition RetransmitConfirm : cli bytes :=
  let! c := act_get in
  if negb (bool_decide (cl_state c = StatePendingPong)) || negb (cl_haveChallenge c) then act_fail ErrState
  else client_sealLocked (confirm_frames (cl_th2 c) (cl_pendingChallenge c)).

Definition HandlePong (datagram : bytes) : cli unit :=
  let! c := act_get in
  if negb (bool_decide (cl_state c = StatePendingPong)) || negb (cl_haveChallenge c) then act_fail ErrState
  else
    let! frames := client_openLocked datagram in
    match frames with
    | [pong] =>
        if negb (frame_Type pong =? FramePong)
           || negb (secureEqual (frame_Body pong) (cl_pendingChallenge c))
        then act_fail ErrMessage
        else act_set (client_challenged StateEstablished (zeros 8) false)
    | _ => act_fail ErrMessage
    end.

Definition Client_Seal (frames : list Frame) : cli bytes :=
  let! c := act_get in
  if negb (bool_decide (cl_state c = StateEstablished)) then act_fail ErrState
  else client_sealLocked frames.

Definition Client_Open (datagram : bytes) : cli (list Frame) :=
  let! c := act_get in
  if negb (bool_decide (cl_state c = StateEstablished)) then act_fail ErrState
  else client_openLocked datagram.
End Client.
