(* ===== verification/Channel.v ===== *)
(** * The established channel (internal/handshake/transport.go)

    [sealLocked] and [openLocked] of both ends over one description of a
    transport packet, an interface that states what an established endpoint
    promises, and the theorem that two matched endpoints deliver what was sent,
    each message at most once, under any loss, duplication and reordering. *)

From stdpp Require Import base list strings numbers gmap.
From S2P Require Import Prelude CodecErrors WireFormat Payload Packet Tlv Frame Replay Crypto HandshakeTypes HandshakeWire HandshakeServer ServerHandshake Netip ClientHandshake.
Local Open Scope Z_scope.
Local Open Scope wg_scope.

(** ** One packet *)
Section Packet.
Context {P : Primitives}.

Definition transport_send (key : bytes) (dcid scid pn max : Z) (frames : list Frame) : hs bytes :=
  let header := mkHeader Version1 PacketTransport 0 dcid scid pn 0 0 in
  let* packet := as_hs ErrMessage (SealTransport key header frames (maxPlaintextForDatagram max)) in
  as_hs ErrMessage (Packet_MarshalBinary packet max).

(** The window after an authentic packet, and what the caller gets. *)
Definition transport_receive (key : bytes) (local remote : Z) (w : ReplayWindow) (max : Z) (d : bytes)
  : hs (ReplayWindow * hs (list Frame)) :=
  let* packet := parseTransportDatagram d max in
  let h := pkt_Header packet in
  if negb (DCID h =? local) || negb (SCID h =? remote) then Err ErrConnectionID
  else if (rehandshakePacketNumber <=? PacketNumber h) || negb (Precheck w (PacketNumber h)) then Err ErrMessage
  else
    let* plaintext := as_hs ErrAuthentication (OpenTransportPlaintext key packet) in
    let* accepted := as_hs ErrMessage (AcceptAuthenticated w (PacketNumber h)) in
    Ok (fst accepted,
        match snd accepted with
        | Some _ => Err ErrMessage
        | None => as_hs ErrMessage (ParseFrames plaintext (maxPlaintextForDatagram max))
        end).
End Packet.

Lemma Precheck_history w h pn :
  represents w h -> Precheck w pn = match verdict h pn with Some ErrReplayTooOld => false | _ => true end.
Proof.
  intros [_ _ Hi Hh _]. unfold Precheck, verdict, ReplayWindowSize. rewrite Hi.
  destruct (bool_decide_reflect (h = [])) as [->|Hne]; simpl; [done|]. rewrite Hh by done.
  destruct (Z.ltb_spec (newest h) pn); simpl; [done|].
  destruct (Z.leb_spec 2048 (newest h - pn)); [lia|]. destruct (bool_decide _); lia.
Qed.

Section PacketLaws.
Context {P : Primitives} {HP : PrimitivesOk P}.

Lemma transport_header_ok dcid scid pn :
  0 < dcid < 2 ^ 64 -> 0 < scid < 2 ^ 64 -> 0 <= pn < 2 ^ 32 ->
  Header_ok (mkHeader Version1 PacketTransport 0 dcid scid pn 0 0).
Proof.
  intros. unfold Header_ok, uint_ok, Version1, PacketTransport.
  cbn [Version Kind Flags DCID SCID PacketNumber PayloadLength Reserved]. lia.
Qed.

(** What the receiver of a sent packet does with it is what the history of
    accepted packet numbers says. *)
Lemma transport_received key dcid scid pn max frames d w h :
  key_ok key -> 0 < dcid < 2 ^ 64 -> 0 < scid < 2 ^ 64 -> 0 <= pn < 2 ^ 32 -> Forall Frame_ok frames ->
  represents w h -> transport_send key dcid scid pn max frames = Ok d ->
  match verdict h pn with
  | None => exists w', transport_receive key dcid scid w max d = Ok (w', Ok frames) /\ represents w' (pn :: h)
  | Some ErrReplayTooOld => transport_receive key dcid scid w max d = Err ErrMessage
  | Some _ => exists w', transport_receive key dcid scid w max d = Ok (w', Err ErrMessage) /\ represents w' h
  end.
Proof.
  intros [Hk _] Hd Hs Hpn Hf Hr H. unfold transport_send, as_hs in H. inv_ok.
  assert (Hpn' : uint_ok 64 pn) by (unfold uint_ok; lia).
  apply (transport_datagram key _ _ _ _ max d) in Ha as Hp; [|done | done | by apply transport_header_ok | done].
  destruct Hp as [Hp _]. apply OpenTransport_SealTransport in Ha as (_ & (pt & Ho & Hparse) & He & _); [|done | done].
  unfold transport_receive, parseTransportDatagram, as_hs. rewrite Hp. cbn [wrap_err obind].
  assert (Hh : Kind (pkt_Header a) = PacketTransport /\ DCID (pkt_Header a) = dcid
    /\ SCID (pkt_Header a) = scid /\ PacketNumber (pkt_Header a) = pn) by (by rewrite He).
  destruct Hh as (-> & HD & HS & HN). rewrite !Z.eqb_refl. cbn [negb obind].
  rewrite HD, HS, HN, !Z.eqb_refl. cbn [negb orb].
  replace (rehandshakePacketNumber <=? pn) with false by (change rehandshakePacketNumber with (2 ^ 32); lia).
  rewrite (Precheck_history w h) by done.
  destruct (accept_refines w h pn Hr Hpn') as (w' & Hacc & Hr'). unfold record in Hr'. cbn [orb].
  destruct (verdict h pn) as [[]|]; cbn [negb]; try done; rewrite Ho; cbn [wrap_err obind];
    rewrite Hacc; cbn [wrap_err obind fst snd fmap option_fmap option_map]; exists w'; (split; [|done]).
  all: try done. by rewrite Hparse.
Qed.
End PacketLaws.

(** ** The interface of an established endpoint *)
Record View : Set := mkView {
  v_sendKey : bytes;
  v_recvKey : bytes;
  v_local : Z;
  v_remote : Z;
  v_sendPN : Z;
  v_window : ReplayWindow;
  v_max : Z
}.

Definition view_sent (v : View) : View :=
  mkView (v_sendKey v) (v_recvKey v) (v_local v) (v_remote v) (v_sendPN v + 1) (v_window v) (v_max v).
Definition view_window (v : View) (w : ReplayWindow) : View :=
  mkView (v_sendKey v) (v_recvKey v) (v_local v) (v_remote v) (v_sendPN v) w (v_max v).

Definition view_send `{Primitives} (v : View) (frames : list Frame) : hs bytes :=
  transport_send (v_sendKey v) (v_remote v) (v_local v) (v_sendPN v) (v_max v) frames.
Definition view_receive `{Primitives} (v : View) (d : bytes) : View * hs (list Frame) :=
  match transport_receive (v_recvKey v) (v_local v) (v_remote v) (v_window v) (v_max v) d with
  | Ok (w, r) => (view_window v w, r)
  | Err e => (v, Err e)
  | Panic => (v, Panic)
  | Diverge => (v, Diverge)
  end.

(** Sealing, opening and what an established endpoint knows. *)
Class Endpoint (S : Type) := {
  ep_Seal : list Frame -> act S HandshakeErr bytes;
  ep_Open : bytes -> act S HandshakeErr (list Frame);
  ep_view : S -> option View
}.

(** The contract: a packet number is spent by every attempt to seal, and the
    window moves only on an authentic packet. *)
Class EndpointOk `{Primitives} {S : Type} (E : Endpoint S) : Prop := {
  ep_Seal_law : forall s v frames, ep_view s = Some v -> 0 <= v_sendPN v < 2 ^ 32 ->
    exists s', ep_Seal frames s = (s', view_send v frames) /\ ep_view s' = Some (view_sent v);
  ep_Open_law : forall s v d, ep_view s = Some v ->
    exists s', ep_Open d s = (s', snd (view_receive v d)) /\ ep_view s' = Some (fst (view_receive v d))
}.

Section Endpoints.
Context {P : Primitives}.

Definition client_view (c : Client) : option View :=
  if bool_decide (cl_state c = StateEstablished)
  then Some (mkView (cl_c2sKey c) (cl_s2cKey c) (cl_clientCID c) (cl_serverCID c) (cl_sendPN c)
               (cl_receiveWindow c) (cl_transportMaxSize c))
  else None.

Definition session_view (x : ServerSession) : option View :=
  if bool_decide (ss_state x = StateEstablished)
  then Some (mkView (ss_s2cKey x) (ss_c2sKey x) (ss_serverCID x) (ss_clientCID x) (ss_sendPN x)
               (ss_receiveWindow x) (ss_maxDatagram x))
  else None.

#[export] Instance client_endpoint : Endpoint Client := {|
  ep_Seal := Client_Seal; ep_Open := Client_Open; ep_view := client_view
|}.

(** A session of the server, by its identifier; no packet-number limit is hit
    before 2^32, so the clock [sealLocked] reads when it closes is irrelevant. *)
Definition server_endpoint (sid : nat) (now : Z) : Endpoint Server := {|
  ep_Seal := fun frames => ServerSession_Seal sid frames now;
  ep_Open := ServerSession_Open sid;
  ep_view := fun s => x ← sv_sessions s !! sid; session_view x
|}.

Lemma client_sealLocked_run c frames :
  0 <= cl_sendPN c < 2 ^ 32 ->
  client_sealLocked frames c =
  (client_with_sendPN (cl_sendPN c + 1) c,
   transport_send (cl_c2sKey c) (cl_serverCID c) (cl_clientCID c) (cl_sendPN c) (cl_transportMaxSize c) frames).
Proof.
  intros Hpn. unfold client_sealLocked, act_bind at 1, act_get.
  replace (rehandshakePacketNumber <=? cl_sendPN c) with false by (change rehandshakePacketNumber with (2 ^ 32); lia).
  unfold u64. rewrite Z.mod_small by lia. unfold act_bind, act_set, act_lift, transport_send.
  by destruct (SealTransport _ _ _ _).
Qed.

Lemma client_openLocked_run c d :
  client_openLocked d c =
  match transport_receive (cl_s2cKey c) (cl_clientCID c) (cl_serverCID c) (cl_receiveWindow c)
          (cl_transportMaxSize c) d with
  | Ok (w, r) => (client_with_window w c, r)
  | Err e => (c, Err e)
  | Panic => (c, Panic)
  | Diverge => (c, Diverge)
  end.
Proof.
  unfold client_openLocked, transport_receive, act_bind, act_get, act_lift, act_set, act_fail.
  destruct (parseTransportDatagram _ _) as [packet|e| |]; try done. cbn [obind].
  destruct (_ || _); [done|]. destruct (_ || _); [done|].
  destruct (as_hs ErrAuthentication _) as [pt|e| |]; try done. cbn [obind].
  destruct (as_hs ErrMessage (AcceptAuthenticated _ _)) as [[w [e|]]|e| |]; done.
Qed.

Lemma session_sealLocked_run s sid x frames now :
  sv_sessions s !! sid = Some x -> 0 <= ss_sendPN x < 2 ^ 32 ->
  session_sealLocked sid frames now s =
  (server_with_sessions (<[sid := session_with_sendPN x (ss_sendPN x + 1)]> (sv_sessions s)) (sv_nextSession s) s,
   transport_send (ss_s2cKey x) (ss_clientCID x) (ss_serverCID x) (ss_sendPN x) (ss_maxDatagram x) frames).
Proof.
  intros Hx Hpn. unfold session_sealLocked, act_bind at 1, get_session. rewrite Hx.
  replace (rehandshakePacketNumber <=? ss_sendPN x) with false by (change rehandshakePacketNumber with (2 ^ 32); lia).
  unfold u64. rewrite Z.mod_small by lia. unfold act_bind, put_session, act_set, act_lift, transport_send.
  by destruct (SealTransport _ _ _ _).
Qed.

Lemma session_openLocked_run s sid x d :
  sv_sessions s !! sid = Some x ->
  session_openLocked sid d s =
  match transport_receive (ss_c2sKey x) (ss_serverCID x) (ss_clientCID x) (ss_receiveWindow x)
          (ss_maxDatagram x) d with
  | Ok (w, r) => (server_with_sessions (<[sid := session_with_window x w]> (sv_sessions s)) (sv_nextSession s) s, r)
  | Err e => (s, Err e)
  | Panic => (s, Panic)
  | Diverge => (s, Diverge)
  end.
Proof.
  intros Hx. unfold session_openLocked, transport_receive, act_bind, get_session, act_lift, put_session, act_set, act_fail.
  rewrite Hx. destruct (parseTransportDatagram _ _) as [packet|e| |]; try done. cbn [obind].
  destruct (_ || _); [done|]. destruct (_ || _); [done|].
  destruct (as_hs ErrAuthentication _) as [pt|e| |]; try done. cbn [obind].
  destruct (as_hs ErrMessage (AcceptAuthenticated _ _)) as [[w [e|]]|e| |]; done.
Qed.
#[export] Instance client_endpoint_ok : EndpointOk client_endpoint.
Proof.
  split; cbn [ep_Seal ep_Open ep_view client_endpoint]; unfold client_view.
  - intros c v frames Hv Hpn. case_bool_decide as Hs; [|done]. injection Hv as <-. cbn [v_sendPN] in Hpn.
    unfold Client_Seal, act_bind, act_get. rewrite bool_decide_true by done. cbn [negb].
    rewrite client_sealLocked_run by done. eexists. split; [done|]. cbn. by rewrite bool_decide_true.
  - intros c v d Hv. case_bool_decide as Hs; [|done]. injection Hv as <-.
    unfold Client_Open, act_bind, act_get. rewrite bool_decide_true by done. cbn [negb].
    rewrite client_openLocked_run. unfold view_receive.
    cbn [v_recvKey v_local v_remote v_window v_max].
    destruct (transport_receive _ _ _ _ _ d) as [[w r]|e| |]; eexists; (split; [done|]); cbn; by rewrite bool_decide_true.
Qed.

#[export] Instance server_endpoint_ok sid now : EndpointOk (server_endpoint sid now).
Proof.
  split; cbn [ep_Seal ep_Open ep_view server_endpoint]; unfold session_view.
  - intros s v frames Hv Hpn. destruct (sv_sessions s !! sid) as [x|] eqn:Hx; [|done]. simpl in Hv.
    case_bool_decide as Hs; [|done]. injection Hv as <-. cbn [v_sendPN] in Hpn.
    unfold ServerSession_Seal, act_bind, get_session. rewrite Hx, bool_decide_true by done. cbn [negb].
    rewrite (session_sealLocked_run s sid x) by done. eexists. split; [done|]. cbn.
    rewrite lookup_insert_eq. cbn. by rewrite bool_decide_true.
  - intros s v d Hv. destruct (sv_sessions s !! sid) as [x|] eqn:Hx; [|done]. simpl in Hv.
    case_bool_decide as Hs; [|done]. injection Hv as <-.
    unfold ServerSession_Open, act_bind, get_session. rewrite Hx, bool_decide_true by done. cbn [negb].
    rewrite (session_openLocked_run s sid x) by done. unfold view_receive.
    cbn [v_recvKey v_local v_remote v_window v_max].
    destruct (transport_receive _ _ _ _ _ d) as [[w r]|e| |]; eexists; (split; [done|]); cbn;
      rewrite ?Hx, ?lookup_insert_eq; cbn; by rewrite bool_decide_true.
Qed.
End Endpoints.

(** ** Delivery *)
Section Delivery.
Context {P : Primitives} {HP : PrimitivesOk P}.

(** A valid plaintext always fits and is always sealed. *)
Lemma transport_send_ok key dcid scid pn max frames pt :
  key_ok key -> 0 < dcid < 2 ^ 64 -> 0 < scid < 2 ^ 64 -> 0 <= pn < 2 ^ 32 -> 52 <= max < 2 ^ 16 ->
  Forall Frame_ok frames -> MarshalFrames frames (maxPlaintextForDatagram max) = Ok pt ->
  exists d, transport_send key dcid scid pn max frames = Ok d.
Proof.
  intros [Hk _] Hd Hs Hpn Hmax Hf H. apply MarshalFrames_inv in H as Hi; [|done].
  destruct Hi as (limit & Hn & -> & Hl & _). unfold maxPlaintextForDatagram, HeaderSize, AEADTagSize in *.
  assert (limit = max - 32 - 16) as ->.
  { unfold normalizeFrameLimit, FrameHeaderSize, MaxUint16 in Hn. inv_ok; lia. }
  set (h := mkHeader Version1 PacketTransport 0 dcid scid pn 0 0).
  assert (Hv : forall n, Header_validate (with_PayloadLength h n) = Ok tt).
  { intros n. unfold Header_validate. cbn. by_test. done. }
  pose proof (len_nonneg (frames_bytes frames)) as Hnn.
  unfold transport_send, as_hs, SealTransport, maxPlaintextForDatagram, HeaderSize, AEADTagSize. fold h. rewrite H.
  change (Kind h =? PacketTransport) with true. cbn [negb wrap_err obind].
  unfold SealTransportPlaintext, Overhead, MaxUint16, as_err. change (Kind h =? PacketTransport) with true. cbn [negb].
  by_test. rewrite Header_marshal_layout by apply Hv. cbn [wrap_err obind]. unfold aead_New. rewrite Hk.
  cbn [Z.eqb Pos.eqb negb obind wrap_err]. rewrite Packet_marshal_layout; [by eexists | | apply Hv |].
  - exists max. unfold normalizeDatagramLimit, HeaderSize, MaxUint16. cbn [pkt_Payload]. rewrite aead_Seal_size.
    by_test. split_and!; [done | lia | lia].
  - cbn. unfold ParseTransport, MaxUint16, AEADTagSize. rewrite aead_Seal_size. by_test. done.
Qed.
(** One endpoint's traffic: every message sealed in turn, every datagram opened
    in the order it arrives. *)
Fixpoint seal_all {S} `{!Endpoint S} (msgs : list (list Frame)) (s : S) : S * list (hs bytes) :=
  match msgs with
  | [] => (s, [])
  | m :: rest => let '(s, r) := ep_Seal m s in let '(s, rs) := seal_all rest s in (s, r :: rs)
  end.
Fixpoint open_all {S} `{!Endpoint S} (ds : list bytes) (s : S) : S * list (hs (list Frame)) :=
  match ds with
  | [] => (s, [])
  | d :: rest => let '(s, r) := ep_Open d s in let '(s, rs) := open_all rest s in (s, r :: rs)
  end.

(** What the history says of a schedule: message [i] of those sent from packet
    number [base] on is handed over when its number is new and not too old. *)
Fixpoint deliveries (base : Z) (msgs : list (list Frame)) (h : list Z) (schedule : list nat)
  : list (hs (list Frame)) :=
  match schedule with
  | [] => []
  | i :: rest =>
      let pn := base + Z.of_nat i in
      (match verdict h pn with None => Ok (msgs !!! i) | Some _ => Err ErrMessage end)
      :: deliveries base msgs (record h pn) rest
  end.

(** The sender [a] and the receiver [b] of one direction. *)
Record matched (a b : View) : Prop := {
  ma_key : v_sendKey a = v_recvKey b /\ key_ok (v_sendKey a);
  ma_local : v_local a = v_remote b /\ 0 < v_local a < 2 ^ 64;
  ma_remote : v_remote a = v_local b /\ 0 < v_remote a < 2 ^ 64;
  ma_max : v_max a = v_max b /\ 52 <= v_max a < 2 ^ 16
}.

(** A message the frame encoder accepts within the datagram limit. *)
Definition sendable (max : Z) (m : list Frame) : Prop :=
  Forall Frame_ok m /\ exists pt, MarshalFrames m (maxPlaintextForDatagram max) = Ok pt.

Lemma seal_all_spec {S} {E : Endpoint S} {HE : EndpointOk E} msgs : forall (s : S) v b,
  ep_view s = Some v -> matched v b -> 0 <= v_sendPN v -> v_sendPN v + len msgs <= 2 ^ 32 ->
  Forall (sendable (v_max v)) msgs ->
  exists s' ds, seal_all msgs s = (s', map Ok ds) /\ length ds = length msgs
    /\ forall i m, msgs !! i = Some m -> exists d, ds !! i = Some d
       /\ transport_send (v_sendKey v) (v_remote v) (v_local v) (v_sendPN v + Z.of_nat i) (v_max v) m = Ok d.
Proof.
  induction msgs as [|m msgs IH]; intros s v b Hv Hm Hpn Hlen Hs; cbn [seal_all].
  { by exists s, []. }
  rewrite len_cons in Hlen. pose proof (len_nonneg msgs). apply Forall_cons_1 in Hs as [[Hf [pt Hpt]] Hs].
  destruct (ep_Seal_law s v m Hv) as (s1 & -> & Hv1); [lia|].
  destruct Hm as [[Hk Hkk] Hl Hr Hx]. unfold view_send.
  destruct (transport_send_ok (v_sendKey v) (v_remote v) (v_local v) (v_sendPN v) (v_max v) m pt)
    as [d Hd]; [done | apply Hr | apply Hl | lia | apply Hx | done | done |].
  destruct (IH s1 (view_sent v) b Hv1) as (s' & ds & -> & Hlen' & Hall); [by constructor | cbn; lia | cbn; lia | done |].
  exists s', (d :: ds). rewrite Hd. split_and!; [done | cbn; lia |].
  intros [|i] m' Hi; cbn in Hi.
  - injection Hi as <-. exists d. by rewrite Z.add_0_r.
  - destruct (Hall i m' Hi) as (d' & Hd' & Hsend). exists d'. split; [done|]. cbn in Hsend.
    by replace (v_sendPN v + Z.of_nat (Datatypes.S i)) with (v_sendPN v + 1 + Z.of_nat i) by lia.
Qed.

Lemma open_all_spec {S} {E : Endpoint S} {HE : EndpointOk E} base msgs (ds : list bytes) a schedule : forall (s : S) v h,
  ep_view s = Some v -> matched a v -> represents (v_window v) h ->
  0 <= base -> base + len msgs <= 2 ^ 32 -> Forall (sendable (v_max a)) msgs ->
  (forall i m, msgs !! i = Some m -> exists d, ds !! i = Some d
     /\ transport_send (v_sendKey a) (v_remote a) (v_local a) (base + Z.of_nat i) (v_max a) m = Ok d) ->
  Forall (fun i => i < length msgs)%nat schedule ->
  snd (open_all (map (fun i => ds !!! i) schedule) s) = deliveries base msgs h schedule.
Proof.
  induction schedule as [|i rest IH]; intros s v h Hv Hm Hr Hb Hlen Hs Hsent Hsch; [done|].
  apply Forall_cons_1 in Hsch as [Hi Hsch]. cbn [map open_all deliveries].
  destruct (lookup_lt_is_Some_2 msgs i Hi) as [m Hmi]. destruct (Hsent i m Hmi) as (d & Hd & Hsend).
  rewrite (list_lookup_total_correct ds i d Hd), (list_lookup_total_correct msgs i m Hmi).
  pose proof Hm as [[Hk Hkk] [Hl Hl'] [Hre Hre'] [Hx Hx']].
  assert (Hf : Forall Frame_ok m) by (rewrite Forall_lookup in Hs; by destruct (Hs i m Hmi)).
  assert (Hpn : 0 <= base + Z.of_nat i < 2 ^ 32) by (unfold len in Hlen; lia).
  pose proof (transport_received _ _ _ _ _ _ d (v_window v) h Hkk Hre' Hl' Hpn Hf Hr Hsend) as Hrecv.
  destruct (ep_Open_law s v d Hv) as (s1 & -> & Hv1). unfold view_receive in *.
  rewrite <- Hk, <- Hl, <- Hre, <- Hx in Hv1 |- *. unfold record.
  assert (Hnext : forall v1 h1, ep_view s1 = Some v1 -> matched a v1 -> represents (v_window v1) h1 ->
    snd (open_all (map (fun i => ds !!! i) rest) s1) = deliveries base msgs h1 rest).
  { intros v1 h1 Hv1' Hm1 Hr1. by apply (IH s1 v1 h1). }
  destruct (verdict h (base + Z.of_nat i)) as [[]|];
    try (destruct Hrecv as (w' & Hrecv & Hr1)); rewrite Hrecv in Hv1 |- *; cbn [fst snd] in Hv1 |- *;
    (rewrite <- (Hnext _ _ Hv1); [by destruct (open_all _ s1) | done | done]).
Qed.

(** ** What the schedule specification implies *)
Lemma verdict_seen h pn : pn ∈ h -> verdict h pn <> None.
Proof.
  intros Hin. unfold verdict. pose proof (newest_ge h pn Hin). destruct h as [|x h]; [set_solver|].
  rewrite (bool_decide_false (x :: h = [])) by done. replace (newest (x :: h) <? pn) with false by lia.
  cbn [orb]. destruct (_ <=? _); [done|]. by rewrite bool_decide_true.
Qed.

Lemma record_keeps h pn q : q ∈ h -> q ∈ record h pn.
Proof. unfold record. destruct (verdict h pn); [done|]. intros. by right. Qed.

Lemma deliveries_seen base msgs schedule : forall h k i,
  base + Z.of_nat i ∈ h -> schedule !! k = Some i -> deliveries base msgs h schedule !! k = Some (Err ErrMessage).
Proof.
  induction schedule as [|x rest IH]; intros h k i Hin Hk; [done|]. destruct k as [|k]; cbn in Hk |- *.
  - injection Hk as ->. pose proof (verdict_seen h _ Hin). by destruct (verdict h _).
  - apply (IH _ k i); [by apply record_keeps | done].
Qed.

(** A message handed over once is refused at every later arrival. *)
Lemma deliveries_once base msgs schedule : forall h j k i m,
  schedule !! j = Some i -> schedule !! k = Some i -> (j < k)%nat ->
  deliveries base msgs h schedule !! j = Some (Ok m) ->
  deliveries base msgs h schedule !! k = Some (Err ErrMessage).
Proof.
  induction schedule as [|x rest IH]; intros h j k i m Hj Hk Hlt Hd; [done|].
  destruct k as [|k]; [lia|]. destruct j as [|j]; cbn in *; [|eapply (IH _ j k); (done || lia)].
  injection Hj as ->. apply (deliveries_seen base msgs rest _ k i); [|done].
  unfold record. destruct (verdict h _); [done | left].
Qed.

(** In order and without loss everything arrives. *)
Lemma deliveries_in_order base msgs n : forall k h,
  (k + n <= length msgs)%nat -> (h = [] \/ newest h < base + Z.of_nat k) -> 0 <= base ->
  deliveries base msgs h (seq k n) = map Ok (take n (drop k msgs)).
Proof.
  induction n as [|n IH]; intros k h Hlen Hh Hb; [done|].
  destruct (lookup_lt_is_Some_2 msgs k ltac:(lia)) as [m Hm]. cbn [seq deliveries].
  assert (Hv : verdict h (base + Z.of_nat k) = None).
  { unfold verdict. destruct Hh as [->|Hh]; [done|]. replace (newest h <? _) with true by lia. by rewrite orb_true_r. }
  unfold record. rewrite Hv, (drop_S msgs m k Hm). cbn [take map].
  rewrite (list_lookup_total_correct msgs k m Hm), IH; [done | lia | | done].
  right. destruct Hh as [->|Hh]; [cbn; lia|]. rewrite newest_cons by done. lia.
Qed.

(** What an established direction promises its users. *)
Definition reliable {S T} (A : Endpoint S) (B : Endpoint T) (a : S) (b : T) (base : Z) (h : list Z)
    (msgs : list (list Frame)) (schedule : list nat) : Prop :=
  exists a' (ds : list bytes), seal_all msgs a = (a', map Ok ds)
  /\ snd (open_all (map (fun i => ds !!! i) schedule) b) = deliveries base msgs h schedule
  /\ (forall j k i m, schedule !! j = Some i -> schedule !! k = Some i -> (j < k)%nat ->
       snd (open_all (map (fun i => ds !!! i) schedule) b) !! j = Some (Ok m) ->
       snd (open_all (map (fun i => ds !!! i) schedule) b) !! k = Some (Err ErrMessage))
  /\ (schedule = seq 0 (length msgs) -> h = [] \/ newest h < base ->
       snd (open_all (map (fun i => ds !!! i) schedule) b) = map Ok msgs).

Lemma channel_reliable {S T} {A : Endpoint S} {B : Endpoint T} {HA : EndpointOk A} {HB : EndpointOk B}
    (a : S) (b : T) va vb h msgs schedule :
  ep_view a = Some va -> ep_view b = Some vb -> matched va vb -> represents (v_window vb) h ->
  0 <= v_sendPN va -> v_sendPN va + len msgs <= 2 ^ 32 -> Forall (sendable (v_max va)) msgs ->
  Forall (fun i => i < length msgs)%nat schedule ->
  reliable A B a b (v_sendPN va) h msgs schedule.
Proof.
  intros Ha Hb Hm Hr Hpn Hlen Hs Hsch.
  destruct (seal_all_spec msgs a va vb Ha Hm Hpn Hlen Hs) as (a' & ds & Hseal & Hl & Hsent).
  pose proof (open_all_spec (v_sendPN va) msgs ds va schedule b vb h Hb Hm Hr Hpn Hlen Hs Hsent Hsch) as Hopen.
  exists a', ds. rewrite Hopen. split_and!; [done | done | |].
  - intros j k i m. apply deliveries_once.
  - intros -> Hh. rewrite deliveries_in_order; [|lia | by rewrite Z.add_0_r | done]. by rewrite drop_0, take_ge.
Qed.
End Delivery.

(** C3: an established session is a reliable datagram channel in both directions.
    Whatever frames the encoder accepts are sealed, up to packet number 2^32; under
    any loss, duplication and reordering of the datagrams the other end opens each
    of them to exactly the frames sent, if its number is not 2048 or more behind the
    newest accepted and was not accepted before, and refuses it with [ErrMessage]
    otherwise; so nothing is handed over twice, and without loss and reordering
    everything arrives. *)
Theorem channel_delivers {P : Primitives} {HP : PrimitivesOk P} c s sid now vc vs hc hs msgs schedule :
  client_view c = Some vc -> (x ← sv_sessions s !! sid; session_view x) = Some vs ->
  matched vc vs -> matched vs vc -> represents (v_window vc) hc -> represents (v_window vs) hs ->
  0 <= v_sendPN vc -> v_sendPN vc + len msgs <= 2 ^ 32 -> 0 <= v_sendPN vs -> v_sendPN vs + len msgs <= 2 ^ 32 ->
  Forall (sendable (v_max vc)) msgs -> Forall (fun i => i < length msgs)%nat schedule ->
  reliable client_endpoint (server_endpoint sid now) c s (v_sendPN vc) hs msgs schedule
  /\ reliable (server_endpoint sid now) client_endpoint s c (v_sendPN vs) hc msgs schedule.
Proof.
  intros Hc Hs Hm Hm' Hrc Hrs Hp1 Hp2 Hp3 Hp4 Hsend Hsch. split.
  - by apply (channel_reliable c s vc vs).
  - apply (channel_reliable s c vs vc); try done. by rewrite (proj1 (ma_max _ _ Hm')).
Qed.

Definition demo_client_options : clientOptions := mkClientOptions 3 1400 576 1348 5 [].
Definition demo_peer_client : Client :=
  mkClient StateEstablished (replicate 16 7) (Some (be_split 32 11)) (be_split 32 12) (be_split 32 13)
    demo_client_options [] [] 11 22 None (zeros 32) (zeros 32) (zeros 32) (be_split 32 3) (be_split 32 4)
    0 NewReplayWindow 1400 (zeros 8) false zero_negotiated.
Definition demo_peer_session : ServerSession :=
  mkServerSession StateEstablished 11 22 (be_split 32 12) (zeros 32) (be_split 32 3) (be_split 32 4)
    0 NewReplayWindow 1400 false [] false (zeros 8) false.
Definition demo_peer_server : Server :=
  mkServer [] None [] (mkServerOptions 0 0 0 0 0 [] [] 0 [] 0 0 0 0 0) [] [] ∅ ∅ 0 ∅ 0 {[ 0%nat := demo_peer_session ]} 1.

Lemma channel_delivers_witness :
  reliable (client_endpoint (P := Toy.primitives)) (server_endpoint (P := Toy.primitives) 0 0)
    demo_peer_client demo_peer_server 0 [] [demo_frames; demo_frames] [1; 0; 1]%nat.
Proof.
  refine (proj1 (channel_delivers (P := Toy.primitives) demo_peer_client demo_peer_server 0 0
    (mkView (be_split 32 3) (be_split 32 4) 11 22 0 NewReplayWindow 1400)
    (mkView (be_split 32 4) (be_split 32 3) 22 11 0 NewReplayWindow 1400) [] []
    [demo_frames; demo_frames] [1; 0; 1]%nat _ _ _ _ _ _ _ _ _ _ _ _)).
  - reflexivity.
  - vm_compute. reflexivity.
  - constructor; cbn; (split; [reflexivity | first [lia | by split; [rewrite len_be_split | apply be_split_ok]]]).
  - constructor; cbn; (split; [reflexivity | first [lia | by split; [rewrite len_be_split | apply be_split_ok]]]).
  - exact represents_empty.
  - exact represents_empty.
  - apply (bool_decide_unpack _). vm_compute. exact I.
  - apply (bool_decide_unpack _). vm_compute. exact I.
  - apply (bool_decide_unpack _). vm_compute. exact I.
  - apply (bool_decide_unpack _). vm_compute. exact I.
  - assert (H : sendable 1400 demo_frames)
      by (split; [apply (bool_decide_unpack _); vm_compute; exact I | eexists; vm_compute; reflexivity]).
    exact (Forall_cons_2 _ _ _ H (Forall_cons_2 _ _ _ H (Forall_nil_2 _))).
  - apply (bool_decide_unpack _). vm_compute. exact I.
Defined.
