(* ===== verification/Agreement.v ===== *)
(** * The handshake end to end

    An honest client and an honest server over the same primitives: what one
    sends the other accepts, both sides derive the same keys, and after CONFIRM
    and PONG both are established. *)

From stdpp Require Import base list strings numbers gmap.
From S2P Require Import Prelude CodecErrors WireFormat Payload Packet Tlv Frame Replay Crypto HandshakeTypes HandshakeWire HandshakeServer AttemptCache ServerHandshake ServerFrames Netip ClientHandshake.
Local Open Scope Z_scope.
Local Open Scope wg_scope.

(** ** What is negotiated

    The parameters an honest server selects for a client, and when the client
    finds them acceptable. *)
Definition available_families (o : serverOptions) : Z :=
  let f := so_addressFamilies o in
  let f := if len (so_ipv4Lease o) =? 0 then and_not f 1 else f in
  if len (so_ipv6Lease o) =? 0 then and_not f 2 else f.

Definition negotiate (o : serverOptions) (p : clientOptions) : Negotiated :=
  let families := Z.land (co_addressFamilies p) (available_families o) in
  let datagram := Z.min (co_maxDatagramSize p) (so_maxDatagramSize o) in
  mkNegotiated (so_capabilities o) families datagram (Z.min (so_tunnelMTU o) (datagram - 52))
    (so_leaseSeconds o)
    (if Z.land families 1 =? 0 then [] else so_ipv4Lease o)
    (if Z.land families 2 =? 0 then [] else so_ipv6Lease o)
    (so_egressPolicy o) (so_dnsParameters o).

Definition client_accepts (p : clientOptions) (n : Negotiated) : bool :=
  (co_minTunnelMTU p <=? ng_TunnelMTU n) && (ng_TunnelMTU n <=? co_maxTunnelMTU p)
  && (bool_decide (ng_IPv4Lease n = []) || negb (unacceptable (AddrFrom4 (take 4 (ng_IPv4Lease n)))))
  && (bool_decide (ng_IPv6Lease n = []) || negb (unacceptable (AddrFrom16 (take 16 (ng_IPv6Lease n))))).

Lemma selected_families p o f :
  client_options_ok p -> server_options_ok o -> f = Z.land (co_addressFamilies p) (available_families o) ->
  0 <= f <= 3 /\ and_not f (co_addressFamilies p) = 0
  /\ (Z.land f 1 <> 0 -> so_ipv4Lease o <> []) /\ (Z.land f 2 <> 0 -> so_ipv6Lease o <> []).
Proof.
  intros [Hp _ _] [Ho _ _ _ _ _ _ _ _] ->. unfold available_families, families_ok in *.
  destruct (so_ipv4Lease o) as [|x l], (so_ipv6Lease o) as [|y k]; rewrite ?len_nil, ?len_cons;
    repeat match goal with |- context [1 + len ?l =? 0] => pose proof (len_nonneg l);
      replace (1 + len l =? 0) with false by lia end;
    cbn [Z.eqb]; destruct Hp as [->|[->| ->]], Ho as [->|[->| ->]]; vm_compute; split_and!; (done || tauto).
Qed.

Section Agreement.
Context {P : Primitives} {HP : PrimitivesOk P}.

(** ** Primitives *)
Lemma DH_inv a p r :
  DH a p = Ok r -> exists k, a = Some k /\ r = x25519 k p /\ isAllZero r = false.
Proof.
  unfold DH, ECDH. destruct a as [k|]; [|done]. intros H. inv_ok.
  destruct (isAllZero (x25519 k p)) eqn:Ez; [done|]. rewrite (proj1 (x25519_size k p)) in H. simpl in H.
  rewrite Ez, copy_key in H by apply x25519_size. injection H as <-. by exists k.
Qed.

Lemma DH_run k p : len p = 32 -> isAllZero (x25519 k p) = false -> DH (Some k) p = Ok (x25519 k p).
Proof.
  intros Hp Hz. unfold DH, ECDH. rewrite Hp, Hz, (proj1 (x25519_size k p)). simpl.
  by rewrite Hz, copy_key by apply x25519_size.
Qed.

Lemma PublicBytes_run k : PublicBytes (Some (x25519_PublicKey k)) = Ok (x25519_PublicKey k).
Proof.
  unfold PublicBytes. rewrite (proj1 (x25519_PublicKey_size k)). simpl.
  apply copy_key, x25519_PublicKey_size.
Qed.

Lemma SealHandshake_inv key ad pt ct :
  SealHandshake key ad pt = Ok ct ->
  len key = 32 /\ ct = aead_Seal key handshakeNonce pt ad.
Proof. unfold SealHandshake, aead_New. intros H. inv_ok. split; [lia | done]. Qed.

Lemma OpenHandshake_sealed key ad pt :
  len key = 32 -> OpenHandshake key ad (aead_Seal key handshakeNonce pt ad) = Ok pt.
Proof.
  intros Hk. unfold OpenHandshake, Overhead, aead_New. rewrite aead_Seal_size, Hk.
  pose proof (len_nonneg pt). by_test. cbn. by rewrite aead_Open_Seal.
Qed.

(** ** The client

    A client before its handshake has finished: the Go types of its fields, its
    key pair, and a transport nothing has been sent on. *)
Record client_typed (c : Client) : Prop := {
  ct_deployment : len (cl_deploymentID c) = 16 /\ bytes_ok (cl_deploymentID c);
  ct_static : exists k, cl_staticPrivate c = Some k /\ key_ok k /\ cl_staticPublic c = x25519_PublicKey k;
  ct_server : key_ok (cl_serverStaticPublic c);
  ct_options : client_options_ok (cl_options c);
  ct_token : bytes_ok (co_retryToken (cl_options c));
  ct_random : bytes_ok (cl_random c);
  ct_context : cl_context c = Context (cl_deploymentID c);
  ct_transport : cl_sendPN c = 0 /\ cl_receiveWindow c = NewReplayWindow
}.

Lemma initialFields_run c cid :
  initialFields c cid =
  Ok [mkTLV TLVVersion [Version1]; mkTLV TLVDeploymentID (cl_deploymentID c);
      mkTLV TLVClientCID (be_split 8 cid); mkTLV TLVCapabilities (be_split 8 (co_capabilities (cl_options c)));
      mkTLV TLVAddressFamilies [co_addressFamilies (cl_options c)];
      mkTLV TLVMaxDatagramSize (be_split 2 (co_maxDatagramSize (cl_options c)));
      mkTLV TLVClientStaticKey (cl_staticPublic c)].
Proof. unfold initialFields. by rewrite !encodeUint64_spec, encodeUint16_spec. Qed.

Lemma initialFields_bytes c cid :
  bytes_ok (cl_deploymentID c) -> bytes_ok (cl_staticPublic c) -> families_ok (co_addressFamilies (cl_options c)) ->
  exists fs, initialFields c cid = Ok fs /\ Forall TLV_ok fs.
Proof.
  intros Hd Hs Hf. rewrite initialFields_run. eexists. split; [done|]. unfold families_ok in Hf.
  repeat (constructor; [split; [by unfold uint_ok |]|]); cbn [tlv_Value]; try done; try apply be_split_ok.
  constructor; [unfold byte_ok; lia | constructor].
Qed.

Lemma initialFields_ok c cid fs : client_typed c -> initialFields c cid = Ok fs -> Forall TLV_ok fs.
Proof.
  intros [[_ Hd] (k & _ & _ & Hs) _ Ho _ _ _ _] H. destruct (initialFields_bytes c cid) as (fs' & H' & Hok).
  - done.
  - rewrite Hs. apply x25519_PublicKey_size.
  - apply Ho.
  - by rewrite H in H'; injection H' as <-.
Qed.

(** What the INITIAL of [buildInitial] carries. *)
Lemma buildInitial_inv c cid e d es th1 :
  client_typed c -> key_ok e -> 0 < cid < 2 ^ 64 -> buildInitial c cid e = Ok (d, es, th1) ->
  exists fields pt prk1 k1 ad h payload,
    es = x25519 e (cl_serverStaticPublic c) /\ isAllZero es = false
    /\ DeriveM1 (cl_context c) es = Ok (prk1, k1) /\ len k1 = 32
    /\ initialFields c cid = Ok fields /\ MarshalTLVsFor fields TLVContextInitial = Ok pt
    /\ parseInitialWire d (co_maxDatagramSize (cl_options c)) (cl_context c)
       = Ok (mkPacket h payload,
             mkInitial (co_retryToken (cl_options c)) (x25519_PublicKey e)
               (aead_Seal k1 handshakeNonce pt ad), ad, th1)
    /\ DCID h = 0 /\ SCID h = cid.
Proof.
  intros Hc He Hcid H. unfold buildInitial, as_hs in H. rewrite PublicBytes_run in H. inv_ok.
  apply DH_inv in Ha0 as (k & [= <-] & -> & Hz). destruct a1 as [prk1 k1].
  apply initialFields_ok in Ha2 as Hf; [|done]. apply MarshalTLVsFor_ParseTLVsFor in Ha3 as Hp; [|done].
  destruct Hp as (_ & _ & Hb & Hl). apply SealHandshake_inv in Ha6 as [Hk ->].
  apply makeInitialPrefix_inv in Ha4 as (-> & Htok & Hn); [|apply x25519_PublicKey_size].
  destruct a5 as [h eh]. apply makeHeader_inv in Ha5 as (-> & -> & Hm).
  injection H as <- <- <-. cbn [fst snd] in *.
  set (ad := join _) in *. set (ct := aead_Seal k1 handshakeNonce a3 ad) in *.
  assert (Hct : len ct = len a3 + AEADTagSize) by (unfold ct; rewrite aead_Seal_size; done).
  assert (Had : ad = cl_context c
    ++ header_bytes (mkHeader Version1 PacketInitial 0 0 cid 0
         (len (initial_prefix (co_retryToken (cl_options c)) (x25519_PublicKey e) (len ct)) + len ct) 0)
    ++ initial_prefix (co_retryToken (cl_options c)) (x25519_PublicKey e) (len ct)).
  { rewrite Hct. unfold ad. rewrite join_spec. cbn [mjoin list_join]. by rewrite !app_nil_r. }
  rewrite <- Hct in *. clearbody ad.
  eexists _, a3, prk1, k1, ad, _, _. split_and!; try done.
  rewrite (parseInitialWire_sent 0 cid (co_retryToken (cl_options c)) (x25519_PublicKey e) ct
             _ _ (cl_context c)); try done.
  - rewrite <- Had. done.
  - apply x25519_PublicKey_size.
  - apply Hc.
  - unfold ct. by apply aead_Seal_bytes.
  - lia.
  - unfold uint_ok. lia.
  - done.
  - done.
Qed.

(** ** The server *)
Record server_typed (s : Server) : Prop := {
  st_deployment : len (sv_deploymentID s) = 16 /\ bytes_ok (sv_deploymentID s);
  st_private : exists k, sv_staticPrivate s = Some k /\ key_ok k;
  st_options : server_options_ok (sv_options s);
  st_leases : bytes_ok (so_ipv4Lease (sv_options s)) /\ bytes_ok (so_ipv6Lease (sv_options s));
  st_dns : bytes_ok (so_dnsParameters (sv_options s));
  st_seconds : so_leaseSeconds (sv_options s) < 2 ^ 32;
  st_egress : uint_ok 64 (so_egressPolicy (sv_options s));
  st_capabilities : uint_ok 64 (so_capabilities (sv_options s));
  st_random : bytes_ok (sv_random s);
  st_context : sv_context s = Context (sv_deploymentID s)
}.

Lemma isRegistered_spec l k : isRegistered l k = bool_decide (k ∈ l).
Proof.
  unfold isRegistered. rewrite <- (orb_false_l (bool_decide (k ∈ l))). generalize false as b.
  induction l as [|x l IH]; intros b; cbn [fold_left].
  - rewrite bool_decide_false by set_solver. by rewrite orb_false_r.
  - rewrite IH, <- orb_assoc. f_equal. repeat case_bool_decide; set_solver.
Qed.

Lemma Uint64_split v : uint_ok 64 v -> Uint64 (E := HandshakeErr) (be_split 8 v) = Ok v.
Proof. intros H. apply (be_uint_split0 8). exact H. Qed.
Lemma Uint32_split v : uint_ok 32 v -> Uint32 (E := HandshakeErr) (be_split 4 v) = Ok v.
Proof. intros H. apply (be_uint_split0 4). exact H. Qed.
Lemma Uint16_split v : uint_ok 16 v -> Uint16 (E := HandshakeErr) (be_split 2 v) = Ok v.
Proof. intros H. apply (be_uint_split0 2). exact H. Qed.

Lemma index_head {E A} (x : A) l : index (E := E) (x :: l) 0 = Ok x.
Proof. done. Qed.

(** The server reads back what the client offered. *)
Lemma validateInitialFields_sent s c cid fs gs r :
  client_typed c -> 0 < cid < 2 ^ 64 -> initialFields c cid = Ok fs ->
  (forall t, FindTLV gs t = FindTLV fs t) -> validateInitialFields s gs cid = Ok r ->
  r = (cl_staticPublic c, co_addressFamilies (cl_options c), co_maxDatagramSize (cl_options c))
  /\ cl_deploymentID c = sv_deploymentID s /\ cl_staticPublic c ∈ sv_registeredClients s.
Proof.
  intros Hc Hcid Hf Hg H. rewrite initialFields_run in Hf. injection Hf as <-.
  unfold validateInitialFields, find_or_nil in H. rewrite !Hg in H. cbn [FindTLV tlv_Type tlv_Value] in H.
  cbv [TLVEnrollmentTokenID TLVEnrollmentProof TLVVersion TLVDeploymentID TLVClientCID TLVCapabilities
    TLVAddressFamilies TLVMaxDatagramSize TLVClientStaticKey] in H. cbn [Z.eqb Pos.eqb default] in H.
  cbv [id] in H. rewrite !index_head in H. rewrite Uint64_split, Uint16_split in H; [| | unfold uint_ok; lia].
  - destruct Hc as [_ (k & _ & _ & Hk) _ [Hfam Hd _] _ _ _ _]. cbn [obind] in H. inv_ok. rewrite copy_key in Ha by (rewrite Hk; apply x25519_PublicKey_size). inv_ok.
    rewrite isRegistered_spec in *. split_and!; [done| |].
    + apply secureEqual_spec. by apply negb_false_iff.
    + by apply negb_false_iff, bool_decide_eq_true in E4.
  - destruct Hc as [_ _ _ [_ Hd _] _ _ _ _]. unfold uint_ok. lia.
Qed.

Definition opt_field (b : bool) (t : Z) (v : bytes) : list TLV := if b then [mkTLV t v] else [].

Lemma handshakeFields_run s ccid scid families datagram mtu :
  let o := sv_options s in
  handshakeFields s ccid scid families datagram mtu =
  Ok ([mkTLV TLVEgressPolicyVersion (be_split 8 (so_egressPolicy o)); mkTLV TLVVersion [Version1];
       mkTLV TLVDeploymentID (sv_deploymentID s); mkTLV TLVClientCID (be_split 8 ccid);
       mkTLV TLVServerCID (be_split 8 scid); mkTLV TLVCapabilities (be_split 8 (so_capabilities o));
       mkTLV TLVAddressFamilies [families]; mkTLV TLVMaxDatagramSize (be_split 2 datagram);
       mkTLV TLVTunnelMTU (be_split 2 mtu); mkTLV TLVLeaseSeconds (be_split 4 (so_leaseSeconds o))]
      ++ opt_field (negb (len (so_dnsParameters o) =? 0)) TLVDNSParameters (so_dnsParameters o)
      ++ opt_field (negb (Z.land families 1 =? 0) && negb (len (so_ipv4Lease o) =? 0)) TLVIPv4Lease (so_ipv4Lease o)
      ++ opt_field (negb (Z.land families 2 =? 0) && negb (len (so_ipv6Lease o) =? 0)) TLVIPv6Lease (so_ipv6Lease o)).
Proof.
  cbv zeta. unfold handshakeFields. rewrite !encodeUint64_spec, !encodeUint16_spec, encodeUint32_spec. cbn [obind].
  unfold opt_field. destruct (negb (len (so_dnsParameters _) =? 0)), (_ && _), (_ && _); done.
Qed.

Lemma FindTLV_app l k t : FindTLV (l ++ k) t = match FindTLV l t with Some v => Some v | None => FindTLV k t end.
Proof. induction l as [|f l IH]; simpl; [done|]. by destruct (_ =? _). Qed.

Lemma FindTLV_opt b t v t' : FindTLV (opt_field b t v) t' = if b && (t =? t') then Some v else None.
Proof. unfold opt_field. by destruct b; simpl; [destruct (_ =? _)|]. Qed.

Lemma handshakeFields_ok s ccid scid families datagram mtu fs :
  server_typed s -> byte_ok families -> handshakeFields s ccid scid families datagram mtu = Ok fs -> Forall TLV_ok fs.
Proof.
  intros [[_ Hd] _ _ [H4 H6] Hn _ _ _ _ _] Hf H. rewrite handshakeFields_run in H. injection H as <-.
  assert (Hopt : forall b t v, uint_ok 8 t -> bytes_ok v -> Forall TLV_ok (opt_field b t v)).
  { intros [] t v Ht Hv; simpl; [constructor; [by split | constructor] | constructor]. }
  repeat (constructor; [split; [by unfold uint_ok |]|]); cbn [tlv_Value]; try done; try apply be_split_ok.
  - constructor; [done | constructor].
  - apply Forall_app_2; [by apply Hopt|]. apply Forall_app_2; by apply Hopt.
Qed.

(** A lease is present exactly when its family was selected. *)
Lemma lease_field b (l : bytes) :
  (b <> 0 -> l <> []) ->
  (if negb (b =? 0) && negb (len l =? 0) then Some l else None) = if b =? 0 then None else Some l.
Proof.
  intros H. destruct (Z.eqb_spec b 0) as [|Hb]; [done|]. specialize (H Hb).
  destruct (Z.eqb_spec (len l) 0) as [E|]; [by apply len_zero_nil in E | done].
Qed.

Lemma dns_field (l : bytes) :
  from_option (fun x : bytes => x) []
    (match (if negb (len l =? 0) then Some l else None) with Some v => Some v | None => None end) = l.
Proof. destruct (Z.eqb_spec (len l) 0) as [E|]; [by apply len_zero_nil in E as -> | done]. Qed.

Lemma lease_address (l : bytes) n : 0 <= n <= len l -> slice (E := HandshakeErr) l 0 n = Ok (take (Z.to_nat n) l).
Proof. intros Hn. unfold slice. by_test. by rewrite Z.sub_0_r. Qed.

(** The client's verdict on the fields of an honest server. *)
Lemma validateHandshakeFields_sent s c scid fs gs :
  let o := sv_options s in
  let n := negotiate o (cl_options c) in
  client_typed c -> server_typed s -> cl_deploymentID c = sv_deploymentID s ->
  uint_ok 64 (cl_clientCID c) -> 0 < scid < 2 ^ 64 -> ng_AddressFamilies n <> 0 ->
  handshakeFields s (cl_clientCID c) scid (ng_AddressFamilies n) (ng_MaxDatagramSize n) (ng_TunnelMTU n) = Ok fs ->
  (forall t, FindTLV gs t = FindTLV fs t) ->
  validateHandshakeFields c gs scid
  = if client_accepts (cl_options c) n then Ok (n, scid) else Err ErrParameters.
Proof.
  intros o n Hc Hs Hd Hcid Hscid Hfam Hf Hg. rewrite handshakeFields_run in Hf. injection Hf as <-.
  destruct (selected_families (cl_options c) o (ng_AddressFamilies n)) as (Hr & Hsub & Hl4 & Hl6);
    [apply Hc | apply Hs | done |].
  unfold validateHandshakeFields, find_or_nil. rewrite !Hg.
  cbn [FindTLV tlv_Type tlv_Value]. rewrite !FindTLV_app, !FindTLV_opt.
  cbv [TLVEgressPolicyVersion TLVDNSParameters TLVVersion TLVDeploymentID TLVClientCID TLVServerCID
    TLVCapabilities TLVAddressFamilies TLVMaxDatagramSize TLVIPv4Lease TLVIPv6Lease TLVTunnelMTU TLVLeaseSeconds].
  cbn [Z.eqb Pos.eqb default]. rewrite !andb_true_r, !andb_false_r. cbv [id]. rewrite !index_head.
  rewrite (Uint64_split (cl_clientCID c)), (Uint64_split scid) by (done || unfold uint_ok; lia).
  rewrite !Uint64_split, Uint32_split by (apply Hs || destruct (st_options s Hs); pose proof (st_seconds s Hs); unfold uint_ok; lia).
  clear Hg. fold o. change (ng_AddressFamilies n) with (Z.land (co_addressFamilies (cl_options c)) (available_families o)) in *.
  destruct (ct_options c Hc) as [_ Hcd _]. destruct (st_options s Hs) as [_ Hsd Hmtu Hsec _ Hlen4 Hlen6 _ _]. fold o in Hsd, Hmtu, Hsec, Hlen4, Hlen6.
  unfold n, negotiate. set (f := Z.land _ _) in *. set (g := Z.min (co_maxDatagramSize _) _).
  assert (Hgr : 628 <= g < 2 ^ 16) by lia. set (m := Z.min (so_tunnelMTU o) (g - 52)).
  assert (Hmr : 576 <= m <= g - 52) by lia. rewrite !Uint16_split by (unfold uint_ok; lia).
  change (len [Version1] =? 1) with true. cbn [negb obind]. change (Version1 =? Version1) with true. cbn [negb].
  rewrite (proj2 (secureEqual_spec _ _)) by (symmetry; exact Hd). rewrite !Z.eqb_refl. cbn [negb].
  unfold HeaderSize, AEADTagSize, FrameHeaderSize. rewrite tunnel_room_spec by done.
  replace (scid =? 0) with false by lia. replace (f =? 0) with false by lia. rewrite Hsub. cbn [orb negb Z.eqb].
  replace ((g <? 32 + 16 + 4) || (co_maxDatagramSize (cl_options c) <? g)) with false by lia.
  replace (so_leaseSeconds o =? 0) with false by lia. replace (g - 52 <? m) with false by lia.
  rewrite orb_false_r. unfold client_accepts. cbn [ng_TunnelMTU ng_IPv4Lease ng_IPv6Lease].
  destruct (_ || _) eqn:Em.
  { replace ((co_minTunnelMTU (cl_options c) <=? m) && (m <=? co_maxTunnelMTU (cl_options c))) with false by lia. done. }
  replace ((co_minTunnelMTU (cl_options c) <=? m) && (m <=? co_maxTunnelMTU (cl_options c))) with true by lia.
  rewrite (lease_field (Z.land f 1) (so_ipv4Lease o)), (lease_field (Z.land f 2) (so_ipv6Lease o)) by done.
  rewrite (dns_field (so_dnsParameters o)).
  destruct (Z.eqb_spec (Z.land f 1) 0) as [_|H1], (Z.eqb_spec (Z.land f 2) 0) as [_|H2];
    cbn -[slice unacceptable take AddrFrom4 AddrFrom16]; try (destruct (Hlen4 (Hl4 H1)) as [L4 _]); try (destruct (Hlen6 (Hl6 H2)) as [L6 _]);
    rewrite ?lease_address by lia; try done;
    change (Z.to_nat 4) with 4%nat; change (Z.to_nat 16) with 16%nat; cbn -[unacceptable take AddrFrom4 AddrFrom16];
    rewrite ?(bool_decide_false (so_ipv4Lease o = [])), ?(bool_decide_false (so_ipv6Lease o = [])) by auto;
    repeat match goal with |- context [unacceptable ?a] => destruct (unacceptable a) end; done.
Qed.
Lemma minUint16_spec a b : minUint16 a b = Z.min a b.
Proof. unfold minUint16. destruct (Z.ltb_spec a b); lia. Qed.

(** What the HANDSHAKE of [buildResponse] carries. *)
Lemma buildResponse_inv s packet token epub ct1 th1 es cs rf cmd scid e s' x d :
  let o := sv_options s in
  let datagram := Z.min cmd (so_maxDatagramSize o) in
  let families := Z.land rf (available_families o) in
  let ccid := SCID (pkt_Header packet) in
  server_typed s -> byte_ok families -> 628 <= cmd < 2 ^ 16 -> 0 < scid < 2 ^ 64 -> uint_ok 64 ccid ->
  buildResponse packet (mkInitial token epub ct1) th1 es cs rf cmd scid e s = (s', Ok (x, d)) ->
  exists k fields enc prk2 k2 h payload ad th2,
    s' = s /\ sv_staticPrivate s = Some k /\ families <> 0
    /\ isAllZero (x25519 k cs) = false /\ isAllZero (x25519 e epub) = false /\ isAllZero (x25519 e cs) = false
    /\ DeriveM2 th1 es (x25519 k cs) (x25519 e epub) (x25519 e cs) = Ok (prk2, k2) /\ len k2 = 32
    /\ handshakeFields s ccid scid families datagram (Z.min (so_tunnelMTU o) (datagram - 52)) = Ok fields
    /\ MarshalTLVsFor fields TLVContextHandshake = Ok enc
    /\ (forall max', datagram <= max' <= 65535 ->
        parseHandshakeWire d max' (sv_context s) th1
        = Ok (mkPacket h payload, mkHandshake (x25519_PublicKey e) (aead_Seal k2 handshakeNonce enc ad), ad, th2))
    /\ DCID h = ccid /\ SCID h = scid
    /\ x = mkServerSession StatePendingConfirm ccid scid cs th2 (hkdf_expand prk2 (c2sLabel ++ th2) 32)
             (hkdf_expand prk2 (s2cLabel ++ th2) 32) 0 NewReplayWindow datagram false [] false (zeros 8) false.
Proof.
  intros o datagram families ccid Hs Hfam Hcmd Hscid Hccid H. unfold buildResponse, as_hs in H.
  rewrite PublicBytes_run in H. cbn [wrap_err] in H. inv_act. inv_ok.
  rewrite !minUint16_spec in *. fold (available_families (sv_options s')) in *.
  change (Z.land rf _) with families in E, Ha4. fold o in Ha4, Ha9 |- *. fold datagram in Ha4, Ha9 |- *.
  destruct (st_options s' Hs) as [_ Hsd Hmtu _ _ _ _ _ _]. fold o in Hsd, Hmtu.
  assert (Hg : 628 <= datagram < 2 ^ 16) by lia. rewrite tunnel_room_spec in Ha4 by done.
  apply handshakeFields_ok in Ha4 as Hok; [|done | done].
  pose proof (MarshalTLVsFor_ParseTLVsFor _ _ _ Hok Ha5) as (_ & _ & Hb & Hl).
  apply DH_inv in Ha0 as (k & Hk & -> & Hz0). apply DH_inv in Ha1 as (k' & [= <-] & -> & Hz1).
  apply DH_inv in Ha2 as (k' & [= <-] & -> & Hz2). destruct a3 as [prk2 k2].
  destruct a7 as [h eh]. cbn [fst snd] in *. apply SealHandshake_inv in Ha8 as [Hk2 ->].
  apply makeHandshakePrefix_inv in Ha6 as (-> & Hn); [|apply x25519_PublicKey_size].
  apply makeHeader_inv in Ha7 as (-> & -> & Hm).
  rewrite DeriveTraffic_spec in Ha10. injection Ha10 as <-.
  set (ad := join _) in *. set (ct := aead_Seal k2 handshakeNonce a5 ad) in *.
  assert (Hct : len ct = len a5 + AEADTagSize) by (unfold ct; rewrite aead_Seal_size; done).
  assert (Had : ad = sv_context s' ++ th1
    ++ header_bytes (mkHeader Version1 PacketHandshake 0 ccid scid 0
         (len (handshake_prefix (x25519_PublicKey e) (len ct)) + len ct) 0)
    ++ handshake_prefix (x25519_PublicKey e) (len ct)).
  { rewrite Hct. unfold ad. rewrite join_spec. cbn [mjoin list_join]. by rewrite !app_nil_r. }
  rewrite <- Hct in *. clearbody ad.
  eexists k, _, a5, prk2, k2, _, _, ad, _. split_and!; try done.
  - lia.
  - intros max' Hmax. rewrite (parseHandshakeWire_sent ccid scid (x25519_PublicKey e) ct datagram max'
      d (sv_context s') th1); try done; try lia.
    + rewrite <- Had. done.
    + apply x25519_PublicKey_size.
    + unfold ct. by apply aead_Seal_bytes.
    + unfold uint_ok. lia.
  - done.
  - done.
Qed.
(** The server's state after it answered a new INITIAL: the session it built is
    attached to the ready attempt that will replay the response. *)
Record answered (s' : Server) (sid : nat) (x : ServerSession) (d : bytes) (expires : Z) : Prop := {
  an_session : exists key, sv_sessions s' !! sid = Some (session_attached x key)
    /\ exists id e, sv_attempts s' !! key = Some id /\ ae_key e = key
       /\ sv_entries s' !! id = Some (entry_ready e sid d expires)
}.

Lemma publishAttempt_inv id sid d now s s' x :
  sv_sessions s !! sid = Some x -> publishAttempt id sid d now s = (s', Ok tt) ->
  answered s' sid x d (now + so_pendingAttemptTimeout (sv_options s)).
Proof.
  intros Hx H. unfold publishAttempt in H. inv_act. unfold get_entry in Ha.
  destruct (sv_entries s !! id) as [e|] eqn:He; [|done]. injection Ha as <- <-.
  apply orb_false_elim in E as [Hk Hp]. apply negb_false_iff, bool_decide_eq_true in Hk, Hp.
  unfold put_entry, act_set in Ha0. injection Ha0 as <- <-. unfold get_session in Ha1. cbn in Ha1. rewrite Hx in Ha1.
  injection Ha1 as <- <-. injection H as <-. constructor. exists (ae_key e). cbn. split.
  - by rewrite lookup_insert_eq.
  - exists id, e. by rewrite lookup_insert_eq.
Qed.

Lemma HandleInitial_inv s d now now' now'' s' sid r packet initial ad th1 :
  parseInitialWire d (so_maxDatagramSize (sv_options s)) (sv_context s) = Ok (packet, initial, ad, th1) ->
  sv_attempts s !! th1 = None -> bytes_ok (sv_random s) ->
  HandleInitial d now now' now'' s = (s', Ok (sid, r)) ->
  exists s1 es prk1 k1 pt fields cs rf cmd scid s2 e s3 x sid0,
    identity_kept s s1 /\ DH (sv_staticPrivate s) (init_ClientEphemeralPublic initial) = Ok es
    /\ DeriveM1 (sv_context s) es = Ok (prk1, k1)
    /\ OpenHandshake k1 ad (init_EncryptedPayload initial) = Ok pt
    /\ ParseTLVsFor pt TLVContextInitial = Ok fields
    /\ validateInitialFields s1 fields (SCID (pkt_Header packet)) = Ok (cs, rf, cmd)
    /\ 0 < scid < 2 ^ 64 /\ key_ok e /\ identity_kept s s2
    /\ buildResponse packet initial th1 es cs rf cmd scid e s2 = (s3, Ok (x, r))
    /\ sid = Some sid0 /\ answered s' sid0 x r (now'' + so_pendingAttemptTimeout (sv_options s3)).
Proof.
  intros Hp Hk Hr H. unfold HandleInitial in H. inv_act. rewrite Hp in Ha. injection Ha as <-. inv_act.
  pose proof (keeps_run _ _ _ _ _ (acquireAttempt_keeps th1 d now now') Ha) as [Hi _].
  apply acquireAttempt_fresh in Ha as [id ->]; [|done]. apply on_error_Ok in H.
  unfold buildAttempt, as_hs in H. inv_act. inv_ok. destruct a0 as [prk1 k1]. destruct a3 as [[cs rf] cmd].
  assert (Hr0 : bytes_ok (sv_random s0)) by (by apply Hi).
  destruct (reserveServerCIDLocked_spec s0 Hr0) as (rest & Hb & Hres). rewrite Ha4 in Hres.
  destruct Hres as (-> & _ & Hcid). apply on_error_Ok in Ha5, Ha6, Ha8.
  destruct (draw_key_spec (taken s0 rest a4) Hb) as (rest' & Hb' & Hkey). rewrite Ha5 in Hkey.
  destruct Hkey as [-> Hkey]. destruct a6 as [x d2], a8. cbn [fst snd] in *.
  unfold new_session in Ha7. injection Ha7 as <- <-.
  apply (publishAttempt_inv _ _ _ _ _ _ x) in Ha8; [|by cbn; rewrite lookup_insert_eq].
  destruct Hi as (I1 & I2 & I3 & I4 & I5 & I6). rewrite I2 in Ha. rewrite I5 in Ha0.
  assert (Hi' : identity_kept s (server_with_random rest' (taken s0 rest a4))) by (by split_and!).
  exists s0, a, prk1, k1, a1, a2, cs, rf, cmd, a4, (server_with_random rest' (taken s0 rest a4)), a5, s8, x,
    (sv_nextSession s8). split_and!; try done; apply Hcid || apply Hkey.
Qed.
(** ** Key agreement *)
Lemma ParsePacket_limit d m m' p p' : ParsePacket d m = Ok p -> ParsePacket d m' = Ok p' -> p = p'.
Proof. unfold ParsePacket. intros H H'. inv_ok. congruence. Qed.

Lemma parseInitialWire_limit d m m' ctx r r' :
  parseInitialWire d m ctx = Ok r -> parseInitialWire d m' ctx = Ok r' -> r = r'.
Proof.
  unfold parseInitialWire, as_hs. intros H H'. inv_ok.
  match goal with H1 : ParsePacket d m = Ok ?a, H2 : ParsePacket d m' = Ok ?b |- _ =>
    assert (a = b) as <- by (by eapply ParsePacket_limit) end. congruence.
Qed.

Lemma Start_inv c c1 d :
  client_typed c -> Start c = (c1, Ok d) ->
  exists cid e es th1 rest, buildInitial c cid e = Ok (d, es, th1) /\ 0 < cid < 2 ^ 64 /\ key_ok e
    /\ bytes_ok rest /\ c1 = client_started cid e es th1 (client_with_random rest c) /\ cl_state c = StateIdle.
Proof.
  intros Hc H. unfold Start in H. inv_act. apply negb_false_iff, bool_decide_eq_true in E.
  unfold draw_client_CID in Ha. destruct (nextNonZeroCID (cl_random c)) as [r1 [cid|?| |]] eqn:En; try done.
  injection Ha as <- <-. apply nextNonZeroCID_inv in En as [Hcid Hr1]; [|apply Hc].
  unfold draw_client_key in Ha0. cbn [cl_random client_with_random] in Ha0.
  destruct (GenerateKeyFrom (Some r1)) as [[e r2]|?| |] eqn:Eg; try done. injection Ha0 as <- <-.
  apply GenerateKeyFrom_inv in Eg as [He Hr2]; [|done].
  destruct a1 as [[d' es] th1]. inv_act. by exists cid, e, es, th1, r2.
Qed.

Lemma openHandshake_agrees c s k d n scid th2 fields enc prk2 k2 h payload ad e ce ck :
  n = negotiate (sv_options s) (cl_options c) ->
  client_typed c -> server_typed s -> sv_staticPrivate s = Some k -> key_ok k ->
  cl_serverStaticPublic c = x25519_PublicKey k -> cl_deploymentID c = sv_deploymentID s ->
  cl_staticPrivate c = Some ck -> key_ok ck -> cl_ephemeralPrivate c = Some ce -> key_ok ce -> key_ok e ->
  cl_es c = x25519 ce (x25519_PublicKey k) -> uint_ok 64 (cl_clientCID c) -> 0 < scid < 2 ^ 64 ->
  ng_AddressFamilies n <> 0 ->
  isAllZero (x25519 k (x25519_PublicKey ck)) = false -> isAllZero (x25519 e (x25519_PublicKey ce)) = false ->
  isAllZero (x25519 e (x25519_PublicKey ck)) = false ->
  DeriveM2 (cl_th1 c) (x25519 k (x25519_PublicKey ce)) (x25519 k (x25519_PublicKey ck))
    (x25519 e (x25519_PublicKey ce)) (x25519 e (x25519_PublicKey ck)) = Ok (prk2, k2) -> len k2 = 32 ->
  handshakeFields s (cl_clientCID c) scid (ng_AddressFamilies n) (ng_MaxDatagramSize n) (ng_TunnelMTU n) = Ok fields ->
  MarshalTLVsFor fields TLVContextHandshake = Ok enc ->
  parseHandshakeWire d (co_maxDatagramSize (cl_options c)) (cl_context c) (cl_th1 c)
  = Ok (mkPacket h payload, mkHandshake (x25519_PublicKey e) (aead_Seal k2 handshakeNonce enc ad), ad, th2) ->
  DCID h = cl_clientCID c -> SCID h = scid ->
  openHandshake c d =
  if client_accepts (cl_options c) n
  then Ok (n, scid, th2, (hkdf_expand prk2 (c2sLabel ++ th2) 32, hkdf_expand prk2 (s2cLabel ++ th2) 32))
  else Err ErrParameters.
Proof.
  intros -> Hc Hs Hk Hkk Hpub Hdep Hck Hckk Hce Hcek He Hes Hcid Hscid Hfam Z1 Z2 Z3 HM Hk2 Hf Hm Hp HD HS.
  unfold openHandshake, as_hs. rewrite Hp. cbn [obind pkt_Header hs_ServerEphemeralPublic hs_EncryptedPayload].
  rewrite HD, HS, Z.eqb_refl. replace (scid =? 0) with false by lia. cbn [negb orb].
  rewrite (x25519_comm k ce), (x25519_comm k ck), (x25519_comm e ce), (x25519_comm e ck) in * by done.
  rewrite Hck, Hce, Hpub, Hes, !DH_run by (done || apply x25519_PublicKey_size). cbn [wrap_err obind].
  rewrite HM. cbn [wrap_err obind snd fst]. rewrite OpenHandshake_sealed by done. cbn [wrap_err obind].
  assert (Hok : Forall TLV_ok fields).
  { eapply handshakeFields_ok; [exact Hs | | exact Hf].
    destruct (selected_families (cl_options c) (sv_options s) _ (ct_options c Hc) (st_options s Hs) eq_refl).
    unfold byte_ok, negotiate. cbn. lia. }
  destruct (MarshalTLVsFor_ParseTLVsFor fields TLVContextHandshake enc Hok Hm) as (-> & HF & _ & _).
  cbn [wrap_err obind]. rewrite (validateHandshakeFields_sent s c scid fields) by done.
  destruct (client_accepts _ _); [|done]. cbn [obind]. by rewrite DeriveTraffic_spec.
Qed.
(** Both ends hold the same session: transcript, directional keys, connection
    identifiers and datagram limit; nothing has been sent on it yet. *)
Record agreed (c : Client) (x : ServerSession) : Prop := {
  ag_th2 : cl_th2 c = ss_th2 x;
  ag_c2s : cl_c2sKey c = ss_c2sKey x;
  ag_s2c : cl_s2cKey c = ss_s2cKey x;
  ag_keys : key_ok (ss_th2 x) /\ key_ok (ss_c2sKey x) /\ key_ok (ss_s2cKey x);
  ag_clientCID : cl_clientCID c = ss_clientCID x /\ 0 < ss_clientCID x < 2 ^ 64;
  ag_serverCID : cl_serverCID c = ss_serverCID x /\ 0 < ss_serverCID x < 2 ^ 64;
  ag_limit : cl_transportMaxSize c = ss_maxDatagram x /\ 628 <= ss_maxDatagram x < 2 ^ 16;
  ag_static : cl_staticPublic c = ss_clientStatic x;
  ag_state : cl_state c = StatePendingConfirm /\ ss_state x = StatePendingConfirm;
  ag_fresh : cl_sendPN c = 0 /\ cl_receiveWindow c = NewReplayWindow
    /\ ss_sendPN x = 0 /\ ss_receiveWindow x = NewReplayWindow
}.

Lemma parseHandshakeWire_th2 d m ctx th1 p h ad th2 :
  parseHandshakeWire d m ctx th1 = Ok (p, h, ad, th2) -> key_ok th2.
Proof. unfold parseHandshakeWire, as_hs. intros H. inv_ok. injection H as <- <- <- <-. apply Sum256_ok. Qed.

Lemma HandleInitial_parses d now now' now'' s s' r :
  HandleInitial d now now' now'' s = (s', Ok r) ->
  exists p, parseInitialWire d (so_maxDatagramSize (sv_options s)) (sv_context s) = Ok p.
Proof. unfold HandleInitial. intros H. inv_act. by eexists. Qed.

Lemma identity_typed s s' : identity_kept s s' -> server_typed s -> server_typed s'.
Proof.
  intros (E1 & E2 & E3 & E4 & E5 & E6) [H1 H2 H3 H4 H5 H6 H7 H8 H9 H10].
  constructor; rewrite ?E1, ?E2, ?E4, ?E5; auto.
Qed.

(** The server's reading of an honest INITIAL. *)
Lemma answer_honest c0 c1 d1 s now now' now'' s' sid d2 k :
  client_typed c0 -> server_typed s -> sv_staticPrivate s = Some k ->
  cl_serverStaticPublic c0 = x25519_PublicKey k -> cl_deploymentID c0 = sv_deploymentID s ->
  Start c0 = (c1, Ok d1) -> sv_attempts s !! cl_th1 c1 = None ->
  HandleInitial d1 now now' now'' s = (s', Ok (sid, d2)) ->
  exists cid e rest th1 ck scid s2 e2 s3 x sid0 h payload ct,
    c1 = client_started cid e (x25519 e (x25519_PublicKey k)) th1 (client_with_random rest c0)
    /\ 0 < cid < 2 ^ 64 /\ key_ok e /\ bytes_ok rest
    /\ cl_staticPrivate c0 = Some ck /\ key_ok ck /\ key_ok k
    /\ 0 < scid < 2 ^ 64 /\ key_ok e2 /\ identity_kept s s2 /\ SCID h = cid
    /\ buildResponse (mkPacket h payload) (mkInitial (co_retryToken (cl_options c0)) (x25519_PublicKey e) ct)
         th1 (x25519 k (x25519_PublicKey e)) (x25519_PublicKey ck) (co_addressFamilies (cl_options c0))
         (co_maxDatagramSize (cl_options c0)) scid e2 s2 = (s3, Ok (x, d2))
    /\ sid = Some sid0 /\ answered s' sid0 x d2 (now'' + so_pendingAttemptTimeout (sv_options s3)).
Proof.
  intros Hc Hs Hk Hpub Hdep HS Hfresh HH.
  destruct (Start_inv c0 c1 d1 Hc HS) as (cid & e & es & th1 & rest & Hb & Hcid & He & Hrest & -> & _).
  destruct (buildInitial_inv c0 cid e d1 es th1 Hc He Hcid Hb)
    as (fields & pt & prk1 & k1 & ad & h & payload & -> & Hz & HM1 & Hk1 & Hf & Hm & Hp & HD & HSC).
  destruct (ct_static c0 Hc) as (ck & Hck & Hckk & Hcpub).
  assert (Hctx : sv_context s = cl_context c0) by (by rewrite (st_context s Hs), (ct_context c0 Hc), Hdep).
  destruct (HandleInitial_parses _ _ _ _ _ _ _ HH) as [r Hr]. rewrite Hctx in Hr.
  rewrite <- (parseInitialWire_limit _ _ _ _ _ _ Hp Hr), <- Hctx in Hr. clear r Hp.
  destruct (HandleInitial_inv s d1 now now' now'' s' sid d2 _ _ _ _ Hr Hfresh (st_random s Hs) HH)
    as (s1 & es' & prk1' & k1' & pt' & fields' & cs & rf & cmd & scid & s2 & e2 & s3 & x & sid0 &
        Hi1 & HDH & HM1' & HO & HP1 & HV & Hscid & He2 & Hi2 & HB & -> & Hans).
  cbn [init_ClientEphemeralPublic init_EncryptedPayload pkt_Header] in HDH, HO, HV.
  rewrite Hk in HDH. apply DH_inv in HDH as (k' & [= <-] & -> & Hz').
  destruct (st_private s Hs) as (k' & Hk' & Hkk). rewrite Hk in Hk'. injection Hk' as <-.
  rewrite Hpub, (x25519_comm e k) in HM1 by done. rewrite Hctx, HM1 in HM1'. injection HM1' as <- <-.
  rewrite OpenHandshake_sealed in HO by done. injection HO as <-.
  assert (Hfok : Forall TLV_ok fields) by (by eapply initialFields_ok).
  destruct (MarshalTLVsFor_ParseTLVsFor fields TLVContextInitial pt Hfok Hm) as (HP2 & HF & _ & _).
  rewrite HP2 in HP1. injection HP1 as <-. rewrite HSC in HV.
  destruct (validateInitialFields_sent s1 c0 cid fields _ _ Hc Hcid Hf HF HV) as ([= -> -> ->] & _ & _).
  rewrite Hcpub in HB. rewrite Hpub.
  exists cid, e, rest, th1, ck, scid, s2, e2, s3, x, sid0, h, payload, (aead_Seal k1 handshakeNonce pt ad).
  split_and!; try done; try apply Hcid; try apply Hscid.
Qed.

Lemma Finish_run c d :
  cl_state c = StateInitialSent -> cl_ephemeralPrivate c <> None ->
  Finish d c = match openHandshake c d with
               | Ok (n, scid, th2, traffic) => (client_finished scid th2 (fst traffic) (snd traffic) n c, Ok tt)
               | Err e => (client_closed StateRejected c, Err e)
               | Panic => (c, Panic)
               | Diverge => (c, Diverge)
               end.
Proof.
  intros Hst He. unfold Finish, act_bind at 1, act_get. rewrite (bool_decide_true (cl_state c = _)) by done.
  rewrite bool_decide_false by done. cbn [negb orb]. unfold reject_on_error, act_bind, act_lift.
  by destruct (openHandshake c d) as [[[[n scid] th2] traffic]|e| |].
Qed.

Lemma agreement c0 c1 d1 s now now' now'' s' sid d2 k :
  client_typed c0 -> server_typed s -> sv_staticPrivate s = Some k ->
  cl_serverStaticPublic c0 = x25519_PublicKey k -> cl_deploymentID c0 = sv_deploymentID s ->
  Start c0 = (c1, Ok d1) -> sv_attempts s !! cl_th1 c1 = None ->
  HandleInitial d1 now now' now'' s = (s', Ok (sid, d2)) ->
  let n := negotiate (sv_options s) (cl_options c0) in
  exists sid0 x c2, sid = Some sid0 /\ bytes_ok (cl_random c1)
    /\ answered s' sid0 x d2 (now'' + so_pendingAttemptTimeout (sv_options s))
    /\ (if client_accepts (cl_options c0) n
        then Finish d2 c1 = (c2, Ok tt) /\ agreed c2 x /\ cl_negotiated c2 = n
          /\ cl_random c2 = cl_random c1
        else Finish d2 c1 = (client_closed StateRejected c1, Err ErrParameters)).
Proof.
  intros Hc Hs Hk Hpub Hdep HS Hfresh HH n.
  destruct (answer_honest c0 c1 d1 s now now' now'' s' sid d2 k Hc Hs Hk Hpub Hdep HS Hfresh HH)
    as (cid & e & rest & th1 & ck & scid & s2 & e2 & s3 & x & sid0 & h & payload & ct & -> & Hcid & He & Hrest
        & Hck & Hckk & Hkk & Hscid & He2 & Hi & HSC & HB & -> & Hans).
  pose proof (identity_typed s s2 Hi Hs) as Hs2. destruct Hi as (I1 & I2 & I3 & I4 & I5 & _).
  assert (Hsel := selected_families (cl_options c0) (sv_options s) _ (ct_options c0 Hc) (st_options s Hs) eq_refl).
  destruct (ct_options c0 Hc) as [_ Hcd _]. destruct (st_options s Hs) as [_ Hsd _ _ _ _ _ _ _].
  apply buildResponse_inv in HB; [| done | rewrite I4; unfold byte_ok; lia | done | done | cbn; unfold uint_ok; lia].
  destruct HB as (k' & fields & enc & prk2 & k2 & h2 & payload2 & ad & th2 & -> & Hk' & Hfam & Z1 & Z2 & Z3 & HM
    & Hk2 & Hf & Hm & Hp & HD & HS2 & Hx).
  rewrite I2, Hk in Hk'. injection Hk' as <-. rewrite I4 in *. cbn [pkt_Header] in *. rewrite HSC in *.
  set (c1 := client_started _ _ _ _ _) in *.
  specialize (Hp (co_maxDatagramSize (cl_options c0)) ltac:(lia)). pose proof (parseHandshakeWire_th2 _ _ _ _ _ _ _ _ Hp) as Hth2.
  assert (Hctx : sv_context s2 = cl_context c0) by (by rewrite (st_context s2 Hs2), (ct_context c0 Hc), Hdep, I1).
  rewrite Hctx in Hp.
  assert (Hc1 : client_typed c1) by (destruct Hc; by constructor).
  assert (Ho := openHandshake_agrees c1 s2 k d2 n scid th2 fields enc prk2 k2 h2 payload2 ad e2 e ck).
  rewrite Finish_run by done. rewrite Ho; [clear Ho | try done; try (by cbn; congruence)..].
  - exists sid0, x, (client_finished scid th2 (hkdf_expand prk2 (c2sLabel ++ th2) 32)
      (hkdf_expand prk2 (s2cLabel ++ th2) 32) n c1). split_and!; [done | done | done |].
    change (cl_options c1) with (cl_options c0). destruct (client_accepts (cl_options c0) n); [|done].
    split_and!; try done. rewrite Hx. destruct (ct_static c0 Hc) as (ck' & Hck' & _ & Hcpub).
    constructor; cbn; try done; try (split; (done || lia)).
    + split_and!; [done | apply hkdf_key_ok..].
    + rewrite Hcpub. congruence.
    + destruct (ct_transport c0 Hc). by split_and!.
  - by rewrite I4.
  - cbn. unfold uint_ok. lia.
Qed.
End Agreement.
