(* ===== verification/Establish.v ===== *)
(** * From key agreement to an established session

    CONFIRM with PING, the server's check against the attempt cache, and PONG:
    the rest of the honest run, and the channel it leaves behind. *)

From stdpp Require Import base list strings numbers gmap.
From S2P Require Import Prelude CodecErrors WireFormat Payload Packet Tlv Frame Replay Crypto HandshakeTypes HandshakeWire HandshakeServer AttemptCache ServerHandshake ServerFrames Netip ClientHandshake Channel Agreement.
Local Open Scope Z_scope.
Local Open Scope wg_scope.

Definition pong_frames (challenge : bytes) : list Frame := [mkFrame FramePong 0 challenge].

Lemma control_frame_good ty body n :
  (ty = FrameConfirm /\ n = 32) \/ ((ty = FramePing \/ ty = FramePong) /\ n = 8) ->
  len body = n -> bytes_ok body -> frame_good (mkFrame ty 0 body).
Proof.
  intros Hty Hl Hb. split; [|split].
  - split_and!; [|done | done]. by destruct Hty as [[-> _]|[[->| ->] _]].
  - unfold validateFrame. destruct Hty as [[-> ->]|[[->| ->] ->]]; cbn -[len]; by rewrite Hl.
  - cbn. destruct Hty as [[_ ->]|[_ ->]]; lia.
Qed.

(** Well-formed frames that combine and fit are sendable. *)
Lemma good_sendable fs max :
  Forall frame_good fs -> fs <> [] -> validateFrameCombination fs = Ok tt ->
  628 <= max < 2 ^ 16 -> len (frames_bytes fs) <= 580 -> sendable max fs.
Proof.
  intros Hg Hne Hc Hmax Hl. split; [eapply Forall_impl; [exact Hg | by intros f [? _]]|].
  exists (frames_bytes fs). unfold maxPlaintextForDatagram, HeaderSize, AEADTagSize.
  apply (MarshalFrames_layout _ _ (max - 32 - 16)); try done; [|lia].
  unfold normalizeFrameLimit, FrameHeaderSize, MaxUint16. by_test. done.
Qed.

Lemma confirm_sendable th2 challenge max :
  key_ok th2 -> len challenge = 8 -> bytes_ok challenge -> 628 <= max < 2 ^ 16 ->
  sendable max (confirm_frames th2 challenge).
Proof.
  intros [Ht Hb] Hl Hc Hmax. apply good_sendable; try done.
  - apply Forall_cons_2; [|apply Forall_cons_2; [|apply Forall_nil_2]];
      [apply (control_frame_good _ _ 32) | apply (control_frame_good _ _ 8)]; tauto.
  - unfold confirm_frames. cbn [frames_bytes]. rewrite !len_app, !len_frame_bytes. cbn [frame_Body]. rewrite len_nil. lia.
Qed.

Lemma pong_sendable challenge max :
  len challenge = 8 -> bytes_ok challenge -> 628 <= max < 2 ^ 16 -> sendable max (pong_frames challenge).
Proof.
  intros Hl Hc Hmax. apply good_sendable; try done.
  - apply Forall_cons_2; [|apply Forall_nil_2]. apply (control_frame_good _ _ 8); tauto.
  - unfold pong_frames. cbn [frames_bytes]. rewrite !len_app, !len_frame_bytes. cbn [frame_Body]. rewrite len_nil. lia.
Qed.

Section Establish.
Context {P : Primitives} {HP : PrimitivesOk P}.

(** The first packet of a direction arrives and opens. *)
Lemma first_packet key dcid scid max frames w :
  key_ok key -> 0 < dcid < 2 ^ 64 -> 0 < scid < 2 ^ 64 -> 628 <= max < 2 ^ 16 -> sendable max frames ->
  w = NewReplayWindow ->
  exists d w', transport_send key dcid scid 0 max frames = Ok d
    /\ transport_receive key dcid scid w max d = Ok (w', Ok frames) /\ represents w' [0].
Proof.
  intros Hk Hd Hs Hmax [Hf [pt Hpt]] ->.
  destruct (transport_send_ok key dcid scid 0 max frames pt) as [d Hsend]; try done; try lia.
  pose proof (transport_received key dcid scid 0 max frames d NewReplayWindow [] Hk Hd Hs ltac:(lia) Hf
    represents_empty Hsend) as (w' & Hrecv & Hr).
  by exists d, w'.
Qed.
(** The client's first transport packet. *)
Lemma BuildConfirm_run c x challenge rest :
  agreed c x -> cl_random c = challenge ++ rest -> len challenge = 8 -> bytes_ok challenge ->
  exists d w', BuildConfirm c =
      (client_challenged StatePendingPong challenge true
         (client_with_sendPN 1 (client_with_random rest c)), Ok (d, challenge))
    /\ transport_receive (ss_c2sKey x) (ss_serverCID x) (ss_clientCID x) (ss_receiveWindow x) (ss_maxDatagram x) d
       = Ok (w', Ok (confirm_frames (ss_th2 x) challenge)) /\ represents w' [0].
Proof.
  intros [Hth Hc2s Hs2c (Kt & Kc & Ks) [Hcc Hcc'] [Hsc Hsc'] [Hmax Hmax'] _ [Hst _] (Hpn & _ & _ & Hw)] Hr Hl Hb.
  destruct (first_packet (ss_c2sKey x) (ss_serverCID x) (ss_clientCID x) (ss_maxDatagram x)
    (confirm_frames (ss_th2 x) challenge) (ss_receiveWindow x)) as (d & w' & Hsend & Hrecv & Hrep);
    [done | done | done | done | by apply confirm_sendable | done |].
  exists d, w'. split_and!; [|done | done].
  unfold BuildConfirm, act_bind at 1, act_get. rewrite bool_decide_true by done. cbn [negb].
  assert (Hread : ReadFull (cl_random c) 8 = Some (challenge, rest)).
  { unfold ReadFull. rewrite Hr, len_app. pose proof (len_nonneg rest). by_test.
    change (Z.to_nat 8) with 8%nat. assert (length challenge = 8%nat) by (unfold len in Hl; lia).
    by rewrite take_app_length', drop_app_length'. }
  rewrite Hread. unfold act_bind, act_set, act_ret. rewrite client_sealLocked_run by (cbn; lia).
  cbn [cl_c2sKey cl_serverCID cl_clientCID cl_sendPN cl_transportMaxSize client_with_random cl_th2].
  rewrite Hth, Hc2s, Hsc, Hcc, Hpn, Hmax, Hsend. done.
Qed.

Lemma promoteAttempt_run s key id e sid d expires now :
  sv_attempts s !! key = Some id -> sv_entries s !! id = Some (entry_ready e sid d expires) -> now < expires ->
  exists es, promoteAttempt key sid now s = (server_with_entries es (sv_nextEntry s) s, Ok true).
Proof.
  intros Hk He Hnow. unfold promoteAttempt, act_bind, act_get, get_entry. rewrite Hk, He. cbn [ae_phase ae_session ae_expiresAt entry_ready].
  rewrite !bool_decide_true by done. cbn [negb orb]. replace (now <? expires) with true by lia. cbn [negb].
  unfold put_entry, act_set, act_ret. by eexists.
Qed.

Lemma copy_challenge {E} challenge : len challenge = 8 -> copy_at (E := E) (zeros 8) 0 challenge = Ok challenge.
Proof.
  intros Hl. change (zeros 8) with ([] ++ zeros 8). rewrite copy_at_zeros by (done || lia).
  rewrite zeros_nil by lia. by rewrite app_nil_r.
Qed.

(** The server's check of CONFIRM and its PONG. *)
Lemma HandleConfirm_run s sid x d2 expires now d w' challenge :
  answered s sid x d2 expires -> now < expires -> ss_state x = StatePendingConfirm ->
  ss_sendPN x = 0 -> key_ok (ss_s2cKey x) -> 0 < ss_clientCID x < 2 ^ 64 -> 0 < ss_serverCID x < 2 ^ 64 ->
  628 <= ss_maxDatagram x < 2 ^ 16 -> len challenge = 8 -> bytes_ok challenge ->
  transport_receive (ss_c2sKey x) (ss_serverCID x) (ss_clientCID x) (ss_receiveWindow x) (ss_maxDatagram x) d
  = Ok (w', Ok (confirm_frames (ss_th2 x) challenge)) ->
  exists s' x' pong, HandleConfirm sid d now s = (s', Ok pong)
    /\ transport_send (ss_s2cKey x) (ss_clientCID x) (ss_serverCID x) 0 (ss_maxDatagram x) (pong_frames challenge) = Ok pong
    /\ sv_sessions s' !! sid = Some x'
    /\ session_view x' = Some (mkView (ss_s2cKey x) (ss_c2sKey x) (ss_serverCID x) (ss_clientCID x) 1 w' (ss_maxDatagram x)).
Proof.
  intros [(key & Hx & id & e & Hk & Hek & He)] Hnow Hst Hpn Ks Hcc Hsc Hmax Hl Hb Hrecv.
  destruct (pong_sendable challenge (ss_maxDatagram x) Hl Hb Hmax) as [Hf [pt Hpt]].
  destruct (transport_send_ok (ss_s2cKey x) (ss_clientCID x) (ss_serverCID x) 0 (ss_maxDatagram x)
    (pong_frames challenge) pt) as [pong Hpong]; try done; try lia.
  unfold HandleConfirm. rewrite (act_bind_run (get_session sid) _ s s (session_attached x key))
    by (unfold get_session; by rewrite Hx).
  cbn [ss_state session_attached]. rewrite Hst. cbn [bool_decide decide negb andb].
  rewrite (bool_decide_true (StatePendingConfirm = _)), (bool_decide_false (StatePendingConfirm = StateEstablished)) by done.
  cbn [negb andb].
  erewrite act_bind_run; [|rewrite (session_openLocked_run s sid _ d Hx);
    cbn [ss_c2sKey ss_serverCID ss_clientCID ss_receiveWindow ss_maxDatagram session_attached]; rewrite Hrecv; reflexivity].
  cbn [confirm_frames frame_Type frame_Body ss_th2 session_attached]. rewrite !Z.eqb_refl. cbn [negb orb].
  rewrite (proj2 (secureEqual_spec _ _)) by done. cbn [negb].
  set (x1 := session_with_window _ w'). set (s1 := server_with_sessions _ _ s).
  rewrite (act_bind_run (get_session sid) _ s1 s1 x1) by (unfold get_session, s1; cbn; by rewrite lookup_insert_eq).
  change (ss_hasAttempt x1) with true. change (ss_attemptKey x1) with key. cbv iota.
  destruct (promoteAttempt_run s1 key id e sid d2 expires now) as [es Hprom]; [done..|].
  set (s2 := server_with_entries es (sv_nextEntry s1) s1) in *.
  set (x2 := session_confirmed x1 challenge).
  set (s3 := server_with_sessions (<[sid := x2]> (sv_sessions s2)) (sv_nextSession s2) s2).
  rewrite (act_bind_run _ _ s1 s3 tt); [| rewrite (act_bind_run _ _ s1 s2 true Hprom);
    rewrite copy_challenge by done; done].
  assert (Hx3 : sv_sessions s3 !! sid = Some x2) by (cbn; by rewrite lookup_insert_eq).
  unfold on_error. rewrite (session_sealLocked_run s3 sid x2) by (done || cbn; lia).
  cbn [ss_s2cKey ss_clientCID ss_serverCID ss_sendPN ss_maxDatagram x2 x1 session_confirmed session_with_window session_attached].
  rewrite Hpn. fold (pong_frames challenge). rewrite Hpong. eexists _, _, pong. split_and!; [done | done | |].
  - cbn [sv_sessions server_with_sessions]. by rewrite lookup_insert_eq.
  - unfold session_view. cbn. by rewrite bool_decide_true.
Qed.
(** PONG establishes the client. *)
Lemma HandlePong_run c x challenge rest pong :
  let c3 := client_challenged StatePendingPong challenge true (client_with_sendPN 1 (client_with_random rest c)) in
  agreed c x -> len challenge = 8 -> bytes_ok challenge ->
  transport_send (ss_s2cKey x) (ss_clientCID x) (ss_serverCID x) 0 (ss_maxDatagram x) (pong_frames challenge) = Ok pong ->
  exists c4 w, HandlePong pong c3 = (c4, Ok tt) /\ represents w [0]
    /\ client_view c4 = Some (mkView (ss_c2sKey x) (ss_s2cKey x) (ss_clientCID x) (ss_serverCID x) 1 w (ss_maxDatagram x)).
Proof.
  intros c3 [Hth Hc2s Hs2c (Kt & Kc & Ks) [Hcc Hcc'] [Hsc Hsc'] [Hmax Hmax'] _ _ (Hpn & Hw & _ & _)] Hl Hb Hsend.
  destruct (pong_sendable challenge (ss_maxDatagram x) Hl Hb Hmax') as [Hf _].
  pose proof (transport_received (ss_s2cKey x) (ss_clientCID x) (ss_serverCID x) 0 _ _ _ NewReplayWindow [] Ks Hcc' Hsc' ltac:(lia) Hf represents_empty Hsend)
    as (w & Hrecv & Hr).
  unfold HandlePong, act_bind at 1, act_get. cbn [cl_state cl_haveChallenge cl_pendingChallenge c3 client_challenged].
  rewrite bool_decide_true by done. cbn [negb orb].
  erewrite act_bind_run; [|rewrite client_openLocked_run; cbn; rewrite Hs2c, Hcc, Hsc, Hmax, Hw, Hrecv; reflexivity].
  cbn [pong_frames frame_Type frame_Body]. rewrite (proj2 (secureEqual_spec challenge challenge)) by done. cbn.
  eexists _, w. split_and!; [done | done |]. unfold client_view. cbn. rewrite bool_decide_true by done. congruence.
Qed.

(** Both ends established, with matched views of one session. *)
Record established (c : Client) (s : Server) (sid : nat) : Prop := {
  es_views : exists x vc vs, client_view c = Some vc /\ sv_sessions s !! sid = Some x /\ session_view x = Some vs
    /\ matched vc vs /\ matched vs vc /\ v_sendPN vc = 1 /\ v_sendPN vs = 1
    /\ represents (v_window vc) [0] /\ represents (v_window vs) [0]
}.

Lemma confirmation c s sid x d2 expires now :
  agreed c x -> answered s sid x d2 expires -> now < expires -> bytes_ok (cl_random c) -> 8 <= len (cl_random c) ->
  exists c3 d3 challenge s3 pong c4, BuildConfirm c = (c3, Ok (d3, challenge))
    /\ HandleConfirm sid d3 now s = (s3, Ok pong) /\ HandlePong pong c3 = (c4, Ok tt) /\ established c4 s3 sid.
Proof.
  intros Hag Han Hnow Hb Hl. pose proof Hag as [_ _ _ (Kt & Kc & Ks) [_ Hcc] [_ Hsc] [_ Hmax] _ [_ Hst] (_ & _ & Hpn & _)].
  set (challenge := take 8 (cl_random c)). set (rest := drop 8 (cl_random c)).
  assert (Hr : cl_random c = challenge ++ rest) by (unfold challenge, rest; by rewrite take_drop).
  assert (Hlc : len challenge = 8) by (unfold challenge, len in *; rewrite length_take; lia).
  assert (Hbc : bytes_ok challenge) by (by apply bytes_ok_take).
  destruct (BuildConfirm_run c x challenge rest Hag Hr Hlc Hbc) as (d3 & w' & HB & Hrecv & Hrep).
  destruct (HandleConfirm_run s sid x d2 expires now d3 w' challenge)
    as (s3 & x' & pong & HC & Hpong & Hx' & Hv); try done.
  destruct (HandlePong_run c x challenge rest pong Hag Hlc Hbc Hpong) as (c4 & w & HPo & Hw & Hvc).
  eexists _, d3, challenge, s3, pong, c4. split_and!; [done | done | done |].
  constructor. exists x'. eexists _, _. split_and!; try done; constructor; cbn; (split; [done | first [done | lia]]).
Qed.
End Establish.

(** C2: an honest handshake agrees.  A client and a server of the same deployment,
    the client holding the server's public key: if the client's INITIAL is new to
    the server and the server answers it, the session the server stores and the
    client's side after [Finish] have the same transcript hash, the same
    directional keys, connection identifiers and datagram limit, and the client's
    negotiated parameters are exactly the server's selection.  [Finish] can fail in
    one way only: the selection is outside the client's own limits (tunnel MTU, or
    a lease that is no global unicast address), and then the client is left
    rejected, without keys. *)
Theorem handshake_agreement {P : Primitives} {HP : PrimitivesOk P} c0 c1 d1 s now now' now'' s' sid d2 k :
  client_typed c0 -> server_typed s -> sv_staticPrivate s = Some k ->
  cl_serverStaticPublic c0 = x25519_PublicKey k -> cl_deploymentID c0 = sv_deploymentID s ->
  Start c0 = (c1, Ok d1) -> sv_attempts s !! cl_th1 c1 = None ->
  HandleInitial d1 now now' now'' s = (s', Ok (sid, d2)) ->
  let n := negotiate (sv_options s) (cl_options c0) in
  exists sid0 x c2, sid = Some sid0 /\ answered s' sid0 x d2 (now'' + so_pendingAttemptTimeout (sv_options s))
    /\ (if client_accepts (cl_options c0) n
        then Finish d2 c1 = (c2, Ok tt) /\ agreed c2 x /\ cl_negotiated c2 = n
        else Finish d2 c1 = (client_closed StateRejected c1, Err ErrParameters)).
Proof.
  intros Hc Hs Hk Hp Hd HS Hf HH n.
  destruct (agreement c0 c1 d1 s now now' now'' s' sid d2 k Hc Hs Hk Hp Hd HS Hf HH)
    as (sid0 & x & c2 & Hsid & _ & Han & HF).
  exists sid0, x, c2. split_and!; [done | done |]. unfold n. destruct (client_accepts _ _); [|done].
  destruct HF as (? & ? & ? & _). done.
Qed.

(** C1: an honest handshake establishes both ends.  When the client accepts the
    selection, has eight random bytes left for its challenge, and its CONFIRM
    reaches the server before the pending attempt expires, then [Finish],
    [BuildConfirm], [HandleConfirm] and [HandlePong] all succeed, one after the
    other; both ends end up established with matched keys, identifiers and limits,
    each having sent and accepted exactly packet 0. *)
Theorem handshake_establishes {P : Primitives} {HP : PrimitivesOk P} c0 c1 d1 s now now' now'' now3 s' sid d2 k :
  client_typed c0 -> server_typed s -> sv_staticPrivate s = Some k ->
  cl_serverStaticPublic c0 = x25519_PublicKey k -> cl_deploymentID c0 = sv_deploymentID s ->
  Start c0 = (c1, Ok d1) -> sv_attempts s !! cl_th1 c1 = None ->
  HandleInitial d1 now now' now'' s = (s', Ok (sid, d2)) ->
  client_accepts (cl_options c0) (negotiate (sv_options s) (cl_options c0)) = true ->
  8 <= len (cl_random c1) -> now3 < now'' + so_pendingAttemptTimeout (sv_options s) ->
  exists sid0 c2 c3 d3 challenge s3 pong c4, sid = Some sid0 /\ Finish d2 c1 = (c2, Ok tt)
    /\ BuildConfirm c2 = (c3, Ok (d3, challenge)) /\ HandleConfirm sid0 d3 now3 s' = (s3, Ok pong)
    /\ HandlePong pong c3 = (c4, Ok tt) /\ established c4 s3 sid0.
Proof.
  intros Hc Hs Hk Hp Hd HS Hf HH Hacc Hr Hnow.
  destruct (agreement c0 c1 d1 s now now' now'' s' sid d2 k Hc Hs Hk Hp Hd HS Hf HH)
    as (sid0 & x & c2 & Hsid & Hb & Han & HF). rewrite Hacc in HF. destruct HF as (HF & Hag & _ & Hrand).
  destruct (confirmation c2 s' sid0 x d2 _ now3 Hag Han Hnow) as (c3 & d3 & challenge & s3 & pong & c4 & H1 & H2 & H3 & H4);
    [by rewrite Hrand | by rewrite Hrand |].
  exists sid0, c2, c3, d3, challenge, s3, pong, c4. by split_and!.
Qed.

(** ** A concrete run *)
Definition client_config_ok (config : ClientConfig) : Prop :=
  client_config_typed config
  /\ (len (cc_DeploymentID config) = 16 /\ bytes_ok (cc_DeploymentID config))
  /\ match cc_StaticPrivate config with Some k => key_ok k | None => True end
  /\ key_ok (cc_ServerStaticPublic config) /\ bytes_ok (cc_RetryToken config).
Definition server_config_ok (config : ServerConfig) : Prop :=
  server_config_typed config
  /\ (len (sc_DeploymentID config) = 16 /\ bytes_ok (sc_DeploymentID config))
  /\ match sc_StaticPrivate config with Some k => key_ok k | None => True end
  /\ (bytes_ok (sc_IPv4Lease config) /\ bytes_ok (sc_IPv6Lease config)) /\ bytes_ok (sc_DNSParameters config)
  /\ uint_ok 64 (sc_EgressPolicy config) /\ uint_ok 64 (sc_Capabilities config).

Lemma NewClient_typed `{PrimitivesOk} config random c :
  client_config_ok config -> bytes_ok random -> NewClient config random = Ok c -> client_typed c.
Proof.
  intros (Ht & Hd & Hk & Hs & Htok) Hr Hn. unfold NewClient in Hn. inv_ok.
  apply normalizeClientConfig_ok in Ha as Ho; [|done].
  assert (Htoken : co_retryToken a = cc_RetryToken config).
  { unfold normalizeClientConfig in Ha. destruct (cc_StaticPrivate config); [|done]. inv_ok. by subst. }
  destruct (cc_StaticPrivate config) as [k|]; [|done]. unfold as_hs in Hn. rewrite PublicBytes_run in Hn.
  cbn in Hn. injection Hn as <-. constructor; cbn; try done; [by exists k | by rewrite Htoken].
Qed.

Lemma NewServer_typed config random s :
  server_config_ok config -> bytes_ok random -> NewServer config random = Ok s -> server_typed s.
Proof.
  intros (Ht & Hd & Hk & Hl & Hdns & He & Hc) Hr Hn. unfold NewServer in Hn. inv_ok.
  apply normalizeServerConfig_ok in Ha as Ho; [|done].
  unfold normalizeServerConfig in Ha. destruct (sc_StaticPrivate config) as [k|] eqn:Ek; [|done]. inv_ok. subst.
  constructor; cbn; rewrite ?Ek; try done; [by exists k|].
  destruct Ht as (_ & _ & _ & Ht). destruct (sc_LeaseSeconds config =? 0); [lia | apply Ht].
Qed.

Definition run_client_config : ClientConfig :=
  mkClientConfig (replicate 16 7) (Some (be_split 32 11)) (Toy.base (be_split 32 17)) None [] 5 0 0 0 0.
Definition run_server_config : ServerConfig :=
  mkServerConfig (replicate 16 7) (Some (be_split 32 17)) [Toy.base (be_split 32 11)] None 5 0 0 0 0
    [10; 0; 0; 2; 24] [] 1 [] 0 0 0 0 0.
Definition run_client_random : bytes := be_split 8 77 ++ be_split 32 12345 ++ be_split 8 99.
Definition run_server_random : bytes := be_split 8 88 ++ be_split 32 67890.

Definition run_client : Client :=
  match NewClient (P := Toy.primitives) run_client_config run_client_random with Ok c => c | _ => demo_peer_client end.
Definition run_server : Server :=
  match NewServer run_server_config run_server_random with Ok s => s | _ => demo_peer_server end.
Definition run_started : Client := fst (Start (P := Toy.primitives) run_client).
Definition run_initial : bytes :=
  match snd (Start (P := Toy.primitives) run_client) with Ok d => d | _ => [] end.
Definition run_answered : Server := fst (HandleInitial (P := Toy.primitives) run_initial 5 5 5 run_server).
Definition response_of (r : hs (option nat * bytes)) : bytes := match r with Ok (_, d) => d | _ => [] end.
Definition run_handshake : bytes :=
  response_of (snd (HandleInitial (P := Toy.primitives) run_initial 5 5 5 run_server)).

Lemma run_client_typed : client_typed (P := Toy.primitives) run_client.
Proof.
  apply (NewClient_typed run_client_config run_client_random); [| |vm_compute; reflexivity];
    [split_and! | ]; apply (bool_decide_unpack _); vm_compute; exact I.
Qed.

Lemma run_server_typed : server_typed run_server.
Proof.
  apply (NewServer_typed run_server_config run_server_random); [| |vm_compute; reflexivity];
    [split_and! | ]; apply (bool_decide_unpack _); vm_compute; exact I.
Qed.

Lemma handshake_agreement_witness :
  exists x c2, answered run_answered 0 x run_handshake (5 + 5 * Second)
    /\ Finish (P := Toy.primitives) run_handshake run_started = (c2, Ok tt) /\ agreed c2 x.
Proof.
  destruct (handshake_agreement (P := Toy.primitives) run_client run_started run_initial run_server 5 5 5
    run_answered (Some 0%nat) run_handshake (be_split 32 17)) as (sid & x & c2 & Hsid & Han & HF).
  - exact run_client_typed.
  - exact run_server_typed.
  - vm_compute. reflexivity.
  - vm_compute. reflexivity.
  - vm_compute. reflexivity.
  - vm_compute. reflexivity.
  - vm_compute. reflexivity.
  - vm_compute. reflexivity.
  - injection Hsid as <-. exists x, c2.
    replace (client_accepts _ _) with true in HF by (vm_compute; reflexivity).
    split; [exact Han | split; apply HF].
Defined.

Lemma handshake_establishes_witness :
  exists c4 s3, established c4 s3 0.
Proof.
  destruct (handshake_establishes (P := Toy.primitives) run_client run_started run_initial run_server 5 5 5 6
    run_answered (Some 0%nat) run_handshake (be_split 32 17))
    as (sid & c2 & c3 & d3 & challenge & s3 & pong & c4 & Hsid & _ & _ & _ & _ & H).
  - exact run_client_typed.
  - exact run_server_typed.
  - vm_compute. reflexivity.
  - vm_compute. reflexivity.
  - vm_compute. reflexivity.
  - vm_compute. reflexivity.
  - vm_compute. reflexivity.
  - vm_compute. reflexivity.
  - vm_compute. reflexivity.
  - apply (bool_decide_unpack _). vm_compute. exact I.
  - apply (bool_decide_unpack _). vm_compute. exact I.
  - injection Hsid as <-. exists c4, s3. exact H.
Defined.
