(* ===== verification/Safety.v ===== *)
(** * Network input never brings an endpoint down

    Every call of the handshake and transport code comes back, with a value or
    an error, on whatever datagram arrives: no index, slice or fixed-width read
    is out of range on any path.  Here for the client, over whole runs of its
    methods; the lemmas about received messages serve the server as well. *)

From stdpp Require Import base list strings numbers gmap sorting.
From S2P Require Import Prelude CodecErrors WireFormat Payload Packet Tlv Frame Replay Crypto HandshakeTypes HandshakeWire HandshakeServer AttemptCache ServerHandshake ServerFrames Netip ClientHandshake Channel Agreement Establish.
Local Open Scope Z_scope.
Local Open Scope wg_scope.

(** ** Encoders *)
Lemma Header_MarshalBinary_returns h : returns (Header_MarshalBinary h).
Proof.
  pose proof (Header_validate_returns h) as Hr. destruct (Header_validate h) as [[]|e| |] eqn:E; try done.
  - by rewrite Header_marshal_layout.
  - unfold Header_MarshalBinary. by rewrite E.
Qed.

Lemma Packet_MarshalBinary_returns p max : bytes_ok (pkt_Payload p) -> returns (Packet_MarshalBinary p max).
Proof.
  intros Hb. unfold Packet_MarshalBinary. apply returns_bind; [apply normalizeDatagramLimit_returns | intros limit Hl].
  apply returns_if; intros H1; [exact I|]. apply returns_if; intros H2; [exact I|].
  apply returns_bind; [by apply validateOuterPayload_returns | intros [] Ho].
  apply returns_bind; [apply Header_MarshalBinary_returns | intros e He].
  apply Header_marshal_valid in He as [_ ->]. pose proof (len_nonneg (pkt_Payload p)).
  rewrite <- (app_nil_l (zeros _)).
  rewrite copy_at_zeros by (rewrite ?len_header_bytes; unfold HeaderSize; len_side). cbn [obind app].
  rewrite len_header_bytes. unfold HeaderSize.
  by rewrite copy_at_zeros by (rewrite ?len_header_bytes; lia).
Qed.

Lemma MarshalFrames_check_returns fs : forall limit total,
  Forall Frame_ok fs -> returns (MarshalFrames_check fs limit total).
Proof.
  induction fs as [|f fs IH]; intros limit total Hf; cbn [MarshalFrames_check]; [exact I|].
  apply Forall_cons_1 in Hf as [(_ & _ & Hb) Hf].
  apply returns_bind; [by apply validateFrame_returns | intros _ _]. repeat (apply returns_if; intros ?); try exact I. by apply IH.
Qed.

Lemma MarshalFrames_returns fs m : Forall Frame_ok fs -> returns (MarshalFrames fs m).
Proof.
  intros Hf. unfold MarshalFrames. apply returns_bind; [apply normalizeFrameLimit_returns | intros limit Hl].
  apply returns_if; intros; [exact I|]. apply returns_bind; [apply validateFrameCombination_returns | intros [] _].
  apply returns_bind; [by apply MarshalFrames_check_returns | intros total Ht].
  pose proof (normalizeFrameLimit_range _ _ Hl). apply MarshalFrames_check_inv in Ht as (Hv & -> & _); [|lia].
  rewrite Z.add_0_l. change (zeros ?n) with ([] ++ zeros n). change 0 with (len (@nil Z)).
  rewrite MarshalFrames_write_layout; [exact I|]. eapply Forall_impl; [exact Hv | by intros f [_ ?]].
Qed.

Lemma frames_bytes_ok fs : Forall frame_good fs -> bytes_ok (frames_bytes fs).
Proof.
  intros H. induction H as [|f fs ((Ht & _ & Hb) & _ & _) _ IH]; [constructor|]. cbn [frames_bytes].
  apply bytes_ok_app. split; [|done]. unfold frame_bytes. repeat (apply bytes_ok_app; split); try done; [| |apply be_split_ok].
  - constructor; [exact Ht | constructor].
  - constructor; [by unfold byte_ok | constructor].
Qed.

Lemma MarshalTLVs_check_returns cs : forall prev total, returns (MarshalTLVs_check cs prev total).
Proof.
  induction cs as [|f cs IH]; intros prev total; cbn [MarshalTLVs_check]; [exact I|].
  apply returns_if; intros; [exact I|]. apply returns_bind; [apply validateTLVField_returns | intros _ _].
  repeat (apply returns_if; intros ?); try exact I. by apply IH.
Qed.

Lemma MarshalTLVsFor_returns fs ctx : returns (MarshalTLVsFor fs ctx).
Proof.
  unfold MarshalTLVsFor, MarshalTLVs. apply returns_bind; [apply ValidateTLVs_returns | intros _ _].
  apply returns_bind; [apply MarshalTLVs_check_returns | intros total Ht].
  apply MarshalTLVs_check_inv in Ht as (_ & Hv & -> & _); [|apply sort_TLVs_sorted | done | lia].
  rewrite Z.add_0_l. change (zeros ?n) with ([] ++ zeros n). change 0 with (len (@nil Z)).
  rewrite MarshalTLVs_write_layout; [exact I|]. eapply Forall_impl; [exact Hv | by intros f [_ ?]].
Qed.

Lemma ParseTLVsFor_returns d ctx : bytes_ok d -> returns (ParseTLVsFor d ctx).
Proof. intros Hd. unfold ParseTLVsFor. returns_tac. Qed.

Lemma makeHandshakePrefix_returns e n : key_ok e -> returns (makeHandshakePrefix e n).
Proof.
  intros [He _]. unfold makeHandshakePrefix. apply returns_if; intros; [exact I|].
  change (zeros (32 + 2)) with ([] ++ zeros 34). unfold PutUint16.
  rewrite copy_at_zeros by (done || lia). cbn [obind app]. rewrite He.
  by rewrite put_uint_zeros by (unfold len in *; simpl; lia).
Qed.

Lemma makeInitialPrefix_returns token e n : key_ok e -> returns (makeInitialPrefix token e n).
Proof.
  intros [He _]. unfold makeInitialPrefix. apply returns_if; intros; [exact I|].
  pose proof (len_nonneg token). change (zeros (2 + len token + 32 + 2)) with ([] ++ zeros (2 + len token + 32 + 2)).
  unfold PutUint16. rewrite put_uint_zeros by (done || lia). cbn [obind].
  rewrite copy_at_zeros by len_side. cbn [obind]. rewrite copy_at_zeros by len_side. cbn [obind].
  by rewrite put_uint_zeros by len_side.
Qed.

Lemma makeHeader_returns kind dcid scid pn n : returns (makeHeader kind dcid scid pn n).
Proof.
  unfold makeHeader, as_hs. apply returns_if; intros; [exact I|].
  apply returns_bind; [apply returns_wrap, Header_MarshalBinary_returns | intros; exact I].
Qed.

Lemma marshalWirePacket_returns h p c max : bytes_ok p -> bytes_ok c -> returns (marshalWirePacket h p c max).
Proof. intros Hp Hc. apply returns_wrap, Packet_MarshalBinary_returns. by apply bytes_ok_app. Qed.

(** ** Received messages *)
Lemma packet_payload_ok d max p : bytes_ok d -> ParsePacket d max = Ok p -> bytes_ok (pkt_Payload p).
Proof. intros Hd (_ & _ & _ & _ & _ & ->)%Packet_parse_inv; [|done]. by apply bytes_ok_app in Hd as [_ ?]. Qed.

Lemma len_suffix {A} (l k : list A) : (exists p, k = p ++ l) -> len l <= len k.
Proof. intros [p ->]. rewrite len_app. pose proof (len_nonneg p). lia. Qed.

Section Received.
Context {P : Primitives} {HP : PrimitivesOk P}.

Lemma parseInitialWire_safe d max ctx :
  bytes_ok d ->
  returns (parseInitialWire d max ctx)
  /\ forall p i ad th1, parseInitialWire d max ctx = Ok (p, i, ad, th1) ->
     Initial_ok i /\ 16 <= len (init_EncryptedPayload i) /\ Header_ok (pkt_Header p) /\ key_ok th1.
Proof.
  intros Hd. unfold parseInitialWire, as_hs. split.
  - apply returns_bind; [apply returns_wrap; by apply ParsePacket_returns | intros p Hp].
    apply wrap_err_Ok in Hp. apply returns_if; intros; [exact I|].
    pose proof (packet_payload_ok d max p Hd Hp) as Hb.
    apply returns_bind; [apply returns_wrap; by apply ParseInitial_returns | intros i Hi].
    apply wrap_err_Ok, Initial_parse_inv in Hi as (_ & _ & Hpay); [|done].
    apply returns_if; intros Hlt; [exact I|]. apply returns_bind; [|intros; exact I].
    assert (len (init_EncryptedPayload i) <= len (pkt_Payload p))
      by (rewrite Hpay; apply len_suffix; unfold initial_bytes; rewrite !app_assoc; by eexists).
    apply slice_returns; unfold HeaderSize in *; lia.
  - intros p i ad th1 H. inv_ok. injection H as -> -> <- <-.
    apply Packet_parse_inv in Ha as Hp; [|done]. pose proof (packet_payload_ok d max p Hd Ha) as Hb.
    apply Initial_parse_inv in Ha0 as (Hok & Hfit & _); [|done].
    split; [exact Hok | split; [exact (proj1 Hfit) | split; [apply Hp | apply Sum256_ok]]].
Qed.

Lemma parseHandshakeWire_safe d max ctx th1 :
  bytes_ok d ->
  returns (parseHandshakeWire d max ctx th1)
  /\ forall p m ad th2, parseHandshakeWire d max ctx th1 = Ok (p, m, ad, th2) ->
     Handshake_ok m /\ Header_ok (pkt_Header p) /\ key_ok th2.
Proof.
  intros Hd. unfold parseHandshakeWire, as_hs. split.
  - apply returns_bind; [apply returns_wrap; by apply ParsePacket_returns | intros p Hp].
    apply wrap_err_Ok in Hp. apply returns_if; intros; [exact I|].
    pose proof (packet_payload_ok d max p Hd Hp) as Hb.
    apply returns_bind; [apply returns_wrap; by apply ParseHandshake_returns | intros m Hm].
    apply wrap_err_Ok, Handshake_parse_inv in Hm as (_ & _ & Hpay); [|done].
    apply returns_if; intros Hlt; [exact I|]. apply returns_bind; [|intros; exact I].
    assert (len (hs_EncryptedPayload m) <= len (pkt_Payload p))
      by (rewrite Hpay; apply len_suffix; unfold handshake_bytes; rewrite !app_assoc; by eexists).
    apply slice_returns; unfold HeaderSize in *; lia.
  - intros p m ad th2 H. inv_ok. injection H as -> -> <- <-.
    apply Packet_parse_inv in Ha as Hp; [|done]. pose proof (packet_payload_ok d max p Hd Ha) as Hb.
    apply Handshake_parse_inv in Ha0 as (Hok & _ & _); [|done].
    split; [exact Hok | split; [apply Hp | apply Sum256_ok]].
Qed.

(** ** Cryptographic calls *)
Lemma DH_returns a p : returns (DH a p).
Proof.
  unfold DH, ECDH. destruct a as [k|]; [|exact I]. apply returns_if; intros; [exact I|].
  destruct (isAllZero (x25519 k p)) eqn:E; [exact I|]. apply returns_if; intros; [exact I|].
  apply returns_if; intros; [exact I|]. by rewrite copy_key by apply x25519_size.
Qed.

Lemma DH_key a p r : DH a p = Ok r -> key_ok r.
Proof. intros (k & _ & -> & _)%DH_inv. apply x25519_size. Qed.

Lemma DeriveM1_returns ctx es : returns (DeriveM1 ctx es).
Proof. rewrite DeriveM1_spec. by destruct (isAllZero es). Qed.

Lemma DeriveM2_returns th1 es ss ee se :
  key_ok es -> key_ok ss -> key_ok ee -> key_ok se -> returns (DeriveM2 th1 es ss ee se).
Proof. intros. rewrite DeriveM2_spec by done. by destruct (_ || _). Qed.

Lemma aead_New_returns k : returns (aead_New k).
Proof. unfold aead_New. by destruct (negb _). Qed.

Lemma OpenHandshake_returns k ad c : returns (OpenHandshake k ad c).
Proof.
  unfold OpenHandshake. apply returns_if; intros; [exact I|].
  apply returns_bind; [apply aead_New_returns | intros _ _]. by destruct (aead_Open _ _ _ _).
Qed.

Lemma OpenHandshake_bytes k ad c p : bytes_ok c -> OpenHandshake k ad c = Ok p -> bytes_ok p.
Proof.
  intros Hc H. unfold OpenHandshake, aead_New in H. inv_ok.
  destruct (aead_Open k handshakeNonce c ad) as [q|] eqn:E'; [|done]. injection H as <-. by eapply aead_Open_bytes.
Qed.

Lemma SealHandshake_returns k ad p : returns (SealHandshake k ad p).
Proof. unfold SealHandshake. apply returns_bind; [apply aead_New_returns | intros; exact I]. Qed.

Lemma OpenTransportPlaintext_returns k p : returns (OpenTransportPlaintext k p).
Proof.
  unfold OpenTransportPlaintext, as_err. repeat (apply returns_if; intros ?; [exact I|]).
  apply returns_bind; [apply returns_wrap, Header_MarshalBinary_returns | intros ? _].
  apply returns_bind; [apply aead_New_returns | intros _ _]. by destruct (aead_Open _ _ _ _).
Qed.

Lemma OpenTransportPlaintext_bytes k p pt :
  bytes_ok (pkt_Payload p) -> OpenTransportPlaintext k p = Ok pt -> bytes_ok pt.
Proof.
  intros Hb H. unfold OpenTransportPlaintext, as_err, aead_New in H. inv_ok.
  destruct (aead_Open _ _ _ _) as [q|] eqn:E'; [|done]. injection H as <-. by eapply aead_Open_bytes.
Qed.

Lemma transport_send_returns key dcid scid pn max frames :
  Forall Frame_ok frames -> returns (transport_send key dcid scid pn max frames).
Proof.
  intros Hf. unfold transport_send, as_hs. apply returns_bind.
  - apply returns_wrap. unfold SealTransport. apply returns_if; intros; [exact I|].
    apply returns_bind; [by apply returns_wrap, MarshalFrames_returns | intros pt _].
    unfold SealTransportPlaintext, as_err. repeat (apply returns_if; intros ?; [exact I|]).
    apply returns_bind; [apply returns_wrap, Header_MarshalBinary_returns | intros ? _].
    apply returns_bind; [apply aead_New_returns | intros; exact I].
  - intros p Hp. apply wrap_err_Ok in Hp. apply returns_wrap, Packet_MarshalBinary_returns.
    unfold SealTransport in Hp. inv_ok. unfold SealTransportPlaintext, as_err, aead_New in Hp. inv_ok.
    apply aead_Seal_bytes. apply MarshalFrames_inv in Ha as (l & _ & -> & _ & _ & Hg & _); [|done].
    by apply frames_bytes_ok.
Qed.

Lemma transport_receive_safe key local remote w h max d :
  bytes_ok d -> represents w h ->
  returns (transport_receive key local remote w max d)
  /\ forall w' r, transport_receive key local remote w max d = Ok (w', r) ->
     returns r /\ exists pn, represents w' (record h pn).
Proof.
  intros Hd Hr. unfold transport_receive, parseTransportDatagram, as_hs.
  assert (Hacc : forall p, ParsePacket d max = Ok p -> exists w', AcceptAuthenticated w (PacketNumber (pkt_Header p))
      = Ok (w', (fun k => mkReplayError k (PacketNumber (pkt_Header p)) (newest h)) <$> verdict h (PacketNumber (pkt_Header p)))
      /\ represents w' (record h (PacketNumber (pkt_Header p)))).
  { intros p (Hh & _)%Packet_parse_inv; [|done]. apply accept_refines; [done | apply Hh]. }
  split.
  - apply returns_bind.
    + apply returns_bind; [by apply returns_wrap, ParsePacket_returns | intros p _]. apply returns_if; intros; exact I.
    + intros p Hp. inv_ok. repeat (apply returns_if; intros ?; [exact I|]).
      apply returns_bind; [apply returns_wrap, OpenTransportPlaintext_returns | intros pt _].
      destruct (Hacc p Ha) as (w' & -> & _). exact I.
  - intros w' r H. inv_ok.
    match goal with Hp : ParsePacket d max = Ok ?p, Hx : AcceptAuthenticated _ _ = Ok _ |- _ =>
      rename Hp into Hpk; destruct (Hacc p Hpk) as (w1 & Hw & Hr1); rewrite Hw in Hx; injection Hx as <- end.
    injection H as <- <-. split; [|by eexists]. cbn [snd]. destruct (verdict h _); [exact I|].
    apply returns_wrap, ParseFrames_returns. eapply OpenTransportPlaintext_bytes; [|done]. by eapply packet_payload_ok.
Qed.
End Received.

(** ** Field validation *)
Lemma required_field d ctx fs t n :
  bytes_ok d -> ParseTLVsFor d ctx = Ok fs -> t ∈ requiredTLVs ctx -> fixedTLVLength t = Some n ->
  len (find_or_nil fs t) = n /\ bytes_ok (find_or_nil fs t).
Proof.
  intros Hd (_ & Hv & Hg)%ParseTLVsFor_inv Ht Hn; [|done]. destruct (tv_required fs ctx Hv t Ht) as [v Hf].
  unfold find_or_nil. rewrite Hf. by apply (found_length fs t).
Qed.

Lemma optional_field d ctx fs t v n :
  bytes_ok d -> ParseTLVsFor d ctx = Ok fs -> FindTLV fs t = Some v -> fixedTLVLength t = Some n ->
  len v = n /\ bytes_ok v.
Proof. intros Hd (_ & Hv & Hg)%ParseTLVsFor_inv Hf Hn; [|done]. by apply (found_length fs t). Qed.

(** [field_reads]: follow validation code whose reads are within known lengths. *)
Ltac field_reads :=
  repeat match goal with
  | |- returns (if _ then _ else _) => apply returns_if; intros ?
  | |- returns (obind _ _) => apply returns_bind; [|intros ? ?]
  end;
  try exact I; try (apply index_returns; lia); try (apply be_uint_returns; unfold len in *; lia).

(** [required_len]: the length and bytes of a required field of a parsed message. *)
Ltac required_len H Hd t n :=
  let L := fresh "L" in let B := fresh "B" in
  pose proof (required_field _ _ _ t n Hd H ltac:(apply (bool_decide_unpack _); vm_compute; exact I) eq_refl) as [L B].

Lemma validateInitialFields_safe s d fs cid :
  bytes_ok d -> ParseTLVsFor d TLVContextInitial = Ok fs ->
  returns (validateInitialFields s fs cid)
  /\ forall cs rf cmd, validateInitialFields s fs cid = Ok (cs, rf, cmd) ->
     key_ok cs /\ families_ok rf /\ 52 <= cmd < 2 ^ 16 /\ cs ∈ sv_registeredClients s.
Proof.
  intros Hd H. required_len H Hd TLVVersion 1. required_len H Hd TLVClientCID 8.
  required_len H Hd TLVAddressFamilies 1. required_len H Hd TLVMaxDatagramSize 2.
  required_len H Hd TLVClientStaticKey 32. unfold validateInitialFields.
  destruct (FindTLV fs TLVEnrollmentTokenID); [done|]. destruct (FindTLV fs TLVEnrollmentProof); [done|].
  rewrite copy_key by done. split.
  - field_reads.
  - intros cs rf cmd Hok. inv_ok. injection Hok as <- <- <-. split_and!; [done..| | | |].
    + apply and_not_families; [|lia | lia]. apply index_Ok in Ha1 as [_ Hx]. unfold bytes_ok in B1. rewrite Forall_lookup in B1. exact (B1 _ _ Hx).
    + unfold HeaderSize, AEADTagSize, FrameHeaderSize in *. lia.
    + apply be_uint_bound in Ha2; [|done]. apply Ha2.
    + rewrite isRegistered_spec in *. by apply negb_false_iff, bool_decide_eq_true in E4.
Qed.

Lemma validateHandshakeFields_safe c d fs cid :
  bytes_ok d -> ParseTLVsFor d TLVContextHandshake = Ok fs ->
  returns (validateHandshakeFields c fs cid)
  /\ forall n scid, validateHandshakeFields c fs cid = Ok (n, scid) ->
     0 < scid < 2 ^ 64 /\ scid = cid /\ 52 <= ng_MaxDatagramSize n <= co_maxDatagramSize (cl_options c).
Proof.
  intros Hd H. required_len H Hd TLVVersion 1. required_len H Hd TLVClientCID 8. required_len H Hd TLVServerCID 8.
  required_len H Hd TLVCapabilities 8. required_len H Hd TLVAddressFamilies 1. required_len H Hd TLVMaxDatagramSize 2.
  required_len H Hd TLVTunnelMTU 2. required_len H Hd TLVLeaseSeconds 4.
  unfold validateHandshakeFields.
  split.
  - field_reads; unfold unacceptable in *.
    + destruct (FindTLV fs TLVIPv4Lease) as [l|] eqn:E; [|exact I].
      destruct (optional_field d _ fs _ l 5 Hd H E eq_refl). apply returns_bind; [apply slice_returns; lia | intros; exact I].
    + destruct (FindTLV fs TLVIPv6Lease) as [l|] eqn:E; [|exact I].
      destruct (optional_field d _ fs _ l 17 Hd H E eq_refl). apply returns_bind; [apply slice_returns; lia | intros; exact I].
    + destruct (FindTLV fs TLVEgressPolicyVersion) as [l|] eqn:E; [|exact I].
      destruct (optional_field d _ fs _ l 8 Hd H E eq_refl). apply be_uint_returns. unfold len in *; lia.
  - intros n scid Hok. apply obind_Ok in Hok as (wrong & _ & Hok). inv_ok. injection Hok as <- <-. cbn [ng_MaxDatagramSize].
    apply be_uint_bound in Ha0; [|done]. change (256 ^ Z.of_nat 8) with (2 ^ 64) in Ha0.
    unfold HeaderSize, AEADTagSize, FrameHeaderSize in *. lia.
Qed.

(** ** The client *)
Record client_ok `{Primitives} (c : Client) : Prop := {
  ci_deployment : len (cl_deploymentID c) = 16 /\ bytes_ok (cl_deploymentID c);
  ci_static : key_ok (cl_staticPublic c);
  ci_options : client_options_ok (cl_options c);
  ci_token : bytes_ok (co_retryToken (cl_options c));
  ci_random : bytes_ok (cl_random c);
  ci_window : exists h, represents (cl_receiveWindow c) h;
  ci_sendPN : 0 <= cl_sendPN c <= 2 ^ 32;
  ci_max : 52 <= cl_transportMaxSize c < 2 ^ 16;
  ci_challenge : len (cl_pendingChallenge c) = 8 /\ bytes_ok (cl_pendingChallenge c);
  ci_have : cl_haveChallenge c = bool_decide (cl_state c = StatePendingPong);
  ci_th2 : key_ok (cl_th2 c);
  ci_es : key_ok (cl_es c);
  ci_keys : match cl_state c with
    | StateIdle | StateRejected | StateClosed =>
        cl_ephemeralPrivate c = None /\ cl_es c = zeros 32 /\ cl_c2sKey c = zeros 32 /\ cl_s2cKey c = zeros 32
    | StateInitialSent =>
        is_Some (cl_ephemeralPrivate c) /\ cl_c2sKey c = zeros 32 /\ cl_s2cKey c = zeros 32
    | StatePendingConfirm | StatePendingPong | StateEstablished =>
        cl_ephemeralPrivate c = None /\ cl_es c = zeros 32 /\ key_ok (cl_c2sKey c) /\ key_ok (cl_s2cKey c)
        /\ 0 < cl_serverCID c < 2 ^ 64
    end
}.

Inductive ClientCall : Set :=
| CallStart
| CallFinish (d : bytes)
| CallBuildConfirm
| CallRetransmit
| CallHandlePong (d : bytes)
| CallSeal (frames : list Frame)
| CallOpen (d : bytes)
| CallClose.

Definition call_typed (call : ClientCall) : Prop :=
  match call with
  | CallFinish d | CallHandlePong d | CallOpen d => bytes_ok d
  | CallSeal frames => Forall Frame_ok frames
  | _ => True
  end.

Definition sealing (call : ClientCall) : bool :=
  match call with CallBuildConfirm | CallRetransmit | CallSeal _ => true | _ => false end.

Section ClientSafety.
Context {P : Primitives} {HP : PrimitivesOk P}.

(** A call, and the transport datagram it emits. *)
Definition run_call (call : ClientCall) : cli (option bytes) :=
  match call with
  | CallStart => do! Start; act_ret None
  | CallFinish d => do! Finish d; act_ret None
  | CallBuildConfirm => let! r := BuildConfirm in act_ret (Some (fst r))
  | CallRetransmit => let! d := RetransmitConfirm in act_ret (Some d)
  | CallHandlePong d => do! HandlePong d; act_ret None
  | CallSeal frames => let! d := Client_Seal frames in act_ret (Some d)
  | CallOpen d => do! Client_Open d; act_ret None
  | CallClose => do! Client_Close; act_ret None
  end.

Lemma buildInitial_safe c cid e :
  key_ok e -> client_ok c ->
  returns (buildInitial c cid e) /\ forall d es th1, buildInitial c cid e = Ok (d, es, th1) -> key_ok es.
Proof.
  intros He Hc. unfold buildInitial, as_hs. rewrite PublicBytes_run. cbn [wrap_err obind]. split.
  - apply returns_bind; [apply returns_wrap, DH_returns | intros es _].
    apply returns_bind; [apply returns_wrap, DeriveM1_returns | intros keys _].
    destruct (initialFields_bytes c cid) as (fs & -> & Hfs); [apply Hc | apply Hc | apply Hc |]. cbn [obind].
    apply returns_bind; [apply returns_wrap, MarshalTLVsFor_returns | intros pt Hpt]. apply wrap_err_Ok in Hpt.
    apply returns_bind; [apply makeInitialPrefix_returns, x25519_PublicKey_size | intros prefix Hpre].
    apply makeInitialPrefix_inv in Hpre as (-> & _ & _); [|apply x25519_PublicKey_size].
    apply returns_bind; [apply makeHeader_returns | intros [h eh] Hh].
    apply returns_bind; [apply returns_wrap, SealHandshake_returns | intros ct Hct].
    apply wrap_err_Ok, SealHandshake_inv in Hct as [_ ->].
    apply returns_if; intros; [exact I|]. apply returns_bind; [|intros; exact I]. apply marshalWirePacket_returns.
    + unfold initial_prefix. repeat (apply bytes_ok_app; split); try apply be_split_ok; [apply Hc | apply x25519_PublicKey_size].
    + apply aead_Seal_bytes. by eapply MarshalTLVsFor_ParseTLVsFor.
  - intros d es th1 H. inv_ok. injection H as <- <- <-. by eapply DH_key.
Qed.
Lemma openHandshake_safe c d :
  client_ok c -> bytes_ok d ->
  returns (openHandshake c d)
  /\ forall n scid th2 traffic, openHandshake c d = Ok (n, scid, th2, traffic) ->
     0 < scid < 2 ^ 64 /\ key_ok th2 /\ key_ok (fst traffic) /\ key_ok (snd traffic)
     /\ 52 <= ng_MaxDatagramSize n <= co_maxDatagramSize (cl_options c).
Proof.
  intros Hc Hd. unfold openHandshake, as_hs.
  destruct (parseHandshakeWire_safe d (co_maxDatagramSize (cl_options c)) (cl_context c) (cl_th1 c) Hd) as [Hr Hsafe].
  split.
  - apply returns_bind; [done | intros [[[p m] ad] th2] Hp]. destruct (Hsafe _ _ _ _ Hp) as ((_ & Hct) & _ & _).
    apply returns_if; intros; [exact I|].
    apply returns_bind; [apply returns_wrap, DH_returns | intros ss Hss].
    apply returns_bind; [apply returns_wrap, DH_returns | intros ee Hee].
    apply returns_bind; [apply returns_wrap, DH_returns | intros se Hse].
    apply wrap_err_Ok, DH_key in Hss, Hee, Hse.
    apply returns_bind; [apply returns_wrap; by apply DeriveM2_returns; [apply Hc|..] | intros keys _].
    apply returns_bind; [apply returns_wrap, OpenHandshake_returns | intros pt Hpt].
    apply wrap_err_Ok, OpenHandshake_bytes in Hpt; [|done].
    apply returns_bind; [by apply returns_wrap, ParseTLVsFor_returns | intros fs Hfs]. apply wrap_err_Ok in Hfs.
    apply returns_bind; [by eapply validateHandshakeFields_safe | intros checked _].
    by rewrite DeriveTraffic_spec.
  - intros n scid th2 traffic H. apply obind_Ok in H as ([[[p m] ad] th2'] & Hp & H). inv_ok.
    destruct (Hsafe _ _ _ _ Hp) as ((_ & Hct) & _ & Hth2). injection H as <- <- <- <-.
    rewrite DeriveTraffic_spec in *. apply OpenHandshake_bytes in Ha3; [|done].
    destruct a5 as [n' scid']. destruct (validateHandshakeFields_safe c a3 a4 (SCID (pkt_Header p)) Ha3 Ha4) as [_ Hv].
    destruct (Hv n' scid' Ha5) as (Hscid & _ & Hmax). apply Ok_inj in Ha6. subst a6.
    split; [exact Hscid | split; [exact Hth2 | split; [apply hkdf_key_ok | split; [apply hkdf_key_ok | exact Hmax]]]].
Qed.

(** ** Packet numbers on the wire *)
Definition datagram_pn (d : bytes) : Z := be_combine (take 8 (drop 20 d)).

Lemma transport_send_pn key dcid scid pn max frames d :
  uint_ok 64 pn -> transport_send key dcid scid pn max frames = Ok d -> datagram_pn d = pn.
Proof.
  intros Hpn H. unfold transport_send, as_hs in H. inv_ok. apply Packet_marshal_inv in H as (_ & _ & _ & ->).
  assert (Hh : PacketNumber (pkt_Header a) = pn).
  { unfold SealTransport in Ha. inv_ok. unfold SealTransportPlaintext, as_err in Ha. inv_ok. done. }
  unfold datagram_pn, packet_bytes, header_bytes, with_PayloadLength. cbn [PacketNumber Version Kind Flags DCID SCID].
  rewrite Hh, <- !app_assoc.
  rewrite (drop_app_ge _ _ 20) by (cbn; lia). cbn [length Nat.sub].
  rewrite (drop_app_ge _ _ 18) by (rewrite length_be_split; lia). rewrite length_be_split. cbn [Nat.sub].
  rewrite (drop_app_ge _ _ 16) by (rewrite length_be_split; lia). rewrite length_be_split. cbn [Nat.sub].
  rewrite (drop_app_ge _ _ 8) by (rewrite length_be_split; lia). rewrite length_be_split. cbn [Nat.sub]. rewrite drop_0.
  rewrite take_app_length' by (by rewrite length_be_split). by apply be_combine_split.
Qed.

(** ** One call *)
Definition next_on_success (call : ClientCall) (st : State) : option State :=
  match call, st with
  | CallStart, StateIdle => Some StateInitialSent
  | CallFinish _, StateInitialSent => Some StatePendingConfirm
  | CallBuildConfirm, StatePendingConfirm => Some StatePendingPong
  | CallRetransmit, StatePendingPong => Some StatePendingPong
  | CallHandlePong _, StatePendingPong => Some StateEstablished
  | (CallSeal _ | CallOpen _), StateEstablished => Some StateEstablished
  | CallClose, _ => Some StateClosed
  | _, _ => None
  end.

(** What a failing call may do to the state. *)
Definition next_on_error (call : ClientCall) (c c' : Client) : Prop :=
  cl_state c' = cl_state c
  \/ (exists d, call = CallFinish d /\ cl_state c = StateInitialSent /\ cl_state c' = StateRejected)
  \/ (sealing call = true /\ cl_sendPN c = 2 ^ 32 /\ cl_state c' = StateClosed).

Record call_ok (call : ClientCall) (c c' : Client) (r : hs (option bytes)) : Prop := {
  ca_returns : returns r;
  ca_client : client_ok c';
  ca_success : forall o, r = Ok o -> next_on_success call (cl_state c) = Some (cl_state c');
  ca_error : forall e, r = Err e -> next_on_error call c c';
  ca_numbers : cl_sendPN c <= cl_sendPN c';
  ca_emitted : forall d, r = Ok (Some d) -> datagram_pn d = cl_sendPN c /\ cl_sendPN c' = cl_sendPN c + 1
}.

Lemma call_refused call c (e : HandshakeErr) : client_ok c -> call_ok call c c (Err e).
Proof. intros Hc. constructor; try done. by left. Qed.

Lemma closed_ok c st :
  client_ok c -> st = StateRejected \/ st = StateClosed -> client_ok (client_closed st c).
Proof.
  intros [] Hst. assert (Hz : key_ok (zeros 32)) by (apply (bool_decide_unpack _); vm_compute; exact I).
  constructor; cbn; try done; [|by destruct Hst as [-> | ->]..].
  split; [done|]. apply (bool_decide_unpack _); vm_compute; exact I.
Qed.

Lemma random_ok c r : client_ok c -> bytes_ok r -> client_ok (client_with_random r c).
Proof. intros [] Hr. by constructor. Qed.

Lemma sendPN_ok c : client_ok c -> cl_sendPN c < 2 ^ 32 -> client_ok (client_with_sendPN (cl_sendPN c + 1) c).
Proof. intros [] Hpn. constructor; try done. cbn. lia. Qed.

Lemma window_ok c w h : client_ok c -> represents w h -> client_ok (client_with_window w c).
Proof. intros [] Hw. constructor; try done. by exists h. Qed.

Lemma zero_challenge : len (zeros 8) = 8 /\ bytes_ok (zeros 8).
Proof. split; apply (bool_decide_unpack _); vm_compute; exact I. Qed.

Lemma zero_key : key_ok (zeros 32).
Proof. split; apply (bool_decide_unpack _); vm_compute; exact I. Qed.

(** [sealLocked]: the number is spent before anything can fail; at 2^32 the
    client closes instead. *)
Lemma client_sealLocked_ok c frames c' r :
  client_ok c -> Forall Frame_ok frames -> client_sealLocked frames c = (c', r) ->
  returns r /\ client_ok c'
  /\ ((cl_sendPN c < 2 ^ 32 /\ c' = client_with_sendPN (cl_sendPN c + 1) c
       /\ forall d, r = Ok d -> datagram_pn d = cl_sendPN c)
      \/ (cl_sendPN c = 2 ^ 32 /\ c' = client_closed StateClosed c /\ r = Err ErrState)).
Proof.
  intros Hc Hf H. pose proof (ci_sendPN c Hc) as Hpn. destruct (Z.eq_dec (cl_sendPN c) (2 ^ 32)) as [E|E].
  - unfold client_sealLocked, act_bind at 1, act_get in H.
    replace (rehandshakePacketNumber <=? cl_sendPN c) with true in H by (change rehandshakePacketNumber with (2 ^ 32); lia).
    injection H as <- <-. split; [exact I|]. split; [apply closed_ok; [done | by right]|]. right. by split_and!.
  - rewrite client_sealLocked_run in H by lia. injection H as <- <-.
    split; [by apply transport_send_returns|]. split; [apply sendPN_ok; [done | lia]|]. left. split_and!; [lia | done |].
    intros d Hd. eapply transport_send_pn; [unfold uint_ok; lia | exact Hd].
Qed.

Lemma client_openLocked_ok c d c' r :
  client_ok c -> bytes_ok d -> client_openLocked d c = (c', r) ->
  returns r /\ client_ok c' /\ cl_state c' = cl_state c /\ cl_sendPN c' = cl_sendPN c.
Proof.
  intros Hc Hd H. rewrite client_openLocked_run in H. destruct (ci_window c Hc) as [h Hw].
  destruct (transport_receive_safe (cl_s2cKey c) (cl_clientCID c) (cl_serverCID c) (cl_receiveWindow c) h
    (cl_transportMaxSize c) d Hd Hw) as [Hr Hs].
  destruct (transport_receive _ _ _ _ _ d) as [[w r']|e| |]; try done; injection H as <- <-; [|done].
  destruct (Hs w r' eq_refl) as [Hr' [pn Hrep]]. split_and!; try done. by eapply window_ok.
Qed.

Lemma confirm_frames_ok th2 challenge : bytes_ok th2 -> bytes_ok challenge -> Forall Frame_ok (confirm_frames th2 challenge).
Proof. intros Ht Hc. apply Forall_cons_2; [by split_and!|]. apply Forall_cons_2; [by split_and! | apply Forall_nil_2]. Qed.

(** The value of a successful call, mapped. *)
Definition out {A B} (f : A -> B) (r : hs A) : hs B :=
  match r with Ok a => Ok (f a) | Err e => Err e | Panic => Panic | Diverge => Diverge end.

Lemma bind_ret_run {A B} (m : cli A) (f : A -> B) c :
  (let! a := m in act_ret (f a)) c = (fst (m c), out f (snd (m c))).
Proof. unfold act_bind, act_ret. by destruct (m c) as [c' [a|e| |]]. Qed.

Lemma run_Start c c' r : client_ok c -> Start c = (c', r) -> call_ok CallStart c c' (out (fun _ => None) r).
Proof.
  intros Hc H. unfold Start in H. unfold act_bind at 1, act_get in H.
  destruct (bool_decide_reflect (cl_state c = StateIdle)) as [Hst|Hst]; cbn [negb] in H;
    [|injection H as <- <-; by apply call_refused].
  unfold act_bind at 1, draw_client_CID in H.
  destruct (nextNonZeroCID_spec (cl_random c) (ci_random c Hc)) as (Hb & Hret & Hcid).
  destruct (nextNonZeroCID (cl_random c)) as [r1 [cid|e| |]]; cbn [fst snd] in *; try done;
    [|injection H as <- <-; constructor; try done; [by apply random_ok | by left]].
  pose proof (random_ok c r1 Hc Hb) as Hc1. unfold act_bind at 1, draw_client_key in H. cbn [cl_random client_with_random] in H.
  destruct (GenerateKeyFrom (Some r1)) as [[e r2]|err| |] eqn:Eg;
    [|injection H as <- <-; constructor; try done; [apply random_ok; [done | constructor] | by left]..].
  apply GenerateKeyFrom_inv in Eg as [He Hr2]; [|done].
  destruct (buildInitial_safe c cid e He Hc) as [Hr Hes]. unfold act_bind at 1, act_lift in H.
  destruct (buildInitial c cid e) as [[[d es] th1]|err| |]; try done;
    [|injection H as <- <-; constructor; try done; [by apply random_ok | by left]].
  injection H as <- <-. constructor; try done; [|by rewrite Hst].
  pose proof (ci_keys c Hc) as Hk. rewrite Hst in Hk. pose proof (ci_have c Hc) as Hh. rewrite Hst in Hh.
  destruct Hc. constructor; cbn; try done; [by apply (Hes d es th1) | by destruct Hk as (_ & _ & ? & ?)].
Qed.

Lemma run_Finish c d c' r :
  client_ok c -> bytes_ok d -> Finish d c = (c', r) -> call_ok (CallFinish d) c c' (out (fun _ => None) r).
Proof.
  intros Hc Hd H. destruct (decide (cl_state c = StateInitialSent)) as [Hst|Hst].
  - pose proof (ci_keys c Hc) as Hk. rewrite Hst in Hk. destruct Hk as ([e He] & _ & _).
    rewrite Finish_run in H; [|done | by rewrite He].
    destruct (openHandshake_safe c d Hc Hd) as [Hr Hs].
    destruct (openHandshake c d) as [[[[n scid] th2] traffic]|err| |]; try done; injection H as <- <-.
    + destruct (Hs n scid th2 traffic eq_refl) as (Hscid & Hth2 & Hk1 & Hk2 & Hmax).
      constructor; try done; [|by cbn; rewrite Hst].
      pose proof (ci_have c Hc) as Hh. rewrite Hst in Hh. destruct Hc as [? ? Ho ? ? ? ? ? ? _ ? ? _].
      pose proof (cok_datagram _ Ho). constructor; cbn; try done; [lia | by apply zero_key].
    + constructor; try done; [apply closed_ok; [done | by left]|]. intros e' _. right. left. by exists d.
  - unfold Finish, act_bind, act_get in H. rewrite (bool_decide_false (cl_state c = _)) in H by done. cbn [negb orb] in H.
    injection H as <- <-. by apply call_refused.
Qed.

(** A sealing call from the state it is allowed in, the state left as it is. *)
Lemma run_seal call frames c c' r :
  client_ok c -> Forall Frame_ok frames -> sealing call = true ->
  next_on_success call (cl_state c) = Some (cl_state c) ->
  client_sealLocked frames c = (c', r) -> call_ok call c c' (out Some r).
Proof.
  intros Hc Hf Hs Hn H.
  destruct (client_sealLocked_ok c frames c' r Hc Hf H) as (Hr & Hc' & [(Hpn & -> & Hd) | (Hpn & -> & ->)]).
  - constructor; [by destruct r | done | by intros | by left | cbn; lia |].
    intros d' Hr'. destruct r as [d| | |]; try done. injection Hr' as <-. split; [by apply Hd | done].
  - constructor; try done. intros e _. right. right. by split_and!.
Qed.

Lemma run_RetransmitConfirm c c' r :
  client_ok c -> RetransmitConfirm c = (c', r) -> call_ok CallRetransmit c c' (out Some r).
Proof.
  intros Hc H. unfold RetransmitConfirm, act_bind, act_get in H.
  destruct (bool_decide_reflect (cl_state c = StatePendingPong)) as [Hst|Hst]; cbn [negb orb] in H;
    [|injection H as <- <-; by apply call_refused].
  destruct (negb _); [injection H as <- <-; by apply call_refused|].
  eapply run_seal; [done | | done | by rewrite Hst | exact H]. apply confirm_frames_ok; [apply (ci_th2 c Hc) | apply (ci_challenge c Hc)].
Qed.

Lemma run_Seal c frames c' r :
  client_ok c -> Forall Frame_ok frames -> Client_Seal frames c = (c', r) -> call_ok (CallSeal frames) c c' (out Some r).
Proof.
  intros Hc Hf H. unfold Client_Seal, act_bind, act_get in H.
  destruct (bool_decide_reflect (cl_state c = StateEstablished)) as [Hst|Hst]; cbn [negb] in H;
    [|injection H as <- <-; by apply call_refused].
  eapply run_seal; [done | done | done | by rewrite Hst | exact H].
Qed.

Lemma run_Open c d c' r :
  client_ok c -> bytes_ok d -> Client_Open d c = (c', r) -> call_ok (CallOpen d) c c' (out (fun _ => None) r).
Proof.
  intros Hc Hd H. unfold Client_Open, act_bind, act_get in H.
  destruct (bool_decide_reflect (cl_state c = StateEstablished)) as [Hst|Hst]; cbn [negb] in H;
    [|injection H as <- <-; by apply call_refused].
  destruct (client_openLocked_ok c d c' r Hc Hd H) as (Hr & Hc' & Hs & Hp).
  constructor; [by destruct r | done | | | lia |].
  - intros o _. by rewrite Hs, Hst.
  - intros e _. by left.
  - by destruct r.
Qed.

Lemma run_BuildConfirm c c' r :
  client_ok c -> BuildConfirm c = (c', r) -> call_ok CallBuildConfirm c c' (out (fun p => Some (fst p)) r).
Proof.
  intros Hc H. unfold BuildConfirm, act_bind at 1, act_get in H.
  destruct (bool_decide_reflect (cl_state c = StatePendingConfirm)) as [Hst|Hst]; cbn [negb] in H;
    [|injection H as <- <-; by apply call_refused].
  destruct (ReadFull (cl_random c) 8) as [[challenge rest]|] eqn:Er;
    [|injection H as <- <-; constructor; try done; [apply random_ok; [done | constructor] | by left]].
  apply ReadFull_inv in Er as [Er Hl]; [|lia]. pose proof (ci_random c Hc) as Hb. rewrite Er in Hb.
  apply bytes_ok_app in Hb as [Hbc Hbr]. pose proof (random_ok c rest Hc Hbr) as Hc1.
  unfold act_bind at 1, act_set at 1 in H.
  destruct (client_sealLocked (confirm_frames (cl_th2 c) challenge) (client_with_random rest c)) as [c2 r2] eqn:Es.
  destruct (client_sealLocked_ok _ _ c2 r2 Hc1 (confirm_frames_ok (cl_th2 c) challenge (proj2 (ci_th2 c Hc)) Hbc) Es)
    as (Hr & Hc2 & [(Hpn & -> & Hd) | (Hpn & -> & ->)]); unfold act_bind in H; rewrite Es in H.
  - destruct r2 as [d|e| |]; try done; injection H as <- <-; cbn [out fst].
    + constructor; try done; [| by rewrite Hst | cbn; lia | intros d' [= <-]; split; [by apply Hd | done]].
      pose proof (ci_keys c Hc) as Hk. rewrite Hst in Hk. destruct Hc2. constructor; cbn; try done.
    + constructor; try done; [by left | cbn; lia].
  - injection H as <- <-. constructor; try done. intros e _. right. right. by split_and!.
Qed.

Lemma run_HandlePong c d c' r :
  client_ok c -> bytes_ok d -> HandlePong d c = (c', r) -> call_ok (CallHandlePong d) c c' (out (fun _ => None) r).
Proof.
  intros Hc Hd H. unfold HandlePong, act_bind at 1, act_get in H.
  destruct (bool_decide_reflect (cl_state c = StatePendingPong)) as [Hst|Hst]; cbn [negb orb] in H;
    [|injection H as <- <-; by apply call_refused].
  destruct (negb _); [injection H as <- <-; by apply call_refused|].
  unfold act_bind in H. destruct (client_openLocked d c) as [c1 r1] eqn:Eo.
  destruct (client_openLocked_ok c d c1 r1 Hc Hd Eo) as (Hr & Hc1 & Hs & Hp).
  assert (Hfail : call_ok (CallHandlePong d) c c1 (Err ErrMessage)) by (constructor; try done; [by left | lia]).
  destruct r1 as [frames|e| |]; try done; [|injection H as <- <-; constructor; try done; [by left | lia]].
  destruct frames as [|pong [|? ?]]; [by injection H as <- <- | | by injection H as <- <-].
  destruct (_ || _); [by injection H as <- <-|]. injection H as <- <-. constructor; try done; [| by rewrite Hst | cbn; lia].
  pose proof (ci_keys c1 Hc1) as Hk. rewrite Hs, Hst in Hk. destruct Hc1. constructor; cbn; try done; apply zero_challenge.
Qed.
Lemma run_call_ok call c c' r :
  client_ok c -> call_typed call -> run_call call c = (c', r) -> call_ok call c c' r.
Proof.
  intros Hc Ht H. destruct call; cbn [run_call] in H; rewrite bind_ret_run in H; injection H as <- <-; cbn in Ht.
  - apply run_Start; [done | by destruct (Start c)].
  - apply run_Finish; [done | done | by destruct (Finish d c)].
  - apply run_BuildConfirm; [done | by destruct (BuildConfirm c)].
  - apply run_RetransmitConfirm; [done | by destruct (RetransmitConfirm c)].
  - apply run_HandlePong; [done | done | by destruct (HandlePong d c)].
  - apply run_Seal; [done | done | by destruct (Client_Seal frames c)].
  - apply run_Open; [done | done | by destruct (Client_Open d c)].
  - constructor; try done. apply closed_ok; [done | by right].
Qed.

(** ** Runs *)
Definition emitted (r : hs (option bytes)) : list bytes := match r with Ok (Some d) => [d] | _ => [] end.

(** A client, and the transport datagrams it has emitted so far. *)
Inductive client_run (config : ClientConfig) (random : bytes) : Client -> list bytes -> Prop :=
| client_new c : NewClient config random = Ok c -> client_run config random c []
| client_call c ds call c' r :
    client_run config random c ds -> call_typed call -> run_call call c = (c', r) ->
    client_run config random c' (ds ++ emitted r).

Lemma NewClient_ok config random c :
  client_config_ok config -> bytes_ok random -> NewClient config random = Ok c -> client_ok c.
Proof.
  intros Hcfg Hr Hn. destruct (NewClient_typed config random c Hcfg Hr Hn) as [Hd (k & Hk & _ & Hp) _ Ho Htok Hrnd _ [Hpn Hw]].
  unfold NewClient in Hn. inv_ok. destruct (cc_StaticPrivate config); [|done]. inv_ok. subst. cbn in *.
  pose proof (cok_datagram _ Ho). constructor; cbn; try done; try apply zero_key; try apply zero_challenge.
  - rewrite Hp. apply x25519_PublicKey_size.
  - exists []. apply represents_empty.
  - lia.
Qed.

Lemma client_run_ok config random c ds :
  client_config_ok config -> bytes_ok random -> client_run config random c ds -> client_ok c.
Proof.
  intros Hcfg Hr H. induction H as [c Hn | c ds call c' r _ IH Ht Hc]; [by eapply NewClient_ok|].
  by destruct (run_call_ok call c c' r IH Ht Hc).
Qed.

Lemma client_run_numbers config random c ds :
  client_config_ok config -> bytes_ok random -> client_run config random c ds ->
  StronglySorted Z.lt (map datagram_pn ds) /\ Forall (fun d => datagram_pn d < cl_sendPN c) ds.
Proof.
  intros Hcfg Hr H. induction H as [c Hn | c ds call c' r Hrun [IH1 IH2] Ht Hc]; [split; constructor|].
  pose proof (client_run_ok config random c ds Hcfg Hr Hrun) as Hok.
  destruct (run_call_ok call c c' r Hok Ht Hc) as [_ _ _ _ Hle Hem].
  assert (Hold : Forall (fun d => datagram_pn d < cl_sendPN c') ds)
    by (eapply Forall_impl; [exact IH2 | intros d; cbn; lia]).
  destruct r as [[d|]|e| |]; cbn [emitted]; rewrite ?app_nil_r; try done.
  destruct (Hem d eq_refl) as [Hd Hpn]. split.
  - rewrite map_app. apply StronglySorted_app_2; [|done | constructor; constructor].
    intros x1 x2 (d1 & <- & Hin%list_elem_of_In)%list_elem_of_In%in_map_iff ->%list_elem_of_singleton.
    rewrite Hd. rewrite Forall_forall in IH2. by apply IH2.
  - apply Forall_app_2; [done|]. apply Forall_cons_2; [lia | apply Forall_nil_2].
Qed.
End ClientSafety.

(** C5: no input breaks the client.  In every state a client of a well-typed
    configuration can reach, every method returns (no panic, no endless loop) on
    every datagram and every list of frames; a successful call follows the
    handshake order, a failing one leaves the state alone except that a bad
    HANDSHAKE rejects the attempt and an exhausted packet number closes it; only
    [HandlePong] leads to Established, and a rejected or closed client holds no
    ephemeral, shared or traffic key. *)
Theorem client_never_breaks {P : Primitives} {HP : PrimitivesOk P} config random c ds call :
  client_config_ok config -> bytes_ok random -> client_run config random c ds -> call_typed call ->
  call_ok call c (fst (run_call call c)) (snd (run_call call c)).
Proof.
  intros Hcfg Hr Hrun Ht. apply run_call_ok; [by eapply client_run_ok | done | by destruct (run_call call c)].
Qed.

Lemma client_never_breaks_witness :
  call_ok (P := Toy.primitives) (CallFinish [1; 2; 3]) run_started
    (fst (Finish (P := Toy.primitives) [1; 2; 3] run_started)) (Err ErrMessage).
Proof.
  refine (client_never_breaks (P := Toy.primitives) run_client_config run_client_random run_started []
    (CallFinish [1; 2; 3]) _ _ _ _).
  - split_and!; apply (bool_decide_unpack _); vm_compute; exact I.
  - apply (bool_decide_unpack _); vm_compute; exact I.
  - apply (client_call run_client_config run_client_random run_client [] CallStart run_started (Ok None)).
    + apply client_new. vm_compute. reflexivity.
    + exact I.
    + vm_compute. reflexivity.
  - apply (bool_decide_unpack _); vm_compute; exact I.
Defined.

(** No transport nonce is used twice.  Over every run of a client, in whatever
    order its methods are called, the datagrams it emits carry strictly increasing
    packet numbers below 2^32, retransmissions and failed sealings included. *)
Theorem client_numbers_increase {P : Primitives} {HP : PrimitivesOk P} config random c ds :
  client_config_ok config -> bytes_ok random -> client_run config random c ds ->
  StronglySorted Z.lt (map datagram_pn ds) /\ Forall (fun d => datagram_pn d < 2 ^ 32) ds.
Proof.
  intros Hcfg Hr Hrun. pose proof (ci_sendPN c (client_run_ok config random c ds Hcfg Hr Hrun)).
  destruct (client_run_numbers config random c ds Hcfg Hr Hrun) as [Hs Hf]. split; [done|].
  eapply Forall_impl; [exact Hf | intros d; cbn; lia].
Qed.


(** A run with a confirm datagram and its retransmission. *)
Definition run_finished : Client := fst (Finish (P := Toy.primitives) run_handshake run_started).
Definition run_confirming : Client * hs (option bytes) := run_call (P := Toy.primitives) CallBuildConfirm run_finished.
Definition run_retransmitted : Client * hs (option bytes) := run_call (P := Toy.primitives) CallRetransmit (fst run_confirming).

Lemma run_retransmitted_run :
  client_run (P := Toy.primitives) run_client_config run_client_random (fst run_retransmitted)
    (emitted (snd run_confirming) ++ emitted (snd run_retransmitted)).
Proof.
  apply (client_call run_client_config run_client_random (fst run_confirming) (emitted (snd run_confirming)) CallRetransmit
    (fst run_retransmitted) (snd run_retransmitted)); [|exact I | exact (surjective_pairing run_retransmitted)].
  apply (client_call run_client_config run_client_random run_finished [] CallBuildConfirm
    (fst run_confirming) (snd run_confirming)); [|exact I | exact (surjective_pairing run_confirming)].
  apply (client_call run_client_config run_client_random run_started [] (CallFinish run_handshake) run_finished (Ok None));
    [| apply (bool_decide_unpack _); vm_compute; exact I | vm_compute; reflexivity].
  apply (client_call run_client_config run_client_random run_client [] CallStart run_started (Ok None)); [|exact I | vm_compute; reflexivity].
  apply client_new. vm_compute. reflexivity.
Qed.

