(* ===== verification/ServerSafety.v ===== *)
(** * No call brings the server down

    The invariant of the whole server between the calls of one goroutine: the
    attempt cache is consistent and nothing is left half built, every session is
    well formed, and the connection identifiers in use are exactly those of the
    open sessions.  Every method keeps it on every datagram, on every path. *)

From stdpp Require Import base list strings numbers gmap sorting.
From S2P Require Import Prelude CodecErrors WireFormat Payload Packet Tlv Frame Replay Crypto HandshakeTypes HandshakeWire HandshakeServer AttemptCache ServerHandshake ServerFrames Netip ClientHandshake Channel Agreement Establish Safety.
Local Open Scope Z_scope.
Local Open Scope wg_scope.

(** ** Calls that stay within the cache *)
Definition sessions_same (s s' : Server) : Prop :=
  sv_sessions s' = sv_sessions s /\ sv_nextSession s' = sv_nextSession s /\ sv_activeCIDs s' = sv_activeCIDs s.

(** Entries being built are not created. *)
Definition no_new_building (s s' : Server) : Prop :=
  forall id e, sv_entries s' !! id = Some e -> ae_phase e = attemptBuilding -> sv_entries s !! id = Some e.

Definition within_cache (s s' : Server) : Prop := sessions_same s s' /\ no_new_building s s'.

#[export] Instance within_cache_pre : PreOrder within_cache.
Proof.
  split; [by intros s; split; [split_and! | intros id e]|].
  intros s1 s2 s3 [(E1&E2&E3) H2] [(E4&E5&E6) H3]. split; [split_and!; congruence|]. intros id e He Hb. apply H2; [by apply H3 | done].
Qed.

Lemma get_entry_within id : keeps within_cache (get_entry id).
Proof. intros s. unfold get_entry. destruct (_ !! _); reflexivity. Qed.

Lemma put_entry_within id e : ae_phase e <> attemptBuilding -> keeps within_cache (put_entry id e).
Proof.
  intros Hne. apply keeps_set. intros s. split; [by split_and!|]. intros i e'. cbn.
  destruct (decide (i = id)) as [->|Hi]; [|by rewrite lookup_insert_ne].
  rewrite lookup_insert_eq. by intros [= <-].
Qed.

Lemma attempts_within a n s : within_cache s (server_with_attempts a n s).
Proof. by split; [split_and! | intros id e]. Qed.
#[export] Hint Resolve get_entry_within : wg_keeps.
#[export] Hint Extern 1 (keeps within_cache (put_entry _ _)) => (apply put_entry_within; done) : wg_keeps.

Lemma tombstoneAttemptLocked_within id reason now : keeps within_cache (tombstoneAttemptLocked id reason now).
Proof. unfold tombstoneAttemptLocked. keeps_tac. apply attempts_within. Qed.
#[export] Hint Resolve tombstoneAttemptLocked_within : wg_keeps.

Lemma cleanup_entry_within now key id expired changed : keeps within_cache (cleanup_entry now key id expired changed).
Proof. unfold cleanup_entry. keeps_tac; apply attempts_within. Qed.
#[export] Hint Resolve cleanup_entry_within : wg_keeps.

Lemma cleanup_loop_within now items : forall expired changed, keeps within_cache (cleanup_loop now items expired changed).
Proof. induction items as [|[k i] items IH]; intros; cbn [cleanup_loop]; keeps_tac. Qed.
#[export] Hint Resolve cleanup_loop_within : wg_keeps.

Lemma cleanupAttemptsLocked_within now : keeps within_cache (cleanupAttemptsLocked now).
Proof. unfold cleanupAttemptsLocked. keeps_tac. Qed.

Lemma removeAttempt_within key sid reason now : keeps within_cache (removeAttempt key sid reason now).
Proof. unfold removeAttempt. keeps_tac. Qed.

Lemma confirmGraceActive_within key sid now : keeps within_cache (confirmGraceActive key sid now).
Proof. unfold confirmGraceActive. keeps_tac. Qed.

Lemma failAttempt_within id failure : keeps within_cache (failAttempt id failure).
Proof. unfold failAttempt. keeps_tac. apply attempts_within. Qed.

Lemma promoteAttempt_within key sid now : keeps within_cache (promoteAttempt key sid now).
Proof.
  intros s. unfold promoteAttempt, act_bind, act_get. destruct (sv_attempts s !! key) as [id|]; [|reflexivity].
  unfold get_entry. destruct (sv_entries s !! id) as [e|] eqn:He; [|reflexivity].
  destruct (bool_decide_reflect (ae_phase e = attemptReady)) as [Hr|Hr]; cbn [negb orb andb]; [|reflexivity].
  destruct (_ || _).
  - destruct (bool_decide _); [|reflexivity].
    pose proof (tombstoneAttemptLocked_within id ErrAttemptExpired now s) as H.
    by destruct (tombstoneAttemptLocked _ _ _ s) as [s' []].
  - by apply (put_entry_within id (entry_confirmed e _)); cbn; rewrite Hr.
Qed.

(** ** Closing a session *)

(** The entries being built, and the map, as they were. *)
Definition building_same (s s' : Server) : Prop :=
  sv_attempts s' = sv_attempts s
  /\ forall id e, ae_phase e = attemptBuilding -> sv_entries s' !! id = Some e <-> sv_entries s !! id = Some e.

#[export] Instance building_same_pre : PreOrder building_same.
Proof.
  split; [by intros s|]. intros s1 s2 s3 [E1 H1] [E2 H2]. split; [congruence|].
  intros id e Hb. rewrite (H2 id e Hb). by apply H1.
Qed.

Lemma removeAttempt_building key sid reason now : keeps building_same (removeAttempt key sid reason now).
Proof.
  intros s. unfold removeAttempt, act_bind, act_get. destruct (sv_attempts s !! key) as [id|]; [|reflexivity].
  unfold get_entry. destruct (sv_entries s !! id) as [e|] eqn:He; [|reflexivity].
  destruct (bool_decide_reflect (ae_phase e = attemptReady)) as [Hr|Hr]; cbn [negb orb]; [|reflexivity].
  destruct (negb _); [reflexivity|]. rewrite (tombstone_run s id e) by done. cbn [fst]. split; [done|].
  intros i e' Hb. cbn. destruct (decide (i = id)) as [->|Hi]; [|by rewrite lookup_insert_ne].
  rewrite lookup_insert_eq, He. split; intros [= <-]; cbn in *; congruence.
Qed.

(** What a closed session is. *)
Definition closed_for_good (x : ServerSession) (st : State) : ServerSession :=
  mkServerSession st (ss_clientCID x) (ss_serverCID x) (ss_clientStatic x) (ss_th2 x)
    (zeros 32) (zeros 32) (ss_sendPN x) (ss_receiveWindow x) (ss_maxDatagram x)
    true (ss_attemptKey x) false (zeros 8) false.

Lemma session_closeLocked_spec s sid x st now :
  cache_ok s -> sv_sessions s !! sid = Some x ->
  exists s', session_closeLocked sid st now s = (s', Ok tt)
    /\ evolves s s' /\ identity_kept s s' /\ building_same s s'
    /\ sv_sessions s' = <[sid := closed_for_good x st]> (sv_sessions s)
    /\ sv_nextSession s' = sv_nextSession s
    /\ sv_activeCIDs s' = (if ss_closedCID x then sv_activeCIDs s else sv_activeCIDs s ∖ {[ss_serverCID x]}).
Proof.
  intros Hs Hx. pose proof (session_closeLocked_proper sid st now s Hs (mk_is_Some _ _ Hx)) as Hp.
  pose proof (session_closeLocked_keeps sid st now s) as (Hi & _ & _).
  destruct (session_closeLocked sid st now s) as [s' [[]|e| |]] eqn:E; try done. exists s'.
  split; [done|]. split; [done|]. split; [done|]. clear Hp Hi.
  unfold session_closeLocked, act_bind at 1, get_session in E. rewrite Hx in E. unfold act_bind at 1, put_session at 1, act_set at 1 in E.
  cbn [ss_hasAttempt session_closed] in E. destruct (ss_hasAttempt x) eqn:Hat.
  - unfold act_bind at 1, act_bind at 1 in E.
    match type of E with context [removeAttempt ?k ?i ?r ?n ?s0] =>
      pose proof (removeAttempt_building k i r n s0) as Hb; pose proof (removeAttempt_within k i r n s0) as [(W1 & W2 & W3) _];
      destruct (removeAttempt k i r n s0) as [s1 [[]|e| |]]; try done end.
    cbn in Hb, W1, W2, W3. unfold act_bind at 1, put_session at 1, act_set at 1, act_ret in E.
    cbn [ss_closedCID session_detached session_closed] in E.
    destruct (ss_closedCID x) eqn:Hc; cbn in E; injection E as <-; cbn; rewrite W1, W2, W3, !insert_insert_eq;
      (split; [exact Hb|]); unfold closed_for_good, session_CID_closed, session_detached, session_closed; cbn; by rewrite ?Hc.
  - unfold act_bind at 1, act_ret in E. cbn [ss_closedCID session_closed] in E.
    destruct (ss_closedCID x) eqn:Hc; cbn in E; injection E as <-; cbn; rewrite ?insert_insert_eq;
      (split; [by split|]); unfold closed_for_good, session_CID_closed, session_closed; cbn; by rewrite ?Hc, ?Hat.
Qed.

(** ** Sessions and the account of identifiers *)
Record session_ok (x : ServerSession) : Prop := {
  sx_window : exists h, represents (ss_receiveWindow x) h;
  sx_sendPN : 0 <= ss_sendPN x <= 2 ^ 32;
  sx_max : 52 <= ss_maxDatagram x < 2 ^ 16;
  sx_th2 : key_ok (ss_th2 x);
  sx_challenge : len (ss_confirmChallenge x) = 8 /\ bytes_ok (ss_confirmChallenge x);
  sx_state : match ss_state x with
    | StatePendingConfirm => ss_closedCID x = false /\ ss_haveConfirmChallenge x = false
        /\ key_ok (ss_c2sKey x) /\ key_ok (ss_s2cKey x)
    | StateEstablished => ss_closedCID x = false /\ ss_haveConfirmChallenge x = true
        /\ key_ok (ss_c2sKey x) /\ key_ok (ss_s2cKey x)
    | StateRejected | StateClosed => ss_closedCID x = true /\ ss_hasAttempt x = false
        /\ ss_c2sKey x = zeros 32 /\ ss_s2cKey x = zeros 32
        /\ ss_confirmChallenge x = zeros 8 /\ ss_haveConfirmChallenge x = false
    | _ => False
    end
}.

(** [cid] belongs to the open session [sid]. *)
Definition owns (s : Server) (sid : nat) (cid : Z) : Prop :=
  exists x, sv_sessions s !! sid = Some x /\ ss_closedCID x = false /\ ss_serverCID x = cid.

Record account (s : Server) : Prop := {
  ac_fresh : forall sid x, sv_sessions s !! sid = Some x -> (sid < sv_nextSession s)%nat;
  ac_sessions : forall sid x, sv_sessions s !! sid = Some x -> session_ok x;
  ac_CIDs : forall cid, cid ∈ sv_activeCIDs s <-> exists sid, owns s sid cid;
  ac_owner : forall sid sid' cid, owns s sid cid -> owns s sid' cid -> sid = sid'
}.

Lemma account_same s s' : sessions_same s s' -> account s -> account s'.
Proof.
  intros (E1 & E2 & E3) [H1 H2 H3 H4]. unfold owns in *. by constructor; unfold owns; rewrite ?E1, ?E2, ?E3.
Qed.

(** An open session changes and stays open. *)
Lemma account_update s s' sid x y :
  account s -> sv_sessions s !! sid = Some x -> session_ok y ->
  ss_serverCID y = ss_serverCID x -> ss_closedCID y = ss_closedCID x ->
  sv_sessions s' = <[sid := y]> (sv_sessions s) -> sv_nextSession s' = sv_nextSession s ->
  sv_activeCIDs s' = sv_activeCIDs s -> account s'.
Proof.
  intros [H1 H2 H3 H4] Hx Hy Hcid Hcl E1 E2 E3.
  assert (Ho : forall i c, owns s' i c <-> owns s i c).
  { intros i c. unfold owns. rewrite E1. destruct (decide (i = sid)) as [->|Hne]; [|by rewrite lookup_insert_ne].
    rewrite lookup_insert_eq, Hx. split; intros (z & [= <-] & ? & ?); eexists; (split; [done|]); split; congruence. }
  constructor.
  - intros i z. rewrite E1, E2. destruct (decide (i = sid)) as [->|Hne]; [intros _; by eapply H1|].
    rewrite lookup_insert_ne by done. apply H1.
  - intros i z. rewrite E1. destruct (decide (i = sid)) as [->|Hne]; [rewrite lookup_insert_eq; by intros [= <-]|].
    rewrite lookup_insert_ne by done. apply H2.
  - intros c. rewrite E3, H3. by setoid_rewrite Ho.
  - intros i i' c Hi Hi'. apply Ho in Hi, Hi'. by eapply H4.
Qed.

(** A new open session with a new identifier. *)
Lemma account_add s s' y :
  account s -> session_ok y -> ss_closedCID y = false -> ss_serverCID y ∉ sv_activeCIDs s ->
  sv_sessions s' = <[sv_nextSession s := y]> (sv_sessions s) -> sv_nextSession s' = S (sv_nextSession s) ->
  sv_activeCIDs s' = sv_activeCIDs s ∪ {[ss_serverCID y]} -> account s'.
Proof.
  intros [H1 H2 H3 H4] Hy Hcl Hcid E1 E2 E3. set (new := sv_nextSession s) in *.
  assert (Ho : forall i c, owns s' i c <-> (i = new /\ c = ss_serverCID y) \/ (i <> new /\ owns s i c)).
  { intros i c. unfold owns. rewrite E1. destruct (decide (i = new)) as [->|Hne].
    - rewrite lookup_insert_eq. naive_solver.
    - rewrite lookup_insert_ne by done. naive_solver. }
  assert (Hold : forall i c, owns s i c -> i <> new).
  { intros i c (x & Hx & _) ->. apply H1 in Hx. unfold new in Hx. lia. }
  constructor.
  - intros i z. rewrite E1, E2. destruct (decide (i = new)) as [->|Hne]; [lia|].
    rewrite lookup_insert_ne by done. intros Hz. apply H1 in Hz. lia.
  - intros i z. rewrite E1. destruct (decide (i = new)) as [->|Hne]; [rewrite lookup_insert_eq; by intros [= <-]|].
    rewrite lookup_insert_ne by done. apply H2.
  - intros c. setoid_rewrite Ho. rewrite E3, elem_of_union, elem_of_singleton, H3. split; [|naive_solver].
    intros [[i Hi] | ->]; [exists i; right; split; [by eapply Hold | done] | exists new; by left].
  - intros i i' c [[-> ->] | [Hn Hi]]%Ho [[-> Hc] | [Hn' Hi']]%Ho; try done.
    + exfalso. apply Hcid, H3. by exists i'.
    + exfalso. subst c. apply Hcid, H3. by exists i.
    + by eapply H4.
Qed.

Lemma closed_session_ok x st : session_ok x -> st = StateRejected \/ st = StateClosed -> session_ok (closed_for_good x st).
Proof.
  intros [] Hst. constructor; cbn; try done; [apply zero_challenge|]. by destruct Hst as [-> | ->].
Qed.

Lemma account_closed s s' sid x st :
  account s -> sv_sessions s !! sid = Some x -> st = StateRejected \/ st = StateClosed ->
  sv_sessions s' = <[sid := closed_for_good x st]> (sv_sessions s) -> sv_nextSession s' = sv_nextSession s ->
  sv_activeCIDs s' = (if ss_closedCID x then sv_activeCIDs s else sv_activeCIDs s ∖ {[ss_serverCID x]}) ->
  account s'.
Proof.
  intros [H1 H2 H3 H4] Hx Hst E1 E2 E3.
  assert (Ho : forall i c, owns s' i c <-> i <> sid /\ owns s i c).
  { intros i c. unfold owns. rewrite E1. destruct (decide (i = sid)) as [->|Hne].
    - rewrite lookup_insert_eq. split; [by intros (z & [= <-] & ? & _) | by intros [? _]].
    - rewrite lookup_insert_ne by done. naive_solver. }
  constructor.
  - intros i z. rewrite E1, E2. destruct (decide (i = sid)) as [->|Hne]; [intros _; by eapply H1|].
    rewrite lookup_insert_ne by done. apply H1.
  - intros i z. rewrite E1. destruct (decide (i = sid)) as [->|Hne].
    + rewrite lookup_insert_eq. intros [= <-]. apply closed_session_ok; [by eapply H2 | done].
    + rewrite lookup_insert_ne by done. apply H2.
  - intros c. setoid_rewrite Ho. rewrite E3. destruct (ss_closedCID x) eqn:Hc.
    + rewrite H3. split; [|naive_solver]. intros [i Hi]. exists i. split; [|done].
      intros ->. destruct Hi as (z & Hz & ? & _). congruence.
    + rewrite elem_of_difference, elem_of_singleton, H3. split.
      * intros [[i Hi] Hne]. exists i. split; [|done]. intros ->. destruct Hi as (z & Hz & _ & <-). congruence.
      * intros (i & Hne & Hi). split; [by exists i|]. intros ->. apply Hne, (H4 i sid (ss_serverCID x)); [done|]. by exists x.
  - intros i i' c [_ Hi]%Ho [_ Hi']%Ho. by eapply H4.
Qed.

(** ** The invariant, with at most one attempt [b] being built *)
Record server_inv (b : option nat) (s : Server) : Prop := {
  sk_typed : server_typed s;
  sk_cache : cache_ok s;
  sk_account : account s;
  sk_building : forall id e, sv_entries s !! id = Some e -> ae_phase e = attemptBuilding -> b = Some id
}.

(** Between calls nothing is half built. *)
Definition server_ok : Server -> Prop := server_inv None.

(** Sessions are never lost, keep their identifiers, count upwards and are never
    reopened; [b] is the one session that may become established. *)
Record grows (b : option nat) (s s' : Server) : Prop := {
  gr_kept : forall sid x, sv_sessions s !! sid = Some x ->
    exists x', sv_sessions s' !! sid = Some x' /\ ss_sendPN x <= ss_sendPN x'
      /\ ss_serverCID x' = ss_serverCID x /\ ss_clientCID x' = ss_clientCID x
      /\ (ss_closedCID x = true -> ss_closedCID x' = true);
  gr_established : forall sid x', sv_sessions s' !! sid = Some x' -> ss_state x' = StateEstablished ->
    b = Some sid \/ exists x, sv_sessions s !! sid = Some x /\ ss_state x = StateEstablished
}.

#[export] Instance grows_pre b : PreOrder (grows b).
Proof.
  split; [intros s; split; [intros sid x Hx; by exists x | intros sid x Hx He; right; by exists x]|].
  intros s1 s2 s3 [H1 E1] [H2 E2]. split.
  - intros sid x Hx. destruct (H1 sid x Hx) as (y & Hy & ? & ? & ? & ?). destruct (H2 sid y Hy) as (z & Hz & ? & ? & ? & ?).
    exists z. split_and!; (done || lia || congruence || auto).
  - intros sid x Hx He. destruct (E2 sid x Hx He) as [? | (y & Hy & Hey)]; [by left | by apply (E1 sid y)].
Qed.

Lemma grows_same b s s' : sv_sessions s' = sv_sessions s -> grows b s s'.
Proof. intros E. split; rewrite E; [intros sid x Hx; by exists x | intros sid x Hx He; right; by exists x]. Qed.

Lemma grows_insert b s s' sid x y :
  sv_sessions s !! sid = Some x -> sv_sessions s' = <[sid := y]> (sv_sessions s) ->
  ss_sendPN x <= ss_sendPN y -> ss_serverCID y = ss_serverCID x -> ss_clientCID y = ss_clientCID x ->
  (ss_closedCID x = true -> ss_closedCID y = true) ->
  (ss_state y = StateEstablished -> b = Some sid \/ ss_state x = StateEstablished) -> grows b s s'.
Proof.
  intros Hx E ? ? ? ? Hst. split; intros i z Hz; [rewrite E | rewrite E in Hz]; destruct (decide (i = sid)) as [->|Hne].
  - rewrite lookup_insert_eq. exists y. rewrite Hx in Hz. by injection Hz as <-.
  - rewrite lookup_insert_ne by done. by exists z.
  - rewrite lookup_insert_eq in Hz. injection Hz as <-. intros He. destruct (Hst He); [by left | right; by exists x].
  - rewrite lookup_insert_ne in Hz by done. intros He. right. by exists z.
Qed.

(** Without the exception when the session did not end established. *)
Lemma grows_closed sid s s' x :
  grows (Some sid) s s' -> sv_sessions s' !! sid = Some x -> ss_state x <> StateEstablished -> grows None s s'.
Proof.
  intros [H1 H2] Hx Hne. split; [done|]. intros i z Hz He. destruct (H2 i z Hz He) as [[= <-] | ?]; [congruence | by right].
Qed.

Lemma grows_weaken b s s' : grows None s s' -> grows b s s'.
Proof. intros [H1 H2]. split; [done|]. intros i z Hz He. destruct (H2 i z Hz He); [done | by right]. Qed.

(** A call of the cache that is known to return. *)
Lemma within_inv {A} (m : srv A) b s :
  server_inv b s -> keeps within_cache m -> keeps cache_step m ->
  (match m s with (s', Ok _) | (s', Err _) => evolves s s' | _ => False end) ->
  returns (snd (m s)) /\ server_inv b (fst (m s)) /\ sessions_same s (fst (m s)).
Proof.
  intros [H1 H2 H3 H4] Hw Hc He. specialize (Hw s). specialize (Hc s) as (Hi & _ & _).
  destruct (m s) as [s' r]. cbn [fst snd] in *. destruct Hw as [Hsame Hb].
  assert (Hinv : cache_ok s' -> server_inv b s').
  { intros Hcache. constructor; [by eapply identity_typed | done | by eapply account_same |].
    intros id e He' Hbl. by eapply H4; [apply Hb|]. }
  destruct r; try done; (split; [exact I|]); (split; [apply Hinv, He | done]).
Qed.

Lemma close_inv b s sid x st now :
  server_inv b s -> sv_sessions s !! sid = Some x -> st = StateRejected \/ st = StateClosed ->
  exists s', session_closeLocked sid st now s = (s', Ok tt) /\ server_inv b s' /\ building_same s s'
    /\ grows None s s' /\ sv_sessions s' = <[sid := closed_for_good x st]> (sv_sessions s).
Proof.
  intros [H1 H2 H3 H4] Hx Hst.
  destruct (session_closeLocked_spec s sid x st now H2 Hx) as (s' & -> & He & Hi & Hb & E1 & E2 & E3).
  exists s'. split; [done|]. split_and!; try done.
  - constructor; [by eapply identity_typed | apply He | by eapply account_closed |].
    intros id e He' Hbl. apply (H4 id e); [|done]. by apply Hb.
  - eapply grows_insert; [done | done | done | done | done | done |]. by destruct Hst as [-> | ->].
Qed.

Lemma closeExpired_inv sessions now : forall b s,
  server_inv b s -> Forall (fun sid => known_session sid s) sessions ->
  exists s', closeExpiredSessions sessions now s = (s', Ok tt) /\ server_inv b s' /\ building_same s s' /\ grows None s s'.
Proof.
  induction sessions as [|sid rest IH]; intros b s Hs Hk; cbn [closeExpiredSessions].
  { exists s. split_and!; [done | done | reflexivity | reflexivity]. }
  apply Forall_cons_1 in Hk as [[x Hx] Hk].
  destruct (close_inv b s sid x StateClosed now Hs Hx) as (s1 & E & Hs1 & Hb1 & Hg1 & _); [by right|].
  unfold act_bind, ServerSession_Close. rewrite E.
  destruct (IH b s1 Hs1) as (s2 & -> & Hs2 & Hb2 & Hg2).
  { eapply Forall_impl; [exact Hk|]. intros i [y Hy]. destruct (gr_kept _ _ _ Hg1 i y Hy) as (z & Hz & _). by exists z. }
  exists s2. split_and!; try done; by etransitivity.
Qed.

Lemma cleanup_inv s now :
  server_ok s ->
  exists s' expired changed, cleanupAttemptsLocked now s = (s', Ok (expired, changed))
    /\ server_ok s' /\ sv_sessions s' = sv_sessions s /\ Forall (fun sid => known_session sid s') expired.
Proof.
  intros Hs. pose proof Hs as [H1 H2 H3 H4].
  destruct (cleanupAttemptsLocked_spec now s H2) as (s' & expired & changed & E & Hc & Hss & Ho & Hx & _).
  exists s', expired, changed. split; [done|].
  destruct (within_inv (cleanupAttemptsLocked now) None s Hs (cleanupAttemptsLocked_within now) (cleanupAttemptsLocked_keeps now))
    as (_ & Hs' & _).
  { rewrite E. split_and!; [done | done | by rewrite Hss]. }
  rewrite E in Hs'. split_and!; [done | done |]. unfold known_session. by rewrite Hss.
Qed.

(** ** Acquiring an attempt *)

(** Entry [id] is in the map and is being built. *)
Definition building (id : nat) (s : Server) : Prop :=
  exists e, sv_entries s !! id = Some e /\ ae_phase e = attemptBuilding /\ sv_attempts s !! ae_key e = Some id.

Lemma building_kept id s s' : building_same s s' -> building id s -> building id s'.
Proof. intros [Ea He] (e & H1 & H2 & H3). exists e. rewrite Ea. split_and!; [by apply He | done | done]. Qed.

Lemma acquire_inv s key initial now now' :
  server_ok s ->
  exists s' r, acquireAttempt key initial now now' s = (s', r) /\ grows None s s'
    /\ match r with
       | Ok (Leased id true _ _) => server_inv (Some id) s' /\ building id s'
       | Ok (Leased _ false _ _) | Err _ => server_ok s'
       | _ => False
       end.
Proof.
  intros Hs. destruct (cleanup_inv s now Hs) as (s1 & expired & changed & E & Hs1 & Hss & Hx).
  unfold acquireAttempt, acquireAttempt_locked, act_bind, act_get, act_set, act_ret, act_lift, get_entry. rewrite E. cbn [fst snd].
  assert (Hg1 : grows None s s1) by (by apply grows_same).
  destruct (sv_attempts s1 !! key) as [id|] eqn:Hk.
  - destruct (co_entries s1 (sk_cache _ _ Hs1) key id Hk) as (e & He & _ & _). rewrite He. cbn [fst snd].
    destruct (closeExpired_inv expired now' None s1 Hs1 Hx) as (s2 & E2 & Hs2 & _ & Hg2).
    assert (Hg : grows None s s2) by (by etransitivity). rewrite E2.
    destruct (negb _); [by eexists _, _|].
    pose proof (sk_building _ _ Hs1 id e He) as Hnb.
    destruct (ae_phase e); [by specialize (Hnb eq_refl) | by eexists _, _..|].
    destruct (ae_err e); by eexists _, _.
  - destruct (_ || _) eqn:Hcap; cbn [fst snd].
    + destruct (closeExpired_inv expired now' None s1 Hs1 Hx) as (s2 & E2 & Hs2 & _ & Hg2).
      rewrite E2. eexists _, _. split; [done|]. split; [by etransitivity | done].
    + pose proof (create_ok s1 key initial (now + so_pendingAttemptTimeout (sv_options s1)) (sk_cache _ _ Hs1) Hk) as Hc.
      cbv zeta in Hc. set (s2 := server_with_attempts _ _ _) in *.
      assert (Hs2 : server_inv (Some (sv_nextEntry s1)) s2).
      { destruct Hs1 as [T1 T2 T3 T4]. constructor; [by apply (identity_typed s1); [split_and!|] | apply Hc; lia | by apply (account_same s1); [split_and!|] |].
        intros i e'. cbn. destruct (decide (i = sv_nextEntry s1)) as [->|Hne]; [done|].
        rewrite lookup_insert_ne by done. intros He' Hb. by specialize (T4 i e' He' Hb). }
      assert (Hb2 : building (sv_nextEntry s1) s2) by (eexists; cbn; rewrite lookup_insert_eq; split_and!; [done | done | cbn; apply lookup_insert_eq]).
      destruct (closeExpired_inv expired now' _ s2 Hs2) as (s3 & E3 & Hs3 & Hbs & Hg3); [exact Hx|].
      rewrite E3. eexists _, _. split; [done|]. split; [|split; [done | by eapply building_kept]].
      etransitivity; [exact Hg1|]. by etransitivity; [by apply (grows_same None s1 s2)|].
Qed.

(** ** Building the response *)
Section ServerSafety.
Context {P : Primitives} {HP : PrimitivesOk P}.

Lemma buildResponse_keeps packet initial th1 es cs rf cmd scid e :
  keeps eq (buildResponse packet initial th1 es cs rf cmd scid e).
Proof. unfold buildResponse. keeps_tac. Qed.

(** The outcome of a computation that does not change the state. *)
Lemma bind_lift_returns {A B} (o : hs A) (k : A -> srv B) s :
  returns o -> (forall a, o = Ok a -> returns (snd (k a s))) -> returns (snd ((let! a := act_lift o in k a) s)).
Proof. intros Ho Hk. unfold act_bind, act_lift. destruct o; try done. by apply Hk. Qed.

Lemma bind_get_returns {B} (k : Server -> srv B) s : returns (snd (k s s)) -> returns (snd ((let! t := act_get in k t) s)).
Proof. done. Qed.

Lemma if_returns {A} (b : bool) (m n : srv A) s :
  (b = true -> returns (snd (m s))) -> (b = false -> returns (snd (n s))) -> returns (snd ((if b then m else n) s)).
Proof. destruct b; auto. Qed.

Lemma families_byte a b : families_ok a -> byte_ok (Z.land a b).
Proof.
  intros Ha. assert (E : Z.land a b = Z.land a (b mod 2 ^ 2)).
  { rewrite <- Z.land_ones by lia. rewrite (Z.land_comm b), Z.land_assoc. f_equal. by destruct Ha as [-> | [-> | ->]]. }
  rewrite E. pose proof (Z.mod_pos_bound b (2 ^ 2) eq_refl) as Hb.
  assert (Hc : b mod 2 ^ 2 = 0 \/ b mod 2 ^ 2 = 1 \/ b mod 2 ^ 2 = 2 \/ b mod 2 ^ 2 = 3) by lia.
  destruct Ha as [-> | [-> | ->]], Hc as [-> | [-> | [-> | ->]]]; by unfold byte_ok, uint_ok.
Qed.

Lemma buildResponse_safe s packet initial th1 es cs rf cmd scid e :
  server_typed s -> key_ok es -> key_ok cs -> families_ok rf -> 52 <= cmd < 2 ^ 16 -> key_ok e ->
  returns (snd (buildResponse packet initial th1 es cs rf cmd scid e s))
  /\ forall s' x d, buildResponse packet initial th1 es cs rf cmd scid e s = (s', Ok (x, d)) ->
     session_ok x /\ ss_serverCID x = scid /\ ss_state x = StatePendingConfirm /\ ss_sendPN x = 0.
Proof.
  intros Hs Hes Hcs Hrf Hcmd He. split.
  - unfold buildResponse, as_hs. rewrite PublicBytes_run. cbn [wrap_err]. apply bind_get_returns.
    apply bind_lift_returns; [exact I | intros ephemeral [= <-]].
    do 3 (apply bind_lift_returns; [apply returns_wrap, DH_returns | intros ? ?%wrap_err_Ok%DH_key]).
    apply bind_lift_returns; [apply returns_wrap; by apply DeriveM2_returns | intros keys _].
    apply if_returns; intros _; [exact I|]. apply if_returns; intros _; [exact I|].
    apply bind_lift_returns; [by rewrite handshakeFields_run | intros fields Hf].
    apply handshakeFields_ok in Hf; [|done | by apply families_byte].
    apply bind_lift_returns; [apply returns_wrap, MarshalTLVsFor_returns | intros enc Henc%wrap_err_Ok].
    apply MarshalTLVsFor_ParseTLVsFor in Henc as (_ & _ & Hb & _); [|done].
    apply bind_lift_returns; [apply makeHandshakePrefix_returns, x25519_PublicKey_size | intros prefix Hp].
    apply makeHandshakePrefix_inv in Hp as (-> & _); [|apply x25519_PublicKey_size].
    apply bind_lift_returns; [apply makeHeader_returns | intros hdr _].
    apply bind_lift_returns; [apply returns_wrap, SealHandshake_returns | intros ct Hct%wrap_err_Ok].
    apply SealHandshake_inv in Hct as [_ ->]. apply if_returns; intros _; [exact I|].
    apply bind_lift_returns; [apply marshalWirePacket_returns | intros response _].
    + unfold handshake_prefix. repeat (apply bytes_ok_app; split); try apply be_split_ok. apply x25519_PublicKey_size.
    + by apply aead_Seal_bytes.
    + by rewrite DeriveTraffic_spec.
  - intros s' x d H. unfold buildResponse, as_hs in H. rewrite PublicBytes_run in H. cbn [wrap_err] in H. inv_act. inv_ok.
    rewrite minUint16_spec, DeriveTraffic_spec in *. injection Ha10 as <-.
    pose proof (sok_datagram _ (st_options s' Hs)). split; [|done]. constructor; cbn; try done.
    + exists []. apply represents_empty.
    + lia.
    + apply Sum256_ok.
    + apply zero_challenge.
    + split_and!; try done; apply hkdf_key_ok.
Qed.

(** A fallible read: its error ends the call in the same state. *)
Lemma bind_lift_case {A B} (Q : Server * hs B -> Prop) (o : hs A) (k : A -> srv B) s :
  returns o -> (forall e, Q (s, Err e)) -> (forall a, o = Ok a -> Q (k a s)) -> Q ((let! a := act_lift o in k a) s).
Proof. intros Ho He Hk. unfold act_bind, act_lift. destruct o; try done; auto. Qed.

(** What building leaves behind: a new open session, or only a shorter reader. *)
Definition built (s : Server) (p : Server * hs (option nat * bytes)) : Prop :=
  match p with
  | (s', Ok (sid, _)) => server_ok s' /\ grows None s s' /\ sid = Some (sv_nextSession s)
      /\ exists cid, (cid ∉ sv_activeCIDs s) /\ sv_activeCIDs s' = sv_activeCIDs s ∪ {[cid]} /\ owns s' (sv_nextSession s) cid
  | (s', Err _) => exists rest, bytes_ok rest /\ s' = server_with_random rest s
  | _ => False
  end.

Lemma released s rest rest' cid :
  cid ∉ sv_activeCIDs s ->
  server_with_CIDs (sv_activeCIDs (server_with_random rest' (taken s rest cid)) ∖ {[cid]}) (server_with_random rest' (taken s rest cid))
  = server_with_random rest' s.
Proof.
  intros Hc. unfold taken, server_with_CIDs, server_with_random. cbn.
  replace ((sv_activeCIDs s ∪ {[cid]}) ∖ {[cid]}) with (sv_activeCIDs s) by set_solver. done.
Qed.

Lemma publishAttempt_run s id e sid x d now :
  sv_entries s !! id = Some e -> ae_phase e = attemptBuilding -> sv_attempts s !! ae_key e = Some id ->
  sv_sessions s !! sid = Some x ->
  publishAttempt id sid d now s =
  (server_with_sessions (<[sid := session_attached x (ae_key e)]> (sv_sessions s)) (sv_nextSession s)
     (server_with_entries (<[id := entry_ready e sid d (now + so_pendingAttemptTimeout (sv_options s))]> (sv_entries s))
        (sv_nextEntry s) s), Ok tt).
Proof.
  intros He Hp Hk Hx. unfold publishAttempt, act_bind, get_entry, act_get. rewrite He, !bool_decide_true by done.
  cbn. unfold get_session. cbn. by rewrite Hx.
Qed.

(** The session is published: the entry it was built for is still in the map. *)
Lemma publish_inv s id x d now rest cid :
  server_inv (Some id) s -> building id s -> bytes_ok rest -> cid ∉ sv_activeCIDs s ->
  session_ok x -> ss_serverCID x = cid -> ss_state x = StatePendingConfirm ->
  built s ((do! on_error (publishAttempt id (sv_nextSession s) d now) (fun _ => ServerSession_Close (sv_nextSession s) now);
            act_ret (Some (sv_nextSession s), d))
    (server_with_sessions (<[sv_nextSession s := x]> (sv_sessions s)) (S (sv_nextSession s))
       (server_with_CIDs (sv_activeCIDs s ∪ {[cid]}) (server_with_random rest s)))).
Proof.
  intros [H1 H2 H3 H4] (e & He & Hph & Hk) Hrest Hcid Hx <- Hst. set (s1 := server_with_sessions _ _ _).
  assert (Hnew : forall sid y, sv_sessions s !! sid = Some y -> sid <> sv_nextSession s)
    by (intros sid y Hy ->; apply (ac_fresh s H3) in Hy; lia).
  assert (Hc1 : cache_ok s1).
  { apply (same_cache_ok s); [|done]. split_and!; try done. intros sid [y Hy]. cbn. rewrite lookup_insert_ne by (apply not_eq_sym; by eapply Hnew). by exists y. }
  pose proof (publishAttempt_proper id (sv_nextSession s) d now s1 Hc1) as Hp.
  assert (Hki : known_entry id s1) by (exists e; exact He).
  assert (Hks : known_session (sv_nextSession s) s1) by (exists x; cbn; apply lookup_insert_eq).
  specialize (Hp (conj Hki Hks)). unfold act_bind, on_error.
  pose proof (publishAttempt_run s1 id e (sv_nextSession s) x d now He Hph Hk (lookup_insert_eq _ _ _)) as Hrun.
  rewrite Hrun in Hp |- *.
  cbn [built act_ret]. destruct Hp as (Hcache & _ & _). cbn [sv_sessions s1 server_with_sessions] in Hcache |- *.
  rewrite insert_insert_eq in Hcache |- *.
  split; [|split; [|split; [done|]]].
  - constructor; [by apply (identity_typed s); [split_and!; try done; intros _; exact Hrest|] | exact Hcache | |].
    + pose proof (sx_state x Hx) as Hsx. rewrite Hst in Hsx.
      apply (account_add s _ (session_attached x (ae_key e))); try done; [|apply Hsx].
      destruct Hx. constructor; try done. cbn. by rewrite Hst.
    + cbn. intros i e'. destruct (decide (i = id)) as [->|Hne]; [rewrite lookup_insert_eq; by intros [= <-]|].
      rewrite lookup_insert_ne by done. intros He' Hb. specialize (H4 i e' He' Hb). congruence.
  - split; cbn; intros sid y Hy.
    + exists y. rewrite lookup_insert_ne by (apply not_eq_sym; by eapply Hnew). done.
    + intros Hey. right. exists y. split; [|done]. destruct (decide (sid = sv_nextSession s)) as [->|Hne].
      * rewrite lookup_insert_eq in Hy. injection Hy as <-. cbn in Hey. congruence.
      * by rewrite lookup_insert_ne in Hy.
  - exists (ss_serverCID x). split_and!; [done | done |]. exists (session_attached x (ae_key e)). cbn. split; [apply lookup_insert_eq|].
    pose proof (sx_state x Hx) as Hsx. rewrite Hst in Hsx. by destruct Hsx.
Qed.
Lemma build_inv s packet initial m1AD th1 id now :
  server_inv (Some id) s -> building id s -> Initial_ok initial ->
  built s (buildAttempt packet initial m1AD th1 id now s).
Proof.
  intros Hs Hb (_ & _ & Hct). pose proof (sk_typed _ _ Hs) as Ht. pose proof (st_random s Ht) as Hrnd.
  assert (Hsame : forall e, built s (s, Err e)) by (intros e; exists (sv_random s); split; [done | by destruct s]).
  unfold buildAttempt, as_hs. unfold act_bind at 1, act_get.
  apply (bind_lift_case (built s)); [apply returns_wrap, DH_returns | done | intros es Hes%wrap_err_Ok%DH_key].
  apply (bind_lift_case (built s)); [apply returns_wrap, DeriveM1_returns | done | intros keys _].
  apply (bind_lift_case (built s)); [apply returns_wrap, OpenHandshake_returns | done | intros pt Hpt%wrap_err_Ok].
  apply OpenHandshake_bytes in Hpt; [|done].
  apply (bind_lift_case (built s)); [by apply returns_wrap, ParseTLVsFor_returns | done | intros fs Hfs%wrap_err_Ok].
  destruct (validateInitialFields_safe s pt fs (SCID (pkt_Header packet)) Hpt Hfs) as [Hv Hvs].
  apply (bind_lift_case (built s)); [done | done | intros [[cs rf] cmd] (Hcs & Hrf & Hcmd & _)%Hvs]. cbn [fst snd].
  destruct (reserveServerCIDLocked_spec s Hrnd) as (rest & Hrest & Hres). unfold act_bind at 1.
  destruct (reserveServerCIDLocked s) as [s1 [cid|e| |]]; try done; [|by exists rest].
  destruct Hres as (-> & Hcid & Hrange).
  destruct (draw_key_spec (taken s rest cid) Hrest) as (rest' & Hrest' & Hkey).
  unfold act_bind at 1, on_error at 1.
  destruct (draw_key (taken s rest cid)) as [s2 [k|e| |]]; try done;
    [|subst s2; exists rest'; split; [done | by apply released]].
  destruct Hkey as [-> Hkey]. set (s2 := server_with_random rest' (taken s rest cid)).
  assert (Ht2 : server_typed s2) by (by apply (identity_typed s); [split_and!; try done; intros _|]).
  destruct (buildResponse_safe s2 packet initial th1 es cs rf cmd cid k Ht2 Hes Hcs Hrf Hcmd Hkey) as [Hr Hok].
  pose proof (buildResponse_keeps packet initial th1 es cs rf cmd cid k s2) as Hkeep.
  unfold act_bind at 1, on_error at 1.
  destruct (buildResponse packet initial th1 es cs rf cmd cid k s2) as [s3 [[x d]|e| |]]; try done; cbn [fst] in Hkeep; subst s3.
  - destruct (Hok s2 x d eq_refl) as (Hx & Hxc & Hxs & _). unfold act_bind at 1, new_session. cbn [fst snd].
    by apply (publish_inv s id x d now rest' cid).
  - exists rest'. split; [done | by apply released].
Qed.

(** ** The calls *)
Lemma random_inv b s rest : server_inv b s -> bytes_ok rest -> server_inv b (server_with_random rest s).
Proof.
  intros [H1 H2 H3 H4] Hr. constructor; [by apply (identity_typed s); [split_and!; try done; intros _|] | | |done].
  - by apply (same_cache_ok s); [split_and!|].
  - by apply (account_same s); [split_and!|].
Qed.

Lemma fail_inv s id failure :
  server_inv (Some id) s -> building id s ->
  exists s', failAttempt id failure s = (s', Ok tt) /\ server_ok s' /\ sessions_same s s'.
Proof.
  intros Hs (e & He & Hp & Hk).
  destruct (within_inv (failAttempt id failure) (Some id) s Hs (failAttempt_within id failure) (failAttempt_keeps id failure))
    as (Hr & [T1 T2 T3 T4] & Hsame); [apply (failAttempt_proper id failure s (sk_cache _ _ Hs)); by exists e|].
  unfold failAttempt, act_bind, get_entry, act_get in *. rewrite He, !bool_decide_true in * by done.
  eexists. split; [reflexivity|]. split; [|exact Hsame]. constructor; [done..|].
  intros i e' He' Hb. specialize (T4 i e' He' Hb). injection T4 as <-. cbn in He'. rewrite lookup_insert_eq in He'. by injection He' as <-.
Qed.
Lemma initial_inv s d now now' now'' s' r :
  server_ok s -> bytes_ok d -> HandleInitial d now now' now'' s = (s', r) ->
  returns r /\ server_ok s' /\ grows None s s'.
Proof.
  intros Hs Hd H. unfold HandleInitial, act_bind at 1, act_get in H.
  destruct (parseInitialWire_safe d (so_maxDatagramSize (sv_options s)) (sv_context s) Hd) as [Hr Hp].
  assert (Hstop : forall e : HandshakeErr, (s, Err e) = (s', r) -> returns r /\ server_ok s' /\ grows None s s')
    by (intros e [= <- <-]; split_and!; [done | done | reflexivity]).
  unfold act_bind at 1, act_lift in H.
  destruct (parseInitialWire _ _ _) as [[[[packet initial] m1AD] th1]|e| |]; try done; [|by eapply Hstop].
  destruct (Hp packet initial m1AD th1 eq_refl) as (Hi & _ & _ & _).
  destruct (_ || _); [by eapply Hstop|].
  destruct (acquire_inv s th1 d now now' Hs) as (s1 & lease & Ea & Hg & Hl).
  unfold act_bind in H. rewrite Ea in H. destruct lease as [[id [] session response|id]|e| |]; try done;
    [|by injection H as <- <-..].
  destruct Hl as [Hs1 Hb1]. pose proof (build_inv s1 packet initial m1AD th1 id now'' Hs1 Hb1 Hi) as Hbuilt.
  unfold on_error in H. destruct (buildAttempt _ _ _ _ _ _ s1) as [s2 [[sid d2]|e| |]]; try done.
  - injection H as <- <-. destruct Hbuilt as (Hs2 & Hg2 & _). split_and!; [done | done | by etransitivity].
  - destruct Hbuilt as (rest & Hrest & ->).
    destruct (fail_inv (server_with_random rest s1) id e) as (s3 & E3 & Hs3 & Hsame & _);
      [by apply random_inv | done|]. rewrite E3 in H. injection H as <- <-. split_and!; [done | done |].
    etransitivity; [exact Hg | by apply grows_same].
Qed.

(** A session replaced by one with the same identifiers that is as open. *)
Lemma update_inv b s sid x y :
  server_inv b s -> sv_sessions s !! sid = Some x -> session_ok y ->
  ss_serverCID y = ss_serverCID x -> ss_closedCID y = ss_closedCID x ->
  server_inv b (server_with_sessions (<[sid := y]> (sv_sessions s)) (sv_nextSession s) s).
Proof.
  intros [H1 H2 H3 H4] Hx Hy Hc Hcl. constructor; [by apply (identity_typed s); [split_and!|] | | |done].
  - by apply put_session_evolves.
  - by apply (account_update s _ sid x y).
Qed.

Lemma open_inv s sid x d s' r :
  server_ok s -> sv_sessions s !! sid = Some x -> bytes_ok d -> session_openLocked sid d s = (s', r) ->
  returns r /\ server_ok s' /\ grows None s s'
  /\ exists w, sv_sessions s' !! sid = Some (session_with_window x w).
Proof.
  intros Hs Hx Hd H. pose proof (ac_sessions s (sk_account _ _ Hs) sid x Hx) as Hok. destruct (sx_window x Hok) as [h Hw].
  rewrite (session_openLocked_run s sid x d Hx) in H.
  destruct (transport_receive_safe (ss_c2sKey x) (ss_serverCID x) (ss_clientCID x) (ss_receiveWindow x) h (ss_maxDatagram x) d Hd Hw)
    as [Hr Hsafe].
  destruct (transport_receive _ _ _ _ _ d) as [[w r']|e| |]; try done; injection H as <- <-.
  - destruct (Hsafe w r' eq_refl) as [Hr' [pn Hrep]]. split; [done|]. split; [|split].
    + apply (update_inv None s sid x); try done. destruct Hok. constructor; try done. by eexists.
    + by apply (grows_insert None s _ sid x (session_with_window x w)); try done; intros ?; right.
    + exists w. cbn. apply lookup_insert_eq.
  - split_and!; [done | done | reflexivity |]. exists (ss_receiveWindow x). by destruct x.
Qed.

Lemma seal_inv s sid x frames now s' r :
  server_ok s -> sv_sessions s !! sid = Some x -> Forall Frame_ok frames -> session_sealLocked sid frames now s = (s', r) ->
  returns r /\ server_ok s' /\ grows None s s'
  /\ (forall d, r = Ok d -> datagram_pn d = ss_sendPN x
       /\ exists x', sv_sessions s' !! sid = Some x' /\ ss_sendPN x' = ss_sendPN x + 1).
Proof.
  intros Hs Hx Hf H. pose proof (ac_sessions s (sk_account _ _ Hs) sid x Hx) as Hok. pose proof (sx_sendPN x Hok) as Hpn.
  destruct (Z.eq_dec (ss_sendPN x) (2 ^ 32)) as [E|E].
  - unfold session_sealLocked, act_bind at 1, get_session in H. rewrite Hx in H.
    replace (rehandshakePacketNumber <=? ss_sendPN x) with true in H by (change rehandshakePacketNumber with (2 ^ 32); lia).
    destruct (close_inv None s sid x StateClosed now Hs Hx) as (s1 & E1 & Hs1 & _ & Hg1 & _); [by right|].
    unfold act_bind in H. rewrite E1 in H. injection H as <- <-. by split_and!.
  - rewrite (session_sealLocked_run s sid x frames now Hx) in H by lia. injection H as <- <-.
    split; [by apply transport_send_returns|]. split; [|split].
    + apply (update_inv None s sid x); try done. destruct Hok. constructor; try done. cbn. lia.
    + by apply (grows_insert None s _ sid x (session_with_sendPN x (ss_sendPN x + 1))); try done; [cbn; lia | intros ?; right].
    + intros d Hd. split; [eapply transport_send_pn; [unfold uint_ok; lia | exact Hd]|].
      eexists. cbn. split; [apply lookup_insert_eq | done].
Qed.
Lemma transport_receive_frames key local remote w max d w' fs :
  bytes_ok d -> transport_receive key local remote w max d = Ok (w', Ok fs) -> Forall frame_good fs.
Proof.
  intros Hd H. unfold transport_receive, parseTransportDatagram, as_hs in H. inv_ok. injection H as _ H.
  destruct (snd _); [done|]. apply wrap_err_Ok, ParseFrames_inv in H as (_ & _ & _ & _ & Hg & _); [done|].
  eapply OpenTransportPlaintext_bytes; [|done]. by eapply packet_payload_ok.
Qed.

Lemma open_frames s sid x d s' fs :
  sv_sessions s !! sid = Some x -> bytes_ok d -> session_openLocked sid d s = (s', Ok fs) -> Forall frame_good fs.
Proof.
  intros Hx Hd H. rewrite (session_openLocked_run s sid x d Hx) in H.
  destruct (transport_receive _ _ _ _ _ d) as [[w r]|e| |] eqn:E; try done. injection H as _ ->.
  by eapply transport_receive_frames.
Qed.

Lemma ping_body f : frame_good f -> frame_Type f = FramePing -> len (frame_Body f) = 8 /\ bytes_ok (frame_Body f).
Proof.
  intros ((_ & _ & Hb) & Hv & _) Ht. split; [|done]. unfold validateFrame in Hv. rewrite Ht in Hv.
  destruct (negb (FrameType_valid _)); [done|]. destruct (negb (frame_Flags f =? 0)); [done|]. cbn in Hv.
  destruct (Z.eqb_spec (len (frame_Body f)) ChallengeBodySize); done.
Qed.

(** The answer to CONFIRM; a session that cannot answer is closed. *)
Lemma reply_inv s sid x challenge now s' r :
  server_ok s -> sv_sessions s !! sid = Some x -> bytes_ok challenge ->
  on_error (session_sealLocked sid [mkFrame FramePong 0 challenge] now) (fun _ => session_closeLocked sid StateClosed now) s = (s', r) ->
  returns r /\ server_ok s' /\ grows None s s'
  /\ (forall e, r = Err e -> exists y, sv_sessions s' !! sid = Some y /\ ss_state y <> StateEstablished)
  /\ (forall d, r = Ok d -> datagram_pn d = ss_sendPN x
       /\ exists x', sv_sessions s' !! sid = Some x' /\ ss_sendPN x' = ss_sendPN x + 1).
Proof.
  intros Hs Hx Hc H. unfold on_error in H. destruct (session_sealLocked _ _ _ s) as [s1 r1] eqn:E.
  apply (seal_inv s sid x) in E as (Hr & Hs1 & Hg & Hd); [|done | done | apply Forall_cons_2; [by split_and! | apply Forall_nil_2]].
  destruct r1 as [d|e| |]; try done.
  - injection H as <- <-. by split_and!.
  - destruct (gr_kept _ _ _ Hg sid x Hx) as (y & Hy & _).
    destruct (close_inv None s1 sid y StateClosed now Hs1 Hy) as (s2 & E2 & Hs2 & _ & Hg2 & Hss); [by right|].
    rewrite E2 in H. injection H as <- <-. split_and!; [done | done | by etransitivity | | done].
    intros _ _. exists (closed_for_good y StateClosed). rewrite Hss. split; [apply lookup_insert_eq | done].
Qed.

(** What [HandleConfirm] may leave behind when it ends in [r]. *)
Definition confirmed (s : Server) (sid : nat) (x : ServerSession) (s' : Server) (r : hs bytes) : Prop :=
  returns r /\ server_ok s'
  /\ grows (match r with Ok _ => Some sid | _ => None end) s s'
  /\ (forall d, r = Ok d -> datagram_pn d = ss_sendPN x
       /\ exists x', sv_sessions s' !! sid = Some x' /\ ss_sendPN x' = ss_sendPN x + 1).

Lemma confirmed_refused s sid x s' e : server_ok s' -> grows None s s' -> confirmed s sid x s' (Err e).
Proof. intros. by unfold confirmed; split_and!. Qed.

Lemma reply_confirmed s sid x s1 y challenge now :
  server_ok s1 -> grows (Some sid) s s1 -> sv_sessions s1 !! sid = Some y -> ss_sendPN y = ss_sendPN x -> bytes_ok challenge ->
  let p := on_error (session_sealLocked sid [mkFrame FramePong 0 challenge] now) (fun _ => session_closeLocked sid StateClosed now) s1 in
  confirmed s sid x (fst p) (snd p).
Proof.
  intros Hs1 Hg Hy Hpn Hc p. destruct p as [s' r] eqn:E.
  destruct (reply_inv s1 sid y challenge now s' r Hs1 Hy Hc E) as (Hr & Hs' & Hg' & He & Hd). rewrite Hpn in Hd. cbn [fst snd].
  assert (Hgg : grows (Some sid) s s') by (etransitivity; [exact Hg | by apply grows_weaken]).
  split_and!; try done. destruct r as [d|e| |]; try done. destruct (He e eq_refl) as (z & Hz & Hne). by eapply grows_closed.
Qed.

(** The middle of [HandleConfirm]: the retransmitted CONFIRM of an established
    session, or the first one. *)
Definition confirm_again (sid : nat) (x : ServerSession) (challenge : bytes) (now : Z) : srv unit :=
  if negb (ss_haveConfirmChallenge x) || negb (secureEqual challenge (ss_confirmChallenge x)) then act_fail ErrMessage
  else
    let! active := (if ss_hasAttempt x then confirmGraceActive (ss_attemptKey x) sid now else act_ret false) in
    if (active : bool) then act_ret tt else act_fail ErrAttemptExpired.
Definition confirm_first (sid : nat) (x : ServerSession) (challenge : bytes) (now : Z) : srv unit :=
  let! promoted := (if ss_hasAttempt x then promoteAttempt (ss_attemptKey x) sid now else act_ret false) in
  if (promoted : bool) then
    let! copied := act_lift (copy_at (zeros 8) 0 challenge) in
    put_session sid (session_confirmed x copied)
  else do! session_closeLocked sid StateClosed now; act_fail ErrAttemptExpired.

Lemma confirm_again_inv s sid x challenge now s' r :
  server_ok s -> confirm_again sid x challenge now s = (s', r) ->
  returns r /\ server_ok s' /\ sv_sessions s' = sv_sessions s.
Proof.
  intros Hs H. unfold confirm_again in H. destruct (_ || _); [by injection H as <- <-|].
  destruct (ss_hasAttempt x); [|by injection H as <- <-].
  destruct (within_inv (confirmGraceActive (ss_attemptKey x) sid now) None s Hs (confirmGraceActive_within _ _ _)
    (confirmGraceActive_keeps _ _ _)) as (Hr & Hs' & Hsame & _); [by apply (confirmGraceActive_proper _ _ _ s (sk_cache _ _ Hs))|].
  unfold act_bind in H. destruct (confirmGraceActive _ _ _ s) as [s1 [[]|e| |]]; try done; by injection H as <- <-.
Qed.

Lemma confirm_first_inv s sid x challenge now s' r :
  server_ok s -> sv_sessions s !! sid = Some x -> ss_state x = StatePendingConfirm -> len challenge = 8 -> bytes_ok challenge ->
  confirm_first sid x challenge now s = (s', r) ->
  returns r /\ server_ok s' /\ (forall e, r = Err e -> grows None s s')
  /\ (forall u, r = Ok u -> grows (Some sid) s s' /\ sv_sessions s' !! sid = Some (session_confirmed x challenge)).
Proof.
  intros Hs Hx Hst Hl Hb H. unfold confirm_first in H. set (m := if ss_hasAttempt x then _ else _) in H.
  assert (Hm : returns (snd (m s)) /\ server_ok (fst (m s)) /\ sv_sessions (fst (m s)) = sv_sessions s).
  { unfold m. destruct (ss_hasAttempt x); [|by split_and!].
    destruct (within_inv (promoteAttempt (ss_attemptKey x) sid now) None s Hs (promoteAttempt_within _ _ _)
      (promoteAttempt_keeps _ _ _)) as (Hr & Hs' & Hsame & _); [by apply (promoteAttempt_proper _ _ _ s (sk_cache _ _ Hs)) | done]. }
  unfold act_bind at 1 in H. destruct (m s) as [s1 [[]|e| |]]; cbn [fst snd] in *; destruct Hm as (Hrm & Hs1 & Hss); try done.
  - rewrite copy_challenge in H by done. injection H as <- <-.
    assert (Hx1 : sv_sessions s1 !! sid = Some x) by (by rewrite Hss).
    pose proof (ac_sessions s1 (sk_account _ _ Hs1) sid x Hx1) as Hok. pose proof (sx_state x Hok) as Hsx. rewrite Hst in Hsx.
    split_and!; [done | | done | intros _ _; split].
    + apply (update_inv None s1 sid x); try done. destruct Hok. constructor; try done. cbn. by destruct Hsx as (? & _ & ? & ?).
    + rewrite Hss. apply (grows_insert _ s _ sid x (session_confirmed x challenge)); try done. by left.
    + cbn. apply lookup_insert_eq.
  - destruct (close_inv None s1 sid x StateClosed now Hs1) as (s2 & E2 & Hs2 & _ & Hg & _); [by rewrite Hss | by right|].
    unfold act_bind in H. rewrite E2 in H. injection H as <- <-. split_and!; [done | done | | done].
    intros _ _. etransitivity; [by apply grows_same | exact Hg].
  - injection H as <- <-. split_and!; [done | done | | done]. intros _ _. by apply grows_same.
Qed.

Lemma confirm_inv s sid x d now s' r :
  server_ok s -> sv_sessions s !! sid = Some x -> bytes_ok d -> HandleConfirm sid d now s = (s', r) -> confirmed s sid x s' r.
Proof.
  intros Hs Hx Hd H. unfold HandleConfirm, act_bind at 1, get_session at 1 in H. rewrite Hx in H.
  destruct (_ && _) eqn:Hst; [injection H as <- <-; by apply confirmed_refused|].
  unfold act_bind at 1 in H. destruct (session_openLocked sid d s) as [s1 r1] eqn:Eo.
  destruct (open_inv s sid x d s1 r1 Hs Hx Hd Eo) as (Hr1 & Hs1 & Hg1 & w & Hx1).
  destruct r1 as [fs|e| |]; try done; [|injection H as <- <-; by apply confirmed_refused].
  apply (open_frames s sid x) in Eo; [|done..].
  destruct fs as [|confirm [|ping [|? ?]]]; try (injection H as <- <-; by apply confirmed_refused).
  apply Forall_cons_1 in Eo as [_ Eo]. apply Forall_cons_1 in Eo as [Hping _].
  destruct (_ || _) eqn:Ht; [injection H as <- <-; by apply confirmed_refused|].
  destruct (ping_body ping Hping) as [Hl Hb]; [lia|].
  set (x1 := session_with_window x w) in *.
  destruct (negb (secureEqual _ _)).
  - destruct (bool_decide_reflect (ss_state x = StateEstablished)); [injection H as <- <-; by apply confirmed_refused|].
    destruct (close_inv None s1 sid x1 StateRejected now Hs1 Hx1) as (s2 & E2 & Hs2 & _ & Hg2 & _); [by left|].
    unfold act_bind in H. rewrite E2 in H. injection H as <- <-. apply confirmed_refused; [done | by etransitivity].
  - unfold act_bind at 1, get_session at 1 in H. rewrite Hx1 in H. unfold act_bind at 1 in H.
    destruct (bool_decide_reflect (ss_state x = StateEstablished)) as [He|He].
    + fold (confirm_again sid x1 (frame_Body ping) now) in H. destruct (confirm_again _ _ _ _ s1) as [s2 r2] eqn:E2.
      destruct (confirm_again_inv s1 sid x1 _ now s2 r2 Hs1 E2) as (Hr2 & Hs2 & Hss).
      assert (Hg : grows None s s2) by (etransitivity; [exact Hg1 | by apply grows_same]).
      destruct r2 as [u|e| |]; try done; [|injection H as <- <-; by apply confirmed_refused].
      pose proof (reply_confirmed s sid x s2 x1 (frame_Body ping) now Hs2) as Hreply. cbv zeta in Hreply. rewrite H in Hreply.
      apply Hreply; [by apply grows_weaken | by rewrite Hss | done | done].
    + fold (confirm_first sid x1 (frame_Body ping) now) in H. destruct (confirm_first _ _ _ _ s1) as [s2 r2] eqn:E2.
      destruct (confirm_first_inv s1 sid x1 (frame_Body ping) now s2 r2 Hs1 Hx1) as (Hr2 & Hs2 & Herr & Hok2); try done.
      { change (ss_state x1) with (ss_state x). cbn in Hst.
        rewrite andb_true_r in Hst. by apply negb_false_iff, bool_decide_eq_true in Hst. }
      destruct r2 as [u|e| |]; try done.
      * destruct (Hok2 u eq_refl) as [Hg2 Hx2].
        pose proof (reply_confirmed s sid x s2 (session_confirmed x1 (frame_Body ping)) (frame_Body ping) now Hs2) as Hreply.
        cbv zeta in Hreply. rewrite H in Hreply. apply Hreply; try done. etransitivity; [by apply grows_weaken | exact Hg2].
      * injection H as <- <-. apply confirmed_refused; [done|]. etransitivity; [exact Hg1 | by eapply Herr].
Qed.

(** ** Whole calls and their runs *)
Inductive ServerCall : Set :=
| ServeInitial (d : bytes) (now now' now'' : Z)
| ServeConfirm (sid : nat) (d : bytes) (now : Z)
| ServeSeal (sid : nat) (frames : list Frame) (now : Z)
| ServeOpen (sid : nat) (d : bytes)
| ServeClose (sid : nat) (now : Z)
| ServeCleanup (now now' : Z).

(** Datagrams are bytes, frames are typed, sessions are ones the server handed out. *)
Definition serve_typed (call : ServerCall) (s : Server) : Prop :=
  match call with
  | ServeInitial d _ _ _ => bytes_ok d
  | ServeConfirm sid d _ | ServeOpen sid d => known_session sid s /\ bytes_ok d
  | ServeSeal sid frames _ => known_session sid s /\ Forall Frame_ok frames
  | ServeClose sid _ => known_session sid s
  | ServeCleanup _ _ => True
  end.

(** A call, and the transport datagram it emits for a session. *)
Definition serve (call : ServerCall) : srv (option (nat * bytes)) :=
  match call with
  | ServeInitial d now now' now'' => do! HandleInitial d now now' now''; act_ret None
  | ServeConfirm sid d now => let! pong := HandleConfirm sid d now in act_ret (Some (sid, pong))
  | ServeSeal sid frames now => let! d := ServerSession_Seal sid frames now in act_ret (Some (sid, d))
  | ServeOpen sid d => do! ServerSession_Open sid d; act_ret None
  | ServeClose sid now => do! ServerSession_Close sid now; act_ret None
  | ServeCleanup now now' => do! CleanupExpired now now'; act_ret None
  end.

(** The session a successful call may establish. *)
Definition may_establish (call : ServerCall) (r : hs (option (nat * bytes))) : option nat :=
  match call, r with
  | ServeConfirm sid _ _, Ok _ => Some sid
  | _, _ => None
  end.

Record served (call : ServerCall) (s s' : Server) (r : hs (option (nat * bytes))) : Prop := {
  sd_returns : returns r;
  sd_server : server_ok s';
  sd_grows : grows (may_establish call r) s s';
  sd_emitted : forall sid d, r = Ok (Some (sid, d)) ->
    exists x x', sv_sessions s !! sid = Some x /\ sv_sessions s' !! sid = Some x'
      /\ datagram_pn d = ss_sendPN x /\ ss_sendPN x' = ss_sendPN x + 1
}.

Lemma srv_bind_ret {A B} (m : srv A) (f : A -> B) s :
  (let! a := m in act_ret (f a)) s = (fst (m s), out f (snd (m s))).
Proof. unfold act_bind, act_ret. by destruct (m s) as [s' [a|e| |]]. Qed.

Lemma silent {A} (r : hs A) sid d : out (fun _ => None) r <> Ok (Some (sid : nat, d : bytes)).
Proof. by destruct r. Qed.

Lemma cleanup_expired_inv s now now' s' r :
  server_ok s -> CleanupExpired now now' s = (s', r) -> returns r /\ server_ok s' /\ grows None s s'.
Proof.
  intros Hs H. unfold CleanupExpired, act_bind in H. destruct (cleanup_inv s now Hs) as (s1 & expired & changed & E & Hs1 & Hss & Hx).
  rewrite E in H. cbn [fst snd] in H. destruct (closeExpired_inv expired now' None s1 Hs1 Hx) as (s2 & E2 & Hs2 & _ & Hg).
  rewrite E2 in H. injection H as <- <-. split_and!; [done | done |]. etransitivity; [by apply grows_same | exact Hg].
Qed.

(** A session method that is only allowed in Established. *)
Lemma established_only {A} (m : srv A) s sid x (Q : Server -> hs A -> Prop) s' r :
  sv_sessions s !! sid = Some x -> Q s (Err ErrState) -> (m s = (s', r) -> Q s' r) ->
  (let! x := get_session sid in if negb (bool_decide (ss_state x = StateEstablished)) then act_fail ErrState else m) s = (s', r) ->
  Q s' r.
Proof.
  intros Hx He Hm H. unfold act_bind, get_session in H. rewrite Hx in H.
  destruct (negb _); [by injection H as <- <- | by apply Hm].
Qed.

Lemma serve_ok call s : server_ok s -> serve_typed call s -> served call s (fst (serve call s)) (snd (serve call s)).
Proof.
  intros Hs Ht. destruct call; cbn [serve serve_typed] in *; rewrite srv_bind_ret; cbn [fst snd].
  - destruct (HandleInitial d now now' now'' s) as [s' r] eqn:E. destruct (initial_inv s d now now' now'' s' r Hs Ht E) as (Hr & Hs' & Hg).
    constructor; [by destruct r | done | done | by intros ? ? ?%silent].
  - destruct Ht as [[x Hx] Hd]. destruct (HandleConfirm sid d now s) as [s' r] eqn:E.
    destruct (confirm_inv s sid x d now s' r Hs Hx Hd E) as (Hr & Hs' & Hg & He).
    constructor; [by destruct r | done | by destruct r |]. intros i d' Ho. destruct r as [d0| | |]; try done. injection Ho as <- <-.
    destruct (He d0 eq_refl) as (Hpn & x' & Hx' & Hpn'). by exists x, x'.
  - destruct Ht as [[x Hx] Hf]. destruct (ServerSession_Seal sid frames now s) as [s' r] eqn:E.
    apply (established_only _ s sid x (fun s' r => served (ServeSeal sid frames now) s s' (out (fun d => Some (sid, d)) r))) in E; try done.
    intros E'. destruct (seal_inv s sid x frames now s' r Hs Hx Hf E') as (Hr & Hs' & Hg & He).
    constructor; [by destruct r | done | done |]. intros i d' Ho. destruct r as [d0| | |]; try done. injection Ho as <- <-.
    destruct (He d0 eq_refl) as (Hpn & x' & Hx' & Hpn'). by exists x, x'.
  - destruct Ht as [[x Hx] Hd]. destruct (ServerSession_Open sid d s) as [s' r] eqn:E.
    apply (established_only _ s sid x (fun s' r => served (ServeOpen sid d) s s' (out (fun _ => None) r))) in E; try done.
    intros E'. destruct (open_inv s sid x d s' r Hs Hx Hd E') as (Hr & Hs' & Hg & _).
    constructor; [by destruct r | done | done | by intros ? ? ?%silent].
  - destruct Ht as [x Hx]. destruct (close_inv None s sid x StateClosed now Hs Hx) as (s' & E & Hs' & _ & Hg & _); [by right|].
    unfold ServerSession_Close. rewrite E. by constructor.
  - destruct (CleanupExpired now now' s) as [s' r] eqn:E. destruct (cleanup_expired_inv s now now' s' r Hs E) as (Hr & Hs' & Hg).
    constructor; [by destruct r | done | done | by intros ? ? ?%silent].
Qed.

Definition transmitted (r : hs (option (nat * bytes))) : list (nat * bytes) :=
  match r with Ok (Some p) => [p] | _ => [] end.

(** A server, and the transport datagrams its sessions have emitted. *)
Inductive server_run (config : ServerConfig) (random : bytes) : Server -> list (nat * bytes) -> Prop :=
| server_start s : NewServer config random = Ok s -> server_run config random s []
| server_call s ds call s' r :
    server_run config random s ds -> serve_typed call s -> serve call s = (s', r) ->
    server_run config random s' (ds ++ transmitted r).

Lemma server_run_ok config random s ds :
  server_config_ok config -> bytes_ok random -> server_run config random s ds -> server_ok s.
Proof.
  intros Hc Hr H. induction H as [s Hn | s ds call s' r _ IH Ht E];
    [|pose proof (serve_ok call s IH Ht) as Hok; rewrite E in Hok; apply Hok].
  constructor; [by eapply NewServer_typed | eapply NewServer_ok; [apply Hc | done] | |];
    unfold NewServer in Hn; inv_ok; subst; [constructor; cbn|]; try done.
  - intros cid. split; [by intros ?%elem_of_empty | intros [sid (x & Hx & _)]; done].
  - intros sid sid' cid (x & Hx & _). done.
Qed.

(** The packet numbers one session has used. *)
Definition numbers_of (sid : nat) (ds : list (nat * bytes)) : list Z :=
  (fun p => datagram_pn (snd p)) <$> filter (fun p => fst p = sid) ds.

Lemma numbers_of_app sid ds es : numbers_of sid (ds ++ es) = numbers_of sid ds ++ numbers_of sid es.
Proof. unfold numbers_of. by rewrite filter_app, fmap_app. Qed.

Lemma server_run_numbers config random s ds :
  server_config_ok config -> bytes_ok random -> server_run config random s ds ->
  forall sid, StronglySorted Z.lt (numbers_of sid ds)
    /\ (numbers_of sid ds = [] \/ exists x, sv_sessions s !! sid = Some x /\ Forall (fun n => n < ss_sendPN x) (numbers_of sid ds)).
Proof.
  intros Hc Hr H. induction H as [s Hn | s ds call s' r Hrun IH Ht E]; intros sid; [split; [constructor | by left]|].
  pose proof (server_run_ok config random s ds Hc Hr Hrun) as Hs. pose proof (serve_ok call s Hs Ht) as Hok.
  rewrite E in Hok. destruct Hok as [_ _ Hg Hem]. cbn [fst snd] in *. destruct (IH sid) as [IH1 IH2].
  assert (Hold : numbers_of sid ds = [] \/ exists x, sv_sessions s' !! sid = Some x /\ Forall (fun n => n < ss_sendPN x) (numbers_of sid ds)).
  { destruct IH2 as [? | (x & Hx & Hf)]; [by left | right]. destruct (gr_kept _ _ _ Hg sid x Hx) as (x' & Hx' & Hle & _).
    exists x'. split; [done|]. eapply Forall_impl; [exact Hf | intros n; cbn; lia]. }
  rewrite numbers_of_app. destruct r as [[[i d]|]|e| |]; cbn [transmitted]; rewrite ?app_nil_r; try done.
  destruct (decide (i = sid)) as [->|Hne]; unfold numbers_of at 2 4 6; rewrite filter_cons, filter_nil;
    [rewrite decide_True by done | rewrite decide_False by done; cbn; by rewrite app_nil_r].
  destruct (Hem sid d eq_refl) as (x & x' & Hx & Hx' & Hpn & Hpn'). cbn [fmap list_fmap snd].
  assert (Hlt : Forall (fun n => n < ss_sendPN x) (numbers_of sid ds)).
  { destruct IH2 as [-> | (y & Hy & Hf)]; [constructor|]. rewrite Hx in Hy. by injection Hy as <-. }
  split.
  - apply StronglySorted_app_2; [|done | constructor; constructor].
    intros n m Hn ->%list_elem_of_singleton. rewrite Forall_forall in Hlt. rewrite Hpn. by apply Hlt.
  - right. exists x'. split; [done|]. apply Forall_app_2; [eapply Forall_impl; [exact Hlt | intros n; cbn; lia]|].
    apply Forall_cons_2; [lia | apply Forall_nil_2].
Qed.
End ServerSafety.

(** C4: no input breaks the server.  In every state a server of a well-typed
    configuration can reach, every method (INITIAL and CONFIRM from the network,
    sealing, opening, closing, cleanup) returns on every datagram: no panic, no
    endless wait, since every attempt that is started is published or failed.
    Afterwards the cache is consistent, the connection identifiers in use are
    exactly those of the open sessions, each owned by one session (none leaks on
    any error path), closed sessions hold no key and are never reopened, and a
    session becomes established only through its own successful [HandleConfirm]. *)
Theorem server_never_breaks {P : Primitives} {HP : PrimitivesOk P} config random s ds call :
  server_config_ok config -> bytes_ok random -> server_run config random s ds -> serve_typed call s ->
  server_ok s /\ served call s (fst (serve call s)) (snd (serve call s)).
Proof. intros Hc Hr Hrun Ht. pose proof (server_run_ok config random s ds Hc Hr Hrun) as Hs. split; [done | by apply serve_ok]. Qed.

(** A server that answers an INITIAL and then a CONFIRM and its retransmission. *)
Definition serving (call : ServerCall) (s : Server) : Server * hs (option (nat * bytes)) :=
  serve (P := Toy.primitives) call s.
Definition sent (r : hs (option bytes)) : bytes := match r with Ok (Some d) => d | _ => [] end.
Definition run_confirm_1 : bytes := sent (snd run_confirming).
Definition run_confirm_2 : bytes := sent (snd run_retransmitted).
Definition served_initial := serving (ServeInitial run_initial 5 5 5) run_server.
Definition served_confirm := serving (ServeConfirm 0 run_confirm_1 6) (fst served_initial).
Definition served_again := serving (ServeConfirm 0 run_confirm_2 7) (fst served_confirm).

Lemma server_never_breaks_witness :
  served (ServeInitial run_initial 5 5 5) run_server (fst served_initial) (Ok None).
Proof.
  refine (proj2 (server_never_breaks (P := Toy.primitives) run_server_config run_server_random run_server []
    (ServeInitial run_initial 5 5 5) _ _ _ _)).
  - split_and!; apply (bool_decide_unpack _); vm_compute; exact I.
  - apply (bool_decide_unpack _); vm_compute; exact I.
  - apply server_start. vm_compute. reflexivity.
  - apply (bool_decide_unpack _); vm_compute; exact I.
Defined.

(** No session of the server uses a transport nonce twice.  Over every run,
    the datagrams a session emits (replies to CONFIRM, retransmitted or not, and
    sealed frames) carry strictly increasing packet numbers below 2^32. *)
Theorem server_numbers_increase {P : Primitives} {HP : PrimitivesOk P} config random s ds sid :
  server_config_ok config -> bytes_ok random -> server_run config random s ds ->
  StronglySorted Z.lt (numbers_of sid ds) /\ Forall (fun n => n < 2 ^ 32) (numbers_of sid ds).
Proof.
  intros Hc Hr Hrun. destruct (server_run_numbers config random s ds Hc Hr Hrun sid) as [H1 H2]. split; [done|].
  destruct H2 as [-> | (x & Hx & Hf)]; [constructor|].
  pose proof (sx_sendPN x (ac_sessions s (sk_account _ _ (server_run_ok config random s ds Hc Hr Hrun)) sid x Hx)).
  eapply Forall_impl; [exact Hf | intros n; cbn; lia].
Qed.


(** C6: No transport nonce is used twice.  Over every run of a client and of a server,
    in whatever order their methods are called, the datagrams that the client emits, and
    those that each session of the server emits, carry strictly increasing packet
    numbers below 2^32, retransmissions and failed sealings included. *)
Theorem nonces_never_reused {P : Primitives} {HP : PrimitivesOk P} :
  (forall config random c ds, client_config_ok config -> bytes_ok random -> client_run config random c ds ->
     StronglySorted Z.lt (map datagram_pn ds) /\ Forall (fun d => datagram_pn d < 2 ^ 32) ds)
  /\ (forall config random s ds sid, server_config_ok config -> bytes_ok random -> server_run config random s ds ->
     StronglySorted Z.lt (numbers_of sid ds) /\ Forall (fun n => n < 2 ^ 32) (numbers_of sid ds)).
Proof. split; [exact client_numbers_increase | exact server_numbers_increase]. Qed.

Lemma nonces_never_reused_witness :
  let ds := transmitted (snd served_initial) ++ transmitted (snd served_confirm) ++ transmitted (snd served_again) in
  StronglySorted Z.lt (map datagram_pn (emitted (snd run_confirming) ++ emitted (snd run_retransmitted)))
  /\ map datagram_pn (emitted (snd run_confirming) ++ emitted (snd run_retransmitted)) = [0; 1]
  /\ StronglySorted Z.lt (numbers_of 0 ds) /\ numbers_of 0 ds = [0; 1].
Proof.
  cbv zeta. rewrite app_assoc. split; [|split; [vm_compute; reflexivity | split; [|vm_compute; reflexivity]]].
  - refine (proj1 (proj1 (nonces_never_reused (P := Toy.primitives)) run_client_config run_client_random (fst run_retransmitted) _ _ _ run_retransmitted_run)).
    + split_and!; apply (bool_decide_unpack _); vm_compute; exact I.
    + apply (bool_decide_unpack _); vm_compute; exact I.
  - refine (proj1 (proj2 (nonces_never_reused (P := Toy.primitives)) run_server_config run_server_random (fst served_again)
      ((transmitted (snd served_initial) ++ transmitted (snd served_confirm)) ++ transmitted (snd served_again)) 0%nat _ _ _)).
    + split_and!; apply (bool_decide_unpack _); vm_compute; exact I.
    + apply (bool_decide_unpack _); vm_compute; exact I.
    + apply (server_call run_server_config run_server_random (fst served_confirm)
        (transmitted (snd served_initial) ++ transmitted (snd served_confirm)) (ServeConfirm 0 run_confirm_2 7)
        (fst served_again) (snd served_again)); [| |exact (surjective_pairing served_again)].
      2: { split; [eexists; vm_compute; reflexivity | apply (bool_decide_unpack _); vm_compute; exact I]. }
      apply (server_call run_server_config run_server_random (fst served_initial)
        (transmitted (snd served_initial)) (ServeConfirm 0 run_confirm_1 6)
        (fst served_confirm) (snd served_confirm)); [| |exact (surjective_pairing served_confirm)].
      2: { split; [eexists; vm_compute; reflexivity | apply (bool_decide_unpack _); vm_compute; exact I]. }
      apply (server_call run_server_config run_server_random run_server [] (ServeInitial run_initial 5 5 5)
        (fst served_initial) (snd served_initial)); [| |exact (surjective_pairing served_initial)].
      * apply server_start. vm_compute. reflexivity.
      * apply (bool_decide_unpack _); vm_compute; exact I.
Defined.
