(* ===== verification/Routing.v ===== *)
(** * Split routing (internal/routing/routing.go)

    Targets and their canonical texts, the manual rules of the engine, and the
    decision it takes for a target.  An [Action] is a Go string type, so an
    arbitrary string is one; the kinds of targets are an enumeration.  A clock
    reading is an argument.  Theorems: canonical targets are fixed points of the
    parser, the engine refines an abstract policy (a finite map from targets to
    actions), and a decision is the exact rule, else the longest prefix, whatever
    the order in which Go walks its map. *)

From stdpp Require Import base strings numbers gmap list sorting.
From S2P Require Import Prelude CodecErrors Frame GoStrings Netip.
Local Open Scope Z_scope.
Local Open Scope wg_scope.

(** ** Actions *)
Abbreviation Action := (list Z) (only parsing).
Definition ActionTunnel : Action := lit "TUNNEL".
Definition ActionDirect : Action := lit "DIRECT".
Definition ActionBlock : Action := lit "BLOCK".
Definition ActionAuto : Action := lit "AUTO".

Inductive RoutingErr : Set := ErrInvalidAction | ErrInvalidTarget | ErrAutoRule.
#[global] Instance RoutingErr_eq_dec : EqDecision RoutingErr.
Proof. solve_decision. Defined.

Definition effective (a : Action) : bool :=
  bool_decide (a = ActionTunnel) || bool_decide (a = ActionDirect) || bool_decide (a = ActionBlock).
Definition action_valid (a : Action) : bool := effective a || bool_decide (a = ActionAuto).

Section Texts.
Context {U : Unicode}.

Definition ParseAction (value : bytes) : outcome RoutingErr Action :=
  let action := ToUpper (TrimSpace value) in
  if negb (action_valid action) then Err ErrInvalidAction else Ok action.
End Texts.

(** ** Targets *)
Inductive TargetKind : Set := TargetDomain | TargetIP | TargetCIDR.
#[global] Instance TargetKind_eq_dec : EqDecision TargetKind.
Proof. solve_decision. Defined.
Definition kind_string (k : TargetKind) : bytes :=
  match k with TargetDomain => lit "DOMAIN" | TargetIP => lit "IP" | TargetCIDR => lit "CIDR" end.

(** The zero values of the private fields are [None]. *)
Record Target : Set := mkTarget {
  tg_Kind : TargetKind;
  tg_Value : bytes;
  tg_addr : option Addr;
  tg_prefix : option Prefix
}.
#[global] Instance Target_eq_dec : EqDecision Target.
Proof. solve_decision. Defined.

Definition canonicalPrefix (prefix : Prefix) : outcome RoutingErr Prefix :=
  if Is4In6 (pf_Addr prefix) then
    let bits := pf_Bits prefix - 96 in
    if (bits <? 0) || (32 <? bits) then Err ErrInvalidTarget
    else Ok (Masked (PrefixFrom (Unmap (pf_Addr prefix)) bits))
  else Ok (Masked prefix).

Definition label_char (c : Z) : bool := negb (((c <? 97) || (122 <? c)) && ((c <? 48) || (57 <? c)) && negb (c =? 45)).
Definition label_ok (label : bytes) : bool :=
  negb ((len label =? 0) || (63 <? len label) || bool_decide (head label = Some 45) || bool_decide (last label = Some 45))
  && forallb label_char (runes label).

Section Targets.
Context {U : Unicode}.

Definition normalizeDomain (value : bytes) : outcome RoutingErr bytes :=
  let value := ToLower (TrimSpace value) in
  let value := if HasSuffix value [46] then TrimSuffix value [46] else value in
  if bool_decide (value = []) || (253 <? len value) || HasSuffix value [46] then Err ErrInvalidTarget
  else if existsb (fun r => 127 <? r) (runes value) then Err ErrInvalidTarget
  else if negb (forallb label_ok (Split value 46)) then Err ErrInvalidTarget
  else Ok value.

Definition domain_target (domain : bytes) : Target := mkTarget TargetDomain domain None None.
Definition ip_target (addr : Addr) : Target := mkTarget TargetIP (Addr_String addr) (Some addr) None.
Definition cidr_target (prefix : Prefix) : Target := mkTarget TargetCIDR (Prefix_String prefix) None (Some prefix).

Definition ParseTarget (value : bytes) : outcome RoutingErr Target :=
  let value := TrimSpace value in
  if bool_decide (value = []) then Err ErrInvalidTarget
  else if Contains value [47] then
    match ParsePrefix value with
    | None => Err ErrInvalidTarget
    | Some prefix =>
        let* prefix := canonicalPrefix prefix in
        Ok (cidr_target prefix)
    end
  else match ParseAddr value with
  | Some addr => Ok (ip_target (Unmap addr))
  | None =>
      let* domain := normalizeDomain value in
      Ok (domain_target domain)
  end.
End Targets.

Definition targetKey (t : Target) : bytes := kind_string (tg_Kind t) ++ 0 :: tg_Value t.

(** ** Rules, decisions, the engine *)
Inductive Source : Set := SourceManual | SourceAutomatic.
#[global] Instance Source_eq_dec : EqDecision Source.
Proof. solve_decision. Defined.

Record Rule : Set := mkRule {
  rl_ID : Z;
  rl_Target : Target;
  rl_Action : Action;
  rl_Source : Source;
  rl_CreatedAt : Z;
  rl_UpdatedAt : Z
}.
#[global] Instance Rule_eq_dec : EqDecision Rule.
Proof. solve_decision. Defined.

Record Decision : Set := mkDecision {
  dc_Target : Target;
  dc_Action : Action;
  dc_EffectiveAction : Action;
  dc_Source : Source;
  dc_Reason : bytes;
  dc_MatchedRule : option Rule;
  dc_Generation : Z
}.
#[global] Instance Decision_eq_dec : EqDecision Decision.
Proof. solve_decision. Defined.

Definition AutoDecider : Set := Target -> Action * bytes.

Record Engine : Set := mkEngine {
  en_rules : gmap bytes Rule;
  en_nextID : Z;
  en_generation : Z;
  en_defaultAction : Action;
  en_decider : option AutoDecider
}.

Definition Option_ : Set := Engine -> Engine.
Definition WithAutoDecider (decider : option AutoDecider) : Option_ := fun e =>
  match decider with
  | Some _ => mkEngine (en_rules e) (en_nextID e) (en_generation e) (en_defaultAction e) decider
  | None => e
  end.
Definition WithDefaultAction (action : Action) : Option_ := fun e =>
  if effective action then mkEngine (en_rules e) (en_nextID e) (en_generation e) action (en_decider e) else e.

Definition NewEngine (options : list (option Option_)) : Engine :=
  fold_left (fun e o => match o with Some option => option e | None => e end) options
    (mkEngine ∅ 0 0 ActionTunnel None).

(** A changed rule set: the next generation. *)
Definition with_rules (rules : gmap bytes Rule) (nextID : Z) (e : Engine) : Engine :=
  mkEngine rules nextID (u64 (en_generation e + 1)) (en_defaultAction e) (en_decider e).

Definition rule_updated (action : Action) (now : Z) (r : Rule) : Rule :=
  mkRule (rl_ID r) (rl_Target r) action (rl_Source r) (rl_CreatedAt r) now.

(** The walk over the rules of [matchLocked], in the order of the list. *)
Definition cidr_bits (r : Rule) (addr : Addr) : option Z :=
  match tg_Kind (rl_Target r), tg_prefix (rl_Target r) with
  | TargetCIDR, Some p => if Prefix_Contains p addr then Some (pf_Bits p) else None
  | _, _ => None
  end.
Fixpoint longest (rules : list Rule) (addr : Addr) (best : option Rule) (bestBits : Z) : option Rule :=
  match rules with
  | [] => if 0 <=? bestBits then best else None
  | r :: rules =>
      match cidr_bits r addr with
      | Some bits => if bestBits <? bits then longest rules addr (Some r) bits else longest rules addr best bestBits
      | None => longest rules addr best bestBits
      end
  end.

Definition matchLocked (e : Engine) (target : Target) : option Rule :=
  match en_rules e !! targetKey target with
  | Some rule => Some rule
  | None =>
      match tg_Kind target, tg_addr target with
      | TargetIP, Some addr => longest (snd <$> map_to_list (en_rules e)) addr None (-1)
      | _, _ => None
      end
  end.

Definition lt_rule (a b : Rule) : bool :=
  let ka := kind_string (tg_Kind (rl_Target a)) in
  let kb := kind_string (tg_Kind (rl_Target b)) in
  if bool_decide (ka = kb) then strings_lt (tg_Value (rl_Target a)) (tg_Value (rl_Target b)) else strings_lt ka kb.

Definition List (e : Engine) : list Rule := sort_by lt_rule (snd <$> map_to_list (en_rules e)).
Definition Generation (e : Engine) : Z := en_generation e.

Section Engine.
Context {U : Unicode}.

Definition manualReason (rule : Rule) (target : Target) : bytes :=
  match tg_Kind (rl_Target rule), tg_Kind target with
  | TargetCIDR, TargetIP =>
      lit "manual CIDR override " ++ tg_Value (rl_Target rule) ++ lit " matched by longest prefix"
  | k, _ => lit "manual " ++ ToLower (kind_string k) ++ lit " override matched exactly"
  end.

(** The automatic part of [Explain]. *)
Definition automatic (target : Target) (decider : option AutoDecider) (defaultAction : Action) : Action * bytes :=
  match decider with
  | Some decide =>
      let '(classified, classifiedReason) := decide target in
      if effective classified then
        (classified, if negb (bool_decide (TrimSpace classifiedReason = [])) then classifiedReason
                     else lit "automatic classifier selected " ++ classified)
      else (defaultAction, lit "automatic classifier returned an invalid action; safe default applied")
  | None =>
      (defaultAction,
       if negb (bool_decide (defaultAction = ActionTunnel))
       then lit "no manual override matched; configured automatic default applied"
       else lit "no manual override matched; unclassified targets default to TUNNEL")
  end.

Definition Explain (e : Engine) (targetValue : bytes) : outcome RoutingErr Decision :=
  let* target := ParseTarget targetValue in
  match matchLocked e target with
  | Some rule =>
      Ok (mkDecision target (rl_Action rule) (rl_Action rule) SourceManual (manualReason rule target)
        (Some rule) (en_generation e))
  | None =>
      let '(action, reason) := automatic target (en_decider e) (en_defaultAction e) in
      Ok (mkDecision target ActionAuto action SourceAutomatic reason None (en_generation e))
  end.

Definition SetRule (targetValue : bytes) (action : Action) (now : Z) : act Engine RoutingErr Rule :=
  if negb (action_valid action) then act_fail ErrInvalidAction
  else if bool_decide (action = ActionAuto) then act_fail ErrAutoRule
  else
    let! target := act_lift (ParseTarget targetValue) in
    let key := targetKey target in
    let! e := act_get in
    match en_rules e !! key with
    | Some existing =>
        if bool_decide (rl_Action existing = action) then act_ret existing
        else
          let existing := rule_updated action now existing in
          do! act_set (with_rules (<[key := existing]> (en_rules e)) (en_nextID e));
          act_ret existing
    | None =>
        let id := u64 (en_nextID e + 1) in
        let rule := mkRule id target action SourceManual now now in
        do! act_set (with_rules (<[key := rule]> (en_rules e)) id);
        act_ret rule
    end.

Definition DeleteRule (targetValue : bytes) : act Engine RoutingErr Decision :=
  let! target := act_lift (ParseTarget targetValue) in
  let key := targetKey target in
  let! e := act_get in
  do! match en_rules e !! key with
      | Some _ => act_set (with_rules (delete key (en_rules e)) (en_nextID e))
      | None => act_ret tt
      end;
  let! e := act_get in
  act_lift (Explain e (tg_Value target)).
End Engine.

(** ** Canonical targets *)
Definition domain_char (c : Z) : bool := label_char c || (c =? 46).
Definition domain_ok (d : bytes) : Prop :=
  d <> [] /\ len d <= 253 /\ HasSuffix d [46] = false /\ Forall (fun c => domain_char c = true) d /\ forallb label_ok (Split d 46) = true.
Definition target_ok (t : Target) : Prop :=
  match tg_Kind t with
  | TargetDomain => t = domain_target (tg_Value t) /\ domain_ok (tg_Value t)
  | TargetIP => exists ip zone, t = ip_target ip /\ Addr_ok ip /\ Is4In6 ip = false
      /\ (forall b z, ip = Addr6 b z -> z = zone) /\ (47 ∉ zone) /\ strip (map reverse spaces) (reverse zone) = None
  | TargetCIDR => exists p, t = cidr_target p /\ Prefix_ok p /\ Is4In6 (pf_Addr p) = false /\ Masked p = p
  end.

Lemma label_char_range c : label_char c = true -> 45 <= c <= 122 /\ c <> 47 /\ c <> 58 /\ c <> 37 /\ ~ (65 <= c <= 90).
Proof. unfold label_char. lia. Qed.

Lemma domain_char_solid d : Forall (fun c => domain_char c = true) d ->
  Forall (fun c => solid c = true) d /\ forallb lowered d = true /\ (47 ∉ d) /\ (58 ∉ d).
Proof.
  intros H. rewrite Forall_forall in H. split_and!.
  - apply Forall_forall. intros c Hc. specialize (H c Hc). unfold domain_char, label_char, solid, between in *. lia.
  - apply forallb_forall. intros c Hc%list_elem_of_In. specialize (H c Hc). unfold domain_char, label_char, lowered, between in *. lia.
  - intros Hc. by specialize (H 47 Hc).
  - intros Hc. by specialize (H 58 Hc).
Qed.

Lemma label_ok_chars label : ascii label -> label_ok label = true -> Forall (fun c => domain_char c = true) label.
Proof.
  intros Ha H. unfold label_ok in H. apply andb_true_iff in H as [_ H]. rewrite runes_ascii in H by done.
  rewrite forallb_forall in H. apply Forall_forall. intros c Hc%list_elem_of_In. specialize (H c Hc). unfold domain_char. by rewrite H.
Qed.

Lemma Split_parts (P : Z -> Prop) c s : Forall P s -> Forall (Forall P) (Split s c).
Proof.
  induction 1 as [|x s Hx Hs IH]; cbn; [repeat constructor|]. destruct (x =? c); [by constructor|].
  destruct (Split s c) as [|part rest]; [repeat constructor; done|]. apply Forall_cons in IH as [? ?]. by repeat constructor.
Qed.

Section CanonicalTargets.
Context {U : Unicode}.

Lemma normalizeDomain_ok value d : normalizeDomain value = Ok d -> domain_ok d.
Proof.
  unfold normalizeDomain. set (v := ToLower (TrimSpace value)). set (w := if HasSuffix v [46] then TrimSuffix v [46] else v).
  assert (Hw : bytes_ok w).
  { assert (Hv : bytes_ok v) by apply strings_Map_ok. subst w. destruct (HasSuffix v [46]); [|done].
    unfold TrimSuffix. destruct (cut_suffix [46] v) as [r|] eqn:E; [|done]. cbn. apply cut_suffix_Some in E. rewrite E in Hv. by apply Forall_app in Hv as [? _]. }
  destruct (_ || _) eqn:E1; [done|]. apply orb_false_iff in E1 as [E1 Hs]. apply orb_false_iff in E1 as [Hne Hl].
  destruct (existsb _ _) eqn:E2; [done|]. destruct (negb _) eqn:E3; [done|]. intros [= <-]. apply negb_false_iff in E3.
  assert (Ha : ascii w).
  { apply runes_big; [done|]. apply Forall_forall. intros r Hr. destruct (Z.leb_spec r 127); [done|]. 
    rewrite <- not_true_iff_false in E2. exfalso. apply E2. apply existsb_exists. exists r. rewrite <- list_elem_of_In. split; [done | lia]. }
  split_and!; [by apply bool_decide_eq_false in Hne | lia | done | | done].
  apply (Split_Forall _ 46); [done|]. rewrite forallb_forall in E3. apply (Split_parts _ 46) in Ha. rewrite Forall_forall in Ha |- *.
  intros label Hin. apply label_ok_chars; [by apply Ha | apply E3; by apply list_elem_of_In].
Qed.

Lemma domain_ok_ascii d : domain_ok d -> ascii d.
Proof.
  intros (_ & _ & _ & H & _). eapply Forall_impl; [exact H|]. intros c Hc. unfold domain_char, label_char in Hc. lia.
Qed.

Lemma normalizeDomain_fixed d : domain_ok d -> normalizeDomain d = Ok d.
Proof.
  intros Hd. pose proof (domain_ok_ascii d Hd) as Ha. destruct Hd as (Hne & Hl & Hs & Hc & Hlab).
  destruct (domain_char_solid d Hc) as (Hsolid & Hlow & _ & _). unfold normalizeDomain.
  rewrite (TrimSpace_stays d) by (by apply solid_trimmed). rewrite ToLower_stays by done. rewrite Hs.
  rewrite bool_decide_false by done. rewrite runes_ascii by done. replace (253 <? len d) with false by (symmetry; lia). cbn [orb].
  destruct (existsb _ d) eqn:E.
  - apply existsb_exists in E as (r & Hr%list_elem_of_In & Hr'). unfold ascii in Ha. rewrite Forall_forall in Ha. specialize (Ha r Hr). lia.
  - by rewrite Hs, Hlab.
Qed.

Lemma domain_ok_addr d ip : domain_ok d -> ParseAddr d = Some ip -> exists b, ip = Addr4 b.
Proof.
  intros (_ & _ & _ & Hc & _) [[_ (b & _ & ->)%fmap_Some]|[Hk _]]%ParseAddr_cases; [by exists b|].
  destruct (domain_char_solid d Hc) as (_ & _ & _ & H58). exfalso. apply H58. clear -Hk.
  induction d as [|c d IH]; cbn in Hk; [done|]. destruct (_ || _); [injection Hk as ->; by left | right; by apply IH].
Qed.

Lemma ParseTarget_domain d : domain_ok d -> ParseTarget d =
  match ParseAddr d with Some ip => Ok (ip_target (Unmap ip)) | None => Ok (domain_target d) end.
Proof.
  intros Hd. destruct Hd as (Hne & Hl & Hs & Hc & Hlab) eqn:E. clear E. destruct (domain_char_solid d Hc) as (Hsolid & _ & H47 & _).
  unfold ParseTarget. rewrite (TrimSpace_stays d) by (by apply solid_trimmed). rewrite bool_decide_false by done.
  rewrite Contains_byte, bool_decide_false by done. destruct (ParseAddr d); [done|].
  rewrite normalizeDomain_fixed; [done | by split_and!].
Qed.

Lemma v4_char_solid c : v4_char c -> solid c = true /\ c <> 47.
Proof. unfold v4_char, is_digit, solid, between. intros [H|H]; lia. Qed.

Lemma v6_char_solid c : v6_char c -> solid c = true /\ c <> 47.
Proof.
  intros [H|H]; unfold solid, between; [|lia]. destruct H as [d H]. unfold hex_value, between in H. repeat case_match; try done; lia.
Qed.

(** The text of a plain address, without its zone *)
Lemma Addr_String_front ip zone : Addr_ok ip -> Is4In6 ip = false -> (forall b z, ip = Addr6 b z -> z = zone) ->
  exists front, front <> [] /\ Forall (fun c => solid c = true /\ c <> 47) front
    /\ (Addr_String ip = front \/ Addr_String ip = front ++ 37 :: zone).
Proof.
  destruct ip as [b|b z]; intros [Hl Hb] Hm Hz.
  - exists (string4 b). split_and!; [destruct b as [|b0 b]; [done|] | | by left].
    + apply Forall_cons in Hb as [Hb _]. unfold string4. cbn [fmap list_fmap join_with]. by destruct (FormatUint_head b0 Hb) as (c & ds & -> & _).
    + eapply Forall_impl; [by apply string4_chars|]. intros c Hc. by apply v4_char_solid.
  - rewrite (Hz b z eq_refl) in *. destruct (string6_chars b Hl Hb) as [Hc Hin]. exists (string6 b). split_and!.
    + intros E. by rewrite E in Hin; apply elem_of_nil in Hin.
    + eapply Forall_impl; [exact Hc|]. intros c Hc'. by apply v6_char_solid.
    + unfold Addr_String. rewrite Hm. destruct (bool_decide (zone = [])); [left; by rewrite app_nil_r | by right].
Qed.

Lemma front_trimmed front : front <> [] -> Forall (fun c => solid c = true /\ c <> 47) front -> trimmed front /\ 47 ∉ front.
Proof.
  intros Hne H. split; [apply solid_trimmed; eapply Forall_impl; [exact H|]; by intros c [? _]|].
  rewrite Forall_forall in H. intros Hin. by destruct (H 47 Hin).
Qed.

Lemma Addr_String_canonical ip zone : Addr_ok ip -> Is4In6 ip = false -> (forall b z, ip = Addr6 b z -> z = zone) ->
  47 ∉ zone -> strip (map reverse spaces) (reverse zone) = None ->
  trimmed (Addr_String ip) /\ (47 ∉ Addr_String ip) /\ Addr_String ip <> [].
Proof.
  intros Hip Hm Hz H47 Hs. destruct (Addr_String_front ip zone Hip Hm Hz) as (front & Hne & Hf & [-> | ->]);
    destruct (front_trimmed front Hne Hf) as [[Ht1 Ht2] Hn]; [done|].
  split_and!; [|rewrite elem_of_app, elem_of_cons; naive_solver | by destruct front].
  split.
  - destruct front as [|c front]; [done|]. apply Forall_cons in Hf as [[Hc _] _]. by apply solid_front.
  - by apply solid_back.
Qed.

Lemma ParseTarget_ip ip zone : Addr_ok ip -> Is4In6 ip = false -> (forall b z, ip = Addr6 b z -> z = zone) ->
  47 ∉ zone -> strip (map reverse spaces) (reverse zone) = None -> ParseTarget (Addr_String ip) = Ok (ip_target ip).
Proof.
  intros Hip Hm Hz H47 Hs. destruct (Addr_String_canonical ip zone Hip Hm Hz H47 Hs) as (Ht & Hn & Hne).
  unfold ParseTarget. rewrite TrimSpace_stays by done. rewrite bool_decide_false by done. rewrite Contains_byte, bool_decide_false by done.
  rewrite ParseAddr_String by done. do 2 f_equal. destruct ip; [done|]. cbn [Unmap]. by rewrite Hm.
Qed.

Lemma Prefix_String_trimmed p : Prefix_ok p -> Is4In6 (pf_Addr p) = false -> trimmed (Prefix_String p).
Proof.
  intros (Hip & Hz & Hbits) Hm. apply solid_trimmed. unfold Prefix_String. apply Forall_app. split.
  - destruct (Addr_String_front (pf_Addr p) [] Hip Hm) as (front & _ & Hf & E).
    { intros b z E. rewrite E in Hz. cbn in Hz. by injection Hz. }
    assert (Ef : Addr_String (pf_Addr p) = front \/ Addr_String (pf_Addr p) = front ++ [37]) by done.
    destruct Ef as [-> | ->]; [|apply Forall_app; split; [|by repeat constructor]]; (eapply Forall_impl; [exact Hf|]; by intros c [? _]).
  - constructor; [done|]. assert (0 <= pf_Bits p < 2 ^ 64) by (destruct (pf_Addr p); cbn in Hbits; lia).
    unfold Itoa. by_test. eapply Forall_impl; [by apply FormatUint_digits|]. intros c Hc. unfold is_digit, solid, between in *. lia.
Qed.

Lemma ParseTarget_cidr p : Prefix_ok p -> Is4In6 (pf_Addr p) = false -> Masked p = p -> ParseTarget (Prefix_String p) = Ok (cidr_target p).
Proof.
  intros Hp Hm Hmask. unfold ParseTarget. rewrite TrimSpace_stays by (by apply Prefix_String_trimmed).
  rewrite bool_decide_false by (unfold Prefix_String; intros E; by apply app_eq_nil in E as [_ E]).
  rewrite Contains_byte, bool_decide_true by (unfold Prefix_String; apply elem_of_app; right; by left).
  rewrite ParsePrefix_String by done. unfold canonicalPrefix. rewrite Hm. cbn [obind]. by rewrite Hmask.
Qed.


Lemma ParseAddr_zone v b z : ParseAddr v = Some (Addr6 b z) -> z = [] \/ exists a, v = a ++ 37 :: z.
Proof.
  intros [[_ (? & _ & ?)%fmap_Some]|[_ H]]%ParseAddr_cases; [done|]. unfold parseIPv6 in H.
  destruct (cut_at 37 v) as [[a [|c zone]]|] eqn:E; try done; apply fmap_Some in H as (b' & _ & [= -> ->]); [right | by left].
  apply cut_at_Some in E as [-> _]. by exists a.
Qed.

Lemma Masked_fixed p : Prefix_ok p -> Masked (Masked p) = Masked p.
Proof.
  destruct p as [[b|b z] bits]; intros ([Hl Hb] & _ & Hbits); unfold Masked; cbn in *; unfold len in Hl;
    rewrite mask_bytes_idemp; (done || lia).
Qed.

Lemma Masked_unmapped p : Prefix_ok p -> Is4In6 (pf_Addr p) = false -> Is4In6 (pf_Addr (Masked p)) = false.
Proof.
  destruct p as [[b|b z] bits]; intros ([Hl Hb] & _ & Hbits); [done|]. cbn in *. intros Hm.
  apply bool_decide_eq_false. apply bool_decide_eq_false in Hm. intros E. apply Hm. unfold len in Hl.
  by apply (mask_not_mapped bits b Hb ltac:(lia)).
Qed.

Lemma canonicalPrefix_ok p q : Prefix_ok p -> canonicalPrefix p = Ok q -> Prefix_ok q /\ Is4In6 (pf_Addr q) = false /\ Masked q = q.
Proof.
  intros Hp. unfold canonicalPrefix. destruct (Is4In6 (pf_Addr p)) eqn:Hm.
  - destruct (_ || _) eqn:Hb; [done|]. intros [= <-]. destruct p as [[b|b z] bits]; [done|]. cbn [pf_Addr pf_Bits] in *.
    destruct Hp as (Hip & _ & _). cbn [pf_Addr] in Hip. destruct (Unmap_ok _ Hip) as (Hu & _ & _).
    set (q := PrefixFrom (Unmap (Addr6 b z)) (bits - 96)).
    assert (Hq : Prefix_ok q /\ exists b4, pf_Addr q = Addr4 b4).
    { subst q. unfold PrefixFrom, Prefix_ok. cbn [pf_Addr pf_Bits]. unfold Unmap in *. rewrite Hm in *. cbn [without_zone BitLen].
      split; [split; [done | split; [done | lia]] | by eexists]. }
    destruct Hq as [Hq [b4 E4]]. split_and!; [by apply Masked_ok | unfold Masked; cbn [pf_Addr]; by rewrite E4 | by apply Masked_fixed].
  - intros [= <-]. split_and!; [by apply Masked_ok | by apply Masked_unmapped | by apply Masked_fixed].
Qed.

(** What the parser returns is canonical. *)
Lemma ParseTarget_ok value t : ParseTarget value = Ok t -> target_ok t.
Proof.
  unfold ParseTarget. pose proof (TrimSpace_trimmed value) as [_ Htrim]. set (v := TrimSpace value) in *.
  destruct (bool_decide (v = [])); [done|]. rewrite Contains_byte. destruct (bool_decide_reflect (47 ∈ v)) as [Hin|Hn].
  - destruct (ParsePrefix v) as [p|] eqn:Hp; [|done]. apply ParsePrefix_ok in Hp. intros (q & Hq & [= <-])%obind_Ok.
    exists q. split; [done | by eapply canonicalPrefix_ok].
  - destruct (ParseAddr v) as [addr|] eqn:Ha.
    + intros [= <-]. pose proof (ParseAddr_ok v addr Ha) as Hok. destruct (Unmap_ok addr Hok) as (Hu & Hm & _). unfold target_ok. cbn [tg_Kind ip_target].
      destruct (Unmap addr) as [b|b z] eqn:E.
      * exists (Addr4 b), []. split_and!; try done. by intros ?%elem_of_nil.
      * exists (Addr6 b z), z. assert (addr = Addr6 b z) as -> by (destruct addr as [|b' z']; [done|]; unfold Unmap in E; by destruct (Is4In6 (Addr6 b' z'))).
        split_and!; try done; [congruence | |]; destruct (ParseAddr_zone v b z Ha) as [-> | [a ->]]; try done.
        -- by intros ?%elem_of_nil.
        -- intros Hz. apply Hn, elem_of_app. right. by right.
        -- rewrite (cons_middle 37 a z), app_assoc in Htrim. by apply trimmed_back in Htrim.
    + intros (d & Hd & [= <-])%obind_Ok. split; [done | by eapply normalizeDomain_ok].
Qed.

(** Canonical targets come back from their texts, except that the text of a
    domain of four numbers is an IPv4 address. *)
Lemma ParseTarget_canonical t : target_ok t ->
  ParseTarget (tg_Value t) = Ok t
  \/ tg_Kind t = TargetDomain /\ exists b, ParseAddr (tg_Value t) = Some (Addr4 b) /\ ParseTarget (tg_Value t) = Ok (ip_target (Addr4 b)).
Proof.
  unfold target_ok. destruct (tg_Kind t) eqn:Hk.
  - intros [E Hd]. rewrite ParseTarget_domain by done. destruct (ParseAddr (tg_Value t)) as [ip|] eqn:Ha; [right|left; by rewrite E].
    destruct (domain_ok_addr _ _ Hd Ha) as [b ->]. split; [done|]. by exists b.
  - intros (ip & zone & -> & Hip & Hm & Hz & Hn & Hs). left. by apply (ParseTarget_ip ip zone).
  - intros (p & -> & Hp & Hm & Hmask). left. by apply ParseTarget_cidr.
Qed.

(** The text of a target stands for one target, which has that text. *)
Lemma ParseTarget_value value t : ParseTarget value = Ok t ->
  exists t', ParseTarget (tg_Value t) = Ok t' /\ tg_Value t' = tg_Value t.
Proof.
  intros H%ParseTarget_ok. destruct (ParseTarget_canonical t H) as [E | (_ & b & Ha & E)]; [by exists t|].
  exists (ip_target (Addr4 b)). split; [done|]. cbn. symmetry. by apply ParseAddr_v4_text.
Qed.
End CanonicalTargets.

(** ** Keys and rules *)
Lemma targetKey_inj a b : targetKey a = targetKey b -> tg_Kind a = tg_Kind b /\ tg_Value a = tg_Value b.
Proof. unfold targetKey. destruct (tg_Kind a), (tg_Kind b); cbn; intros [=]; done. Qed.

Lemma Addr_String_inj a b : Addr_ok a -> Addr_ok b -> Addr_String a = Addr_String b -> a = b.
Proof. intros Ha Hb E. apply ParseAddr_String in Ha, Hb. rewrite E in Ha. congruence. Qed.

Lemma Prefix_String_inj p q : Prefix_ok p -> Prefix_ok q -> Prefix_String p = Prefix_String q -> p = q.
Proof. intros Hp Hq E. apply ParsePrefix_String in Hp, Hq. rewrite E in Hp. congruence. Qed.

Lemma target_ok_eq a b : target_ok a -> target_ok b -> targetKey a = targetKey b -> a = b.
Proof.
  intros Ha Hb [Hk Hv]%targetKey_inj. unfold target_ok in *. rewrite <- Hk in Hb. destruct (tg_Kind a).
  - destruct Ha as [-> _], Hb as [-> _]. cbn in Hv. by f_equal.
  - destruct Ha as (ip & ? & -> & Ha & _), Hb as (ip' & ? & -> & Hb & _). cbn in Hv. by rewrite (Addr_String_inj ip ip').
  - destruct Ha as (p & -> & Ha & _), Hb as (q & -> & Hb & _). cbn in Hv. by rewrite (Prefix_String_inj p q).
Qed.

Definition rule_ok (k : bytes) (r : Rule) : Prop :=
  targetKey (rl_Target r) = k /\ target_ok (rl_Target r) /\ effective (rl_Action r) = true /\ rl_Source r = SourceManual.
Definition engine_ok (e : Engine) : Prop :=
  map_Forall rule_ok (en_rules e) /\ effective (en_defaultAction e) = true /\ uint_ok 64 (en_generation e).

(** ** Longest prefixes *)
Definition covers (r : Rule) (addr : Addr) (bits : Z) : Prop := cidr_bits r addr = Some bits.

Lemma shiftr_ldiff k a : 0 <= k -> Z.ldiff a (Z.ones k) = Z.shiftl (Z.shiftr a k) k.
Proof. apply Z.ldiff_ones_r. Qed.

Lemma agree_masked n bits a b c : bits <= 8 * Z.of_nat n -> bytes_ok a -> bytes_ok b -> length a = n -> length b = n ->
  mask_bytes n bits a = a -> mask_bytes n bits b = b -> agree n bits a c = true -> agree n bits b c = true -> a = b.
Proof.
  intros Hbits Ha Hb Hla Hlb Hma Hmb H1 H2. unfold agree in *. rewrite Z.eqb_eq, Z.shiftr_lxor, Z.lxor_eq_0_iff in H1, H2.
  apply be_combine_inj; try done; [congruence|].
  rewrite <- Hma, <- Hmb, !mask_bytes_value by done. rewrite !shiftr_ldiff by lia. by rewrite H1, H2.
Qed.

(** Two prefixes of the same length that contain one address are the same. *)
Lemma Prefix_Contains_eq p q addr : Prefix_ok p -> Prefix_ok q -> Masked p = p -> Masked q = q ->
  pf_Bits p = pf_Bits q -> Prefix_Contains p addr = true -> Prefix_Contains q addr = true -> p = q.
Proof.
  intros (Hp & Zp & Bp) (Hq & Zq & Bq) Mp Mq E Cp Cq. destruct p as [pa pb], q as [qa qb]. cbn in *. subst qb. f_equal.
  destruct pa as [a|a za], qa as [b|b zb], addr as [c|c zc]; try done; cbn in *; destruct Hp as [Hla Ha], Hq as [Hlb Hb];
    unfold len in *; unfold Masked in *; cbn in *.
  - injection Mp as Mp. injection Mq as Mq. f_equal. apply (agree_masked 4 pb a b c); (done || lia).
  - injection Zp as <-. injection Zq as <-. injection Mp as Mp. injection Mq as Mq. apply andb_true_iff in Cp as [_ Cp], Cq as [_ Cq].
    f_equal. apply (agree_masked 16 pb a b c); (done || lia).
Qed.

Lemma covers_inv r addr bits : target_ok (rl_Target r) -> covers r addr bits ->
  exists p, rl_Target r = cidr_target p /\ Prefix_ok p /\ Masked p = p /\ pf_Bits p = bits /\ Prefix_Contains p addr = true.
Proof.
  unfold covers, cidr_bits, target_ok. destruct (tg_Kind (rl_Target r)); try done.
  intros (p & -> & Hp & _ & Hm). cbn. destruct (Prefix_Contains p addr) eqn:E; [|done]. intros [= <-]. by exists p.
Qed.

Lemma covers_eq a b addr bits : target_ok (rl_Target a) -> target_ok (rl_Target b) ->
  covers a addr bits -> covers b addr bits -> rl_Target a = rl_Target b.
Proof.
  intros Ha Hb (p & -> & Hp & Mp & <- & Cp)%covers_inv (q & -> & Hq & Mq & E & Cq)%covers_inv; try done.
  by rewrite (Prefix_Contains_eq p q addr).
Qed.

Lemma covers_nonneg r addr bits : target_ok (rl_Target r) -> covers r addr bits -> 0 <= bits.
Proof. intros H (p & _ & (_ & _ & Hb) & _ & <- & _)%covers_inv; [lia | done]. Qed.

(** The walk keeps the rule with the most bits. *)
Lemma longest_spec rules addr : forall best bestBits r,
  Forall (fun r => target_ok (rl_Target r)) rules ->
  (forall b, best = Some b -> covers b addr bestBits) -> (best = None -> bestBits = -1) -> (best <> None -> 0 <= bestBits) ->
  longest rules addr best bestBits = Some r ->
  exists bits, covers r addr bits /\ bestBits <= bits /\ (r ∈ rules \/ best = Some r)
    /\ forall r' bits', r' ∈ rules -> covers r' addr bits' -> bits' <= bits.
Proof.
  induction rules as [|x rules IH]; intros best bestBits r Hok Hb Hn Hp H; cbn [longest] in H.
  - destruct (Z.leb_spec 0 bestBits); [|done]. exists bestBits. subst best. split_and!; [by apply Hb | lia | by right|]. by intros ? ? ?%elem_of_nil.
  - apply Forall_cons in Hok as [Hx Hok].
    destruct (cidr_bits x addr) as [bits|] eqn:E; [destruct (Z.ltb_spec bestBits bits)|].
    + pose proof (covers_nonneg x addr bits Hx E). destruct (IH (Some x) bits r Hok) as (m & Hm & Hle & Hin & Hmax); try done; [by intros b [= <-]|].
      exists m. split_and!; [done | lia | left; destruct Hin as [|[= ->]]; [by right | by left]|].
      intros r' bits' [->|Hr']%elem_of_cons Hc; [unfold covers in Hc; assert (bits' = bits) by congruence; lia | by eapply Hmax].
    + destruct (IH best bestBits r Hok Hb Hn Hp H) as (m & Hm & Hle & Hin & Hmax). exists m.
      split_and!; [done | done | destruct Hin; [left; by right | by right]|].
      intros r' bits' [->|Hr']%elem_of_cons Hc; [unfold covers in Hc; assert (bits' = bits) by congruence; lia | by eapply Hmax].
    + destruct (IH best bestBits r Hok Hb Hn Hp H) as (m & Hm & Hle & Hin & Hmax). exists m.
      split_and!; [done | done | destruct Hin; [left; by right | by right]|].
      intros r' bits' [->|Hr']%elem_of_cons Hc; [unfold covers in Hc; congruence | by eapply Hmax].
Qed.

Lemma longest_None rules addr : forall best bestBits,
  Forall (fun r => target_ok (rl_Target r)) rules -> (best <> None -> 0 <= bestBits) -> (best = None -> bestBits = -1) ->
  longest rules addr best bestBits = None -> best = None /\ forall r bits, r ∈ rules -> ~ covers r addr bits.
Proof.
  induction rules as [|x rules IH]; intros best bestBits Hok Hp Hn H; cbn [longest] in H.
  - split; [|by intros ? ? ?%elem_of_nil]. destruct best; [|done]. specialize (Hp ltac:(done)). by replace (0 <=? bestBits) with true in H by (symmetry; lia).
  - apply Forall_cons in Hok as [Hx Hok]. destruct (cidr_bits x addr) as [bits|] eqn:E; [destruct (Z.ltb_spec bestBits bits)|].
    + pose proof (covers_nonneg x addr bits Hx E). by apply IH in H as [? _].
    + apply IH in H as [-> _]; try done. specialize (Hn eq_refl). pose proof (covers_nonneg x addr bits Hx E). lia.
    + apply IH in H as [-> Hall]; try done. split; [done|]. intros r bits [->|Hr]%elem_of_cons Hc; [unfold covers in Hc; congruence | by eapply Hall].
Qed.

(** The rule of the longest prefix that contains the address *)
Definition longest_match (rules : list Rule) (addr : Addr) (r : Rule) : Prop :=
  r ∈ rules /\ exists bits, covers r addr bits /\ forall r' bits', r' ∈ rules -> covers r' addr bits' -> bits' <= bits.

(** Rules that differ have different targets. *)
Definition rules_ok (rules : list Rule) : Prop :=
  (forall r, r ∈ rules -> target_ok (rl_Target r)) /\ (forall a b, a ∈ rules -> b ∈ rules -> rl_Target a = rl_Target b -> a = b).

Lemma longest_match_unique rules addr a b : rules_ok rules -> longest_match rules addr a -> longest_match rules addr b -> a = b.
Proof.
  intros [Hok Hinj] (Ha & na & Ca & Ma) (Hb & nb & Cb & Mb). apply Hinj; [done | done|].
  assert (na = nb) as -> by (specialize (Ma b nb Hb Cb); specialize (Mb a na Ha Ca); lia).
  by apply (covers_eq a b addr nb); [apply Hok | apply Hok | |].
Qed.

Lemma longest_iff rules addr r : rules_ok rules -> longest rules addr None (-1) = Some r <-> longest_match rules addr r.
Proof.
  intros Hok. assert (Hall : Forall (fun r => target_ok (rl_Target r)) rules) by (apply Forall_forall; apply Hok).
  split.
  - intros H. apply longest_spec in H as (bits & Hc & _ & [Hin|] & Hmax); try done. split; [done|]. by exists bits.
  - intros Hm. destruct (longest rules addr None (-1)) as [r'|] eqn:E.
    + f_equal. apply (longest_match_unique rules addr); [done | | done].
      apply longest_spec in E as (bits & Hc & _ & [Hin|] & Hmax); try done. split; [done|]. by exists bits.
    + apply longest_None in E as [_ Hn]; try done. destruct Hm as (Hin & bits & Hc & _). by destruct (Hn r bits Hin).
Qed.

Lemma values_ok e : engine_ok e -> rules_ok (snd <$> map_to_list (en_rules e)).
Proof.
  intros (Hr & _ & _). assert (H : forall r, r ∈ snd <$> map_to_list (en_rules e) -> exists k, en_rules e !! k = Some r).
  { intros r ([k r'] & -> & Hin)%list_elem_of_fmap. exists k. by apply elem_of_map_to_list. }
  split.
  - intros r (k & Hk)%H. by apply Hr in Hk as (_ & ? & _).
  - intros a b (ka & Ha)%H (kb & Hb)%H E. apply Hr in Ha as Ra. apply Hr in Hb as Rb. destruct Ra as [<- _], Rb as [<- _].
    rewrite E in Ha. congruence.
Qed.

Lemma elem_of_values e r : r ∈ snd <$> map_to_list (en_rules e) <-> exists k, en_rules e !! k = Some r.
Proof.
  rewrite list_elem_of_fmap. split.
  - intros ([k r'] & -> & Hin). exists k. by apply elem_of_map_to_list.
  - intros [k Hk]. exists (k, r). split; [done | by apply elem_of_map_to_list].
Qed.

(** The rule that decides about a target: its own, else that of the longest prefix
    that contains it. *)
Definition governs (rules : gmap bytes Rule) (t : Target) (r : Rule) : Prop :=
  rules !! targetKey t = Some r
  \/ rules !! targetKey t = None /\ tg_Kind t = TargetIP
     /\ exists addr bits, tg_addr t = Some addr /\ (exists k, rules !! k = Some r) /\ covers r addr bits
        /\ forall k' r' bits', rules !! k' = Some r' -> covers r' addr bits' -> bits' <= bits.

Lemma matchLocked_governs e t r : engine_ok e -> target_ok t -> matchLocked e t = Some r <-> governs (en_rules e) t r.
Proof.
  intros He Ht. unfold matchLocked, governs. destruct (en_rules e !! targetKey t) as [x|] eqn:E; [naive_solver|].
  assert (Ha : tg_Kind t = TargetIP -> exists addr, tg_addr t = Some addr).
  { intros Hk. unfold target_ok in Ht. rewrite Hk in Ht. destruct Ht as (ip & _ & -> & _). by exists ip. }
  destruct (tg_Kind t); try naive_solver. destruct (Ha eq_refl) as [addr ->].
  rewrite longest_iff by (by apply values_ok). unfold longest_match. rewrite elem_of_values. split.
  - intros (Hk & bits & Hc & Hmax). right. split_and!; try done. exists addr, bits. split_and!; try done.
    intros k' r' bits' Hk' Hc'. apply (Hmax r'); [by apply elem_of_values; exists k' | done].
  - intros [|(_ & _ & addr' & bits & [= <-] & Hk & Hc & Hmax)]; [done|]. split; [done|]. exists bits. split; [done|].
    intros r' bits' (k' & Hk')%elem_of_values Hc'. by apply (Hmax k' r').
Qed.

(** ** The engine as a policy

    The abstract state is the action of each overridden target, by its key. *)
Definition policy (e : Engine) : gmap bytes Action := rl_Action <$> en_rules e.

Inductive op : Set :=
| OpSet (target : bytes) (action : Action) (now : Z)
| OpDelete (target : bytes)
| OpExplain (target : bytes).

Section Refinement.
Context {U : Unicode}.

Definition policy_op (p : gmap bytes Action) (o : op) : gmap bytes Action :=
  match o with
  | OpSet target action _ =>
      match ParseTarget target with Ok t => if effective action then <[targetKey t := action]> p else p | _ => p end
  | OpDelete target => match ParseTarget target with Ok t => delete (targetKey t) p | _ => p end
  | OpExplain _ => p
  end.

Definition run_op (e : Engine) (o : op) : Engine :=
  match o with
  | OpSet target action now => fst (SetRule target action now e)
  | OpDelete target => fst (DeleteRule target e)
  | OpExplain _ => e
  end.

(** The number of operations that changed the policy *)
Fixpoint changes (p : gmap bytes Action) (ops : list op) : Z :=
  match ops with
  | [] => 0
  | o :: ops => (if bool_decide (policy_op p o = p) then 0 else 1) + changes (policy_op p o) ops
  end.

Lemma ParseTarget_returns value : returns (ParseTarget value).
Proof.
  unfold ParseTarget, canonicalPrefix, normalizeDomain.
  repeat (match goal with |- context [if ?c then _ else _] => destruct c | |- context [match ?c with Some _ => _ | None => _ end] => destruct c end; cbn); exact I.
Qed.

Lemma effective_not_auto a : effective a = true -> a <> ActionAuto.
Proof. intros H ->. by vm_compute in H. Qed.

Lemma set_allowed a : negb (action_valid a) = false -> bool_decide (a = ActionAuto) = false -> effective a = true.
Proof. unfold action_valid. intros H1 H2. rewrite H2, orb_false_r in H1. by apply negb_false_iff in H1. Qed.

(** [SetRule], branch by branch. *)
Lemma SetRule_cases target action now e :
  match SetRule target action now e with
  | (e', Ok r) => exists t, ParseTarget target = Ok t /\ effective action = true /\
      ((exists x, en_rules e !! targetKey t = Some x /\
         ((rl_Action x = action /\ e' = e /\ r = x)
          \/ (rl_Action x <> action /\ r = rule_updated action now x /\ e' = with_rules (<[targetKey t := r]> (en_rules e)) (en_nextID e) e)))
       \/ en_rules e !! targetKey t = None /\ r = mkRule (u64 (en_nextID e + 1)) t action SourceManual now now
          /\ e' = with_rules (<[targetKey t := r]> (en_rules e)) (u64 (en_nextID e + 1)) e)
  | (e', Err err) => e' = e /\ (effective action = false /\ (err = ErrInvalidAction \/ err = ErrAutoRule)
       \/ effective action = true /\ ParseTarget target = Err err)
  | _ => False
  end.
Proof.
  unfold SetRule. destruct (negb (action_valid action)) eqn:E1.
  { cbn. split; [done|]. left. unfold action_valid in E1. apply negb_true_iff, orb_false_iff in E1 as [E1 _]. auto. }
  destruct (bool_decide_reflect (action = ActionAuto)) as [->|Hna].
  { cbn. split; [done|]. left. split; [by vm_compute | auto]. }
  assert (He : effective action = true) by (apply set_allowed; [done | by apply bool_decide_eq_false]).
  pose proof (ParseTarget_returns target) as Hret. unfold act_bind, act_lift, act_get.
  destruct (ParseTarget target) as [t|err| |] eqn:Ht; try done; [|by split; [|right]].
  destruct (en_rules e !! targetKey t) as [x|] eqn:Hx.
  - destruct (bool_decide_reflect (rl_Action x = action)) as [Ha|Ha]; cbn.
    + exists t. split_and!; try done. left. exists x. split; [done | by left].
    + exists t. split_and!; try done. left. exists x. split; [done | by right].
  - cbn. exists t. split_and!; try done. by right.
Qed.

Lemma DeleteRule_state target e :
  fst (DeleteRule target e) = match ParseTarget target with
    | Ok t => match en_rules e !! targetKey t with
              | Some _ => with_rules (delete (targetKey t) (en_rules e)) (en_nextID e) e
              | None => e
              end
    | _ => e
    end.
Proof.
  unfold DeleteRule, act_bind, act_lift, act_get. destruct (ParseTarget target) as [t|err| |]; try done.
  destruct (en_rules e !! targetKey t); cbn; done.
Qed.

Lemma u64_range x : uint_ok 64 (u64 x).
Proof. unfold u64, uint_ok. apply Z.mod_pos_bound. lia. Qed.

Lemma run_op_ok e o : engine_ok e -> engine_ok (run_op e o).
Proof.
  intros (Hr & Hd & Hg). destruct o as [target action now|target|target]; cbn [run_op]; [| |done].
  - pose proof (SetRule_cases target action now e) as H. destruct (SetRule target action now e) as [e' [r|err| |]]; try done.
    + destruct H as (t & Ht & Ha & [(x & Hx & [(_ & -> & _)|(Hne & -> & ->)])|(Hx & -> & ->)]); cbn [fst]; [done| |];
        (split_and!; [|done | apply u64_range]); cbn [en_rules with_rules]; apply map_Forall_insert_2; try done.
      * destruct (Hr _ _ Hx) as (H1 & H2 & H3 & H4). by split_and!.
      * split_and!; try done. by apply ParseTarget_ok in Ht.
    + by destruct H as [-> _].
  - rewrite DeleteRule_state. destruct (ParseTarget target) as [t|err| |]; try done. destruct (_ !! _); [|done].
    split_and!; [|done | apply u64_range]. cbn. by apply map_Forall_delete.
Qed.

(** One operation: the policy is updated as the abstract operation says, and the
    generation moves exactly when the policy does. *)
Lemma run_op_refines e o : engine_ok e ->
  policy (run_op e o) = policy_op (policy e) o
  /\ en_generation (run_op e o) = u64 (en_generation e + if bool_decide (policy_op (policy e) o = policy e) then 0 else 1).
Proof.
  intros (Hr & Hd & Hg). assert (Hsame : en_generation e = u64 (en_generation e + 0)) by (rewrite Z.add_0_r; symmetry; by apply Z.mod_small).
  destruct o as [target action now|target|target]; cbn [run_op policy_op].
  - pose proof (SetRule_cases target action now e) as H. destruct (SetRule target action now e) as [e' [r|err| |]]; try done.
    + destruct H as (t & -> & -> & [(x & Hx & [(<- & -> & _)|(Hne & -> & ->)])|(Hx & -> & ->)]); cbn [fst].
      * assert (E : <[targetKey t := rl_Action x]> (policy e) = policy e) by (apply insert_id; unfold policy; by rewrite lookup_fmap, Hx).
        rewrite E, bool_decide_true by done. done.
      * split; [unfold policy, with_rules; cbn; by rewrite fmap_insert|]. rewrite bool_decide_false; [done|].
        intros E. apply (f_equal (lookup (targetKey t))) in E. unfold policy in E. rewrite lookup_insert_eq, lookup_fmap, Hx in E. cbn in E. congruence.
      * split; [unfold policy, with_rules; cbn; by rewrite fmap_insert|]. rewrite bool_decide_false; [done|].
        intros E. apply (f_equal (lookup (targetKey t))) in E. unfold policy in E. rewrite lookup_insert_eq, lookup_fmap, Hx in E. done.
    + destruct H as [-> [[-> _]|[_ ->]]]; cbn [fst]; [destruct (ParseTarget target)|]; by rewrite bool_decide_true.
  - rewrite DeleteRule_state. destruct (ParseTarget target) as [t|err| |]; try by rewrite bool_decide_true.
    destruct (en_rules e !! targetKey t) as [x|] eqn:Hx.
    + split; [unfold policy, with_rules; cbn; by rewrite fmap_delete|]. rewrite bool_decide_false; [done|].
      intros E. apply (f_equal (lookup (targetKey t))) in E. unfold policy in E. rewrite lookup_delete_eq, lookup_fmap, Hx in E. done.
    + assert (E : delete (targetKey t) (policy e) = policy e) by (apply delete_id; unfold policy; by rewrite lookup_fmap, Hx).
      rewrite E, bool_decide_true by done. done.
  - by rewrite bool_decide_true.
Qed.
End Refinement.

(** ** Listing *)
Definition rule_before (a b : Rule) : Prop := lt_rule a b = true.

Lemma kind_string_inj k k' : kind_string k = kind_string k' -> k = k'.
Proof. by destruct k, k'. Qed.

Lemma lt_rule_trans a b c : lt_rule a b = true -> lt_rule b c = true -> lt_rule a c = true.
Proof.
  unfold lt_rule. set (ka := kind_string (tg_Kind (rl_Target a))). set (kb := kind_string (tg_Kind (rl_Target b))).
  set (kc := kind_string (tg_Kind (rl_Target c))).
  destruct (bool_decide_reflect (ka = kb)) as [Hab|], (bool_decide_reflect (kb = kc)) as [Hbc|], (bool_decide_reflect (ka = kc)) as [Hac|]; intros H1 H2;
    try congruence; rewrite ?Hab, ?Hbc in *; try done; try (by eapply strings_lt_trans).
  exfalso. pose proof (strings_lt_trans _ _ _ H1 H2) as H. rewrite Hac, strings_lt_irrefl in H. done.
Qed.

Lemma lt_rule_total a b : targetKey (rl_Target a) <> targetKey (rl_Target b) -> rule_before a b \/ rule_before b a.
Proof.
  intros Hne. unfold rule_before, lt_rule. destruct (bool_decide_reflect (kind_string (tg_Kind (rl_Target a)) = kind_string (tg_Kind (rl_Target b)))) as [Hk|Hk].
  - rewrite bool_decide_true by done. destruct (strings_lt_total (tg_Value (rl_Target a)) (tg_Value (rl_Target b))) as [H|[H|H]]; auto.
    exfalso. apply Hne. unfold targetKey. by rewrite Hk, H.
  - rewrite bool_decide_false by congruence. destruct (strings_lt_total (kind_string (tg_Kind (rl_Target a))) (kind_string (tg_Kind (rl_Target b)))) as [H|[H|H]]; auto.
Qed.

(** [List] shows every rule once, in strictly increasing order. *)
Lemma List_spec e : map_Forall rule_ok (en_rules e) ->
  List e ≡ₚ (snd <$> map_to_list (en_rules e)) /\ StronglySorted rule_before (List e).
Proof.
  intros Hr. split; [apply sort_by_perm|]. apply sort_by_sorted; [apply lt_rule_trans|].
  assert (Hnd : NoDup (map_to_list (en_rules e)).*1) by apply NoDup_fst_map_to_list.
  assert (Hall : Forall (fun kr => targetKey (rl_Target kr.2) = kr.1) (map_to_list (en_rules e))).
  { apply Forall_forall. intros [k r] Hin%elem_of_map_to_list. by destruct (Hr _ _ Hin) as [H _]. }
  revert Hnd Hall. generalize (map_to_list (en_rules e)) as l. induction l as [|[k r] l IH]; intros Hnd Hall; cbn; [constructor|].
  apply NoDup_cons in Hnd as [Hk Hnd]. apply Forall_cons in Hall as [Hkr Hall]. cbn in Hkr. constructor; [|by apply IH].
  apply Forall_forall. intros r' ([k' r''] & -> & Hin)%list_elem_of_fmap. apply lt_rule_total. rewrite Hkr.
  rewrite Forall_forall in Hall. specialize (Hall _ Hin). cbn in *. rewrite Hall. intros ->. apply Hk. apply list_elem_of_fmap. by exists (k', r'').
Qed.

(** ** Histories *)
Definition ids_ok (e : Engine) : Prop :=
  0 <= en_nextID e /\ map_Forall (fun _ r => 1 <= rl_ID r <= en_nextID e) (en_rules e)
  /\ forall k k' r r', en_rules e !! k = Some r -> en_rules e !! k' = Some r' -> rl_ID r = rl_ID r' -> k = k'.

(** The options the package offers *)
Inductive package_option : option Option_ -> Prop :=
| option_nil : package_option None
| option_decider d : package_option (Some (WithAutoDecider d))
| option_default a : package_option (Some (WithDefaultAction a)).

Lemma NewEngine_ok options : Forall package_option options ->
  engine_ok (NewEngine options) /\ ids_ok (NewEngine options) /\ en_rules (NewEngine options) = ∅ /\ en_generation (NewEngine options) = 0
  /\ en_nextID (NewEngine options) = 0.
Proof.
  intros H. unfold NewEngine.
  assert (Hinit : effective (en_defaultAction (mkEngine ∅ 0 0 ActionTunnel None)) = true) by (by vm_compute).
  assert (He : forall e, effective (en_defaultAction e) = true -> en_rules e = ∅ -> en_generation e = 0 -> en_nextID e = 0 ->
    let e' := fold_left (fun e o => match o with Some option => option e | None => e end) options e in
    effective (en_defaultAction e') = true /\ en_rules e' = ∅ /\ en_generation e' = 0 /\ en_nextID e' = 0).
  { induction H as [|o options Ho H IH]; intros e Hd Hr Hg Hn; cbn; [done|]. apply IH; destruct Ho as [|[d|]|a]; cbn; try done;
      unfold WithDefaultAction; destruct (effective a) eqn:E; done. }
  destruct (He _ Hinit eq_refl eq_refl eq_refl) as (Hd & Hr & Hg & Hn).
  unfold engine_ok, ids_ok. rewrite Hr, Hg, Hn. split_and!; try done; try lia; apply map_Forall_empty.
Qed.

Section Histories.
Context {U : Unicode}.

Lemma run_op_ids e o : ids_ok e -> en_nextID e + 1 < 2 ^ 64 -> ids_ok (run_op e o) /\ en_nextID (run_op e o) <= en_nextID e + 1.
Proof.
  intros (Hn & Hall & Hinj) Hlt. destruct o as [target action now|target|target]; cbn [run_op].
  - pose proof (SetRule_cases target action now e) as H. destruct (SetRule target action now e) as [e' [r|err| |]]; try done; cbn [fst].
    + destruct H as (t & _ & _ & [(x & Hx & [(_ & -> & _)|(_ & -> & ->)])|(Hx & -> & ->)]).
      * split; [by split_and! | lia].
      * split; [|cbn; lia]. split_and!; [done | |].
        -- cbn. apply map_Forall_insert_2; [by apply (Hall _ _ Hx) | done].
        -- cbn. intros k k' y y' Hk Hk' E. apply lookup_insert_Some in Hk as [[<- <-]|[Hne Hk]], Hk' as [[<- <-]|[Hne' Hk']]; try done; cbn in E; eauto.
      * unfold u64. rewrite Z.mod_small by lia. split; [|cbn; lia]. split_and!; cbn.
        -- lia.
        -- apply map_Forall_insert_2; [cbn; lia|]. eapply map_Forall_impl; [exact Hall|]. cbn. intros _ y Hy. lia.
        -- intros k k' y y' Hk Hk' E. apply lookup_insert_Some in Hk as [[<- <-]|[Hne Hk]], Hk' as [[<- <-]|[Hne' Hk']]; try done; cbn in E; eauto.
           ++ apply Hall in Hk'. lia.
           ++ apply Hall in Hk. lia.
    + destruct H as [-> _]. split; [by split_and! | lia].
  - rewrite DeleteRule_state. destruct (ParseTarget target) as [t|err| |]; try (split; [by split_and! | lia]).
    destruct (_ !! _); [|split; [by split_and! | lia]]. split; [|cbn; lia]. split_and!; cbn; [done | by apply map_Forall_delete|].
    intros k k' y y' [_ Hk]%lookup_delete_Some [_ Hk']%lookup_delete_Some. eauto.
  - split; [by split_and! | lia].
Qed.

Definition run_ops (e : Engine) (ops : list op) : Engine := fold_left run_op ops e.

Lemma run_ops_ok ops : forall e, engine_ok e ->
  engine_ok (run_ops e ops) /\ policy (run_ops e ops) = fold_left policy_op ops (policy e)
  /\ en_generation (run_ops e ops) = u64 (en_generation e + changes (policy e) ops).
Proof.
  induction ops as [|o ops IH]; intros e He; cbn [run_ops fold_left changes].
  - split_and!; try done. rewrite Z.add_0_r. symmetry. apply Z.mod_small. apply He.
  - destruct (run_op_refines e o He) as [Hp Hg]. destruct (IH (run_op e o) (run_op_ok e o He)) as (H1 & H2 & H3).
    fold (run_ops (run_op e o) ops). rewrite H2, H3, Hp, Hg. split_and!; try done. unfold u64. rewrite Z.add_mod_idemp_l by lia. f_equal. lia.
Qed.

Lemma run_ops_ids ops : forall e, ids_ok e -> en_nextID e + len ops < 2 ^ 64 -> ids_ok (run_ops e ops).
Proof.
  induction ops as [|o ops IH]; intros e He Hlt; [done|]. cbn [run_ops fold_left]. rewrite len_cons in Hlt. pose proof (len_nonneg ops).
  destruct (run_op_ids e o He ltac:(lia)) as [H1 H2]. apply IH; [done | lia].
Qed.

(** C16: Canonical texts.  A target that the parser accepts is a fixed point: parsing
    its text again gives the same target, so what is listed or persisted can be fed
    back to the engine.  The one exception is a domain of four numbers (written with
    a final dot, which the canonical text drops): its text is read as an address. *)
Theorem target_texts_canonical value t :
  ParseTarget value = Ok t ->
  ParseTarget (tg_Value t) = Ok t
  \/ tg_Kind t = TargetDomain /\ exists b, ParseAddr (tg_Value t) = Some (Addr4 b) /\ ParseTarget (tg_Value t) = Ok (ip_target (Addr4 b)).
Proof. intros H%ParseTarget_ok. by apply ParseTarget_canonical. Qed.

(** C14: The engine implements an abstract policy, a finite map from targets to
    actions.  After any sequence of operations the stored rules are those of the
    policy, canonical and with concrete actions, and [List] shows each of them once,
    strictly sorted by kind and text; the generation is the number of
    operations that changed the policy, modulo 2^64; and in fewer than 2^64
    operations no two rules get the same identifier. *)
Theorem routing_refines_policy options ops :
  Forall package_option options -> len ops < 2 ^ 64 ->
  let e := run_ops (NewEngine options) ops in
  policy e = fold_left policy_op ops ∅ /\ Generation e = u64 (changes ∅ ops) /\ engine_ok e /\ ids_ok e
  /\ List e ≡ₚ (snd <$> map_to_list (en_rules e)) /\ StronglySorted rule_before (List e).
Proof.
  intros Ho Hlen. destruct (NewEngine_ok options Ho) as (He & Hids & Hr & Hg & Hn).
  destruct (run_ops_ok ops _ He) as (H1 & H2 & H3). cbv zeta. unfold Generation.
  assert (Hp : policy (NewEngine options) = ∅) by (unfold policy; by rewrite Hr, fmap_empty). rewrite H2, H3, Hp, Hg.
  pose proof (List_spec _ (proj1 H1)) as [HL1 HL2]. split_and!; try done. apply run_ops_ids; [done | lia].
Qed.

Lemma Explain_decides e value t : engine_ok e -> ParseTarget value = Ok t ->
  exists d, Explain e value = Ok d /\ dc_Target d = t /\ dc_Generation d = Generation e /\ effective (dc_EffectiveAction d) = true
    /\ match dc_MatchedRule d with
       | Some r => governs (en_rules e) t r /\ dc_Action d = rl_Action r /\ dc_EffectiveAction d = rl_Action r /\ dc_Source d = SourceManual
       | None => (forall r, ~ governs (en_rules e) t r) /\ dc_Action d = ActionAuto /\ dc_Source d = SourceAutomatic
           /\ dc_EffectiveAction d = match en_decider e with
                | Some decide => if effective (fst (decide t)) then fst (decide t) else en_defaultAction e
                | None => en_defaultAction e
                end
       end.
Proof.
  intros He Ht. pose proof (ParseTarget_ok value t Ht) as Hok.
  unfold Explain. rewrite Ht. cbn [obind]. destruct (matchLocked e t) as [r|] eqn:Hm.
  - apply matchLocked_governs in Hm as Hg; [|done|done]. eexists. split; [done|]. cbn. split_and!; try done.
    destruct He as (Hr & _ & _). destruct Hg as [Hk|(_ & _ & _ & _ & _ & [k Hk] & _)]; by destruct (Hr _ _ Hk) as (_ & _ & ? & _).
  - destruct (automatic t (en_decider e) (en_defaultAction e)) as [action reason] eqn:Ha. eexists. split; [done|]. cbn.
    assert (Hact : action = match en_decider e with Some decide => if effective (fst (decide t)) then fst (decide t) else en_defaultAction e
                            | None => en_defaultAction e end /\ effective action = true).
    { destruct He as (_ & Hd & _). unfold automatic in Ha. destruct (en_decider e) as [decide|]; [|by injection Ha as <- <-].
      destruct (decide t) as [c r]; cbn [fst]. destruct (effective c) eqn:Ec; by injection Ha as <- <-. }
    destruct Hact as [Hact Heff]. split_and!; try done. intros r Hg. apply matchLocked_governs in Hg; [|done|done]. congruence.
Qed.

End Histories.

(** ** Concrete engines *)
Section Witnesses.
#[local] Existing Instance ascii_only.

Lemma target_texts_canonical_witness :
  ParseTarget (lit " 10.1.2.3/8 ") = Ok (cidr_target (mkPrefix (Addr4 [10; 0; 0; 0]) 8))
  /\ ParseTarget (lit "10.0.0.0/8") = Ok (cidr_target (mkPrefix (Addr4 [10; 0; 0; 0]) 8)).
Proof.
  assert (H : ParseTarget (lit " 10.1.2.3/8 ") = Ok (cidr_target (mkPrefix (Addr4 [10; 0; 0; 0]) 8))) by (vm_compute; reflexivity).
  split; [exact H|]. destruct (target_texts_canonical _ _ H) as [H' | [H' _]]; [exact H' | discriminate H'].
Defined.

Definition demo_ops : list op :=
  [OpSet (lit "10.0.0.0/8") ActionDirect 1; OpSet (lit "10.1.0.0/16") ActionBlock 2; OpSet (lit "Example.com.") ActionTunnel 3;
   OpSet (lit "10.1.0.0/16") ActionBlock 4; OpDelete (lit "example.com"); OpExplain (lit "10.1.2.3")].

Lemma routing_refines_policy_witness :
  Forall package_option [None; Some (WithDefaultAction ActionDirect)] /\ len demo_ops < 2 ^ 64
  /\ Generation (run_ops (NewEngine [None; Some (WithDefaultAction ActionDirect)]) demo_ops) = 4.
Proof.
  assert (H1 : Forall package_option [None; Some (WithDefaultAction ActionDirect)]) by (repeat constructor).
  assert (H2 : len demo_ops < 2 ^ 64) by (vm_compute; reflexivity). split; [exact H1|]. split; [exact H2|].
  rewrite (proj1 (proj2 (routing_refines_policy _ _ H1 H2))). vm_compute. reflexivity.
Defined.


Example explain_longest :
  (fun d => (dc_EffectiveAction d, dc_Reason d)) <$> match Explain (run_ops (NewEngine []) demo_ops) (lit "10.1.2.3") with Ok d => Some d | _ => None end
  = Some (ActionBlock, lit "manual CIDR override 10.1.0.0/16 matched by longest prefix").
Proof. vm_compute. reflexivity. Qed.

(** The exception of the canonical texts: the rule that [SetRule] stores for
    [1.2.3.4.] is listed as the domain [1.2.3.4]; deleting what is listed addresses
    another target and leaves the rule in place. *)
Theorem numeric_domain_not_deleted :
  let '(e, r) := SetRule (lit "1.2.3.4.") ActionBlock 7 (NewEngine []) in
  (fun r => (tg_Kind (rl_Target r), tg_Value (rl_Target r))) <$> List e = [(TargetDomain, lit "1.2.3.4")]
  /\ fst (DeleteRule (lit "1.2.3.4") e) = e
  /\ ParseTarget (lit "1.2.3.4") = Ok (ip_target (Addr4 [1; 2; 3; 4])).
Proof. vm_compute. split; [|split]; reflexivity. Qed.
End Witnesses.
