(* ===== verification/PrivateDns.v ===== *)
(** * The private DNS manager (internal/privatedns/manager.go)

    The manager's copy of the resolver configuration and its private cache.  Values
    are copied on the way in and out, so a value stands for a Go slice or map of its
    own.  A clock reading is an argument, a time an integer with zero time 0; adding
    a duration does not overflow.  A snapshot source is what [ReadSnapshot]
    returns, a snapshot or the text of an error.  Theorems: a lookup answers with the latest store of the history that
    is neither expired nor from before the last refresh, and a failed refresh keeps
    snapshot and cache. *)

From stdpp Require Import base strings numbers gmap list fin_maps.
From S2P Require Import Prelude CodecErrors Frame GoStrings.
Local Open Scope Z_scope.
Local Open Scope wg_scope.

Record Upstream : Set := mkUpstream {
  us_Address : bytes;
  us_Port : Z;
  us_Transport : bytes;
  us_InterfaceName : bytes;
  us_InterfaceIndex : Z;
  us_Scope : bytes
}.
#[global] Instance Upstream_eq_dec : EqDecision Upstream.
Proof. solve_decision. Defined.

(** [sn_Metadata] is [None] for a nil map. *)
Record Snapshot : Set := mkSnapshot {
  sn_CapturedAt : Z;
  sn_NetworkGeneration : Z;
  sn_Upstreams : list Upstream;
  sn_SearchDomains : list bytes;
  sn_RoutingDomains : list bytes;
  sn_Metadata : option (gmap bytes bytes)
}.

Record CacheKey : Set := mkCacheKey { ck_Name : bytes; ck_Type : Z; ck_Class : Z }.
#[global] Instance CacheKey_eq_dec : EqDecision CacheKey.
Proof. solve_decision. Defined.
#[global] Instance CacheKey_countable : Countable CacheKey.
Proof.
  apply (inj_countable' (fun k => (ck_Name k, ck_Type k, ck_Class k)) (fun '(n, t, c) => mkCacheKey n t c)). by intros [].
Defined.

Record CacheRecord : Set := mkCacheRecord {
  cr_Values : list bytes;
  cr_StoredAt : Z;
  cr_ExpiresAt : Z;
  cr_Generation : Z
}.
#[global] Instance CacheRecord_eq_dec : EqDecision CacheRecord.
Proof. solve_decision. Defined.

Record CacheStats : Set := mkCacheStats {
  cs_Entries : Z; cs_Stores : Z; cs_Hits : Z; cs_Misses : Z; cs_Expired : Z
}.
Record DnsStatus : Set := mkDnsStatus {
  st_Generation : Z;
  st_NetworkGeneration : Z;
  st_RefreshedAt : Z;
  st_UpstreamCount : Z;
  st_SearchDomainCount : Z;
  st_RoutingDomainCount : Z;
  st_Degraded : bool;
  st_LastError : bytes;
  st_Cache : CacheStats
}.

Record Manager : Set := mkManager {
  mg_snapshot : Snapshot;
  mg_generation : Z;
  mg_refreshedAt : Z;
  mg_degraded : bool;
  mg_lastError : bytes;
  mg_cache : gmap CacheKey CacheRecord;
  mg_stores : Z;
  mg_hits : Z;
  mg_misses : Z;
  mg_expired : Z
}.

Inductive DnsErr : Set := ErrEmptyName | ErrBadTTL | ErrNilSource | ErrRead (text : bytes).

(** [Error()] *)
Definition dns_error_text (e : DnsErr) : bytes :=
  match e with
  | ErrEmptyName => lit "privatedns: empty cache name"
  | ErrBadTTL => lit "privatedns: TTL must be positive"
  | ErrNilSource => lit "privatedns: nil snapshot source"
  | ErrRead text => text
  end.

Definition cloneSnapshot (s : Snapshot) : Snapshot :=
  mkSnapshot (sn_CapturedAt s) (sn_NetworkGeneration s) ([] ++ sn_Upstreams s) ([] ++ sn_SearchDomains s) ([] ++ sn_RoutingDomains s)
    (match sn_Metadata s with Some m => Some (map_fold (fun k v copy => <[k := v]> copy) ∅ m) | None => None end).
Definition cloneRecord (r : CacheRecord) : CacheRecord :=
  mkCacheRecord ([] ++ cr_Values r) (cr_StoredAt r) (cr_ExpiresAt r) (cr_Generation r).

(** A snapshot without a capture time gets the time of its arrival. *)
Definition stamped (at_ : Z) (s : Snapshot) : Snapshot :=
  if sn_CapturedAt s =? 0
  then mkSnapshot at_ (sn_NetworkGeneration s) (sn_Upstreams s) (sn_SearchDomains s) (sn_RoutingDomains s) (sn_Metadata s)
  else s.

Definition with_health (degraded : bool) (lastError : bytes) (m : Manager) : Manager :=
  mkManager (mg_snapshot m) (mg_generation m) (mg_refreshedAt m) degraded lastError (mg_cache m)
    (mg_stores m) (mg_hits m) (mg_misses m) (mg_expired m).
Definition with_cache (cache : gmap CacheKey CacheRecord) (stores hits misses expired : Z) (m : Manager) : Manager :=
  mkManager (mg_snapshot m) (mg_generation m) (mg_refreshedAt m) (mg_degraded m) (mg_lastError m) cache
    (u64 (mg_stores m + stores)) (u64 (mg_hits m + hits)) (u64 (mg_misses m + misses)) (u64 (mg_expired m + expired)).

Definition updateHealthLocked (lastError : bytes) (m : Manager) : Manager :=
  let degraded := len (sn_Upstreams (mg_snapshot m)) =? 0 in
  with_health degraded
    (if degraded && bool_decide (lastError = []) then lit "no resolver upstreams available in the copied snapshot" else lastError) m.

Definition newManager (initial : Snapshot) (now : Z) : Manager :=
  updateHealthLocked [] (mkManager (stamped now (cloneSnapshot initial)) 1 now false [] ∅ 0 0 0 0).

Definition cacheStatsLocked (m : Manager) : CacheStats :=
  mkCacheStats (u64 (Z.of_nat (size (mg_cache m)))) (mg_stores m) (mg_hits m) (mg_misses m) (mg_expired m).
Definition statusLocked (m : Manager) : DnsStatus :=
  mkDnsStatus (mg_generation m) (sn_NetworkGeneration (mg_snapshot m)) (mg_refreshedAt m) (len (sn_Upstreams (mg_snapshot m)))
    (len (sn_SearchDomains (mg_snapshot m))) (len (sn_RoutingDomains (mg_snapshot m))) (mg_degraded m) (mg_lastError m) (cacheStatsLocked m).

Definition Manager_Status (m : Manager) : DnsStatus := statusLocked m.
Definition Manager_CacheStats (m : Manager) : CacheStats := cacheStatsLocked m.
Definition Manager_Snapshot (m : Manager) : Snapshot := cloneSnapshot (mg_snapshot m).

Definition Refresh (next : Snapshot) (now : Z) : act Manager DnsErr DnsStatus := fun m =>
  let m := updateHealthLocked []
    (mkManager (stamped now (cloneSnapshot next)) (u64 (mg_generation m + 1)) now (mg_degraded m) (mg_lastError m) ∅
       (mg_stores m) (mg_hits m) (mg_misses m) (mg_expired m)) in
  (m, Ok (statusLocked m)).

Definition recordRefreshError (err : DnsErr) (m : Manager) : Manager := with_health true (dns_error_text err) m.

(** Both results of [RefreshFrom]: the status and the error. *)
Definition RefreshFrom (source : option (Snapshot + bytes)) (now : Z) (m : Manager) : Manager * (DnsStatus * option DnsErr) :=
  match source with
  | None => let m := recordRefreshError ErrNilSource m in (m, (statusLocked m, Some ErrNilSource))
  | Some (inl next) =>
      let '(m, _) := Refresh next now m in (m, (statusLocked m, None))
  | Some (inr text) => let m := recordRefreshError (ErrRead text) m in (m, (statusLocked m, Some (ErrRead text)))
  end.

Section Cache.
Context {U : Unicode}.

Definition normalizeCacheKey (key : CacheKey) : outcome DnsErr CacheKey :=
  let name := TrimSuffix (ToLower (TrimSpace (ck_Name key))) [46] in
  if bool_decide (name = []) then Err ErrEmptyName
  else Ok (mkCacheKey name (ck_Type key) (if ck_Class key =? 0 then 1 else ck_Class key)).

Definition Put (key : CacheKey) (values : list bytes) (ttl now : Z) : act Manager DnsErr unit :=
  let! normalized := act_lift (normalizeCacheKey key) in
  if ttl <=? 0 then act_fail ErrBadTTL
  else
    let! m := act_get in
    act_set (with_cache (<[normalized := mkCacheRecord ([] ++ values) now (now + ttl) (mg_generation m)]> (mg_cache m)) 1 0 0 0).

Definition Lookup (key : CacheKey) (now : Z) (m : Manager) : Manager * option CacheRecord :=
  match normalizeCacheKey key with
  | Ok normalized =>
      match mg_cache m !! normalized with
      | None => (with_cache (mg_cache m) 0 0 1 0 m, None)
      | Some record =>
          if negb (cr_Generation record =? mg_generation m) then (with_cache (mg_cache m) 0 0 1 0 m, None)
          else if negb (now <? cr_ExpiresAt record) then (with_cache (delete normalized (mg_cache m)) 0 0 1 1 m, None)
          else (with_cache (mg_cache m) 0 1 0 0 m, Some (cloneRecord record))
      end
  | _ => (with_cache (mg_cache m) 0 0 1 0 m, None)
  end.
End Cache.

(** [PurgeExpired]: deleting while ranging over the map visits every entry once. *)
Definition stale (m : Manager) (now : Z) (r : CacheRecord) : bool :=
  negb (cr_Generation r =? mg_generation m) || negb (now <? cr_ExpiresAt r).
Definition PurgeExpired (now : Z) (m : Manager) : Manager * Z :=
  let removed := Z.of_nat (size (filter (fun '(_, r) => stale m now r = true) (mg_cache m))) in
  (with_cache (filter (fun '(_, r) => stale m now r = false) (mg_cache m)) 0 0 0 removed m, removed).

Definition ClearCache (m : Manager) : Manager :=
  mkManager (mg_snapshot m) (mg_generation m) (mg_refreshedAt m) (mg_degraded m) (mg_lastError m) ∅
    (mg_stores m) (mg_hits m) (mg_misses m) (mg_expired m).

(** ** Histories *)
Inductive event : Set :=
| EvPut (key : CacheKey) (values : list bytes) (ttl now : Z)
| EvLookup (key : CacheKey) (now : Z)
| EvPurge (now : Z)
| EvRefresh (source : option (Snapshot + bytes)) (now : Z)
| EvClear.

Definition event_time (ev : event) : option Z :=
  match ev with
  | EvPut _ _ _ now | EvLookup _ now | EvPurge now | EvRefresh _ now => Some now
  | EvClear => None
  end.

Section Histories.
Context {U : Unicode}.

Definition run_event (m : Manager) (ev : event) : Manager :=
  match ev with
  | EvPut key values ttl now => fst (Put key values ttl now m)
  | EvLookup key now => fst (Lookup key now m)
  | EvPurge now => fst (PurgeExpired now m)
  | EvRefresh source now => fst (RefreshFrom source now m)
  | EvClear => ClearCache m
  end.

(** Every clock reading is at least the one before it; [t] bounds them. *)
Fixpoint monotone (t0 : Z) (evs : list event) (t : Z) : Prop :=
  match evs with
  | [] => t0 <= t
  | ev :: evs =>
      match event_time ev with
      | Some now => t0 <= now /\ monotone now evs t
      | None => monotone t0 evs t
      end
  end.

(** What the store of a history (newest event last) says about a key: the values and
    the times of the last store since the last refresh or clearing. *)
Definition stored_by (k : CacheKey) (ev : event) (before : option (list bytes * Z * Z)) : option (list bytes * Z * Z) :=
  match ev with
  | EvPut key values ttl now =>
      match normalizeCacheKey key with
      | Ok key => if bool_decide (key = k) && (0 <? ttl) then Some (values, now, now + ttl) else before
      | _ => before
      end
  | EvRefresh (Some (inl _)) _ | EvClear => None
  | _ => before
  end.
Definition last_store (k : CacheKey) (evs : list event) : option (list bytes * Z * Z) :=
  fold_left (fun before ev => stored_by k ev before) evs None.

(** The number of events of a history *)
Definition accepted_put (ev : event) : bool :=
  match ev with
  | EvPut key _ ttl _ => match normalizeCacheKey key with Ok _ => 0 <? ttl | _ => false end
  | _ => false
  end.
Definition is_lookup (ev : event) : bool := match ev with EvLookup _ _ => true | _ => false end.
Definition is_refresh (ev : event) : bool := match ev with EvRefresh (Some (inl _)) _ => true | _ => false end.
Definition count (p : event -> bool) (evs : list event) : Z := Z.of_nat (length (filter (fun ev => p ev = true) evs)).

(** Cache entries are of the current generation and among the last stores; what is
    missing has expired by [t]. *)
Definition cache_ok (m : Manager) (last : CacheKey -> option (list bytes * Z * Z)) (t : Z) : Prop :=
  forall k, match mg_cache m !! k with
  | Some r => last k = Some (cr_Values r, cr_StoredAt r, cr_ExpiresAt r) /\ cr_Generation r = mg_generation m
  | None => match last k with Some (_, _, expires) => expires <= t | None => True end
  end.

Lemma cache_ok_later m last t t' : cache_ok m last t -> t <= t' -> cache_ok m last t'.
Proof. intros H Ht k. specialize (H k). destruct (mg_cache m !! k); [done|]. destruct (last k) as [[[? ?] ?]|]; [lia | done]. Qed.

Lemma normalizeCacheKey_returns key : returns (normalizeCacheKey key).
Proof. unfold normalizeCacheKey. by destruct (bool_decide _). Qed.

Lemma run_event_ok m ev last t0 t : cache_ok m last t0 -> t0 <= t -> match event_time ev with Some now => now = t | None => True end ->
  cache_ok (run_event m ev) (fun k => stored_by k ev (last k)) t.
Proof.
  intros H Ht Hnow. apply (cache_ok_later _ _ _ t) in H; [|done]. destruct ev as [key values ttl now|key now|now|source now|]; cbn in Hnow; try subst now.
  - cbn [run_event]. unfold Put, act_bind, act_lift, act_get. pose proof (normalizeCacheKey_returns key) as Hret. intros k. cbn [stored_by]. specialize (H k).
    destruct (normalizeCacheKey key) as [key'|err| |]; try done.
    destruct (Z.leb_spec ttl 0).
    + replace (0 <? ttl) with false by (symmetry; lia). rewrite andb_false_r. exact H.
    + replace (0 <? ttl) with true by (symmetry; lia). rewrite andb_true_r. cbn. destruct (bool_decide_reflect (key' = k)) as [->|Hne].
      * by rewrite lookup_insert_eq.
      * by rewrite lookup_insert_ne.
  - cbn [run_event]. unfold Lookup. destruct (normalizeCacheKey key) as [key'|err| |]; try exact H.
    destruct (mg_cache m !! key') as [r|] eqn:Hr; [|exact H]. destruct (negb _); [exact H|].
    destruct (Z.ltb_spec t (cr_ExpiresAt r)); [exact H|]. intros k. cbn. specialize (H k).
    destruct (decide (key' = k)) as [<-|Hne]; [|by rewrite lookup_delete_ne]. rewrite lookup_delete_eq. rewrite Hr in H. destruct H as [-> _]. done.
  - intros k. specialize (H k). cbn. rewrite map_lookup_filter. destruct (mg_cache m !! k) as [r|] eqn:Hr; [|done].
    destruct H as [Hl Hg]. cbn. destruct (stale m t r) eqn:Hs.
    + rewrite option_guard_False by done. unfold stale in Hs. rewrite Hg, Z.eqb_refl in Hs. cbn in Hs. rewrite Hl. cbn. lia.
    + by rewrite option_guard_True.
  - destruct source as [[next|text]|]; try exact H. intros k. cbn. by rewrite lookup_empty.
  - intros k. cbn. by rewrite lookup_empty.
Qed.

Lemma run_events_ok evs : forall m last t0 t,
  cache_ok m last t0 -> monotone t0 evs t ->
  cache_ok (fold_left run_event evs m) (fun k => fold_left (fun before ev => stored_by k ev before) evs (last k)) t.
Proof.
  induction evs as [|ev evs IH]; intros m last t0 t H Hm; cbn [fold_left]; [by eapply cache_ok_later|]. cbn [monotone] in Hm.
  destruct (event_time ev) as [now|] eqn:E.
  - destruct Hm as [H1 H2]. apply (IH _ (fun k => stored_by k ev (last k)) now); [|done]. eapply run_event_ok; [exact H | done | by rewrite E].
  - apply (IH _ (fun k => stored_by k ev (last k)) t0); [|done]. eapply run_event_ok; [exact H | done | by rewrite E].
Qed.

(** ** Counters *)
Definition counters_ok (m : Manager) : Prop :=
  uint_ok 64 (mg_generation m) /\ uint_ok 64 (mg_stores m) /\ uint_ok 64 (mg_hits m) /\ uint_ok 64 (mg_misses m).
Definition tick (p : event -> bool) (ev : event) : Z := if p ev then 1 else 0.

Lemma count_cons p ev evs : count p (ev :: evs) = tick p ev + count p evs.
Proof. unfold count, tick. rewrite filter_cons. destruct (p ev); cbn; [rewrite decide_True by done; cbn; lia | rewrite decide_False by done; lia]. Qed.

Lemma u64_fixed x : uint_ok 64 x -> u64 x = x.
Proof. apply Z.mod_small. Qed.

Lemma u64_ok x : uint_ok 64 (u64 x).
Proof. unfold u64, uint_ok. apply Z.mod_pos_bound. lia. Qed.

Lemma u64_add x y : u64 (u64 x + y) = u64 (x + y).
Proof. unfold u64. apply Z.add_mod_idemp_l. lia. Qed.

Lemma run_event_counters m ev : counters_ok m ->
  counters_ok (run_event m ev) /\ mg_generation (run_event m ev) = u64 (mg_generation m + tick is_refresh ev)
  /\ mg_stores (run_event m ev) = u64 (mg_stores m + tick accepted_put ev)
  /\ u64 (mg_hits (run_event m ev) + mg_misses (run_event m ev)) = u64 (mg_hits m + mg_misses m + tick is_lookup ev).
Proof.
  intros (Hg & Hs & Hh & Hm). pose proof u64_ok as Hok.
  assert (Hsame : forall x, uint_ok 64 x -> x = u64 (x + 0)) by (intros x Hx; by rewrite Z.add_0_r, u64_fixed).
  assert (Hmix : forall a b x y, u64 (u64 (x + a) + u64 (y + b)) = u64 (x + y + (a + b))).
  { intros. rewrite u64_add, Z.add_comm, u64_add. f_equal. lia. }
  unfold counters_ok, tick. destruct ev as [key values ttl now|key now|now|source now|]; cbn [run_event is_refresh accepted_put is_lookup].
  - unfold Put, act_bind, act_lift, act_get. destruct (normalizeCacheKey key) as [key'|err| |]; cbn; try by (rewrite ?Z.add_0_r; split_and!; auto; by rewrite u64_fixed).
    destruct (Z.leb_spec ttl 0); [replace (0 <? ttl) with false by (symmetry; lia) | replace (0 <? ttl) with true by (symmetry; lia)]; cbn.
    + rewrite ?Z.add_0_r; split_and!; auto; by rewrite u64_fixed.
    + split_and!; auto.
  - unfold Lookup. assert (H1 : forall c b, let m' := with_cache c 0 0 1 b m in
      (uint_ok 64 (mg_generation m') /\ uint_ok 64 (mg_stores m') /\ uint_ok 64 (mg_hits m') /\ uint_ok 64 (mg_misses m'))
      /\ mg_generation m' = u64 (mg_generation m + 0) /\ mg_stores m' = u64 (mg_stores m + 0)
      /\ u64 (mg_hits m' + mg_misses m') = u64 (mg_hits m + mg_misses m + 1)).
    { intros c b. cbn. split_and!; auto. }
    destruct (normalizeCacheKey key) as [key'|err| |]; try apply H1. destruct (mg_cache m !! key') as [r|]; [|apply H1].
    destruct (negb _); [apply H1|]. destruct (negb _); [apply H1|]. cbn. split_and!; auto.
  - cbn. split_and!; auto.
  - destruct source as [[next|text]|]; cbn; split_and!; auto; by rewrite Z.add_0_r.
  - cbn. split_and!; auto. by rewrite Z.add_0_r.
Qed.

Lemma run_events_counters evs : forall m, counters_ok m ->
  let m' := fold_left run_event evs m in
  mg_generation m' = u64 (mg_generation m + count is_refresh evs) /\ mg_stores m' = u64 (mg_stores m + count accepted_put evs)
  /\ u64 (mg_hits m' + mg_misses m') = u64 (mg_hits m + mg_misses m + count is_lookup evs).
Proof.
  induction evs as [|ev evs IH]; intros m Hm; cbn [fold_left].
  - destruct Hm as (Hg & Hs & _ & _). unfold count. cbn. rewrite !Z.add_0_r. split_and!; [by rewrite u64_fixed .. | done].
  - destruct (run_event_counters m ev Hm) as (Hm' & H1 & H2 & H3). destruct (IH (run_event m ev) Hm') as (I1 & I2 & I3).
    cbv zeta. rewrite I1, I2, I3, !count_cons, H1, H2, !u64_add. split_and!; try (f_equal; lia).
    rewrite <- u64_add, H3, u64_add. f_equal. lia.
Qed.

(** C24: The cache is the history.  For every sequence of calls with a clock that does
    not run backwards, a lookup returns exactly the values of the last accepted store
    under the normalized key since the last refresh or clearing, while they have not
    expired, and otherwise nothing; expired entries and older generations are never
    seen.  Generation and counters count the events, modulo 2^64. *)
Theorem dns_lookup_latest initial t0 evs t key :
  monotone t0 evs t ->
  let m := fold_left run_event evs (newManager initial t0) in
  snd (Lookup key t m) = match normalizeCacheKey key with
    | Ok k => match last_store k evs with
              | Some (values, storedAt, expires) =>
                  if t <? expires then Some (mkCacheRecord values storedAt expires (mg_generation m)) else None
              | None => None
              end
    | _ => None
    end
  /\ mg_generation m = u64 (1 + count is_refresh evs) /\ mg_stores m = u64 (count accepted_put evs)
  /\ u64 (mg_hits m + mg_misses m) = u64 (count is_lookup evs).
Proof.
  intros Hmono m. assert (H0 : cache_ok (newManager initial t0) (fun _ => None) t0) by (intros k; cbn; by rewrite lookup_empty).
  assert (Hc : counters_ok (newManager initial t0)) by (apply (bool_decide_unpack _); vm_compute; exact I).
  split; [|exact (run_events_counters evs _ Hc)]. pose proof (run_events_ok evs _ _ _ _ H0 Hmono) as H. fold m in H.
  unfold Lookup, last_store. pose proof (normalizeCacheKey_returns key) as Hret. destruct (normalizeCacheKey key) as [k|err| |]; try done.
  specialize (H k). cbv beta in H. destruct (mg_cache m !! k) as [r|].
  - destruct H as [-> Hg]. rewrite Hg, Z.eqb_refl. cbn [negb]. destruct (t <? cr_ExpiresAt r); [|done]. cbn. unfold cloneRecord. by rewrite Hg.
  - destruct (fold_left _ evs None) as [[[v s] e]|]; [|done]. by replace (t <? e) with false by (symmetry; lia).
Qed.
End Histories.

Lemma cloneSnapshot_id s : cloneSnapshot s = s.
Proof.
  destruct s as [? ? ? ? ? [md|]]; [|done]. unfold cloneSnapshot. cbn. do 2 f_equal.
  induction md as [|k v md Hk Hf IH] using map_first_key_ind; [by rewrite map_fold_empty|].
  rewrite map_fold_insert_first_key by done. by rewrite IH.
Qed.

(** C25: Refreshing.  A failed source, or none, changes neither the copied snapshot
    nor the cache, the generation or the counters, and is reported as degraded with
    the error's text; a snapshot that is read replaces the copy (stamped if it had no
    time), advances the generation, empties the cache and is degraded exactly when it
    names no upstream. *)
Theorem dns_refresh_from source now m :
  let '(m', (status, err)) := RefreshFrom source now m in
  status = statusLocked m' /\
  match source with
  | Some (inl next) =>
      err = None /\ mg_snapshot m' = stamped now next /\ mg_generation m' = u64 (mg_generation m + 1) /\ mg_cache m' = ∅
      /\ st_Degraded status = bool_decide (sn_Upstreams next = []) /\ (st_LastError status = [] <-> sn_Upstreams next <> [])
      /\ cs_Entries (st_Cache status) = 0
  | _ =>
      exists e, err = Some e /\ m' = with_health true (dns_error_text e) m /\ e = match source with Some (inr text) => ErrRead text | _ => ErrNilSource end
  end.
Proof.
  destruct source as [[next|text]|]; cbn -[cloneSnapshot]; [|split; [done | by eexists]..].
  split; [done|]. rewrite cloneSnapshot_id. assert (Hs : sn_Upstreams (stamped now next) = sn_Upstreams next) by (unfold stamped; by destruct (_ =? _)).
  rewrite Hs. split_and!; try done; destruct (sn_Upstreams next) as [|u us]; cbn; try done.
Qed.

(** ** A concrete history *)
Section DnsWitness.
#[local] Existing Instance ascii_only.
Definition demo_snapshot : Snapshot := mkSnapshot 0 3 [mkUpstream (lit "10.0.0.53") 53 (lit "udp") [] 0 []] [] [] None.
Definition demo_key (name : string) : CacheKey := mkCacheKey (lit name) 1 0.
Definition demo_history : list event :=
  [EvPut (demo_key "Old.example.") [lit "1.1.1.1"] 1000 10; EvRefresh (Some (inl demo_snapshot)) 20;
   EvPut (demo_key "www.Example.") [lit "10.0.0.1"] 60 30; EvPut (demo_key " ") [] 60 31; EvLookup (demo_key "old.example") 40; EvRefresh None 41].

Lemma dns_lookup_latest_witness :
  snd (Lookup (demo_key "WWW.example") 89 (fold_left run_event demo_history (newManager demo_snapshot 5)))
  = Some (mkCacheRecord [lit "10.0.0.1"] 30 90 2).
Proof.
  assert (H : monotone 5 demo_history 89) by (cbn; lia).
  rewrite (proj1 (dns_lookup_latest demo_snapshot 5 demo_history 89 (demo_key "WWW.example") H)). vm_compute. reflexivity.
Defined.
End DnsWitness.
