(* ===== verification/Resolver.v ===== *)
(** * The read-only resolver adapter (internal/platform/resolver.go)

    Parsing of a resolv.conf text into a snapshot of the private DNS manager.  The
    file's contents (or the text of the error of reading it), the state of the
    context and the clock are arguments.  Theorems: the parsed snapshot is, line by
    line, the non-loopback name servers and the search domains of the text; a
    snapshot that is read never degrades the manager. *)

From stdpp Require Import base strings numbers gmap list.
From S2P Require Import Prelude CodecErrors Frame GoStrings Netip PrivateDns.
Local Open Scope Z_scope.
Local Open Scope wg_scope.

(** ** [bufio.Scanner] over lines

    A line ends at a line feed or at the end of the text; one carriage return before
    it is dropped; a line that does not fit into the buffer of 65536 bytes is an
    error.  An empty rest is no line. *)
Definition MaxScanTokenSize : Z := 65536.
Definition drop_cr (line : bytes) : bytes := default line (cut_suffix [13] line).
Definition raw_lines (contents : bytes) : list bytes :=
  let parts := Split contents 10 in
  match last parts with
  | Some [] => take (length parts - 1) parts
  | _ => parts
  end.
Definition scan_lines (contents : bytes) : option (list bytes) :=
  let lines := raw_lines contents in
  if existsb (fun line => MaxScanTokenSize <=? len line) lines then None else Some (drop_cr <$> lines).

Definition parseNameserver (value : bytes) : option (Addr * Z) :=
  match ParseAddr value with
  | Some address => Some (Unmap address, 53)
  | None =>
      match ParseAddrPort value with
      | Some (address, port) => Some (Unmap address, port)
      | None => None
      end
  end.

(** What the loop of [ParseResolverConfig] keeps *)
Record scan_state : Set := mkScan { sc_upstreams : list Upstream; sc_domains : list bytes; sc_localOnly : Z }.

Inductive ResolverErr : Set := ErrScan | ErrLocalProxy | ErrNoUpstreams.
#[global] Instance ResolverErr_eq_dec : EqDecision ResolverErr.
Proof. solve_decision. Defined.
Definition resolver_error_text (e : ResolverErr) : bytes :=
  match e with
  | ErrScan => lit "scan resolver snapshot: bufio.Scanner: token too long"
  | ErrLocalProxy => lit "resolver exposes only a local proxy; native per-link expansion is required"
  | ErrNoUpstreams => lit "resolver snapshot has no usable upstreams"
  end.

Section Resolver.
Context {U : Unicode}.

Definition search_domain (domain : bytes) : list bytes :=
  let domain := TrimSuffix (ToLower domain) [46] in
  if negb (bool_decide (domain = [])) then [domain] else [].

(** One line of the text. *)
Definition scan_line (s : scan_state) (text : bytes) : scan_state :=
  let line := TrimSpace (match cut_at 35 text with Some (before, _) => before | None => text end) in
  if bool_decide (line = []) then s
  else match Fields line with
  | keyword :: value :: more =>
      if bool_decide (keyword = lit "nameserver") then
        match parseNameserver value with
        | None => s
        | Some (address, port) =>
            if IsLoopback address then mkScan (sc_upstreams s) (sc_domains s) (sc_localOnly s + 1)
            else mkScan (sc_upstreams s ++ [mkUpstream (Addr_String address) port (lit "system-policy") [] 0 []])
                   (sc_domains s) (sc_localOnly s)
        end
      else if bool_decide (keyword = lit "search") || bool_decide (keyword = lit "domain") then
        mkScan (sc_upstreams s) (fold_left (fun found domain => found ++ search_domain domain) (value :: more) (sc_domains s)) (sc_localOnly s)
      else s
  | _ => s
  end.

(** Snapshot and error, as the code returns them. *)
Definition ParseResolverConfig (contents : bytes) : Snapshot * option ResolverErr :=
  match scan_lines contents with
  | None => (mkSnapshot 0 0 [] [] [] None, Some ErrScan)
  | Some lines =>
      let s := fold_left scan_line lines (mkScan [] [] 0) in
      let metadata := if 0 <? sc_localOnly s then <[lit "local_proxy_omitted" := Itoa (sc_localOnly s)]> ∅ else ∅ in
      let snapshot := mkSnapshot 0 0 (sc_upstreams s) (sc_domains s) [] (Some metadata) in
      if len (sc_upstreams s) =? 0 then
        if 0 <? sc_localOnly s then (snapshot, Some ErrLocalProxy) else (snapshot, Some ErrNoUpstreams)
      else (snapshot, None)
  end.

(** [ReadSnapshot], with what [ctx.Err], [os.ReadFile] and [time.Now] give. *)
Definition ReadSnapshot (Path : bytes) (cancelled : option bytes) (readFile : bytes -> bytes + bytes) (now : Z) : Snapshot + bytes :=
  match cancelled with
  | Some text => inr text
  | None =>
      let path := if bool_decide (Path = []) then lit "/etc/resolv.conf" else Path in
      match readFile path with
      | inr text => inr (lit "read resolver snapshot: " ++ text)
      | inl data =>
          match ParseResolverConfig data with
          | (_, Some err) => inr (resolver_error_text err)
          | (snapshot, None) =>
              inl (mkSnapshot now (sn_NetworkGeneration snapshot) (sn_Upstreams snapshot) (sn_SearchDomains snapshot)
                     (sn_RoutingDomains snapshot)
                     (Some (<[lit "adapter" := lit "read-only-resolv-conf"]> (<[lit "source" := path]> (default ∅ (sn_Metadata snapshot))))))
          end
      end
  end.

(** ** What a line contributes *)
Definition line_fields (text : bytes) : list bytes := Fields (TrimSpace (match cut_at 35 text with Some (before, _) => before | None => text end)).

Definition nameserver_of (text : bytes) : option (Addr * Z) :=
  match line_fields text with
  | keyword :: value :: _ => if bool_decide (keyword = lit "nameserver") then parseNameserver value else None
  | _ => None
  end.
Definition domains_of (text : bytes) : list bytes :=
  match line_fields text with
  | keyword :: value :: more =>
      if bool_decide (keyword = lit "search") || bool_decide (keyword = lit "domain")
      then mjoin (search_domain <$> (value :: more)) else []
  | _ => []
  end.
Definition upstream_of (server : Addr * Z) : option Upstream :=
  let '(address, port) := server in
  if IsLoopback address then None else Some (mkUpstream (Addr_String address) port (lit "system-policy") [] 0 []).
Definition is_local (server : Addr * Z) : bool := IsLoopback (fst server).

Lemma fold_domains l : forall acc, fold_left (fun found domain => found ++ search_domain domain) l acc = acc ++ mjoin (search_domain <$> l).
Proof. induction l as [|d l IH]; intros acc; cbn [fold_left fmap list_fmap mjoin list_join]; [by rewrite app_nil_r|]. by rewrite IH, <- app_assoc. Qed.

Lemma Fields_nil : Fields [] = [].
Proof. vm_compute. reflexivity. Qed.

Lemma scan_line_spec s text :
  scan_line s text = mkScan (sc_upstreams s ++ match nameserver_of text with Some server => option_list (upstream_of server) | None => [] end)
    (sc_domains s ++ domains_of text)
    (sc_localOnly s + match nameserver_of text with Some server => if is_local server then 1 else 0 | None => 0 end).
Proof.
  destruct s as [us ds n]. unfold scan_line, nameserver_of, domains_of, line_fields. cbn [sc_upstreams sc_domains sc_localOnly].
  set (line := TrimSpace _). destruct (bool_decide_reflect (line = [])) as [->|Hne]; [rewrite Fields_nil; by rewrite !app_nil_r, Z.add_0_r|].
  destruct (Fields line) as [|keyword [|value more]]; [by rewrite !app_nil_r, Z.add_0_r ..|].
  destruct (bool_decide_reflect (keyword = lit "nameserver")) as [->|Hk].
  - rewrite (bool_decide_false (lit "nameserver" = lit "search")), (bool_decide_false (lit "nameserver" = lit "domain")) by (by vm_compute).
    cbn [orb]. destruct (parseNameserver value) as [[address port]|]; [|by rewrite !app_nil_r, Z.add_0_r].
    unfold is_local, upstream_of. cbn [fst]. destruct (IsLoopback address); cbn [option_list]; by rewrite ?app_nil_r, ?Z.add_0_r.
  - destruct (_ || _); [by rewrite fold_domains, app_nil_r, Z.add_0_r | by rewrite !app_nil_r, Z.add_0_r].
Qed.

Definition servers_of (lines : list bytes) : list (Addr * Z) := omap nameserver_of lines.

Lemma scan_lines_spec lines : forall s,
  fold_left scan_line lines s = mkScan (sc_upstreams s ++ omap upstream_of (servers_of lines)) (sc_domains s ++ mjoin (domains_of <$> lines))
    (sc_localOnly s + len (filter (fun server => is_local server = true) (servers_of lines))).
Proof.
  induction lines as [|text lines IH]; intros s; [destruct s; cbn; by rewrite !app_nil_r, Z.add_0_r|].
  cbn [fold_left]. rewrite IH, scan_line_spec. cbn [sc_upstreams sc_domains sc_localOnly fmap list_fmap mjoin list_join].
  unfold servers_of. cbn [omap list_omap]. rewrite <- !app_assoc. destruct (nameserver_of text) as [server|].
  - change (omap upstream_of (server :: omap nameserver_of lines))
      with (match upstream_of server with Some u => u :: omap upstream_of (omap nameserver_of lines) | None => omap upstream_of (omap nameserver_of lines) end).
    rewrite filter_cons. destruct (upstream_of server); cbn [option_list app]; (destruct (is_local server);
      [rewrite decide_True, len_cons by done | rewrite decide_False by done]); f_equal; lia.
  - cbn. f_equal. lia.
Qed.

Lemma parseNameserver_ok value address port : parseNameserver value = Some (address, port) ->
  Addr_ok address /\ Is4In6 address = false /\ uint_ok 16 port.
Proof.
  unfold parseNameserver. destruct (ParseAddr value) as [a|] eqn:Ha.
  - intros [= <- <-]. apply ParseAddr_ok, Unmap_ok in Ha as (H1 & H2 & _). done.
  - destruct (ParseAddrPort value) as [[a p]|] eqn:Hp; [|done]. intros [= <- <-]. unfold ParseAddrPort in Hp.
    destruct (cut_last 58 value) as [[host digits]|]; [|done]. destruct (_ || _); [done|].
    match type of Hp with match ?x with _ => _ end = _ => destruct x as [inner|] end; [|done]. destruct (ParseUint digits 16) as [n [e|]] eqn:Hn; [done|].
    destruct (ParseAddr inner) as [ip|] eqn:Hi; [|done]. destruct (Bool.eqb _ _); [done|]. injection Hp as <- <-.
    apply ParseAddr_ok, Unmap_ok in Hi as (H1 & H2 & _). split_and!; try done. by apply ParseUint_range in Hn.
Qed.

(** The parsed snapshot.  A text whose lines fit the scanner's buffer yields, in
    the order of its lines, the name servers that are not loopback addresses and the
    search domains; it is an error exactly when no such server is left, and the error
    tells whether loopback servers were left out; a line that is too long is an error
    as well.  Every upstream is the canonical text of an unmapped, non-loopback
    address with a 16-bit port. *)
Theorem resolver_config_lines contents :
  let '(snapshot, err) := ParseResolverConfig contents in
  match scan_lines contents with
  | None => err = Some ErrScan /\ sn_Upstreams snapshot = []
  | Some lines =>
      sn_Upstreams snapshot = omap upstream_of (servers_of lines)
      /\ sn_SearchDomains snapshot = mjoin (domains_of <$> lines)
      /\ (err = None <-> sn_Upstreams snapshot <> [])
      /\ (err = Some ErrLocalProxy <-> sn_Upstreams snapshot = [] /\ servers_of lines <> [])
      /\ (err = Some ErrNoUpstreams <-> servers_of lines = [])
      /\ Forall (fun u => exists ip, us_Address u = Addr_String ip /\ Addr_ok ip /\ Is4In6 ip = false /\ IsLoopback ip = false
                  /\ uint_ok 16 (us_Port u)) (sn_Upstreams snapshot)
  end.
Proof.
  unfold ParseResolverConfig. destruct (scan_lines contents) as [lines|]; [|done]. rewrite scan_lines_spec.
  cbn [sc_upstreams sc_domains sc_localOnly app]. set (servers := servers_of lines). set (us := omap upstream_of servers).
  assert (Hloc : us = [] -> servers <> [] -> 0 < 0 + len (filter (fun server => is_local server = true) servers)).
  { subst us. destruct servers as [|[a p] servers]; [done|]. intros H _. assert (E : is_local (a, p) = true).
    { unfold is_local. cbn in *. by destruct (IsLoopback a). }
    rewrite filter_cons, decide_True, len_cons by done. pose proof (len_nonneg (filter (fun server => is_local server = true) servers)). lia. }
  assert (Hall : Forall (fun u => exists ip, us_Address u = Addr_String ip /\ Addr_ok ip /\ Is4In6 ip = false /\ IsLoopback ip = false /\ uint_ok 16 (us_Port u)) us).
  { apply Forall_forall. intros u ([a p] & Hs & Hu)%list_elem_of_omap. unfold upstream_of in Hu. destruct (IsLoopback a) eqn:E; [done|]. injection Hu as <-.
    apply list_elem_of_omap in Hs as (text & _ & Ht). unfold nameserver_of in Ht. destruct (line_fields text) as [|k [|v more]]; try done.
    destruct (bool_decide _); [|done]. apply parseNameserver_ok in Ht as (H1 & H2 & H3). by exists a. }
  destruct (Z.eqb_spec (len us) 0) as [Hz|Hz].
  - apply len_zero_nil in Hz. destruct (Z.ltb_spec 0 (0 + len (filter (fun server => is_local server = true) servers))) as [Hl|Hl]; cbn.
    + assert (servers <> []) by (intros E; by rewrite E in Hl). split_and!; try done; split; (done || naive_solver).
    + assert (servers = []) by (destruct (decide (servers = [])) as [|Hn]; [done | specialize (Hloc Hz Hn); lia]).
      split_and!; try done; split; (done || naive_solver).
  - assert (us <> []) by (intros E; by rewrite E in Hz). assert (servers <> []) by (intros E; subst us; by rewrite E in Hz).
    cbn. split_and!; try done; split; (done || naive_solver).
Qed.
End Resolver.

(** A snapshot that the adapter reads leaves the manager healthy. *)
Theorem resolver_source_healthy {U : Unicode} Path cancelled readFile now later m snapshot :
  ReadSnapshot Path cancelled readFile now = inl snapshot ->
  st_Degraded (fst (snd (RefreshFrom (Some (inl snapshot)) later m))) = false.
Proof.
  unfold ReadSnapshot. destruct cancelled; [done|]. destruct (readFile _) as [data|text]; [|done].
  destruct (ParseResolverConfig data) as [parsed [err|]] eqn:E; [done|]. intros [= <-].
  unfold ParseResolverConfig in E. destruct (scan_lines data) as [lines|]; [|done].
  destruct (Z.eqb_spec (len (sc_upstreams (fold_left scan_line lines (mkScan [] [] 0)))) 0) as [Hz|Hz]; [by destruct (0 <? _)|].
  injection E as <-. cbn -[cloneSnapshot]. unfold stamped. rewrite cloneSnapshot_id. cbn.
  destruct (Z.eqb_spec now 0); cbn; by apply Z.eqb_neq.
Qed.

Example resolver_example :
  let conf := lit "# comment" ++ [10] ++ lit "nameserver 127.0.0.53" ++ [13; 10] ++ lit "nameserver 10.0.0.2 # office" ++ [10]
    ++ lit "search Corp.Example. lan" ++ [10] ++ lit "nameserver [2001:db8::1]:5353" in
  let '(snapshot, err) := @ParseResolverConfig ascii_only conf in
  (fun u => (us_Address u, us_Port u)) <$> sn_Upstreams snapshot = [(lit "10.0.0.2", 53); (lit "2001:db8::1", 5353)]
  /\ sn_SearchDomains snapshot = [lit "corp.example"; lit "lan"] /\ err = None.
Proof. vm_compute. split_and!; reflexivity. Qed.
