(* ===== verification/ControlTypes.v ===== *)
(** * The control API's values (internal/controlapi/types.go)

    The structures the service and the HTTP handlers exchange, and the four error
    classes of the interface.  A time is an integer, a nil pointer is [None]. *)

From stdpp Require Import base strings numbers list.
From Stdlib Require Import SpecFloat.
From S2P Require Import Prelude GoStrings.
Local Open Scope Z_scope.

(** ** float64 *)
Definition float64_of (n : Z) : spec_float := binary_normalize 53 1024 n 0 false.
Definition float64_add (a b : spec_float) : spec_float := SFadd 53 1024 a b.
Definition float64_div (a b : spec_float) : spec_float := SFdiv 53 1024 a b.
(** [int64(f)] for a finite [f] within range *)
Definition int64_of (f : spec_float) : Z :=
  match f with
  | S754_finite sign m e =>
      let magnitude := if 0 <=? e then Z.pos m * 2 ^ e else Z.pos m / 2 ^ (- e) in
      if sign then - magnitude else magnitude
  | _ => 0
  end.
(** [Duration.Seconds] *)
Definition Duration_Seconds (d : Z) : spec_float :=
  float64_add (float64_of (Z.quot d 1000000000)) (float64_div (float64_of (Z.rem d 1000000000)) (float64_of 1000000000)).

Inductive ApiErr : Set := ErrInvalidInput | ErrNotFound | ErrConflict | ErrUnsupported | ErrInternal.
#[global] Instance ApiErr_eq_dec : EqDecision ApiErr.
Proof. solve_decision. Defined.

Definition Version : bytes := lit "v1".

Record Versions : Set := mkVersions { vs_Bundle : bytes; vs_UI : bytes; vs_Core : bytes; vs_Scripts : bytes }.

Record ConnectionStatus : Set := mkConnectionStatus {
  cn_State : bytes;
  cn_Endpoint : bytes;
  cn_ConnectedAt : option Z;
  cn_UptimeSeconds : Z;
  cn_UploadBytes : Z;
  cn_DownloadBytes : Z;
  cn_LastError : bytes
}.

Record RoutingSummary : Set := mkRoutingSummary {
  rs_Mode : bytes;
  rs_Generation : Z;
  rs_ManualRuleCount : Z;
  rs_RecentAutoCount : Z;
  rs_DefaultUnmatched : bytes
}.

Record DNSUpstream : Set := mkDNSUpstream { du_Address : bytes; du_Interface : bytes; du_Scope : bytes }.

Record DNSStatus : Set := mkDNSStatus {
  ds_State : bytes;
  ds_SystemDNSUnchanged : bool;
  ds_Generation : Z;
  ds_SnapshotID : bytes;
  ds_Source : bytes;
  ds_GeneratedAt : Z;
  ds_LastSyncedAt : Z;
  ds_Upstreams : list DNSUpstream;
  ds_InterfaceScopes : Z;
  ds_CacheEntries : Z;
  ds_CacheHits : Z;
  ds_CacheMisses : Z;
  ds_CacheHitRate : spec_float;
  ds_MinTTLSeconds : Z;
  ds_DegradedReasons : list bytes
}.

Record StatusResponse : Set := mkStatusResponse {
  sr_APIVersion : bytes;
  sr_Revision : Z;
  sr_Mode : bytes;
  sr_BackendAvailable : bool;
  sr_Connection : ConnectionStatus;
  sr_Routing : RoutingSummary;
  sr_DNS : DNSStatus;
  sr_Versions : Versions
}.

Record OperationRequest : Set := mkOperationRequest { oq_OperationID : bytes }.

Record OperationResponse : Set := mkOperationResponse {
  or_OperationID : bytes;
  or_Accepted : bool;
  or_State : bytes;
  or_Revision : Z;
  or_Message : bytes
}.
#[global] Instance OperationResponse_eq_dec : EqDecision OperationResponse.
Proof. solve_decision. Defined.

Record ApiRule : Set := mkApiRule {
  ar_ID : bytes;
  ar_Target : bytes;
  ar_TargetType : bytes;
  ar_Result : bytes;
  ar_Source : bytes;
  ar_Reason : bytes;
  ar_ExpiresAt : option Z;
  ar_Note : bytes;
  ar_Revision : Z;
  ar_CreatedAt : Z
}.
#[global] Instance ApiRule_eq_dec : EqDecision ApiRule.
Proof. solve_decision. Defined.

Record RuleFilter : Set := mkRuleFilter {
  rf_Query : bytes; rf_Result : bytes; rf_Source : bytes; rf_TargetType : bytes; rf_Limit : Z
}.

Record RuleListResponse : Set := mkRuleListResponse {
  rr_Rules : list ApiRule; rr_Generation : Z; rr_Total : Z
}.

Record SetRuleRequest : Set := mkSetRuleRequest {
  sq_OperationID : bytes;
  sq_ID : bytes;
  sq_Target : bytes;
  sq_TargetType : bytes;
  sq_Result : bytes;
  sq_ExpiresAt : option Z;
  sq_Note : bytes;
  sq_ExpectedRevision : option Z
}.

Record DeleteRuleRequest : Set := mkDeleteRuleRequest {
  dq_OperationID : bytes; dq_Target : bytes; dq_ExpectedRevision : option Z
}.

Record RuleMutationResponse : Set := mkRuleMutationResponse {
  rm_OperationID : bytes;
  rm_Rule : ApiRule;
  rm_Generation : Z;
  rm_State : bytes
}.
#[global] Instance RuleMutationResponse_eq_dec : EqDecision RuleMutationResponse.
Proof. solve_decision. Defined.

Record RuleExplanation : Set := mkRuleExplanation {
  re_Target : bytes;
  re_FinalResult : bytes;
  re_ManagedState : bytes;
  re_PrimarySource : bytes;
  re_Reason : bytes;
  re_Sources : list bytes;
  re_Generation : Z
}.

Record DiagnosticCheck : Set := mkDiagnosticCheck { ch_Name : bytes; ch_State : bytes; ch_Summary : bytes }.

Record DiagnosticReport : Set := mkDiagnosticReport {
  dr_GeneratedAt : Z;
  dr_Redacted : bool;
  dr_Overall : bytes;
  dr_Checks : list DiagnosticCheck;
  dr_Summary : bytes
}.

Record UpdateStatus : Set := mkUpdateStatus {
  up_State : bytes;
  up_CurrentVersion : bytes;
  up_AvailableVersion : bytes;
  up_Compatible : bool;
  up_ManifestVerified : bool;
  up_CheckedAt : Z;
  up_Message : bytes
}.

Record PairingValidationRequest : Set := mkPairingValidationRequest {
  pq_ServerIP : bytes; pq_FileName : bytes; pq_Fingerprint : bytes
}.

Record PairingValidation : Set := mkPairingValidation {
  pv_Valid : bool;
  pv_ValidationID : bytes;
  pv_ServerIP : bytes;
  pv_Port : Z;
  pv_FileName : bytes;
  pv_Fingerprint : bytes;
  pv_ExpiresAt : Z;
  pv_Message : bytes
}.

Record EnrollRequest : Set := mkEnrollRequest {
  eq_OperationID : bytes;
  eq_ValidationID : bytes;
  eq_ServerIP : bytes;
  eq_FileName : bytes;
  eq_Fingerprint : bytes;
  eq_FingerprintConfirmed : bool;
  eq_AuthorizationConfirmed : bool
}.

Record APIError : Set := mkAPIError { ae_Code : bytes; ae_Message : bytes }.

Example uptime_rounding : (int64_of (Duration_Seconds 1999999999), int64_of (Duration_Seconds (- 1500000000))) = (1, -1).
Proof. vm_compute. reflexivity. Qed.
