(* ===== verification/Service.v ===== *)
(** * The application service (internal/app/service.go)

    The state of the service, every method of the control backend and the pruning of
    expired overrides.  Each clock reading of a method is an argument (the routing
    engine and the DNS manager read their own clocks); so are the bytes of
    [crypto/rand] and what the resolver source returns.  Methods run to their end here;
    the parts they execute under the lock are definitions of their own ([_locked],
    [_body]), from which [ServiceSteps] builds the interleaved methods. *)

From stdpp Require Import base strings numbers gmap list.
From Stdlib Require Import SpecFloat.
From S2P Require Import Prelude CodecErrors Frame GoStrings Netip Routing PrivateDns ControlTypes.
Local Open Scope Z_scope.
Local Open Scope wg_scope.

Definition demoFingerprint : bytes := lit "wgs-q4zm-7n2k-p6tx-b5rv-j8cd-f3wa-h9yu-m2es".

(** [cf_hasSource]: a resolver source is configured. *)
Record ServiceConfig : Set := mkServiceConfig {
  cf_Mode : bytes;
  cf_Endpoint : bytes;
  cf_Versions : Versions;
  cf_hasSource : bool;
  cf_InitialDNS : Snapshot
}.

Record ruleMetadata : Set := mkRuleMetadata { rm_note : bytes; rm_expiresAt : option Z; rm_revision : Z }.

Record pairingValidationState : Set := mkPairingState {
  pn_serverIP : bytes; pn_fileName : bytes; pn_fingerprint : bytes; pn_expiresAt : Z
}.

Record Service : Set := mkService {
  sv_mode : bytes;
  sv_endpoint : bytes;
  sv_versions : Versions;
  sv_revision : Z;
  sv_state : bytes;
  sv_connected : option Z;
  sv_upload : Z;
  sv_download : Z;
  sv_lastError : bytes;
  sv_routes : Engine;
  sv_dns : Manager;
  sv_hasSource : bool;
  sv_ruleMeta : gmap bytes ruleMetadata;
  sv_recentAuto : list ApiRule;
  sv_operations : gmap bytes OperationResponse;
  sv_ruleOps : gmap bytes RuleMutationResponse;
  sv_pairingValidations : gmap bytes pairingValidationState
}.

(** Writes of several fields *)
Definition with_connection (state : bytes) (connected : option Z) (upload download : Z) (s : Service) : Service :=
  mkService (sv_mode s) (sv_endpoint s) (sv_versions s) (sv_revision s) state connected upload download (sv_lastError s)
    (sv_routes s) (sv_dns s) (sv_hasSource s) (sv_ruleMeta s) (sv_recentAuto s) (sv_operations s) (sv_ruleOps s) (sv_pairingValidations s).
Definition with_revision (revision : Z) (s : Service) : Service :=
  mkService (sv_mode s) (sv_endpoint s) (sv_versions s) revision (sv_state s) (sv_connected s) (sv_upload s) (sv_download s) (sv_lastError s)
    (sv_routes s) (sv_dns s) (sv_hasSource s) (sv_ruleMeta s) (sv_recentAuto s) (sv_operations s) (sv_ruleOps s) (sv_pairingValidations s).
Definition with_rules_of (routes : Engine) (ruleMeta : gmap bytes ruleMetadata) (recentAuto : list ApiRule) (s : Service) : Service :=
  mkService (sv_mode s) (sv_endpoint s) (sv_versions s) (sv_revision s) (sv_state s) (sv_connected s) (sv_upload s) (sv_download s) (sv_lastError s)
    routes (sv_dns s) (sv_hasSource s) ruleMeta recentAuto (sv_operations s) (sv_ruleOps s) (sv_pairingValidations s).
Definition with_operation (key : bytes) (response : OperationResponse) (s : Service) : Service :=
  mkService (sv_mode s) (sv_endpoint s) (sv_versions s) (sv_revision s) (sv_state s) (sv_connected s) (sv_upload s) (sv_download s) (sv_lastError s)
    (sv_routes s) (sv_dns s) (sv_hasSource s) (sv_ruleMeta s) (sv_recentAuto s) (<[key := response]> (sv_operations s)) (sv_ruleOps s) (sv_pairingValidations s).
Definition with_ruleOp (key : bytes) (response : RuleMutationResponse) (s : Service) : Service :=
  mkService (sv_mode s) (sv_endpoint s) (sv_versions s) (sv_revision s) (sv_state s) (sv_connected s) (sv_upload s) (sv_download s) (sv_lastError s)
    (sv_routes s) (sv_dns s) (sv_hasSource s) (sv_ruleMeta s) (sv_recentAuto s) (sv_operations s) (<[key := response]> (sv_ruleOps s)) (sv_pairingValidations s).
Definition with_pairing (endpoint : bytes) (pairing : gmap bytes pairingValidationState) (s : Service) : Service :=
  mkService (sv_mode s) endpoint (sv_versions s) (sv_revision s) (sv_state s) (sv_connected s) (sv_upload s) (sv_download s) (sv_lastError s)
    (sv_routes s) (sv_dns s) (sv_hasSource s) (sv_ruleMeta s) (sv_recentAuto s) (sv_operations s) (sv_ruleOps s) pairing.
Definition with_dns (dns : Manager) (s : Service) : Service :=
  mkService (sv_mode s) (sv_endpoint s) (sv_versions s) (sv_revision s) (sv_state s) (sv_connected s) (sv_upload s) (sv_download s) (sv_lastError s)
    (sv_routes s) dns (sv_hasSource s) (sv_ruleMeta s) (sv_recentAuto s) (sv_operations s) (sv_ruleOps s) (sv_pairingValidations s).

(** ** Critical sections

    What a method does while it holds the write lock: accesses to the service one after
    the other, each a change of the state with what it goes on with.  A call of the
    routing engine, which others may read meanwhile, is an access of its own. *)
Inductive body (A : Type) : Type :=
| Done (a : A)
| Touch (f : Service -> Service) (k : Service -> body A).
Arguments Done {A}.
Arguments Touch {A}.
Fixpoint run_body {A : Type} (b : body A) (s : Service) : Service * A :=
  match b with
  | Done a => (s, a)
  | Touch f k => run_body (k s) (f s)
  end.

Definition on_routes (f : Engine -> Engine) (s : Service) : Service := with_rules_of (f (sv_routes s)) (sv_ruleMeta s) (sv_recentAuto s) s.

Definition kind_text (k : TargetKind) : bytes := kind_string k.
Definition source_text (s : Source) : bytes := match s with SourceManual => lit "MANUAL" | SourceAutomatic => lit "AUTOMATIC" end.
Definition rule_id (r : Rule) : bytes := lit "rule-" ++ FormatUint (rl_ID r).

Definition autoDecision : AutoDecider := fun target =>
  if bool_decide (tg_Kind target = TargetDomain)
     && (HasSuffix (tg_Value target) (lit ".cn") || bool_decide (tg_Value target = lit "cn"))
  then (ActionDirect, lit "signed regional classifier selected DIRECT")
  else if bool_decide (tg_Kind target = TargetIP)
     && match ParseAddr (tg_Value target) with
        | Some address => IsPrivate address || IsLoopback address || IsLinkLocalUnicast address
        | None => false
        end
  then (ActionDirect, lit "local and protected address classifier selected DIRECT")
  else (ActionTunnel, lit "unclassified target uses the fail-closed TUNNEL default").

Definition removeRecentAutoLocked (target : bytes) (recentAuto : list ApiRule) : list ApiRule :=
  filter (fun row => ar_Target row <> target) recentAuto.

Definition apiRule (rule : Rule) (meta : ruleMetadata) : ApiRule :=
  mkApiRule (rule_id rule) (tg_Value (rl_Target rule)) (kind_text (tg_Kind (rl_Target rule))) (rl_Action rule) (source_text (rl_Source rule))
    (lit "manual override") (rm_expiresAt meta) (rm_note meta) (rm_revision meta) (rl_CreatedAt rule).

(** The zero value of a missing map entry *)
Definition meta_of (ruleMeta : gmap bytes ruleMetadata) (target : bytes) : ruleMetadata :=
  default (mkRuleMetadata [] None 0) (ruleMeta !! target).

Definition with_metadata (ruleMeta : gmap bytes ruleMetadata) (rules : list Rule) : list ApiRule :=
  (fun rule => apiRule rule (meta_of ruleMeta (tg_Value (rl_Target rule)))) <$> rules.
Definition manualRules (s : Service) : list ApiRule := with_metadata (sv_ruleMeta s) (List (sv_routes s)).

Definition operation_char (c : Z) : bool :=
  (c =? 45) || (c =? 95) || (c =? 46) || between 48 57 c || between 65 90 c || between 97 122 c.
Definition validateOperationID (value : bytes) : outcome ApiErr unit :=
  let value := TrimSpace value in
  if bool_decide (value = []) || (128 <? len value) then Err ErrInvalidInput
  else if negb (forallb operation_char (runes value)) then Err ErrInvalidInput
  else Ok tt.

(** [hex.EncodeToString]; whether [hex.DecodeString] accepts a text *)
Definition hex_encode (b : bytes) : bytes := mjoin ((fun x => [hex_digit (x / 16); hex_digit (x mod 16)]) <$> b).
Definition hex_decodable (s : bytes) : bool :=
  (len s mod 2 =? 0) && forallb (fun c => match hex_value c with Some _ => true | None => false end) s.

(** ** The private DNS view *)
Definition pad6 (s : bytes) : bytes := replicate (6 - length s) 48 ++ s.

Definition uniqueInterfaceCount (upstreams : list Upstream) : Z :=
  Z.of_nat (size (fold_left (fun seen u => {[ us_InterfaceName u ++ 0 :: us_Scope u ]} ∪ seen) upstreams (∅ : gset bytes))).

Definition upstream_address (u : Upstream) : bytes :=
  if negb (us_Port u =? 0) && negb (us_Port u =? 53) then us_Address u ++ 58 :: Itoa (us_Port u) else us_Address u.

(** The answer made of a status and a snapshot, which [dnsResponse] takes one after the
    other *)
Definition dns_response (status : DnsStatus) (snapshot : Snapshot) : DNSStatus :=
  let cache := st_Cache status in
  let total := u64 (cs_Hits cache + cs_Misses cache) in
  let source := default [] (default ∅ (sn_Metadata snapshot) !! lit "source") in
  mkDNSStatus (if st_Degraded status then lit "DEGRADED" else lit "HEALTHY") true (st_Generation status)
    (lit "dns-" ++ pad6 (FormatUint (st_Generation status)))
    (if bool_decide (source = []) then lit "read-only development snapshot" else source)
    (sn_CapturedAt snapshot) (st_RefreshedAt status)
    ((fun u => mkDNSUpstream (upstream_address u) (us_InterfaceName u) (us_Scope u)) <$> sn_Upstreams snapshot)
    (uniqueInterfaceCount (sn_Upstreams snapshot)) (cs_Entries cache) (cs_Hits cache) (cs_Misses cache)
    (if 0 <? total then float64_div (float64_of (cs_Hits cache)) (float64_of total) else float64_of 0)
    0 (if st_Degraded status && negb (bool_decide (st_LastError status = [])) then [st_LastError status] else []).
Definition dnsResponse (s : Service) : DNSStatus := dns_response (Manager_Status (sv_dns s)) (Manager_Snapshot (sv_dns s)).

Section Service.
Context {U : Unicode}.

(** ** Construction *)
Definition auto_row (now : Z) (index : Z) (d : Decision) : ApiRule :=
  mkApiRule (lit "auto-" ++ Itoa (index + 1)) (tg_Value (dc_Target d)) (kind_text (tg_Kind (dc_Target d))) (dc_EffectiveAction d)
    (lit "AUTOMATIC") (dc_Reason d) None [] (dc_Generation d) now.
Fixpoint seed_rows (e : Engine) (now index : Z) (targets : list bytes) : list ApiRule :=
  match targets with
  | [] => []
  | target :: targets =>
      match Explain e target with
      | Ok d => auto_row now index d :: seed_rows e now (index + 1) targets
      | _ => seed_rows e now (index + 1) targets
      end
  end.
Definition seedRecentAuto (e : Engine) (now : Z) : list ApiRule :=
  seed_rows e now 0 [lit "docs.example.cn"; lit "github.com"; lit "192.168.50.20"].

Definition NewService (config : ServiceConfig) (now dnsNow : Z) : Service :=
  let mode := ToLower (TrimSpace (cf_Mode config)) in
  let mode := if negb (bool_decide (mode = lit "server")) then lit "client" else mode in
  let versions := if bool_decide (vs_Bundle (cf_Versions config) = [])
                  then mkVersions (lit "0.1.0-dev") (lit "0.1.0-dev") (lit "0.1.0-dev") (lit "0.1.0-dev") else cf_Versions config in
  let engine := NewEngine [Some (WithAutoDecider (Some autoDecision))] in
  mkService mode (cf_Endpoint config) versions 0 (lit "DISCONNECTED") None 0 0 [] engine (newManager (cf_InitialDNS config) dnsNow)
    (cf_hasSource config) ∅ (seedRecentAuto engine now) ∅ ∅ ∅.

(** ** Expiry *)
Definition expired (now : Z) (meta : ruleMetadata) : bool :=
  match rm_expiresAt meta with None => false | Some at_ => negb (now <? at_) end.

Definition prune_one (now : Z) (s : Service) (entry : bytes * ruleMetadata) : Service :=
  let '(target, meta) := entry in
  if negb (expired now meta) then s
  else
    let '(routes, r) := DeleteRule target (sv_routes s) in
    let s := match r with Ok _ => with_revision (u64 (sv_revision s + 1)) s | _ => s end in
    with_rules_of routes (delete target (sv_ruleMeta s)) (removeRecentAutoLocked target (sv_recentAuto s)) s.
Definition pruneExpiredRules (now : Z) (s : Service) : Service :=
  fold_left (prune_one now) (map_to_list (sv_ruleMeta s)) s.
Definition prune (now : Z) : act Service ApiErr unit := act_set (pruneExpiredRules now).

(** ** Reading *)
(** [s] is the copy of the fields made under the lock. *)
Definition status_response (nowUptime : Z) (s : Service) (dns : DNSStatus) (generation manual auto : Z) : StatusResponse :=
  let uptime := match sv_connected s with
    | Some at_ => if bool_decide (sv_state s = lit "CONNECTED") then Z.max 0 (int64_of (Duration_Seconds (nowUptime - at_))) else 0
    | None => 0
    end in
  mkStatusResponse Version (sv_revision s) (sv_mode s) true
    (mkConnectionStatus (sv_state s) (sv_endpoint s) (sv_connected s) uptime (sv_upload s) (sv_download s) (sv_lastError s))
    (mkRoutingSummary (lit "AUTO") generation manual auto (lit "TUNNEL")) dns (sv_versions s).
Definition autoCount (s : Service) : Z := len (sv_recentAuto s).
Definition ServiceStatus (nowPrune nowUptime : Z) : act Service ApiErr StatusResponse :=
  do! prune nowPrune;
  let! s := act_get in
  act_ret (status_response nowUptime s (dnsResponse s) (Generation (sv_routes s)) (len (List (sv_routes s))) (autoCount s)).

Definition rule_shown (filter_ : RuleFilter) (query : bytes) (rule : ApiRule) : bool :=
  negb (negb (bool_decide (query = [])) && negb (Contains (ToLower (ar_Target rule)) query))
  && negb (negb (bool_decide (rf_Result filter_ = [])) && negb (EqualFold (rf_Result filter_) (ar_Result rule)))
  && negb (negb (bool_decide (rf_Source filter_ = [])) && negb (EqualFold (rf_Source filter_) (ar_Source rule)))
  && negb (negb (bool_decide (rf_TargetType filter_ = [])) && negb (EqualFold (rf_TargetType filter_) (ar_TargetType rule))).
Definition list_response (filter_ : RuleFilter) (rules : list ApiRule) (generation : Z) : RuleListResponse :=
  let query := ToLower (TrimSpace (rf_Query filter_)) in
  let filtered := filter (fun rule => rule_shown filter_ query rule = true) rules in
  let limit := if (rf_Limit filter_ <=? 0) || (200 <? rf_Limit filter_) then 200 else rf_Limit filter_ in
  mkRuleListResponse (if limit <? len filtered then take (Z.to_nat limit) filtered else filtered) generation (len filtered).
Definition cloneRules (rules : list ApiRule) : list ApiRule := [] ++ rules.
Definition ListRules (filter_ : RuleFilter) (now : Z) : act Service ApiErr RuleListResponse :=
  do! prune now;
  let! s := act_get in
  act_ret (list_response filter_ (manualRules s ++ cloneRules (sv_recentAuto s)) (Generation (sv_routes s))).

Definition explanation (d : Decision) : RuleExplanation :=
  mkRuleExplanation (tg_Value (dc_Target d)) (dc_EffectiveAction d) (dc_Action d) (source_text (dc_Source d)) (dc_Reason d)
    [source_text (dc_Source d)] (dc_Generation d).
Definition explain_answer (r : outcome RoutingErr Decision) : outcome ApiErr RuleExplanation :=
  let* d := wrap_err (fun _ => ErrInvalidInput) r in Ok (explanation d).
Definition ExplainRule (target : bytes) (now : Z) : act Service ApiErr RuleExplanation :=
  do! prune now;
  let! s := act_get in
  act_lift (explain_answer (Explain (sv_routes s) target)).

Definition ServiceDNSStatus : act Service ApiErr DNSStatus :=
  let! s := act_get in act_ret (dnsResponse s).

Definition doctor_report (status : StatusResponse) (now : Z) : DiagnosticReport :=
  let dnsState := ds_State (sr_DNS status) in
  mkDiagnosticReport now true (if bool_decide (dnsState = lit "DEGRADED") then lit "DEGRADED" else lit "HEALTHY")
    [mkDiagnosticCheck (lit "Tunnel connection") (cn_State (sr_Connection status)) (lit "development transport simulator; no TUN device is created");
     mkDiagnosticCheck (lit "Smart routing") (lit "HEALTHY")
       (lit "generation " ++ Itoa (rs_Generation (sr_Routing status)) ++ lit ", " ++ Itoa (rs_ManualRuleCount (sr_Routing status)) ++ lit " manual rules");
     mkDiagnosticCheck (lit "Private DNS") dnsState (lit "read-only generation " ++ Itoa (ds_Generation (sr_DNS status)) ++ lit "; system DNS unchanged");
     mkDiagnosticCheck (lit "Script environment") (lit "HEALTHY") (lit "client and server orchestration scripts are available");
     mkDiagnosticCheck (lit "System privileges") (lit "NOT_REQUESTED")
       (lit "safe development mode has not requested TUN, route, firewall, service, or DNS privileges")]
    (lit "Redacted development diagnostic; no keys, tokens, domains, or DNS responses included.").
Definition RunDoctor (nowPrune nowUptime now : Z) : act Service ApiErr DiagnosticReport :=
  let! status := ServiceStatus nowPrune nowUptime in
  act_ret (doctor_report status now).

Definition update_status (versions : Versions) (now : Z) : UpdateStatus :=
  mkUpdateStatus (lit "IDLE") (vs_Bundle versions) [] true false now
    (lit "no signed update feed is configured for this development build").
Definition CheckUpdate (now : Z) : act Service ApiErr UpdateStatus :=
  let! s := act_get in
  act_ret (update_status (sv_versions s) now).
Definition UpdateAction (action : bytes) (request : OperationRequest) : act Service ApiErr UpdateStatus := act_fail ErrUnsupported.

(** ** The simulated connection *)
Definition connection_key (id : bytes) : bytes := lit "connection:" ++ id.
(** Under the lock *)
Definition ConnectionAction_locked (action : bytes) (request : OperationRequest) (now : Z) : act Service ApiErr OperationResponse :=
  let! s := act_get in
  let key := connection_key (oq_OperationID request) in
  match sv_operations s !! key with
  | Some completed => act_ret completed
  | None =>
      do! if bool_decide (action = lit "connect") then
            if bool_decide (sv_endpoint s = []) then act_fail ErrInvalidInput
            else if negb (bool_decide (sv_state s = lit "CONNECTED"))
            then act_set (with_connection (lit "CONNECTED") (Some now) 0 0) else act_ret tt
          else if bool_decide (action = lit "disconnect") then
            act_set (with_connection (lit "DISCONNECTED") None (sv_upload s) (sv_download s))
          else if bool_decide (action = lit "reconnect") then
            if bool_decide (sv_endpoint s = []) then act_fail ErrInvalidInput
            else act_set (with_connection (lit "CONNECTED") (Some now) (sv_upload s) (sv_download s))
          else act_fail ErrInvalidInput;
      do! act_set (with_revision (u64 (sv_revision s + 1)));
      let! s := act_get in
      let response := mkOperationResponse (oq_OperationID request) true (sv_state s) (sv_revision s)
        (lit "development simulator updated; no host network state was changed") in
      do! act_set (with_operation key response);
      act_ret response
  end.
Definition ConnectionAction (action : bytes) (request : OperationRequest) (now : Z) : act Service ApiErr OperationResponse :=
  let! s := act_get in
  if bool_decide (sv_mode s = lit "server") then act_fail ErrUnsupported
  else
    do! act_lift (validateOperationID (oq_OperationID request));
    ConnectionAction_locked action request now.

Definition no_dns_status : DNSStatus := mkDNSStatus [] false 0 [] [] 0 0 [] 0 0 0 0 (float64_of 0) 0 [].
Definition RefreshDNS (request : OperationRequest) (read : Snapshot + bytes) (dnsNow : Z) (s : Service) : Service * (DNSStatus * option ApiErr) :=
  if bool_decide (sv_mode s = lit "server") then (s, (no_dns_status, Some ErrUnsupported))
  else match validateOperationID (oq_OperationID request) with
  | Ok _ =>
      if negb (sv_hasSource s) then (s, (dnsResponse s, Some ErrUnsupported))
      else
        let '(dns, (_, err)) := RefreshFrom (Some read) dnsNow (sv_dns s) in
        let s := with_revision (u64 (sv_revision s + 1)) (with_dns dns s) in
        (s, (dnsResponse s, match err with Some _ => Some ErrInternal | None => None end))
  | _ => (s, (no_dns_status, Some ErrInvalidInput))
  end.

(** ** Overrides *)
Definition set_key (id : bytes) : bytes := lit "rule-set:" ++ id.
Definition delete_key (id : bytes) : bytes := lit "rule-delete:" ++ id.
Definition rule_by_id (e : Engine) (id : bytes) : option Rule := snd <$> list_find (fun r => rule_id r = id) (List e).

(** Under the lock *)
Definition set_refused (request : SetRuleRequest) (target : Target) (s : Service) : option ApiErr :=
  let conflict := match sq_ExpectedRevision request with
    | Some expected => if negb (rm_revision (meta_of (sv_ruleMeta s) (tg_Value target)) =? expected) then Some ErrConflict else None
    | None => None
    end in
  if negb (bool_decide (sq_ID request = [])) then
    match rule_by_id (sv_routes s) (sq_ID request) with
    | None => Some ErrNotFound
    | Some existing => if negb (bool_decide (tg_Value (rl_Target existing) = tg_Value target)) then Some ErrInvalidInput else conflict
    end
  else conflict.
Definition set_stored (request : SetRuleRequest) (target : Target) (rule : Rule) (s : Service) : Service * RuleMutationResponse :=
  let revision := u64 (sv_revision s + 1) in
  let meta := mkRuleMetadata (TrimSpace (sq_Note request)) (sq_ExpiresAt request) revision in
  let response := mkRuleMutationResponse (sq_OperationID request) (apiRule rule meta) (Generation (sv_routes s)) (lit "ACTIVE") in
  (with_ruleOp (set_key (sq_OperationID request)) response
     (with_rules_of (sv_routes s) (<[tg_Value target := meta]> (sv_ruleMeta s)) (removeRecentAutoLocked (tg_Value target) (sv_recentAuto s))
        (with_revision revision s)), response).
Definition set_body (request : SetRuleRequest) (target : Target) (action : Action) (nowRule : Z) : body (outcome ApiErr RuleMutationResponse) :=
  Touch id (fun s =>
    match sv_ruleOps s !! set_key (sq_OperationID request) with
    | Some completed => Done (Ok completed)
    | None =>
        match set_refused request target s with
        | Some e => Done (Err e)
        | None =>
            Touch (on_routes (fun e => fst (SetRule (tg_Value target) action nowRule e))) (fun s =>
              match wrap_err (fun _ => ErrInvalidInput) (snd (SetRule (tg_Value target) action nowRule (sv_routes s))) with
              | Ok rule => Touch (fun s => fst (set_stored request target rule s)) (fun s => Done (Ok (snd (set_stored request target rule s))))
              | Err e => Done (Err e)
              | Panic => Done Panic
              | Diverge => Done Diverge
              end)
        end
    end).

Definition SetRule_locked (request : SetRuleRequest) (target : Target) (action : Action) (nowRule : Z) : act Service ApiErr RuleMutationResponse :=
  run_body (set_body request target action nowRule).

Definition Service_SetRule (request : SetRuleRequest) (nowPrune nowCheck nowRule : Z) : act Service ApiErr RuleMutationResponse :=
  let! s := act_get in
  if bool_decide (sv_mode s = lit "server") then act_fail ErrUnsupported
  else
    do! act_lift (validateOperationID (sq_OperationID request));
    do! prune nowPrune;
    let! action := act_lift (wrap_err (fun _ => ErrInvalidInput) (ParseAction (sq_Result request))) in
    if bool_decide (action = ActionAuto) then act_fail ErrInvalidInput
    else
      let! target := act_lift (wrap_err (fun _ => ErrInvalidInput) (ParseTarget (sq_Target request))) in
      do! match sq_ExpiresAt request with
          | Some at_ => if negb (nowCheck <? at_) then act_fail ErrInvalidInput else act_ret tt
          | None => act_ret tt
          end;
      SetRule_locked request target action nowRule.

(** The identifier a request without one stands for *)
Definition id_of_target (s : Service) (value : bytes) : bytes :=
  match list_find (fun r => tg_Value (rl_Target r) = value) (List (sv_routes s)) with
  | Some (_, candidate) => rule_id candidate
  | None => match list_find (fun row => ar_Target row = value) (sv_recentAuto s) with
            | Some (_, row) => ar_ID row
            | None => []
            end
  end.

Definition auto_removed (revision : Z) (row : ApiRule) : ApiRule :=
  mkApiRule (ar_ID row) (ar_Target row) (ar_TargetType row) (lit "AUTO") (lit "AUTOMATIC")
    (lit "automatic cache removed; the next flow will be classified again") (ar_ExpiresAt row) (ar_Note row) revision (ar_CreatedAt row).

(** Under the lock *)
(** The automatic row [row] at [index] is forgotten *)
Definition auto_deleted (request : DeleteRuleRequest) (index : nat) (row : ApiRule) (s : Service) : Service * RuleMutationResponse :=
  let revision := u64 (sv_revision s + 1) in
  let response := mkRuleMutationResponse (dq_OperationID request) (auto_removed revision row) (Generation (sv_routes s)) (lit "AUTO") in
  (with_ruleOp (delete_key (dq_OperationID request)) response
     (with_revision revision (with_rules_of (sv_routes s) (sv_ruleMeta s) (take index (sv_recentAuto s) ++ drop (S index) (sv_recentAuto s)) s)), response).
Definition rule_deleted (request : DeleteRuleRequest) (id value : bytes) (decision : Decision) (nowReply : Z) (s : Service) : Service * RuleMutationResponse :=
  let revision := u64 (sv_revision s + 1) in
  let rule := mkApiRule id (tg_Value (dc_Target decision)) (kind_text (tg_Kind (dc_Target decision))) (lit "AUTO")
    (source_text (dc_Source decision)) (dc_Reason decision) None [] revision nowReply in
  let response := mkRuleMutationResponse (dq_OperationID request) rule (dc_Generation decision) (lit "AUTO") in
  (with_ruleOp (delete_key (dq_OperationID request)) response
     (with_revision revision (with_rules_of (sv_routes s) (delete value (sv_ruleMeta s)) (removeRecentAutoLocked value (sv_recentAuto s)) s)), response).
Definition deleted_id (id : bytes) (request : DeleteRuleRequest) (s : Service) : outcome ApiErr bytes :=
  if bool_decide (id = []) then
    let* parsedTarget := wrap_err (fun _ => ErrInvalidInput) (ParseTarget (dq_Target request)) in Ok (id_of_target s (tg_Value parsedTarget))
  else Ok id.
Definition delete_body (id : bytes) (request : DeleteRuleRequest) (nowReply : Z) : body (outcome ApiErr RuleMutationResponse) :=
  Touch Datatypes.id (fun s =>
    match sv_ruleOps s !! delete_key (dq_OperationID request) with
    | Some completed => Done (Ok completed)
    | None =>
        match deleted_id id request s with
        | Ok id =>
            if HasPrefix id (lit "auto-") then
              match list_find (fun row => ar_ID row = id) (sv_recentAuto s) with
              | Some (index, row) => Touch (fun s => fst (auto_deleted request index row s)) (fun s => Done (Ok (snd (auto_deleted request index row s))))
              | None => Done (Err ErrNotFound)
              end
            else match rule_by_id (sv_routes s) id with
            | None => Done (Err ErrNotFound)
            | Some matched =>
                let value := tg_Value (rl_Target matched) in
                let conflict := match dq_ExpectedRevision request with
                  | Some expected => negb (rm_revision (meta_of (sv_ruleMeta s) value) =? expected)
                  | None => false
                  end in
                if conflict then Done (Err ErrConflict)
                else
                  Touch (on_routes (fun e => fst (DeleteRule value e))) (fun s =>
                    match wrap_err (fun _ => ErrInternal) (snd (DeleteRule value (sv_routes s))) with
                    | Ok decision => Touch (fun s => fst (rule_deleted request id value decision nowReply s))
                                       (fun s => Done (Ok (snd (rule_deleted request id value decision nowReply s))))
                    | Err e => Done (Err e)
                    | Panic => Done Panic
                    | Diverge => Done Diverge
                    end)
            end
        | Err e => Done (Err e)
        | Panic => Done Panic
        | Diverge => Done Diverge
        end
    end).
Definition DeleteRule_locked (id : bytes) (request : DeleteRuleRequest) (nowReply : Z) : act Service ApiErr RuleMutationResponse :=
  run_body (delete_body id request nowReply).

Definition Service_DeleteRule (id : bytes) (request : DeleteRuleRequest) (nowPrune nowReply : Z) : act Service ApiErr RuleMutationResponse :=
  let! s := act_get in
  if bool_decide (sv_mode s = lit "server") then act_fail ErrUnsupported
  else
    do! act_lift (validateOperationID (dq_OperationID request));
    do! prune nowPrune;
    DeleteRule_locked id request nowReply.

(** ** Pairing *)
Definition pairing_file : bytes := lit "wg-pairing.wgp".
Definition pairing_minutes : Z := 10 * 60 * 1000000000.

(** Under the lock; [nowEach] is the reading for each pending entry. *)
Definition ValidatePairing_locked (validationID normalizedIP : bytes) (request : PairingValidationRequest) (expiresAt : Z) (nowEach : bytes -> Z)
  : act Service ApiErr PairingValidation :=
  let! s := act_get in
  let pending := filter (fun '(id, v) => nowEach id < pn_expiresAt v) (sv_pairingValidations s) in
  do! act_set (with_pairing (sv_endpoint s) pending);
  if 128 <=? Z.of_nat (size pending) then act_fail ErrConflict
  else
    do! act_set (with_pairing (sv_endpoint s)
          (<[validationID := mkPairingState normalizedIP (pq_FileName request) demoFingerprint expiresAt]> pending));
    act_ret (mkPairingValidation true validationID normalizedIP 9518 (pq_FileName request) demoFingerprint expiresAt
      (lit "development validation only; production must inspect the 0600 file and verify its signed fields")).

(** [random] is what [rand.Read] delivers; [nowEach] the reading for each pending entry. *)
Definition ValidatePairing (request : PairingValidationRequest) (random : option bytes) (now : Z) (nowEach : bytes -> Z) : act Service ApiErr PairingValidation :=
  let! s := act_get in
  if bool_decide (sv_mode s = lit "server") then act_fail ErrUnsupported
  else match ParseAddr (TrimSpace (pq_ServerIP request)) with
  | None => act_fail ErrInvalidInput
  | Some address =>
      if negb (bool_decide (pq_FileName request = pairing_file)) then act_fail ErrInvalidInput
      else if negb (bool_decide (pq_Fingerprint request = [])) && negb (bool_decide (pq_Fingerprint request = demoFingerprint)) then act_fail ErrInvalidInput
      else match random with
      | None => act_fail ErrInternal
      | Some validationBytes =>
          let validationID := hex_encode validationBytes in
          let expiresAt := now + pairing_minutes in
          let normalizedIP := Addr_String address in
          ValidatePairing_locked validationID normalizedIP request expiresAt nowEach
      end
  end.

Definition enroll_key (id : bytes) : bytes := lit "enroll:" ++ id.
(** Under the lock *)
Definition Enroll_locked (request : EnrollRequest) (address : Addr) (now : Z) : act Service ApiErr OperationResponse :=
  let! s := act_get in
  let key := enroll_key (eq_OperationID request) in
  match sv_operations s !! key with
  | Some completed => act_ret completed
  | None =>
      match sv_pairingValidations s !! eq_ValidationID request with
      | None => act_fail ErrInvalidInput
      | Some validation =>
          if negb (now <? pn_expiresAt validation) then
            do! act_set (with_pairing (sv_endpoint s) (delete (eq_ValidationID request) (sv_pairingValidations s)));
            act_fail ErrInvalidInput
          else if negb (bool_decide (pn_serverIP validation = Addr_String address))
                  || negb (bool_decide (pn_fileName validation = eq_FileName request))
                  || negb (bool_decide (pn_fingerprint validation = eq_Fingerprint request))
          then act_fail ErrInvalidInput
          else
            do! act_set (with_pairing (AddrPort_String address 9518) (delete (eq_ValidationID request) (sv_pairingValidations s)));
            let revision := u64 (sv_revision s + 1) in
            do! act_set (with_revision revision);
            let response := mkOperationResponse (eq_OperationID request) true (lit "COMPLETE") revision
              (lit "development enrollment completed without consuming a real token or changing host networking") in
            do! act_set (with_operation key response);
            act_ret response
      end
  end.
Definition Enroll (request : EnrollRequest) (now : Z) : act Service ApiErr OperationResponse :=
  do! act_lift (validateOperationID (eq_OperationID request));
  if negb (eq_FingerprintConfirmed request) || negb (eq_AuthorizationConfirmed request) then act_fail ErrInvalidInput
  else if negb (bool_decide (eq_FileName request = pairing_file)) then act_fail ErrInvalidInput
  else match ParseAddr (TrimSpace (eq_ServerIP request)) with
  | None => act_fail ErrInvalidInput
  | Some address =>
      if negb (len (eq_ValidationID request) =? 32) then act_fail ErrInvalidInput
      else if negb (hex_decodable (eq_ValidationID request)) then act_fail ErrInvalidInput
      else
        Enroll_locked request address now
  end.
End Service.
