(* ===== verification/ServiceSafety.v ===== *)
(** * Safety of the application service

    The invariant that ties the metadata of overrides to the rules of the routing
    engine, its preservation by every backend call, and what follows: expired
    overrides never decide, completed operations are replayed, pairing validations
    are bounded and used once. *)

From stdpp Require Import base strings numbers gmap list.
From S2P Require Import Prelude CodecErrors Frame GoStrings Netip Routing PrivateDns ControlTypes Service.
Local Open Scope Z_scope.
Local Open Scope wg_scope.

Section Safety.
Context {U : Unicode}.

(** ** The invariant *)

(** [v] is the text of the target [t] and stands for it. *)
Definition names (v : bytes) (t : Target) : Prop := ParseTarget v = Ok t /\ tg_Value t = v.

Record service_ok (s : Service) : Prop := {
  so_engine : engine_ok (sv_routes s);
  (** the text of every rule's target stands for it *)
  so_fixed : map_Forall (fun _ r => names (tg_Value (rl_Target r)) (rl_Target r)) (en_rules (sv_routes s));
  (** an override has metadata under its text, and only overrides have *)
  so_meta : forall v, is_Some (sv_ruleMeta s !! v) <-> exists t, names v t /\ is_Some (en_rules (sv_routes s) !! targetKey t);
  so_pairing : (size (sv_pairingValidations s) <= 128)%nat
}.

Lemma names_eq v t t' : names v t -> names v t' -> t = t'.
Proof. intros [H _] [H' _]. congruence. Qed.

Lemma names_key v v' t t' : names v t -> names v' t' -> targetKey t = targetKey t' -> v = v'.
Proof. intros [_ <-] [_ <-] [_ H]%targetKey_inj. done. Qed.

Lemma ParseTarget_names value t : ParseTarget value = Ok t -> exists t', names (tg_Value t) t'.
Proof. intros (t' & H1 & H2)%ParseTarget_value. by exists t'. Qed.

(** The same rules, metadata and pending validations *)
Lemma service_ok_same s s' : service_ok s -> sv_routes s' = sv_routes s -> sv_ruleMeta s' = sv_ruleMeta s ->
  sv_pairingValidations s' = sv_pairingValidations s -> service_ok s'.
Proof. intros [H1 H2 H3 H4] E1 E2 E3. split; rewrite ?E1, ?E2, ?E3; done. Qed.

Lemma DeleteRule_names v t e : names v t -> fst (DeleteRule v e) = match en_rules e !! targetKey t with
    | Some _ => with_rules (delete (targetKey t) (en_rules e)) (en_nextID e) e | None => e end.
Proof. intros [H _]. by rewrite DeleteRule_state, H. Qed.

Lemma DeleteRule_rules v t e : names v t -> en_rules (fst (DeleteRule v e)) = delete (targetKey t) (en_rules e).
Proof. intros H. rewrite (DeleteRule_names v t e H). destruct (en_rules e !! targetKey t) eqn:E; cbn; [done | by rewrite delete_id]. Qed.

(** Removing an override with its metadata *)
Lemma service_ok_delete s v t auto : service_ok s -> names v t ->
  service_ok (with_rules_of (fst (DeleteRule v (sv_routes s))) (delete v (sv_ruleMeta s)) auto s).
Proof.
  intros [He Hf Hm Hp] Hn. split; cbn [with_rules_of sv_routes sv_ruleMeta sv_pairingValidations]; [exact (run_op_ok _ (OpDelete v) He) | | |done].
  - rewrite (DeleteRule_rules v t) by done. by apply map_Forall_delete.
  - intros v'. rewrite (DeleteRule_rules v t) by done. destruct (decide (v = v')) as [<-|Hne].
    + rewrite lookup_delete_eq. split; [by intros []|]. intros (t' & Hn' & H). rewrite (names_eq v t' t Hn' Hn), lookup_delete_eq in H. by destruct H.
    + rewrite lookup_delete_ne by done. rewrite Hm. split; intros (t' & Hn' & H); exists t'; (split; [done|]).
      * rewrite lookup_delete_ne; [done|]. intros E. apply Hne. by eapply names_key.
      * rewrite lookup_delete_ne in H; [done|]. intros E. apply Hne. by eapply names_key.
Qed.

Lemma SetRule_rules v t action now e e' r : names v t -> SetRule v action now e = (e', Ok r) ->
  en_rules e' = <[targetKey t := r]> (en_rules e) /\ (map_Forall rule_ok (en_rules e) -> rl_Target r = t).
Proof.
  intros [Ht _] H. pose proof (SetRule_cases v action now e) as Hc. rewrite H in Hc. destruct Hc as (t' & Ht' & _ & Hc). rewrite Ht in Ht'. injection Ht' as <-.
  assert (Hold : forall x, en_rules e !! targetKey t = Some x -> map_Forall rule_ok (en_rules e) -> rl_Target x = t).
  { intros x Hx Hr. destruct (Hr _ _ Hx) as (H1 & H2 & _). apply target_ok_eq; [done | by apply ParseTarget_ok in Ht | done]. }
  destruct Hc as [(x & Hx & [(_ & -> & ->)|(_ & -> & ->)])|(Hx & -> & ->)]; cbn [with_rules en_rules].
  - split; [by rewrite insert_id | auto].
  - split; [done | cbn; auto].
  - done.
Qed.

(** Storing an override with its metadata *)
Lemma service_ok_set s v t action now e' r meta auto : service_ok s -> names v t -> SetRule v action now (sv_routes s) = (e', Ok r) ->
  service_ok (with_rules_of e' (<[v := meta]> (sv_ruleMeta s)) auto s).
Proof.
  intros [He Hf Hm Hp] Hn H. destruct (SetRule_rules v t action now _ _ _ Hn H) as [Hr Ht]. destruct He as (Hok & He).
  specialize (Ht Hok). split; cbn [with_rules_of sv_routes sv_ruleMeta sv_pairingValidations].
  - pose proof (run_op_ok (sv_routes s) (OpSet v action now) (conj Hok He)) as Ho. cbn [run_op] in Ho. by rewrite H in Ho.
  - rewrite Hr. apply map_Forall_insert_2; [|done]. rewrite Ht. destruct Hn as [H1 H2]. by rewrite H2.
  - intros v'. rewrite Hr. destruct (decide (v = v')) as [<-|Hne].
    + rewrite lookup_insert_eq. split; [|by eauto]. intros _. exists t. split; [done|]. by rewrite lookup_insert_eq.
    + rewrite lookup_insert_ne by done. rewrite Hm. split; intros (t' & Hn' & Hs); exists t'; (split; [done|]).
      * rewrite lookup_insert_ne; [done|]. intros E. apply Hne. by eapply names_key.
      * rewrite lookup_insert_ne in Hs; [done|]. intros E. apply Hne. by eapply names_key.
  - done.
Qed.

(** ** Pruning *)
Definition live (now : Z) (s : Service) (r : Rule) : Prop :=
  exists meta, sv_ruleMeta s !! tg_Value (rl_Target r) = Some meta /\ expired now meta = false.

Lemma prune_one_shape now s v meta : expired now meta = true -> exists revision,
  prune_one now s (v, meta) = with_revision revision (with_rules_of (fst (DeleteRule v (sv_routes s))) (delete v (sv_ruleMeta s)) (removeRecentAutoLocked v (sv_recentAuto s)) s).
Proof.
  intros E. unfold prune_one. rewrite E. cbn [negb]. destruct (DeleteRule v (sv_routes s)) as [e r]. cbn [fst].
  destruct r; (eexists; reflexivity).
Qed.

Lemma prune_one_ok now s v meta : service_ok s -> (exists t, names v t) -> service_ok (prune_one now s (v, meta)).
Proof.
  intros Hs [t Ht]. destruct (expired now meta) eqn:E; [|unfold prune_one; by rewrite E].
  destruct (prune_one_shape now s v meta E) as [revision ->]. by apply (service_ok_same _ _ (service_ok_delete s v t (sv_recentAuto s) Hs Ht)).
Qed.

(** What is left of rules and metadata after the entries of [l] *)
Lemma prune_list now l : forall s, service_ok s -> Forall (fun entry => exists t, names entry.1 t) l -> NoDup l.*1 ->
  (forall v m, (v, m) ∈ l -> sv_ruleMeta s !! v = Some m) ->
  let s' := fold_left (prune_one now) l s in
  service_ok s' /\ (forall v m, sv_ruleMeta s' !! v = Some m <-> sv_ruleMeta s !! v = Some m /\ ((v, m) ∈ l -> expired now m = false))
  /\ (forall k r, en_rules (sv_routes s') !! k = Some r <-> en_rules (sv_routes s) !! k = Some r
       /\ forall m, (tg_Value (rl_Target r), m) ∈ l -> expired now m = false).
Proof.
  induction l as [|[v m] l IH]; intros s Hs Hl Hnd Hin; cbn [fold_left].
  { split_and!; [done | |]; intros; (split; [intros H; split; [done | intros; by exfalso; eapply not_elem_of_nil] | by intros [? _]]). }
  apply Forall_cons in Hl as [[t Ht] Hl]. cbn [fst] in Ht. cbn in Hnd. apply NoDup_cons in Hnd as [Hv Hnd].
  assert (Hvl : forall m', (v, m') ∉ l) by (intros m' H; apply Hv, list_elem_of_fmap; by exists (v, m')).
  destruct (expired now m) eqn:E.
  - destruct (prune_one_shape now s v m E) as [revision Hshape].
    destruct (IH (prune_one now s (v, m))) as (H1 & H2 & H3).
    { apply prune_one_ok; [done | by exists t]. } { done. } { done. }
    { intros v' m' Hin'. rewrite Hshape. cbn. rewrite lookup_delete_ne; [apply Hin; by right|]. intros ->. by apply (Hvl m'). }
    split_and!; [done | |].
    + intros v' m'. rewrite H2, Hshape. cbn. rewrite lookup_delete_Some, elem_of_cons. split.
      * intros [[Hne H] Hl']. split; [done|]. intros [[= <- <-]|]; [done | by apply Hl'].
      * intros [H Hl']. destruct (decide (v = v')) as [<-|Hne]; [|naive_solver].
        rewrite (Hin v m ltac:(by left)) in H. injection H as <-. by rewrite Hl' in E by (by left).
    + intros k r. rewrite H3, Hshape. cbn [with_revision with_rules_of sv_routes]. rewrite (DeleteRule_rules v t) by done. rewrite lookup_delete_Some. split.
      * intros [[Hne H] Hl']. split; [done|]. intros m' [[= E1 E2]|]%elem_of_cons; [|by apply Hl'].
        exfalso. apply Hne. destruct (so_fixed s Hs k r H) as [Hf _]. destruct (so_engine s Hs) as (Hr & _). destruct (Hr k r H) as [<- _].
        rewrite E1 in Hf. destruct Ht as [Ht _]. congruence.
      * intros [H Hl']. split; [|intros m' Hm'; apply Hl'; by right]. split; [|done]. intros <-.
        destruct (so_engine s Hs) as (Hr & _). destruct (Hr _ r H) as [E1 _]. apply targetKey_inj in E1 as [_ E1]. destruct Ht as [_ Ht]. rewrite Ht in E1.
        rewrite (Hl' m) in E; [done|]. rewrite E1. by left.
  - assert (Hsame : prune_one now s (v, m) = s) by (unfold prune_one; by rewrite E). rewrite Hsame.
    destruct (IH s Hs Hl Hnd) as (H1 & H2 & H3); [intros v' m' H; apply Hin; by right|]. split_and!; [done | |].
    + intros v' m'. rewrite H2, elem_of_cons. naive_solver.
    + intros k r. rewrite H3. setoid_rewrite elem_of_cons. naive_solver.
Qed.

(** Pruning keeps exactly the overrides that have not expired. *)
Lemma prune_spec now s : service_ok s ->
  let s' := pruneExpiredRules now s in
  service_ok s' /\ (forall v m, sv_ruleMeta s' !! v = Some m <-> sv_ruleMeta s !! v = Some m /\ expired now m = false)
  /\ (forall k r, en_rules (sv_routes s') !! k = Some r <-> en_rules (sv_routes s) !! k = Some r /\ live now s r).
Proof.
  intros Hs. unfold pruneExpiredRules. destruct (prune_list now (map_to_list (sv_ruleMeta s)) s Hs) as (H1 & H2 & H3).
  - apply Forall_forall. intros [v m] H%elem_of_map_to_list. cbn. destruct (proj1 (so_meta s Hs v)) as (t & Ht & _); [by eexists | by exists t].
  - apply NoDup_fst_map_to_list.
  - intros v m H. by apply elem_of_map_to_list.
  - split_and!; [done | |].
    + intros v m. rewrite H2, elem_of_map_to_list. naive_solver.
    + intros k r. rewrite H3. unfold live. setoid_rewrite elem_of_map_to_list. split; [|naive_solver].
      intros [H Hall]. split; [done|]. destruct (proj2 (so_meta s Hs (tg_Value (rl_Target r)))) as [m Hm].
      * exists (rl_Target r). split; [by apply (so_fixed s Hs k r)|]. destruct (so_engine s Hs) as (Hr & _). destruct (Hr k r H) as [-> _]. by eexists.
      * exists m. split; [done | by apply Hall].
Qed.

(** ** The methods, branch by branch *)
Lemma validateOperationID_cases id : validateOperationID id = Ok tt \/ validateOperationID id = Err ErrInvalidInput.
Proof. unfold validateOperationID. repeat case_match; auto. Qed.

Definition client (s : Service) : Prop := sv_mode s <> lit "server".

Lemma ConnectionAction_locked_cases action request now s :
  match ConnectionAction_locked action request now s with
  | (s', Ok r) =>
      sv_operations s !! connection_key (oq_OperationID request) = Some r /\ s' = s
      \/ sv_operations s !! connection_key (oq_OperationID request) = None
         /\ (exists state connected upload download, s' = with_operation (connection_key (oq_OperationID request)) r
              (with_revision (u64 (sv_revision s + 1)) (with_connection state connected upload download s)))
  | (s', Err _) => s' = s
  | _ => False
  end.
Proof.
  unfold ConnectionAction_locked, act_bind, act_get, act_lift, act_fail, act_ret, act_set.
  destruct (sv_operations s !! _) as [r|] eqn:Hop; [by auto|].
  repeat match goal with |- context [if ?c then _ else _] => destruct c; try done end; right; (split; [done|]); try by eexists _, _, _, _.
Qed.

(** A method is refused before it takes the lock, or is its locked part. *)
Lemma ConnectionAction_locks action request now s :
  (exists e, ConnectionAction action request now s = (s, Err e))
  \/ client s /\ validateOperationID (oq_OperationID request) = Ok tt /\ ConnectionAction action request now s = ConnectionAction_locked action request now s.
Proof.
  unfold ConnectionAction, client, act_bind, act_get, act_lift.
  destruct (bool_decide_reflect (sv_mode s = lit "server")) as [|Hm]; [left; by eexists|].
  destruct (validateOperationID_cases (oq_OperationID request)) as [-> | ->]; [by right | left; by eexists].
Qed.

Lemma ConnectionAction_cases action request now s :
  match ConnectionAction action request now s with
  | (s', Ok r) => client s /\ validateOperationID (oq_OperationID request) = Ok tt /\
      (sv_operations s !! connection_key (oq_OperationID request) = Some r /\ s' = s
       \/ sv_operations s !! connection_key (oq_OperationID request) = None
          /\ (exists state connected upload download, s' = with_operation (connection_key (oq_OperationID request)) r
               (with_revision (u64 (sv_revision s + 1)) (with_connection state connected upload download s))))
  | (s', Err _) => s' = s
  | _ => False
  end.
Proof.
  destruct (ConnectionAction_locks action request now s) as [[e ->]|(Hm & Hv & ->)]; [done|].
  pose proof (ConnectionAction_locked_cases action request now s) as H. by destruct (ConnectionAction_locked action request now s) as [s' []].
Qed.

Lemma act_bind_lift {S E A B} (o : outcome E A) (k : A -> act S E B) s :
  act_bind (act_lift o) k s = match o with Ok a => k a s | Err e => (s, Err e) | Panic => (s, Panic) | Diverge => (s, Diverge) end.
Proof. by destruct o. Qed.

Lemma ParseAction_cases value : match ParseAction value with Ok a => action_valid a = true | Err _ => True | _ => False end.
Proof. unfold ParseAction. destruct (action_valid _) eqn:E; cbn; done. Qed.

Lemma Explain_returns e value : returns (Explain e value).
Proof.
  unfold Explain. pose proof (ParseTarget_returns value). destruct (ParseTarget value); try done. cbn. destruct (matchLocked e a); [done|].
  by destruct (automatic a (en_decider e) (en_defaultAction e)).
Qed.

Lemma DeleteRule_cases v e : match DeleteRule v e with (e', Ok _) => True | (e', Err _) => e' = e | _ => False end.
Proof.
  unfold DeleteRule. rewrite act_bind_lift. pose proof (ParseTarget_returns v) as H. destruct (ParseTarget v) as [t|err| |] eqn:Ht; try done.
  apply ParseTarget_value in Ht as (t' & Ht' & _). unfold act_bind, act_get, act_lift.
  assert (Hx : forall e, exists d, Explain e (tg_Value t) = Ok d).
  { intros e'. unfold Explain. rewrite Ht'. cbn. destruct (matchLocked e' t'); [by eexists|]. destruct (automatic _ _ _). by eexists. }
  destruct (en_rules e !! targetKey t); cbn -[Explain]; match goal with |- context [Explain ?e' _] => destruct (Hx e') as [d ->] end; done.
Qed.

Lemma SetRule_locked_cases request target action n3 p :
  let key := set_key (sq_OperationID request) in
  match SetRule_locked request target action n3 p with
  | (s', Ok r) =>
      sv_ruleOps p !! key = Some r /\ s' = p
      \/ sv_ruleOps p !! key = None /\ exists routes rule meta, SetRule (tg_Value target) action n3 (sv_routes p) = (routes, Ok rule)
         /\ rm_expiresAt meta = sq_ExpiresAt request
         /\ s' = with_ruleOp key r (with_rules_of routes (<[tg_Value target := meta]> (sv_ruleMeta p))
               (removeRecentAutoLocked (tg_Value target) (sv_recentAuto p)) (with_revision (u64 (sv_revision p + 1)) p))
         /\ r = mkRuleMutationResponse (sq_OperationID request) (apiRule rule meta) (Generation routes) (lit "ACTIVE")
  | (s', Err _) => s' = p
  | _ => False
  end.
Proof.
  unfold SetRule_locked, set_body. cbn [run_body]. change (id p) with p. cbv zeta.
  destruct (sv_ruleOps p !! _) as [r|] eqn:Hop; [by left|]. destruct (set_refused request target p) as [e|]; [done|]. cbn [run_body].
  pose proof (SetRule_cases (tg_Value target) action n3 (sv_routes p)) as Hc. unfold on_routes.
  destruct (SetRule (tg_Value target) action n3 (sv_routes p)) as [routes [rule|e| |]] eqn:Hs; try done; cbn [fst snd wrap_err run_body].
  - right. split; [done|]. by exists routes, rule, (mkRuleMetadata (TrimSpace (sq_Note request)) (sq_ExpiresAt request) (u64 (sv_revision p + 1))).
  - destruct Hc as [-> _]. by destruct p.
Qed.

Lemma Service_SetRule_locks request n1 n2 n3 s :
  (exists e, Service_SetRule request n1 n2 n3 s = (s, Err e) \/ Service_SetRule request n1 n2 n3 s = (pruneExpiredRules n1 s, Err e))
  \/ client s /\ validateOperationID (sq_OperationID request) = Ok tt /\ exists target action,
      ParseTarget (sq_Target request) = Ok target /\ ParseAction (sq_Result request) = Ok action /\ action <> ActionAuto
      /\ Service_SetRule request n1 n2 n3 s = SetRule_locked request target action n3 (pruneExpiredRules n1 s).
Proof.
  unfold Service_SetRule, client, prune, act_bind, act_get, act_set, act_lift.
  destruct (bool_decide_reflect (sv_mode s = lit "server")) as [|Hm]; [left; eexists; by left|].
  destruct (validateOperationID_cases (sq_OperationID request)) as [Hv | Hv]; rewrite Hv; [|left; eexists; by left].
  pose proof (ParseAction_cases (sq_Result request)) as Ha. destruct (ParseAction (sq_Result request)) as [action|e| |]; try done; cbn [wrap_err]; [|left; eexists; by right].
  destruct (bool_decide_reflect (action = ActionAuto)) as [|Hna]; [left; eexists; by right|].
  pose proof (ParseTarget_returns (sq_Target request)) as Hret.
  destruct (ParseTarget (sq_Target request)) as [target|e| |] eqn:Ht; try done; cbn [wrap_err]; [|left; eexists; by right].
  destruct (sq_ExpiresAt request) as [at_|]; [destruct (negb _); [left; eexists; by right|]|]; right; split_and!; try done; by exists target, action.
Qed.

Lemma Service_SetRule_cases request n1 n2 n3 s :
  match Service_SetRule request n1 n2 n3 s with
  | (s', Ok r) => client s /\ validateOperationID (sq_OperationID request) = Ok tt /\ exists target action,
      ParseTarget (sq_Target request) = Ok target /\ ParseAction (sq_Result request) = Ok action /\ action <> ActionAuto /\
      let p := pruneExpiredRules n1 s in
      let key := set_key (sq_OperationID request) in
      (sv_ruleOps p !! key = Some r /\ s' = p
       \/ sv_ruleOps p !! key = None /\ exists routes rule meta, SetRule (tg_Value target) action n3 (sv_routes p) = (routes, Ok rule)
          /\ rm_expiresAt meta = sq_ExpiresAt request
          /\ s' = with_ruleOp key r (with_rules_of routes (<[tg_Value target := meta]> (sv_ruleMeta p))
                (removeRecentAutoLocked (tg_Value target) (sv_recentAuto p)) (with_revision (u64 (sv_revision p + 1)) p))
          /\ r = mkRuleMutationResponse (sq_OperationID request) (apiRule rule meta) (Generation routes) (lit "ACTIVE"))
  | (s', Err _) => s' = s \/ s' = pruneExpiredRules n1 s
  | _ => False
  end.
Proof.
  destruct (Service_SetRule_locks request n1 n2 n3 s) as [(e & [-> | ->])|(Hm & Hv & target & action & Ht & Ha & Hna & ->)]; [by left | by right|].
  pose proof (SetRule_locked_cases request target action n3 (pruneExpiredRules n1 s)) as H.
  destruct (SetRule_locked request target action n3 (pruneExpiredRules n1 s)) as [s' []]; try done; [|by right].
  split_and!; [done | done|]. by exists target, action.
Qed.

Lemma DeleteRule_locked_cases id request n2 p :
  let key := delete_key (dq_OperationID request) in
  match DeleteRule_locked id request n2 p with
  | (s', Ok r) =>
      sv_ruleOps p !! key = Some r /\ s' = p
      \/ sv_ruleOps p !! key = None /\
         ((exists auto revision, s' = with_ruleOp key r (with_revision revision (with_rules_of (sv_routes p) (sv_ruleMeta p) auto p)))
          \/ (exists id' rule auto revision, rule_by_id (sv_routes p) id' = Some rule
              /\ s' = with_ruleOp key r (with_revision revision (with_rules_of (fst (DeleteRule (tg_Value (rl_Target rule)) (sv_routes p)))
                   (delete (tg_Value (rl_Target rule)) (sv_ruleMeta p)) auto p))))
  | (s', Err _) => s' = p
  | _ => False
  end.
Proof.
  unfold DeleteRule_locked, delete_body. cbn [run_body]. change (Datatypes.id p) with p. cbv zeta.
  destruct (sv_ruleOps p !! _) as [r|] eqn:Hop; [by left|].
  assert (Hid : returns (deleted_id id request p)).
  { unfold deleted_id. destruct (bool_decide _); [|done]. pose proof (ParseTarget_returns (dq_Target request)). by destruct (ParseTarget (dq_Target request)). }
  destruct (deleted_id id request p) as [i|e| |]; try done. destruct (HasPrefix i (lit "auto-")).
  - destruct (list_find _ _) as [[index row]|]; [|done]. right. split; [done|]. left. by eexists _, _.
  - destruct (rule_by_id (sv_routes p) i) as [rule|] eqn:Hr; [|done]. destruct (match dq_ExpectedRevision request with Some _ => _ | None => _ end); [done|]. cbn [run_body].
    pose proof (DeleteRule_cases (tg_Value (rl_Target rule)) (sv_routes p)) as Hd. unfold on_routes.
    destruct (DeleteRule (tg_Value (rl_Target rule)) (sv_routes p)) as [routes [d|e| |]] eqn:Hdel; try done; cbn [fst snd wrap_err run_body].
    + right. split; [done|]. right. eexists i, rule, _, _. split; [done|]. rewrite Hdel. reflexivity.
    + subst routes. by destruct p.
Qed.

Lemma Service_DeleteRule_locks id request n1 n2 s :
  (exists e, Service_DeleteRule id request n1 n2 s = (s, Err e))
  \/ client s /\ validateOperationID (dq_OperationID request) = Ok tt
     /\ Service_DeleteRule id request n1 n2 s = DeleteRule_locked id request n2 (pruneExpiredRules n1 s).
Proof.
  unfold Service_DeleteRule, client, prune, act_bind, act_get, act_set, act_lift.
  destruct (bool_decide_reflect (sv_mode s = lit "server")) as [|Hm]; [left; by eexists|].
  destruct (validateOperationID_cases (dq_OperationID request)) as [Hv | Hv]; rewrite Hv; [by right | left; by eexists].
Qed.

Lemma Service_DeleteRule_cases id request n1 n2 s :
  match Service_DeleteRule id request n1 n2 s with
  | (s', Ok r) => client s /\ validateOperationID (dq_OperationID request) = Ok tt /\
      let p := pruneExpiredRules n1 s in
      let key := delete_key (dq_OperationID request) in
      (sv_ruleOps p !! key = Some r /\ s' = p
       \/ sv_ruleOps p !! key = None /\
          ((exists auto revision, s' = with_ruleOp key r (with_revision revision (with_rules_of (sv_routes p) (sv_ruleMeta p) auto p)))
           \/ (exists id' rule auto revision, rule_by_id (sv_routes p) id' = Some rule
               /\ s' = with_ruleOp key r (with_revision revision (with_rules_of (fst (DeleteRule (tg_Value (rl_Target rule)) (sv_routes p)))
                    (delete (tg_Value (rl_Target rule)) (sv_ruleMeta p)) auto p)))))
  | (s', Err _) => s' = s \/ s' = pruneExpiredRules n1 s
  | _ => False
  end.
Proof.
  destruct (Service_DeleteRule_locks id request n1 n2 s) as [[e ->]|(Hm & Hv & ->)]; [by left|].
  pose proof (DeleteRule_locked_cases id request n2 (pruneExpiredRules n1 s)) as H.
  destruct (DeleteRule_locked id request n2 (pruneExpiredRules n1 s)) as [s' []]; try done. by right.
Qed.

Lemma ValidatePairing_locked_cases id ip request expiresAt nowEach s :
  let pending := filter (fun '(id, v) => nowEach id < pn_expiresAt v) (sv_pairingValidations s) in
  match ValidatePairing_locked id ip request expiresAt nowEach s with
  | (s', Ok r) => (size pending < 128)%nat
      /\ s' = with_pairing (sv_endpoint s) (<[id := mkPairingState ip (pq_FileName request) demoFingerprint expiresAt]> pending) s
      /\ pv_ValidationID r = id /\ pv_ServerIP r = ip /\ pv_Fingerprint r = demoFingerprint /\ pv_ExpiresAt r = expiresAt
  | (s', Err _) => s' = with_pairing (sv_endpoint s) pending s
  | _ => False
  end.
Proof.
  unfold ValidatePairing_locked, act_bind, act_get, act_fail, act_ret, act_set. cbv zeta.
  destruct (Z.leb_spec 128 (Z.of_nat (size (filter (fun '(id, v) => nowEach id < pn_expiresAt v) (sv_pairingValidations s))))); [done|].
  split_and!; try done. lia.
Qed.

Lemma ValidatePairing_locks request random now nowEach s :
  (exists e, ValidatePairing request random now nowEach s = (s, Err e))
  \/ exists address b, client s /\ ParseAddr (TrimSpace (pq_ServerIP request)) = Some address /\ pq_FileName request = pairing_file /\ random = Some b
     /\ ValidatePairing request random now nowEach s
        = ValidatePairing_locked (hex_encode b) (Addr_String address) request (now + pairing_minutes) nowEach s.
Proof.
  unfold ValidatePairing, client, act_bind, act_get.
  destruct (bool_decide_reflect (sv_mode s = lit "server")) as [|Hm]; [left; by eexists|].
  destruct (ParseAddr _) as [address|]; [|left; by eexists]. destruct (bool_decide_reflect (pq_FileName request = pairing_file)) as [Hf|]; cbn [negb]; [|left; by eexists].
  destruct (_ && _); [left; by eexists|]. destruct random as [b|]; [|left; by eexists]. right. by exists address, b.
Qed.

Lemma ValidatePairing_cases request random now nowEach s :
  match ValidatePairing request random now nowEach s with
  | (s', Ok r) => exists address b, client s /\ ParseAddr (TrimSpace (pq_ServerIP request)) = Some address /\ pq_FileName request = pairing_file
      /\ random = Some b /\ pv_ValidationID r = hex_encode b
      /\ let pending := filter (fun '(id, v) => nowEach id < pn_expiresAt v) (sv_pairingValidations s) in
         (size pending < 128)%nat
         /\ s' = with_pairing (sv_endpoint s) (<[pv_ValidationID r := mkPairingState (Addr_String address) pairing_file demoFingerprint (now + pairing_minutes)]> pending) s
         /\ pv_ServerIP r = Addr_String address /\ pv_Fingerprint r = demoFingerprint /\ pv_ExpiresAt r = now + pairing_minutes
  | (s', Err _) => s' = s \/ s' = with_pairing (sv_endpoint s) (filter (fun '(id, v) => nowEach id < pn_expiresAt v) (sv_pairingValidations s)) s
  | _ => False
  end.
Proof.
  destruct (ValidatePairing_locks request random now nowEach s) as [[e ->]|(address & b & Hm & Ha & Hf & Hb & ->)]; [by left|].
  pose proof (ValidatePairing_locked_cases (hex_encode b) (Addr_String address) request (now + pairing_minutes) nowEach s) as H. rewrite Hf in H.
  destruct (ValidatePairing_locked _ _ _ _ _ s) as [s' []]; try done; [|by right]. destruct H as (H1 & H2 & H3 & H4). exists address, b. by rewrite H3.
Qed.

Lemma Enroll_locked_cases request address now s :
  match Enroll_locked request address now s with
  | (s', Ok r) =>
      sv_operations s !! enroll_key (eq_OperationID request) = Some r /\ s' = s
      \/ sv_operations s !! enroll_key (eq_OperationID request) = None
         /\ (exists v, sv_pairingValidations s !! eq_ValidationID request = Some v /\ now < pn_expiresAt v
              /\ pn_serverIP v = Addr_String address /\ pn_fileName v = eq_FileName request /\ pn_fingerprint v = eq_Fingerprint request)
         /\ s' = with_operation (enroll_key (eq_OperationID request)) r (with_revision (u64 (sv_revision s + 1))
              (with_pairing (AddrPort_String address 9518) (delete (eq_ValidationID request) (sv_pairingValidations s)) s))
  | (s', Err e) => e = ErrInvalidInput /\ (s' = s \/ s' = with_pairing (sv_endpoint s) (delete (eq_ValidationID request) (sv_pairingValidations s)) s)
  | _ => False
  end.
Proof.
  unfold Enroll_locked, act_bind, act_get, act_fail, act_ret, act_set.
  destruct (sv_operations s !! _) as [r|] eqn:Hop; [by left|].
  destruct (sv_pairingValidations s !! _) as [v|] eqn:Hv; [|by auto]. destruct (Z.ltb_spec now (pn_expiresAt v)); cbn [negb]; [|by auto].
  destruct (bool_decide_reflect (pn_serverIP v = Addr_String address)); cbn [negb orb]; [|by auto].
  destruct (bool_decide_reflect (pn_fileName v = eq_FileName request)); cbn [negb orb]; [|by auto].
  destruct (bool_decide_reflect (pn_fingerprint v = eq_Fingerprint request)); cbn [negb orb]; [|by auto].
  right. split_and!; try done. by exists v.
Qed.

Lemma Enroll_locks request now s :
  Enroll request now s = (s, Err ErrInvalidInput)
  \/ exists address, validateOperationID (eq_OperationID request) = Ok tt
      /\ eq_FingerprintConfirmed request = true /\ eq_AuthorizationConfirmed request = true /\ eq_FileName request = pairing_file
      /\ ParseAddr (TrimSpace (eq_ServerIP request)) = Some address
      /\ forall now s, Enroll request now s = Enroll_locked request address now s.
Proof.
  unfold Enroll, act_bind, act_lift. destruct (validateOperationID_cases (eq_OperationID request)) as [-> | ->]; [|by left].
  destruct (eq_FingerprintConfirmed request), (eq_AuthorizationConfirmed request); cbn [negb orb]; try by left.
  destruct (bool_decide_reflect (eq_FileName request = pairing_file)) as [Hf|]; cbn [negb]; [|by left].
  destruct (ParseAddr (TrimSpace (eq_ServerIP request))) as [address|]; [|by left].
  destruct (negb _); [by left|]. destruct (negb _); [by left|]. right. by exists address.
Qed.

Lemma Enroll_cases request now s :
  match Enroll request now s with
  | (s', Ok r) => exists address, validateOperationID (eq_OperationID request) = Ok tt
      /\ eq_FingerprintConfirmed request = true /\ eq_AuthorizationConfirmed request = true /\ eq_FileName request = pairing_file
      /\ ParseAddr (TrimSpace (eq_ServerIP request)) = Some address /\
      (sv_operations s !! enroll_key (eq_OperationID request) = Some r /\ s' = s
       \/ sv_operations s !! enroll_key (eq_OperationID request) = None
          /\ (exists v, sv_pairingValidations s !! eq_ValidationID request = Some v /\ now < pn_expiresAt v
               /\ pn_serverIP v = Addr_String address /\ pn_fileName v = eq_FileName request /\ pn_fingerprint v = eq_Fingerprint request)
          /\ s' = with_operation (enroll_key (eq_OperationID request)) r (with_revision (u64 (sv_revision s + 1))
               (with_pairing (AddrPort_String address 9518) (delete (eq_ValidationID request) (sv_pairingValidations s)) s)))
  | (s', Err e) => e = ErrInvalidInput /\ (s' = s \/ s' = with_pairing (sv_endpoint s) (delete (eq_ValidationID request) (sv_pairingValidations s)) s)
  | _ => False
  end.
Proof.
  destruct (Enroll_locks request now s) as [->|(address & Hv & F1 & F2 & F3 & Ha & ->)]; [by auto|].
  pose proof (Enroll_locked_cases request address now s) as H. destruct (Enroll_locked request address now s) as [s' []]; try done. by exists address.
Qed.

(** ** Calls

    The requests of the control interface with the readings they take. *)
Inductive call : Set :=
| CallStatus (n1 n2 : Z)
| CallConnection (action : bytes) (request : OperationRequest) (now : Z)
| CallListRules (filter_ : RuleFilter) (now : Z)
| CallSetRule (request : SetRuleRequest) (n1 n2 n3 : Z)
| CallDeleteRule (id : bytes) (request : DeleteRuleRequest) (n1 n2 : Z)
| CallExplain (target : bytes) (now : Z)
| CallDNSStatus
| CallRefreshDNS (request : OperationRequest) (read : Snapshot + bytes) (dnsNow : Z)
| CallDoctor (n1 n2 n3 : Z)
| CallCheckUpdate (now : Z)
| CallUpdate (action : bytes) (request : OperationRequest)
| CallValidate (request : PairingValidationRequest) (random : option bytes) (now : Z) (nowEach : bytes -> Z)
| CallEnroll (request : EnrollRequest) (now : Z).

Definition run_call (s : Service) (c : call) : Service :=
  match c with
  | CallStatus n1 n2 => fst (ServiceStatus n1 n2 s)
  | CallConnection action request now => fst (ConnectionAction action request now s)
  | CallListRules f now => fst (ListRules f now s)
  | CallSetRule request n1 n2 n3 => fst (Service_SetRule request n1 n2 n3 s)
  | CallDeleteRule id request n1 n2 => fst (Service_DeleteRule id request n1 n2 s)
  | CallExplain target now => fst (ExplainRule target now s)
  | CallDNSStatus => fst (ServiceDNSStatus s)
  | CallRefreshDNS request read dnsNow => fst (RefreshDNS request read dnsNow s)
  | CallDoctor n1 n2 n3 => fst (RunDoctor n1 n2 n3 s)
  | CallCheckUpdate now => fst (CheckUpdate now s)
  | CallUpdate action request => fst (UpdateAction action request s)
  | CallValidate request random now nowEach => fst (ValidatePairing request random now nowEach s)
  | CallEnroll request now => fst (Enroll request now s)
  end.
Definition run_calls (s : Service) (cs : list call) : Service := fold_left run_call cs s.

(** What every call keeps: the invariant, the mode and the completed operations. *)
Record kept (s s' : Service) : Prop := {
  kp_ok : service_ok s -> service_ok s';
  kp_mode : sv_mode s' = sv_mode s;
  kp_operations : sv_operations s ⊆ sv_operations s';
  kp_ruleOps : sv_ruleOps s ⊆ sv_ruleOps s'
}.

#[global] Instance kept_preorder : PreOrder kept.
Proof.
  split; [by intros s; split|]. intros a b c [H1 H2 H3 H4] [G1 G2 G3 G4]. split; [auto | congruence | by etrans ..].
Qed.

Lemma kept_same s s' : sv_routes s' = sv_routes s -> sv_ruleMeta s' = sv_ruleMeta s -> sv_pairingValidations s' = sv_pairingValidations s ->
  sv_mode s' = sv_mode s -> sv_operations s ⊆ sv_operations s' -> sv_ruleOps s ⊆ sv_ruleOps s' -> kept s s'.
Proof. intros. split; try done. intros. by eapply service_ok_same. Qed.

Lemma prune_kept now s : service_ok s -> kept s (pruneExpiredRules now s).
Proof.
  intros Hs. assert (H : forall l s, sv_mode (fold_left (prune_one now) l s) = sv_mode s /\ sv_operations (fold_left (prune_one now) l s) = sv_operations s
    /\ sv_ruleOps (fold_left (prune_one now) l s) = sv_ruleOps s).
  { clear. induction l as [|[v m] l IH]; intros s; [done|]. cbn [fold_left]. destruct (IH (prune_one now s (v, m))) as (-> & -> & ->).
    destruct (expired now m) eqn:E; [|unfold prune_one; by rewrite E]. by destruct (prune_one_shape now s v m E) as [revision ->]. }
  destruct (H (map_to_list (sv_ruleMeta s)) s) as (H1 & H2 & H3). split; [intros _; by apply prune_spec | done | |]; unfold pruneExpiredRules; by rewrite ?H2, ?H3.
Qed.

Lemma pairing_kept s endpoint pairing : (service_ok s -> (size pairing <= 128)%nat) -> kept s (with_pairing endpoint pairing s).
Proof. intros H. split; try done. intros Hs. specialize (H Hs). by destruct Hs. Qed.

Lemma operation_kept s key r : sv_operations s !! key = None -> kept s (with_operation key r s).
Proof. intros H. apply kept_same; try done. by apply insert_subseteq. Qed.

Lemma ruleOp_kept s key r : sv_ruleOps s !! key = None -> kept s (with_ruleOp key r s).
Proof. intros H. apply kept_same; try done. by apply insert_subseteq. Qed.

Lemma filter_pairing_size s nowEach : service_ok s -> (size (filter (fun '(id, v) => (nowEach id < pn_expiresAt v)%Z) (sv_pairingValidations s)) <= 128)%nat.
Proof. intros Hs. etrans; [|apply (so_pairing s Hs)]. apply map_subseteq_size, map_filter_subseteq. Qed.

(** *** The locked parts keep it *)
Lemma ConnectionAction_kept action request now s : kept s (fst (ConnectionAction_locked action request now s)).
Proof.
  pose proof (ConnectionAction_locked_cases action request now s) as H. destruct (ConnectionAction_locked _ _ _ s) as [s' [r|e| |]]; try done; cbn [fst]; [|by subst].
  destruct H as [[_ ->]|(Hn & st & c & u & d & ->)]; [done|]. etrans; [|apply operation_kept; exact Hn]. by apply kept_same.
Qed.

Lemma SetRule_kept request target action n3 value p : ParseTarget value = Ok target -> kept p (fst (SetRule_locked request target action n3 p)).
Proof.
  intros Ht. pose proof (SetRule_locked_cases request target action n3 p) as H. destruct (SetRule_locked _ _ _ _ p) as [s' [r|e| |]]; try done; cbn [fst]; [|by rewrite H].
  destruct H as [[_ ->]|(Hn & routes & rule & meta & Hset & _ & -> & _)]; [done|].
  etrans; [|apply ruleOp_kept; exact Hn]. destruct (ParseTarget_names _ _ Ht) as [t Hnames]. split; try done. intros Hpo.
  apply (service_ok_same _ _ (service_ok_set p _ t _ _ _ _ meta (removeRecentAutoLocked (tg_Value target) (sv_recentAuto p)) Hpo Hnames Hset)); done.
Qed.

Lemma rule_by_id_names p id rule : service_ok p -> rule_by_id (sv_routes p) id = Some rule -> names (tg_Value (rl_Target rule)) (rl_Target rule).
Proof.
  intros Hp Hr. unfold rule_by_id in Hr. apply fmap_Some in Hr as ([idx x] & Hx & ->). cbn. apply list_find_Some in Hx as (Hx & _).
  apply list_elem_of_lookup_2 in Hx. unfold List in Hx. rewrite sort_by_perm in Hx. apply elem_of_values in Hx as [k Hk]. by apply (so_fixed p Hp k).
Qed.

Lemma DeleteRule_kept id request n2 p : kept p (fst (DeleteRule_locked id request n2 p)).
Proof.
  pose proof (DeleteRule_locked_cases id request n2 p) as H. destruct (DeleteRule_locked _ _ _ p) as [s' [r|e| |]]; try done; cbn [fst]; [|by rewrite H].
  destruct H as [[_ ->]|(Hn & [(auto & revision & ->)|(i & rule & auto & revision & Hr & ->)])]; [done | |]; (etrans; [|apply ruleOp_kept; exact Hn]).
  - by apply kept_same.
  - split; try done. intros Hpo. apply (service_ok_same _ _ (service_ok_delete p _ _ auto Hpo (rule_by_id_names p i rule Hpo Hr))); done.
Qed.

Lemma ValidatePairing_kept id ip request expiresAt nowEach s : kept s (fst (ValidatePairing_locked id ip request expiresAt nowEach s)).
Proof.
  pose proof (ValidatePairing_locked_cases id ip request expiresAt nowEach s) as H.
  destruct (ValidatePairing_locked _ _ _ _ _ s) as [s' [r|e| |]]; try done; cbn [fst].
  - destruct H as (Hsize & -> & _). apply pairing_kept. intros _. rewrite map_size_insert. destruct (_ !! _); cbn in *; lia.
  - rewrite H. apply pairing_kept. by apply filter_pairing_size.
Qed.

Lemma Enroll_kept request address now s : kept s (fst (Enroll_locked request address now s)).
Proof.
  assert (Hd : forall endpoint, kept s (with_pairing endpoint (delete (eq_ValidationID request) (sv_pairingValidations s)) s)).
  { intros endpoint. apply pairing_kept. intros Ho. etrans; [apply map_subseteq_size, delete_subseteq | apply (so_pairing s Ho)]. }
  pose proof (Enroll_locked_cases request address now s) as H. destruct (Enroll_locked _ _ _ s) as [s' [r|e| |]]; try done; cbn [fst].
  - destruct H as [[_ ->]|(Hn & _ & ->)]; [done|]. etrans; [|apply operation_kept; exact Hn]. etrans; [apply (Hd (AddrPort_String address 9518)) | by apply kept_same].
  - by destruct H as [_ [-> | ->]].
Qed.

Lemma run_call_kept s c : service_ok s -> kept s (run_call s c).
Proof.
  intros Hs. pose proof (fun now => prune_kept now s Hs) as Hp.
  destruct c as [n1 n2|action request now|f now|request n1 n2 n3|id request n1 n2|target now| |request read dnsNow|n1 n2 n3|now|action request|request random now nowEach|request now]; cbn [run_call]; try done.
  - apply Hp.
  - destruct (ConnectionAction_locks action request now s) as [[e ->]|(_ & _ & ->)]; [done | apply ConnectionAction_kept].
  - apply Hp.
  - destruct (Service_SetRule_locks request n1 n2 n3 s) as [(e & [-> | ->])|(_ & _ & target & action & Ht & _ & _ & ->)]; [done | apply Hp|].
    etrans; [apply (Hp n1) | by eapply SetRule_kept].
  - destruct (Service_DeleteRule_locks id request n1 n2 s) as [[e ->]|(_ & _ & ->)]; [done|]. etrans; [apply (Hp n1) | apply DeleteRule_kept].
  - etrans; [apply (Hp now)|]. unfold ExplainRule, prune, act_bind, act_set, act_get. destruct (Explain _ target); done.
  - unfold RefreshDNS. destruct (bool_decide _); [done|]. destruct (validateOperationID_cases (oq_OperationID request)) as [-> | ->]; [|done].
    destruct (negb _); [done|]. destruct (RefreshFrom _ _ _) as [dns [? err]]. by apply kept_same.
  - apply Hp.
  - destruct (ValidatePairing_locks request random now nowEach s) as [[e ->]|(address & b & _ & _ & _ & _ & ->)]; [done | apply ValidatePairing_kept].
  - destruct (Enroll_locks request now s) as [->|(address & _ & _ & _ & _ & _ & ->)]; [done | apply Enroll_kept].
Qed.

Lemma run_calls_kept cs : forall s, service_ok s -> kept s (run_calls s cs).
Proof.
  induction cs as [|c cs IH]; intros s Hs; [done|]. cbn [run_calls fold_left]. pose proof (run_call_kept s c Hs) as H. etrans; [exact H|]. apply IH. by apply H.
Qed.

Lemma NewService_ok config now dnsNow : service_ok (NewService config now dnsNow).
Proof.
  destruct (NewEngine_ok [Some (WithAutoDecider (Some autoDecision))]) as (He & _ & Hr & _ & _); [by repeat constructor|].
  split; cbn [NewService sv_routes sv_ruleMeta sv_pairingValidations]; [done | | | rewrite map_size_empty; lia].
  - rewrite Hr. apply map_Forall_empty.
  - intros v. rewrite Hr. rewrite lookup_empty. split; [by intros []|]. intros (t & _ & H). rewrite lookup_empty in H. by destruct H.
Qed.

(** ** Pairing validations are used once *)
Definition reissues (id : bytes) (c : call) : Prop :=
  match c with CallValidate _ (Some b) _ _ => hex_encode b = id | _ => False end.

Lemma prune_pairing now s : sv_pairingValidations (pruneExpiredRules now s) = sv_pairingValidations s.
Proof.
  unfold pruneExpiredRules. generalize (map_to_list (sv_ruleMeta s)) as l. intros l. revert s.
  induction l as [|[v m] l IH]; intros s; [done|]. cbn [fold_left]. rewrite IH.
  destruct (expired now m) eqn:E; [|unfold prune_one; by rewrite E]. by destruct (prune_one_shape now s v m E) as [revision ->].
Qed.

Lemma run_call_pairing s c id : sv_pairingValidations s !! id = None -> ~ reissues id c -> sv_pairingValidations (run_call s c) !! id = None.
Proof.
  intros Hn Hr. destruct c as [n1 n2|action request now|f now|request n1 n2 n3|i request n1 n2|target now| |request read dnsNow|n1 n2 n3|now|action request|request random now nowEach|request now]; cbn [run_call];
    try (change (sv_pairingValidations (pruneExpiredRules n1 s) !! id = None); by rewrite prune_pairing);
    try (change (sv_pairingValidations (pruneExpiredRules now s) !! id = None); by rewrite prune_pairing); try done.
  - pose proof (ConnectionAction_cases action request now s) as H. destruct (ConnectionAction _ _ _ s) as [s' [r|e| |]]; try done; cbn [fst]; [|by subst].
    by destruct H as (_ & _ & [[_ ->]|(_ & st & c & u & d & ->)]).
  - pose proof (Service_SetRule_cases request n1 n2 n3 s) as H. destruct (Service_SetRule _ _ _ _ s) as [s' [r|e| |]]; try done; cbn [fst].
    + destruct H as (_ & _ & target & action & _ & _ & _ & [[_ ->]|(_ & routes & rule & meta & _ & _ & -> & _)]); cbn; by rewrite prune_pairing.
    + destruct H as [-> | ->]; [done | by rewrite prune_pairing].
  - pose proof (Service_DeleteRule_cases i request n1 n2 s) as H. destruct (Service_DeleteRule _ _ _ _ s) as [s' [r|e| |]]; try done; cbn [fst].
    + destruct H as (_ & _ & [[_ ->]|(_ & [(auto & revision & ->)|(j & rule & auto & revision & _ & ->)])]); cbn; by rewrite prune_pairing.
    + destruct H as [-> | ->]; [done | by rewrite prune_pairing].
  - unfold RefreshDNS. destruct (bool_decide _); [done|]. destruct (validateOperationID_cases (oq_OperationID request)) as [-> | ->]; [|done].
    destruct (negb _); [done|]. by destruct (RefreshFrom _ _ _) as [dns [? err]].
  - pose proof (ValidatePairing_cases request random now nowEach s) as H. destruct (ValidatePairing _ _ _ _ s) as [s' [r|e| |]]; try done; cbn [fst].
    + destruct H as (address & b & _ & _ & _ & -> & Hid & _ & -> & _). cbn.
      rewrite lookup_insert_ne by (rewrite Hid; exact Hr). apply map_lookup_filter_None. by left.
    + destruct H as [-> | ->]; [done|]. cbn. apply map_lookup_filter_None. by left.
  - pose proof (Enroll_cases request now s) as H. destruct (Enroll _ _ s) as [s' [r|e| |]]; try done; cbn [fst].
    + destruct H as (address & _ & _ & _ & _ & _ & [[_ ->]|(_ & _ & ->)]); [done|]. cbn. apply lookup_delete_None. by right.
    + destruct H as [_ [-> | ->]]; [done|]. cbn. apply lookup_delete_None. by right.
Qed.

Lemma run_calls_pairing cs id : forall s, sv_pairingValidations s !! id = None -> Forall (fun c => ~ reissues id c) cs ->
  sv_pairingValidations (run_calls s cs) !! id = None.
Proof.
  induction cs as [|c cs IH]; intros s Hn Hr; [done|]. apply Forall_cons in Hr as [Hc Hr]. cbn. apply IH; [by apply run_call_pairing | done].
Qed.

(** ** Theorems *)

(** C17: Overrides and metadata agree.  From any configuration, after any sequence of
    backend calls, the rules of the routing engine are well formed and each is named
    by its own text, exactly the overridden targets have metadata (note, expiry,
    revision), and at most 128 pairing validations are pending. *)
Theorem service_invariant config now dnsNow cs :
  let s := run_calls (NewService config now dnsNow) cs in
  engine_ok (sv_routes s) /\ (size (sv_pairingValidations s) <= 128)%nat
  /\ (forall k r, en_rules (sv_routes s) !! k = Some r -> names (tg_Value (rl_Target r)) (rl_Target r))
  /\ (forall v, is_Some (sv_ruleMeta s !! v) <-> exists t, names v t /\ is_Some (en_rules (sv_routes s) !! targetKey t)).
Proof.
  intros s. pose proof (run_calls_kept cs _ (NewService_ok config now dnsNow)) as H. fold s in H.
  destruct (kp_ok _ _ H (NewService_ok config now dnsNow)) as [H1 H2 H3 H4]. done.
Qed.


(** A completed request is answered from the record. *)
Lemma Service_SetRule_replay request n1 n2 n3 s target action r :
  client s -> validateOperationID (sq_OperationID request) = Ok tt -> ParseTarget (sq_Target request) = Ok target ->
  ParseAction (sq_Result request) = Ok action -> action <> ActionAuto ->
  match sq_ExpiresAt request with Some at_ => n2 < at_ | None => True end ->
  sv_ruleOps (pruneExpiredRules n1 s) !! set_key (sq_OperationID request) = Some r ->
  Service_SetRule request n1 n2 n3 s = (pruneExpiredRules n1 s, Ok r).
Proof.
  intros Hm Hv Ht Ha Hna Hexp Hop. unfold Service_SetRule, SetRule_locked, set_body, prune, act_bind, act_get, act_set, act_lift.
  rewrite bool_decide_false by done. rewrite Hv, Ha. cbn [wrap_err]. rewrite bool_decide_false by done. rewrite Ht. cbn [wrap_err].
  destruct (sq_ExpiresAt request) as [at_|]; [replace (n2 <? at_) with true by (symmetry; lia)|]; cbn; by rewrite Hop.
Qed.

Lemma Service_DeleteRule_replay id request n1 n2 s r :
  client s -> validateOperationID (dq_OperationID request) = Ok tt ->
  sv_ruleOps (pruneExpiredRules n1 s) !! delete_key (dq_OperationID request) = Some r ->
  Service_DeleteRule id request n1 n2 s = (pruneExpiredRules n1 s, Ok r).
Proof.
  intros Hm Hv Hop. unfold Service_DeleteRule, DeleteRule_locked, delete_body, prune, act_bind, act_get, act_set, act_lift.
  rewrite bool_decide_false by done. rewrite Hv. cbn [run_body]. by rewrite Hop.
Qed.

(** C19: Operations are idempotent.  Once a call has completed under an operation
    identifier, repeating it, after any other calls, returns the same response and
    changes nothing but the removal of expired overrides; a repeated override
    request must still name an expiry in the future. *)
Theorem operations_replayed s s' cs :
  service_ok s -> let s'' := run_calls s' cs in
  (forall action request now r action' now', ConnectionAction action request now s = (s', Ok r) -> ConnectionAction action' request now' s'' = (s'', Ok r))
  /\ (forall request now r now', Enroll request now s = (s', Ok r) -> Enroll request now' s'' = (s'', Ok r))
  /\ (forall request n1 n2 n3 r m1 m2 m3, Service_SetRule request n1 n2 n3 s = (s', Ok r) ->
        match sq_ExpiresAt request with Some at_ => m2 < at_ | None => True end ->
        Service_SetRule request m1 m2 m3 s'' = (pruneExpiredRules m1 s'', Ok r))
  /\ (forall id request n1 n2 r id' m1 m2, Service_DeleteRule id request n1 n2 s = (s', Ok r) ->
        Service_DeleteRule id' request m1 m2 s'' = (pruneExpiredRules m1 s'', Ok r)).
Proof.
  intros Hs s''. assert (Hlater : forall c, s' = run_call s c -> kept s' s'' /\ kept s s' /\ service_ok s'').
  { intros c ->. pose proof (run_call_kept s c Hs) as H1. pose proof (run_calls_kept cs (run_call s c) (kp_ok _ _ H1 Hs)) as H2.
    split_and!; [done | done | by apply H2, H1]. }
  split_and!.
  - intros action request now r action' now' E. destruct (Hlater (CallConnection action request now)) as (K & K0 & _); [cbn [run_call]; by rewrite E|].
    pose proof (ConnectionAction_cases action request now s) as Hc. rewrite E in Hc. destruct Hc as (Hm & Hv & Hc).
    assert (Hop : sv_operations s' !! connection_key (oq_OperationID request) = Some r).
    { destruct Hc as [[Hop ->]|(_ & st & c & u & d & ->)]; [done|]. cbn. apply lookup_insert_eq. }
    pose proof (lookup_weaken _ _ _ _ Hop (kp_operations _ _ K)) as Hop'. unfold ConnectionAction, ConnectionAction_locked, act_bind, act_get, act_lift.
    rewrite bool_decide_false by (rewrite (kp_mode _ _ K), (kp_mode _ _ K0); exact Hm). rewrite Hv, Hop'. done.
  - intros request now r now' E. destruct (Hlater (CallEnroll request now)) as (K & _ & _); [cbn [run_call]; by rewrite E|].
    pose proof (Enroll_cases request now s) as Hc. rewrite E in Hc. destruct Hc as (address & Hv & F1 & F2 & F3 & Ha & Hc).
    assert (Hop : sv_operations s' !! enroll_key (eq_OperationID request) = Some r).
    { destruct Hc as [[Hop ->]|(_ & _ & ->)]; [done|]. cbn. apply lookup_insert_eq. }
    pose proof (lookup_weaken _ _ _ _ Hop (kp_operations _ _ K)) as Hop'. destruct (Enroll_locks request now s) as [E'|(a' & _ & _ & _ & _ & _ & ->)]; [congruence|].
    unfold Enroll_locked, act_bind, act_get. by rewrite Hop'.
  - intros request n1 n2 n3 r m1 m2 m3 E Hexp. destruct (Hlater (CallSetRule request n1 n2 n3)) as (K & K0 & Hs''); [cbn [run_call]; by rewrite E|].
    pose proof (Service_SetRule_cases request n1 n2 n3 s) as Hc. rewrite E in Hc. destruct Hc as (Hm & Hv & target & action & Ht & Ha & Hna & Hc).
    assert (Hop : sv_ruleOps s' !! set_key (sq_OperationID request) = Some r).
    { destruct Hc as [[Hop ->]|(_ & routes & rule & meta & _ & _ & -> & _)]; [done|]. cbn. apply lookup_insert_eq. }
    pose proof (prune_kept m1 s'' Hs'') as Kp. assert (Hop' : sv_ruleOps (pruneExpiredRules m1 s'') !! set_key (sq_OperationID request) = Some r).
    { apply (lookup_weaken _ _ _ _ Hop). etrans; [apply (kp_ruleOps _ _ K) | apply Kp]. }
    apply (Service_SetRule_replay request m1 m2 m3 s'' target action r); try done.
    unfold client. by rewrite (kp_mode _ _ K), (kp_mode _ _ K0).
  - intros id request n1 n2 r id' m1 m2 E. destruct (Hlater (CallDeleteRule id request n1 n2)) as (K & K0 & Hs''); [cbn [run_call]; by rewrite E|].
    pose proof (Service_DeleteRule_cases id request n1 n2 s) as Hc. rewrite E in Hc. destruct Hc as (Hm & Hv & Hc).
    assert (Hop : sv_ruleOps s' !! delete_key (dq_OperationID request) = Some r).
    { destruct Hc as [[Hop ->]|(_ & [(auto & revision & ->)|(i & rule & auto & revision & _ & ->)])]; [done | cbn; apply lookup_insert_eq ..]. }
    pose proof (prune_kept m1 s'' Hs'') as Kp. apply Service_DeleteRule_replay; [|done|].
    + unfold client. by rewrite (kp_mode _ _ K), (kp_mode _ _ K0).
    + apply (lookup_weaken _ _ _ _ Hop). etrans; [apply (kp_ruleOps _ _ K) | apply Kp].
Qed.

(** C20: A pairing validation is used once.  An enrollment that is not a replay needs
    both confirmations, the pairing file and a pending, unexpired validation made for
    the same address, file and fingerprint; it consumes the validation, so that after
    any further calls that do not draw the same identifier again no other enrollment
    with it succeeds. *)
Theorem pairing_single_use s request now s' r :
  Enroll request now s = (s', Ok r) -> sv_operations s !! enroll_key (eq_OperationID request) = None ->
  (exists v address, sv_pairingValidations s !! eq_ValidationID request = Some v /\ now < pn_expiresAt v
     /\ ParseAddr (TrimSpace (eq_ServerIP request)) = Some address /\ pn_serverIP v = Addr_String address
     /\ pn_fileName v = eq_FileName request /\ pn_fingerprint v = eq_Fingerprint request /\ sv_endpoint s' = AddrPort_String address 9518)
  /\ eq_FingerprintConfirmed request = true /\ eq_AuthorizationConfirmed request = true
  /\ forall cs request' now', Forall (fun c => ~ reissues (eq_ValidationID request) c) cs ->
       eq_ValidationID request' = eq_ValidationID request ->
       sv_operations (run_calls s' cs) !! enroll_key (eq_OperationID request') = None ->
       match Enroll request' now' (run_calls s' cs) with (_, Err e) => e = ErrInvalidInput | _ => False end.
Proof.
  intros E Hn. pose proof (Enroll_cases request now s) as Hc. rewrite E in Hc.
  destruct Hc as (address & _ & F1 & F2 & F3 & Ha & [[Hop _]|(_ & (v & Hv & Hx & V1 & V2 & V3) & Hs')]); [congruence|].
  split_and!; try done; [exists v, address; split_and!; try done; by rewrite Hs'|].
  intros cs request' now' Hcs Hid Hop'. assert (Hgone : sv_pairingValidations (run_calls s' cs) !! eq_ValidationID request = None).
  { apply run_calls_pairing; [|done]. rewrite Hs'. cbn. apply lookup_delete_eq. }
  pose proof (Enroll_cases request' now' (run_calls s' cs)) as Hc. destruct (Enroll request' now' (run_calls s' cs)) as [s'' [r'|e| |]]; try done; [|by destruct Hc].
  destruct Hc as (a' & _ & _ & _ & _ & _ & [[H _]|(_ & (v' & Hv' & _) & _)]); [congruence|]. rewrite Hid in Hv'. congruence.
Qed.
End Safety.

(** Refreshing DNS checks an operation identifier but records none: a repeated request
    is carried out again. *)
Theorem refresh_not_replayed {U : Unicode} s request read now read' now' :
  client s -> validateOperationID (oq_OperationID request) = Ok tt -> sv_hasSource s = true ->
  let s1 := fst (RefreshDNS request read now s) in
  let s2 := fst (RefreshDNS request read' now' s1) in
  sv_revision s1 = u64 (sv_revision s + 1) /\ sv_revision s2 = u64 (sv_revision s1 + 1)
  /\ sv_dns s2 = fst (RefreshFrom (Some read') now' (sv_dns s1)) /\ sv_operations s2 = sv_operations s.
Proof.
  intros Hm Hv Hs. cbv zeta. assert (Hone : forall s read now, client s -> sv_hasSource s = true ->
    let s1 := fst (RefreshDNS request read now s) in
    sv_revision s1 = u64 (sv_revision s + 1) /\ sv_dns s1 = fst (RefreshFrom (Some read) now (sv_dns s)) /\ sv_operations s1 = sv_operations s
    /\ client s1 /\ sv_hasSource s1 = true).
  { clear s read now read' now' Hm Hs. intros s read now Hm Hs. unfold RefreshDNS. rewrite bool_decide_false by done. rewrite Hv, Hs. cbn [negb].
    by destruct (RefreshFrom (Some read) now (sv_dns s)) as [dns [st err]]. }
  destruct (Hone s read now Hm Hs) as (R1 & _ & O1 & M1 & S1). destruct (Hone _ read' now' M1 S1) as (R2 & D2 & O2 & _ & _).
  split_and!; [done | done | done | congruence].
Qed.

(** ** Concrete services *)
Section ServiceWitnesses.
#[local] Existing Instance ascii_only.
Definition demo_config : ServiceConfig :=
  mkServiceConfig (lit "client") (lit "198.51.100.7:9518") (mkVersions [] [] [] []) false (mkSnapshot 0 0 [] [] [] None).
Definition demo_service : Service := NewService demo_config 1 1.
Definition demo_set : SetRuleRequest := mkSetRuleRequest (lit "op-1") [] (lit "10.0.0.0/8") [] (lit "block") (Some 100) [] None.
Definition demo_overridden : Service := run_calls demo_service [CallSetRule demo_set 10 10 10].

Lemma demo_overridden_ok : service_ok demo_overridden.
Proof. apply (run_calls_kept [CallSetRule demo_set 10 10 10] demo_service (NewService_ok _ _ _)), NewService_ok. Qed.


Example override_expires :
  let answer now := match snd (ExplainRule (lit "10.1.1.1") now demo_overridden) with Ok x => (re_FinalResult x, re_PrimarySource x) | _ => ([], []) end in
  (answer 99, answer 100) = ((ActionBlock, lit "MANUAL"), (ActionDirect, lit "AUTOMATIC")).
Proof. vm_compute. reflexivity. Qed.

(** A completed override whose expiry has passed is refused when it is repeated,
    instead of being answered from the record. *)
Theorem set_rule_repeat_after_expiry :
  let '(s, first) := Service_SetRule demo_set 10 10 10 demo_service in
  (exists r, first = Ok r /\ sv_ruleOps s !! set_key (sq_OperationID demo_set) = Some r)
  /\ snd (Service_SetRule demo_set 101 101 101 s) = Err ErrInvalidInput.
Proof. vm_compute. split; [eexists; split; reflexivity | reflexivity]. Qed.

Definition demo_connect : OperationRequest := mkOperationRequest (lit "op-2").
Definition demo_connected : Service * outcome ApiErr OperationResponse := ConnectionAction (lit "connect") demo_connect 20 demo_service.
Definition demo_response : OperationResponse :=
  mkOperationResponse (lit "op-2") true (lit "CONNECTED") 1 (lit "development simulator updated; no host network state was changed").

Lemma operations_replayed_witness :
  ConnectionAction (lit "disconnect") demo_connect 30 (run_calls (fst demo_connected) [CallSetRule demo_set 25 25 25])
  = (run_calls (fst demo_connected) [CallSetRule demo_set 25 25 25], Ok demo_response).
Proof.
  assert (E : ConnectionAction (lit "connect") demo_connect 20 demo_service = (fst demo_connected, Ok demo_response)).
  { assert (H : snd demo_connected = Ok demo_response) by (vm_compute; reflexivity). rewrite <- H. exact (surjective_pairing _). }
  exact (proj1 (operations_replayed demo_service (fst demo_connected) [CallSetRule demo_set 25 25 25] (NewService_ok _ _ _)) _ _ _ _ _ _ E).
Defined.

Definition demo_random : bytes := [222; 173; 190; 239; 0; 1; 2; 3; 4; 5; 6; 7; 8; 9; 10; 11].
Definition demo_validated : Service :=
  run_calls demo_service [CallValidate (mkPairingValidationRequest (lit "198.51.100.7") (lit "wg-pairing.wgp") []) (Some demo_random) 50 (fun _ => 50)].
Definition demo_enroll (op : string) : EnrollRequest :=
  mkEnrollRequest (lit op) (hex_encode demo_random) (lit " 198.51.100.7") (lit "wg-pairing.wgp") demoFingerprint true true.
Definition demo_enrolled : Service * outcome ApiErr OperationResponse := Enroll (demo_enroll "op-3") 60 demo_validated.
Definition demo_enroll_response : OperationResponse :=
  mkOperationResponse (lit "op-3") true (lit "COMPLETE") 1
    (lit "development enrollment completed without consuming a real token or changing host networking").

Lemma pairing_single_use_witness :
  match Enroll (demo_enroll "op-4") 61 (run_calls (fst demo_enrolled) []) with (_, Err e) => e = ErrInvalidInput | _ => False end.
Proof.
  assert (E : Enroll (demo_enroll "op-3") 60 demo_validated = (fst demo_enrolled, Ok demo_enroll_response)).
  { assert (H : snd demo_enrolled = Ok demo_enroll_response) by (vm_compute; reflexivity). rewrite <- H. exact (surjective_pairing _). }
  assert (Hn : sv_operations demo_validated !! enroll_key (eq_OperationID (demo_enroll "op-3")) = None) by (vm_compute; reflexivity).
  destruct (pairing_single_use demo_validated (demo_enroll "op-3") 60 _ _ E Hn) as (_ & _ & _ & H).
  apply (H [] (demo_enroll "op-4") 61); [constructor | reflexivity | vm_compute; reflexivity].
Defined.
End ServiceWitnesses.
