(* ===== verification/ControlApi.v ===== *)
(** * The control API (internal/controlapi/server.go)

    The routes, handlers and middleware of the local HTTP interface over the
    interface [Backend] of the code, which is a type class here; the application
    service is its instance.  What a backend call reads from outside (clocks, random
    bytes, the resolver) is an environment argument.  JSON decoding is a parameter:
    what [json.Decoder] makes of a body.  A request path is the list of its decoded
    segments (a trailing slash gives a last empty segment); redirects of unclean
    paths by the multiplexer are not modelled. *)

From stdpp Require Import base strings numbers gmap list.
From S2P Require Import Prelude CodecErrors Frame GoStrings Netip Routing PrivateDns ControlTypes Service ServiceSafety.
Local Open Scope Z_scope.
Local Open Scope wg_scope.

(** ** The backend interface *)
Class Backend (S Env : Type) := {
  bk_Status : Env -> act S ApiErr StatusResponse;
  bk_ConnectionAction : Env -> bytes -> OperationRequest -> act S ApiErr OperationResponse;
  bk_ListRules : Env -> RuleFilter -> act S ApiErr RuleListResponse;
  bk_SetRule : Env -> SetRuleRequest -> act S ApiErr RuleMutationResponse;
  bk_DeleteRule : Env -> bytes -> DeleteRuleRequest -> act S ApiErr RuleMutationResponse;
  bk_ExplainRule : Env -> bytes -> act S ApiErr RuleExplanation;
  bk_DNSStatus : Env -> act S ApiErr DNSStatus;
  bk_RefreshDNS : Env -> OperationRequest -> act S ApiErr DNSStatus;
  bk_RunDoctor : Env -> act S ApiErr DiagnosticReport;
  bk_CheckUpdate : Env -> act S ApiErr UpdateStatus;
  bk_UpdateAction : Env -> bytes -> OperationRequest -> act S ApiErr UpdateStatus;
  bk_ValidatePairing : Env -> PairingValidationRequest -> act S ApiErr PairingValidation;
  bk_Enroll : Env -> EnrollRequest -> act S ApiErr OperationResponse
}.

(** A call comes back and keeps the backend's invariant. *)
Definition sound {S A : Type} (inv : S -> Prop) (m : act S ApiErr A) : Prop :=
  forall s, inv s -> inv (fst (m s)) /\ returns (snd (m s)).

Class BackendOk (S Env : Type) `{Backend S Env} (inv : S -> Prop) : Prop := {
  ok_Status e : sound inv (bk_Status e);
  ok_ConnectionAction e a r : sound inv (bk_ConnectionAction e a r);
  ok_ListRules e f : sound inv (bk_ListRules e f);
  ok_SetRule e r : sound inv (bk_SetRule e r);
  ok_DeleteRule e i r : sound inv (bk_DeleteRule e i r);
  ok_ExplainRule e t : sound inv (bk_ExplainRule e t);
  ok_DNSStatus e : sound inv (bk_DNSStatus e);
  ok_RefreshDNS e r : sound inv (bk_RefreshDNS e r);
  ok_RunDoctor e : sound inv (bk_RunDoctor e);
  ok_CheckUpdate e : sound inv (bk_CheckUpdate e);
  ok_UpdateAction e a r : sound inv (bk_UpdateAction e a r);
  ok_ValidatePairing e r : sound inv (bk_ValidatePairing e r);
  ok_Enroll e r : sound inv (bk_Enroll e r)
}.

(** ** Requests and responses *)
Record HttpRequest : Set := mkHttpRequest {
  hr_Method : bytes;
  hr_Path : list bytes;
  hr_Query : bytes -> bytes;
  hr_Origin : bytes;
  hr_Body : bytes
}.

(** The value of a successful response *)
Inductive ApiValue : Set :=
| VStatus (v : StatusResponse)
| VOperation (v : OperationResponse)
| VRules (v : RuleListResponse)
| VMutation (v : RuleMutationResponse)
| VExplanation (v : RuleExplanation)
| VDNS (v : DNSStatus)
| VDoctor (v : DiagnosticReport)
| VUpdate (v : UpdateStatus)
| VPairing (v : PairingValidation).

(** [hp_Body] is [None] where the multiplexer or the preflight answers. *)
Inductive ApiBody : Set :=
| BodyValue (v : ApiValue)
| BodyError (code : bytes)
| BodyNone.
Record HttpResponse : Set := mkHttpResponse {
  hp_Status : Z;
  hp_Headers : list (bytes * bytes);
  hp_Body : ApiBody
}.

Definition maxRequestBytes : Z := 65536.

Definition statusFor (err : ApiErr) : Z * bytes :=
  match err with
  | ErrInvalidInput => (400, lit "invalid_input")
  | ErrNotFound => (404, lit "not_found")
  | ErrConflict => (409, lit "conflict")
  | ErrUnsupported => (501, lit "unsupported")
  | ErrInternal => (500, lit "internal_error")
  end.

Definition writeJSON (status : Z) (body : ApiBody) : HttpResponse :=
  mkHttpResponse status [(lit "Content-Type", lit "application/json; charset=utf-8")] body.

(** What [dec.Decode] with [DisallowUnknownFields] makes of a body that holds exactly
    one JSON value; [None] for anything else. *)
Class Json := {
  json_OperationRequest : bytes -> option OperationRequest;
  json_SetRuleRequest : bytes -> option SetRuleRequest;
  json_DeleteRuleRequest : bytes -> option DeleteRuleRequest;
  json_PairingValidationRequest : bytes -> option PairingValidationRequest;
  json_EnrollRequest : bytes -> option EnrollRequest
}.

(** A body beyond the limit is an error even when its first value fits: the second
    [Decode] meets the limit instead of the end. *)
Definition decodeJSON {A : Type} (decode : bytes -> option A) (r : HttpRequest) : outcome ApiErr A :=
  if maxRequestBytes <? len (hr_Body r) then Err ErrInvalidInput
  else match decode (hr_Body r) with
  | Some value => Ok value
  | None => Err ErrInvalidInput
  end.

Section Handlers.
Context {S Env : Type} `{B : Backend S Env} `{J : Json}.

Definition respond {A : Type} (value : A -> ApiValue) (m : act S ApiErr A) (s : S) : S * outcome ApiErr HttpResponse :=
  match m s with
  | (s, Ok a) => (s, Ok (writeJSON 200 (BodyValue (value a))))
  | (s, Err e) => let '(status, code) := statusFor e in (s, Ok (writeJSON status (BodyError code)))
  | (s, Panic) => (s, Panic)
  | (s, Diverge) => (s, Diverge)
  end.

Definition handler : Type := Env -> HttpRequest -> act S ApiErr HttpResponse.

Definition getStatus : handler := fun e r => respond VStatus (bk_Status e).
Definition connectionAction (action : bytes) : handler := fun e r =>
  respond VOperation
    (if negb (bool_decide (action = lit "connect")) && negb (bool_decide (action = lit "disconnect")) && negb (bool_decide (action = lit "reconnect"))
     then act_fail ErrInvalidInput
     else let! req := act_lift (decodeJSON json_OperationRequest r) in bk_ConnectionAction e action req).
Definition listRules : handler := fun e r =>
  let limit := fst (Atoi (hr_Query r (lit "limit"))) in
  respond VRules (bk_ListRules e (mkRuleFilter (hr_Query r (lit "q")) (hr_Query r (lit "result")) (hr_Query r (lit "source"))
    (hr_Query r (lit "target_type")) limit)).
Definition setRule : handler := fun e r =>
  respond VMutation (let! req := act_lift (decodeJSON json_SetRuleRequest r) in bk_SetRule e req).
Definition deleteRule (id : bytes) : handler := fun e r =>
  respond VMutation (let! req := act_lift (decodeJSON json_DeleteRuleRequest r) in bk_DeleteRule e id req).
Definition explainRule : handler := fun e r => respond VExplanation (bk_ExplainRule e (hr_Query r (lit "target"))).
Definition getDNS : handler := fun e r => respond VDNS (bk_DNSStatus e).
Definition refreshDNS : handler := fun e r =>
  respond VDNS (let! req := act_lift (decodeJSON json_OperationRequest r) in bk_RefreshDNS e req).
Definition runDoctor : handler := fun e r => respond VDoctor (bk_RunDoctor e).
Definition checkUpdate : handler := fun e r => respond VUpdate (bk_CheckUpdate e).
Definition updateAction (action : bytes) : handler := fun e r =>
  respond VUpdate
    (if negb (bool_decide (action = lit "upgrade")) && negb (bool_decide (action = lit "rollback")) then act_fail ErrInvalidInput
     else let! req := act_lift (decodeJSON json_OperationRequest r) in bk_UpdateAction e action req).
Definition validatePairing : handler := fun e r =>
  respond VPairing (let! req := act_lift (decodeJSON json_PairingValidationRequest r) in bk_ValidatePairing e req).
Definition enroll : handler := fun e r =>
  respond VOperation (let! req := act_lift (decodeJSON json_EnrollRequest r) in bk_Enroll e req).
Definition preflight : handler := fun e r s => (s, Ok (mkHttpResponse 204 [] BodyNone)).

(** ** The routes: method, pattern, handler of the wildcard's segment

    The more specific pattern comes first, as the multiplexer prefers it. *)
Inductive segment : Set := Literal (text : bytes) | Wild | Rest.
Record route : Type := mkRoute { rt_Method : bytes; rt_Pattern : list segment; rt_Handler : bytes -> handler }.

Definition api (tail : list segment) : list segment := Literal (lit "api") :: Literal (lit "v1") :: tail.
Definition routes : list route := [
  mkRoute (lit "GET") (api [Literal (lit "status")]) (fun _ => getStatus);
  mkRoute (lit "POST") (api [Literal (lit "connection"); Wild]) connectionAction;
  mkRoute (lit "GET") (api [Literal (lit "rules")]) (fun _ => listRules);
  mkRoute (lit "POST") (api [Literal (lit "rules")]) (fun _ => setRule);
  mkRoute (lit "DELETE") (api [Literal (lit "rules")]) (fun _ => deleteRule []);
  mkRoute (lit "DELETE") (api [Literal (lit "rules"); Wild]) deleteRule;
  mkRoute (lit "GET") (api [Literal (lit "rules"); Literal (lit "explain")]) (fun _ => explainRule);
  mkRoute (lit "GET") (api [Literal (lit "dns")]) (fun _ => getDNS);
  mkRoute (lit "POST") (api [Literal (lit "dns"); Literal (lit "refresh")]) (fun _ => refreshDNS);
  mkRoute (lit "POST") (api [Literal (lit "diagnostics")]) (fun _ => runDoctor);
  mkRoute (lit "POST") (api [Literal (lit "updates"); Literal (lit "check")]) (fun _ => checkUpdate);
  mkRoute (lit "POST") (api [Literal (lit "updates"); Wild]) updateAction;
  mkRoute (lit "POST") (api [Literal (lit "pairing"); Literal (lit "validate")]) (fun _ => validatePairing);
  mkRoute (lit "POST") (api [Literal (lit "pairing"); Literal (lit "enroll")]) (fun _ => enroll);
  mkRoute (lit "OPTIONS") (api [Rest]) (fun _ => preflight)].

(** The wildcard's segment of a path that matches; a wildcard is one non-empty
    segment, the rest at least a slash. *)
Fixpoint match_path (pattern : list segment) (path : list bytes) (wild : bytes) : option bytes :=
  match pattern, path with
  | [], [] => Some wild
  | Rest :: _, _ :: _ => Some wild
  | Literal text :: pattern, seg :: path => if bool_decide (text = seg) then match_path pattern path wild else None
  | Wild :: pattern, seg :: path => if bool_decide (seg = []) then None else match_path pattern path seg
  | _, _ => None
  end.

(** A GET pattern serves HEAD requests too. *)
Definition match_method (pattern method : bytes) : bool :=
  bool_decide (pattern = method) || (bool_decide (pattern = lit "GET") && bool_decide (method = lit "HEAD")).

Fixpoint find_route (rs : list route) (method : bytes) (path : list bytes) : option handler :=
  match rs with
  | [] => None
  | r :: rs =>
      match match_path (rt_Pattern r) path [] with
      | Some wild => if match_method (rt_Method r) method then Some (rt_Handler r wild) else find_route rs method path
      | None => find_route rs method path
      end
  end.
Definition path_known (path : list bytes) : bool :=
  existsb (fun r => match match_path (rt_Pattern r) path [] with Some _ => true | None => false end) routes.

Definition serve_mux : handler := fun e r s =>
  match find_route routes (hr_Method r) (hr_Path r) with
  | Some h => h e r s
  | None => (s, Ok (mkHttpResponse (if path_known (hr_Path r) then 405 else 404) [] BodyNone))
  end.

(** ** Middleware *)
Definition add_headers (headers : list (bytes * bytes)) (o : S * outcome ApiErr HttpResponse) : S * outcome ApiErr HttpResponse :=
  match o with
  | (s, Ok p) => (s, Ok (mkHttpResponse (hp_Status p) (headers ++ hp_Headers p) (hp_Body p)))
  | o => o
  end.
Definition security_headers (origin : bytes) : list (bytes * bytes) :=
  [(lit "Cache-Control", lit "no-store"); (lit "X-Content-Type-Options", lit "nosniff")]
  ++ if bool_decide (origin = lit "http://127.0.0.1:4173") || HasPrefix origin (lit "http://localhost:")
     then [(lit "Access-Control-Allow-Origin", origin); (lit "Access-Control-Allow-Headers", lit "Content-Type");
           (lit "Access-Control-Allow-Methods", lit "GET, POST, DELETE, OPTIONS")]
     else [].
Definition securityHeaders (next : handler) : handler := fun e r s =>
  add_headers (security_headers (hr_Origin r)) (next e r s).

(** A panic below becomes an internal error; the headers that were set before the
    panic, which net/http sends along with it, are left out of this reply. *)
Definition recoverer (next : handler) : handler := fun e r s =>
  match next e r s with
  | (s, Panic) => (s, Ok (writeJSON 500 (BodyError (lit "internal_error"))))
  | o => o
  end.

(** ** The concurrency limit

    [select] takes the free slot, the cancelled context, or neither; with a slot free
    and the context cancelled either may happen. *)
Inductive admission : Set := Entered | Cancelled | Busy.
Definition slots : Z := 32.
Inductive admits (inflight : Z) (cancelled : bool) : admission -> Prop :=
| admit_slot : inflight < slots -> admits inflight cancelled Entered
| admit_cancelled : cancelled = true -> admits inflight cancelled Cancelled
| admit_busy : ~ inflight < slots -> cancelled = false -> admits inflight cancelled Busy.

Definition limited (a : admission) (next : handler) : handler := fun e r s =>
  match a with
  | Entered => next e r s
  | Cancelled => (s, Ok (writeJSON 408 (BodyError (lit "timeout"))))
  | Busy => (s, Ok (writeJSON 503 (BodyError (lit "busy"))))
  end.

Definition Handler (a : admission) : handler := recoverer (limited a (securityHeaders serve_mux)).

(** ** Requests in flight *)
Record server_state : Type := mkServerState { ss_backend : S; ss_inflight : Z }.
Inductive server_step : server_state -> server_state -> Prop :=
| step_refused e r cancelled a s n p : admits n cancelled a -> a <> Entered -> Handler a e r s = (s, Ok p) ->
    server_step (mkServerState s n) (mkServerState s n)
| step_begin cancelled s n : admits n cancelled Entered -> server_step (mkServerState s n) (mkServerState s (n + 1))
| step_end e r s s' n o : 0 < n -> Handler Entered e r s = (s', o) -> server_step (mkServerState s n) (mkServerState s' (n - 1)).
End Handlers.

(** ** The service as a backend *)
Record service_env : Set := mkServiceEnv {
  ev_n1 : Z; ev_n2 : Z; ev_n3 : Z;
  ev_random : option bytes;
  ev_nowEach : bytes -> Z;
  ev_read : Snapshot + bytes
}.

Section ServiceBackend.
Context {U : Unicode}.

Definition refresh_act (request : OperationRequest) (read : Snapshot + bytes) (now : Z) : act Service ApiErr DNSStatus := fun s =>
  let '(s, (status, err)) := RefreshDNS request read now s in
  (s, match err with Some e => Err e | None => Ok status end).

#[global] Instance service_backend : Backend Service service_env := {|
  bk_Status e := ServiceStatus (ev_n1 e) (ev_n2 e);
  bk_ConnectionAction e action request := ConnectionAction action request (ev_n1 e);
  bk_ListRules e f := ListRules f (ev_n1 e);
  bk_SetRule e request := Service_SetRule request (ev_n1 e) (ev_n2 e) (ev_n3 e);
  bk_DeleteRule e id request := Service_DeleteRule id request (ev_n1 e) (ev_n2 e);
  bk_ExplainRule e target := ExplainRule target (ev_n1 e);
  bk_DNSStatus e := ServiceDNSStatus;
  bk_RefreshDNS e request := refresh_act request (ev_read e) (ev_n1 e);
  bk_RunDoctor e := RunDoctor (ev_n1 e) (ev_n2 e) (ev_n3 e);
  bk_CheckUpdate e := CheckUpdate (ev_n1 e);
  bk_UpdateAction e action request := UpdateAction action request;
  bk_ValidatePairing e request := ValidatePairing request (ev_random e) (ev_n1 e) (ev_nowEach e);
  bk_Enroll e request := Enroll request (ev_n1 e)
|}.

Lemma sound_call {A} (m : act Service ApiErr A) (c : call) :
  (forall s, fst (m s) = run_call s c) -> (forall s, returns (snd (m s))) -> sound service_ok m.
Proof. intros H1 H2 s Hs. split; [|apply H2]. rewrite H1. exact (kp_ok _ _ (run_call_kept s c Hs) Hs). Qed.

#[global] Instance service_backend_ok : BackendOk Service service_env service_ok.
Proof.
  split; intros; unfold bk_Status, bk_ConnectionAction, bk_ListRules, bk_SetRule, bk_DeleteRule, bk_ExplainRule, bk_DNSStatus, bk_RefreshDNS,
    bk_RunDoctor, bk_CheckUpdate, bk_UpdateAction, bk_ValidatePairing, bk_Enroll, service_backend.
  - by apply (sound_call _ (CallStatus (ev_n1 e) (ev_n2 e))).
  - apply (sound_call _ (CallConnection a r (ev_n1 e))); [done|]. intros s. pose proof (ConnectionAction_cases a r (ev_n1 e) s) as H.
    by destruct (ConnectionAction _ _ _ s) as [s' []].
  - by apply (sound_call _ (CallListRules f (ev_n1 e))).
  - apply (sound_call _ (CallSetRule r (ev_n1 e) (ev_n2 e) (ev_n3 e))); [done|]. intros s.
    pose proof (Service_SetRule_cases r (ev_n1 e) (ev_n2 e) (ev_n3 e) s) as H. by destruct (Service_SetRule _ _ _ _ s) as [s' []].
  - apply (sound_call _ (CallDeleteRule i r (ev_n1 e) (ev_n2 e))); [done|]. intros s.
    pose proof (Service_DeleteRule_cases i r (ev_n1 e) (ev_n2 e) s) as H. by destruct (Service_DeleteRule _ _ _ _ s) as [s' []].
  - apply (sound_call _ (CallExplain t (ev_n1 e))); [done|]. intros s. unfold ExplainRule, prune, act_bind, act_set, act_get.
    pose proof (Explain_returns (sv_routes (pruneExpiredRules (ev_n1 e) s)) t) as H. by destruct (Explain _ t).
  - by apply (sound_call _ CallDNSStatus).
  - apply (sound_call _ (CallRefreshDNS r (ev_read e) (ev_n1 e))); intros s; cbn [run_call]; unfold refresh_act;
      destruct (RefreshDNS _ _ _ s) as [s' [v [err|]]]; done.
  - by apply (sound_call _ (CallDoctor (ev_n1 e) (ev_n2 e) (ev_n3 e))).
  - by apply (sound_call _ (CallCheckUpdate (ev_n1 e))).
  - by apply (sound_call _ (CallUpdate a r)).
  - apply (sound_call _ (CallValidate r (ev_random e) (ev_n1 e) (ev_nowEach e))); [done|]. intros s.
    pose proof (ValidatePairing_cases r (ev_random e) (ev_n1 e) (ev_nowEach e) s) as H. by destruct (ValidatePairing _ _ _ _ s) as [s' []].
  - apply (sound_call _ (CallEnroll r (ev_n1 e))); [done|]. intros s.
    pose proof (Enroll_cases r (ev_n1 e) s) as H. by destruct (Enroll _ _ s) as [s' []].
Qed.
End ServiceBackend.

(** ** Every request is answered *)
Section Answers.
Context {S Env : Type} `{B : Backend S Env} (inv : S -> Prop) `{!BackendOk S Env inv} `{J : Json}.

(** The answers of the interface: a value with 200 and only with 200, an error with
    the status of its code. *)
Definition answer (p : HttpResponse) : Prop :=
  match hp_Body p with
  | BodyValue _ => hp_Status p = 200
  | BodyError code => (exists err, statusFor err = (hp_Status p, code)) \/ (hp_Status p, code) = (408, lit "timeout") \/ (hp_Status p, code) = (503, lit "busy")
  | BodyNone => hp_Status p = 204 \/ hp_Status p = 404 \/ hp_Status p = 405
  end.

Definition answers (h : @handler S Env) : Prop := forall e r s, inv s -> exists s' p, h e r s = (s', Ok p) /\ inv s' /\ answer p.

Lemma respond_answers {A} (value : A -> ApiValue) (m : act S ApiErr A) s : sound inv m -> inv s ->
  exists s' p, respond value m s = (s', Ok p) /\ inv s' /\ answer p.
Proof.
  intros Hm Hs. destruct (Hm s Hs) as [Hi Hr]. unfold respond. destruct (m s) as [s' [a|err| |]]; try done; cbn in Hi.
  - by eexists s', _.
  - destruct (statusFor err) as [status code] eqn:E. eexists s', _. split_and!; [done | done|]. cbn. left. by exists err.
Qed.

Lemma sound_fail {A} e : sound inv (act_fail (A := A) e).
Proof. by intros s Hs. Qed.
Lemma sound_decode {X A} (decode : bytes -> option X) r (k : X -> act S ApiErr A) :
  (forall x, sound inv (k x)) -> sound inv (let! req := act_lift (decodeJSON decode r) in k req).
Proof.
  intros Hk s Hs. unfold act_bind, act_lift, decodeJSON. destruct (_ <? _); [done|]. destruct (decode (hr_Body r)); [by apply Hk | done].
Qed.
Lemma sound_if {A} (b : bool) (m n : act S ApiErr A) : sound inv m -> sound inv n -> sound inv (if b then m else n).
Proof. by destruct b. Qed.

Lemma routes_answer : Forall (fun r => forall wild, answers (rt_Handler r wild)) routes.
Proof.
  repeat constructor; intros wild e r s Hs; cbn [rt_Handler];
    first [by eexists s, _; split_and!; [reflexivity | done | cbn; auto]
      | apply respond_answers; [|done]; repeat (apply sound_if; [apply sound_fail|]); try (apply sound_decode; intros x)]; apply BackendOk0.
Qed.

Lemma find_route_answers rs method path h :
  Forall (fun r => forall wild, answers (rt_Handler r wild)) rs -> find_route rs method path = Some h -> answers h.
Proof.
  induction 1 as [|r rs Hr Hrs IH]; cbn; [done|]. destruct (match_path _ _ _); [|done]. destruct (match_method _ _); [|done]. intros [= <-]. apply Hr.
Qed.

Lemma serve_mux_answers : answers serve_mux.
Proof.
  intros e r s Hs. unfold serve_mux. destruct (find_route routes (hr_Method r) (hr_Path r)) as [h|] eqn:E.
  - apply (find_route_answers routes _ _ h routes_answer E); done.
  - eexists s, _. split_and!; [done | done|]. cbn. match goal with |- context [if ?c then _ else _] => destruct c end; auto.
Qed.

Lemma Handler_answers a e r s : inv s -> exists s' p, Handler a e r s = (s', Ok p) /\ inv s' /\ answer p
  /\ match a with
     | Entered => exists q, serve_mux e r s = (s', Ok q) /\ hp_Status p = hp_Status q /\ hp_Body p = hp_Body q
         /\ security_headers (hr_Origin r) ⊆ hp_Headers p
     | _ => s' = s
     end.
Proof.
  intros Hs. unfold Handler, recoverer, limited, securityHeaders, add_headers. destruct a.
  - destruct (serve_mux_answers e r s Hs) as (s' & q & -> & Hi & Ha). eexists s', _. split_and!; [done | done | done|]. exists q. split_and!; try done.
    intros x Hx. cbn [hp_Headers]. apply elem_of_app. by left.
  - eexists s, _. split_and!; [done | done | | done]. cbn. auto.
  - eexists s, _. split_and!; [done | done | | done]. cbn. auto.
Qed.

Inductive serving (s0 : S) : server_state -> Prop :=
| serving_start : serving s0 (mkServerState s0 0)
| serving_step st st' : serving s0 st -> server_step st st' -> serving s0 st'.

Lemma serving_inv s0 st : inv s0 -> serving s0 st -> inv (ss_backend st) /\ 0 <= ss_inflight st <= slots.
Proof.
  intros H0. induction 1 as [|st st' _ [IH1 IH2] Hstep]; [split; [done | cbn; unfold slots; lia]|].
  destruct Hstep as [e r cancelled a s n p Ha Hne Hh|cancelled s n Ha|e r s s' n o Hn Hh]; cbn in *.
  - done.
  - inversion Ha; subst. split; [done | lia].
  - destruct (Handler_answers Entered e r s IH1) as (s'' & p & E & Hi & _). rewrite Hh in E. injection E as -> ->. split; [done | lia].
Qed.
End Answers.

(** The control interface answers.  Over any backend that keeps its invariant and
    comes back, in every state the server can reach, at most 32 requests are in
    flight, and any request at all, known or not, is answered: a value with status
    200, or an error with the status of its code, or the multiplexer's 404 and 405.
    Refused requests do not touch the backend; admitted ones carry the security
    headers. *)
Theorem control_api_answers {S Env : Type} `{B : Backend S Env} (inv : S -> Prop) `{!BackendOk S Env inv} `{J : Json} s0 st :
  inv s0 -> serving s0 st ->
  0 <= ss_inflight st <= slots /\
  forall a e r, exists s' p, Handler a e r (ss_backend st) = (s', Ok p) /\ inv s' /\ answer p
    /\ match a with
       | Entered => exists q, serve_mux e r (ss_backend st) = (s', Ok q) /\ hp_Status p = hp_Status q /\ hp_Body p = hp_Body q
           /\ security_headers (hr_Origin r) ⊆ hp_Headers p
       | _ => s' = ss_backend st
       end.
Proof.
  intros H0 Hst. destruct (serving_inv inv s0 st H0 Hst) as [Hi Hn]. split; [done|]. intros a e r. by apply Handler_answers.
Qed.

Section ApiWitness.
#[local] Existing Instance ascii_only.
Definition no_json : Json := {|
  json_OperationRequest := fun _ => None; json_SetRuleRequest := fun _ => None; json_DeleteRuleRequest := fun _ => None;
  json_PairingValidationRequest := fun _ => None; json_EnrollRequest := fun _ => None |}.
#[local] Existing Instance no_json.
Definition demo_env : service_env := mkServiceEnv 1 2 3 None (fun _ => 0) (inr []).
Definition demo_http (method : string) (path : list bytes) : HttpRequest :=
  mkHttpRequest (lit method) (lit "api" :: path) (fun _ => []) (lit "http://localhost:5173") [].

Lemma control_api_answers_witness :
  exists s' p, Handler Entered demo_env (demo_http "POST" [lit "v1"; lit "rules"]) demo_service = (s', Ok p) /\ service_ok s' /\ answer p.
Proof.
  destruct (control_api_answers service_ok demo_service (mkServerState demo_service 0) (NewService_ok _ _ _) (serving_start demo_service)) as [_ H].
  destruct (H Entered demo_env (demo_http "POST" [lit "v1"; lit "rules"])) as (s' & p & H1 & H2 & H3 & _). exists s', p. split; [exact H1 | split; [exact H2 | exact H3]].
Defined.

(** The preflight route makes every path below the interface a known one. *)
Example api_statuses :
  map (fun r => match snd (Handler Entered demo_env r demo_service) with Ok p => hp_Status p | _ => 0 end)
    [demo_http "GET" [lit "v1"; lit "status"]; demo_http "HEAD" [lit "v1"; lit "rules"]; demo_http "POST" [lit "v1"; lit "rules"]; demo_http "PUT" [lit "v1"; lit "rules"];
     demo_http "GET" [lit "v1"; lit "nothing"]; demo_http "OPTIONS" [lit "v1"; lit "rules"; lit "x"]; demo_http "POST" [lit "v1"; lit "updates"; lit "frobnicate"];
     demo_http "DELETE" [lit "v1"; lit "rules"; []]; demo_http "GET" [lit "v2"]]
  = [200; 200; 400; 405; 405; 204; 400; 405; 404].
Proof. vm_compute. reflexivity. Qed.
End ApiWitness.
