(* ===== verification/Concurrent.v ===== *)
(** * Goroutines over a shared object with a read-write lock (package sync)

    A method of such an object is a program: it acquires and releases the lock
    ([sync.RWMutex]), accesses the shared state in between, and returns.  An access
    outside the lock goes to a part of the object that has a lock of its own.  A
    configuration is the shared state with the goroutines that run on it; a schedule
    is any sequence of their steps.

    The discipline [safe] is what a method has to obey: it never asks for the lock
    while it holds it, it changes what the lock protects only as its writer, and what
    it has done when it releases the lock is one of the commits the object allows.
    For programs that obey it every schedule keeps the object's invariant whenever no
    writer is at work, the states between writers are sequential histories of
    commits, no schedule gets stuck and none goes on for ever. *)

From stdpp Require Import base list relations.

Section Programs.
Context {S R : Type}.

Inductive prog : Type :=
| Return (r : R)
| Lock (p : prog)
| Unlock (p : prog)
| RLock (p : prog)
| RUnlock (p : prog)
| Access (f : S -> S) (k : S -> prog).

(** What a goroutine holds of the lock; a writer remembers the state in which it
    acquired it. *)
Inductive mode : Type := Free | Reading | Writing (start : S).
Definition thread : Type := mode * prog.
Record config : Type := mkConfig { cf_state : S; cf_threads : list thread }.

Definition is_free (t : thread) : bool := match t with (Free, _) => true | _ => false end.
Definition is_writing (t : thread) : bool := match t with (Writing _, _) => true | _ => false end.
Definition finished (t : thread) : bool := match t with (_, Return _) => true | _ => false end.
Definition no_holder (ts : list thread) : bool := forallb is_free ts.
Definition no_writer (ts : list thread) : bool := forallb (fun t => negb (is_writing t)) ts.

(** One step of the goroutine [t] of the pool [ts]; none while it waits, when it has
    returned, and when it misuses the lock. *)
Definition thread_step (s : S) (ts : list thread) (t : thread) : option (S * thread) :=
  match t with
  | (Free, Lock p) => if no_holder ts then Some (s, (Writing s, p)) else None
  | (Writing _, Unlock p) => Some (s, (Free, p))
  | (Free, RLock p) => if no_writer ts then Some (s, (Reading, p)) else None
  | (Reading, RUnlock p) => Some (s, (Free, p))
  | (m, Access f k) => Some (f s, (m, k s))
  | _ => None
  end.
Definition step_at (i : nat) (c : config) : option config :=
  match cf_threads c !! i with
  | None => None
  | Some t =>
      match thread_step (cf_state c) (cf_threads c) t with
      | Some (s, t) => Some (mkConfig s (<[i := t]> (cf_threads c)))
      | None => None
      end
  end.
Definition step (c c' : config) : Prop := exists i, step_at i c = Some c'.

Fixpoint run_schedule (schedule : list nat) (c : config) : option config :=
  match schedule with
  | [] => Some c
  | i :: schedule => match step_at i c with Some c => run_schedule schedule c | None => None end
  end.
Definition started (s : S) (ps : list prog) : config := mkConfig s (pair Free <$> ps).

(** A program that nobody disturbs *)
Fixpoint alone (p : prog) (s : S) : S * R :=
  match p with
  | Return r => (s, r)
  | Lock p | Unlock p | RLock p | RUnlock p => alone p s
  | Access f k => alone (k s) (f s)
  end.

Lemma run_schedule_rtc schedule : forall c c', run_schedule schedule c = Some c' -> rtc step c c'.
Proof.
  induction schedule as [|i schedule IH]; intros c c' H; cbn in H; [by injection H as <-|].
  destruct (step_at i c) as [c1|] eqn:E; [|done]. eapply rtc_l; [by exists i | by apply IH].
Qed.

(** The configuration a schedule leads to, if each of its steps can be taken *)
Definition after (schedule : list nat) (c : config) : config := default c (run_schedule schedule c).
Definition result_of (i : nat) (c : config) : option R :=
  match cf_threads c !! i with Some (_, Return r) => Some r | _ => None end.

Lemma after_rtc schedule c : rtc step c (after schedule c).
Proof. unfold after. destruct (run_schedule schedule c) as [c'|] eqn:E; [by eapply run_schedule_rtc | apply rtc_refl]. Qed.

Lemma step_at_inv i c c' : step_at i c = Some c' -> exists t s' t',
  cf_threads c !! i = Some t /\ thread_step (cf_state c) (cf_threads c) t = Some (s', t') /\ c' = mkConfig s' (<[i := t']> (cf_threads c)).
Proof.
  unfold step_at. destruct (cf_threads c !! i) as [t|]; [|done]. destruct (thread_step _ _ t) as [[s' t']|] eqn:E; [|done].
  intros [= <-]. by exists t, s', t'.
Qed.

(** ** No schedule goes on for ever *)
Inductive continues : prog -> prog -> Prop :=
| continues_lock p : continues (Lock p) p
| continues_unlock p : continues (Unlock p) p
| continues_rlock p : continues (RLock p) p
| continues_runlock p : continues (RUnlock p) p
| continues_access f k s : continues (Access f k) (k s).

Lemma thread_step_continues s ts t s' t' : thread_step s ts t = Some (s', t') -> continues (snd t) (snd t').
Proof.
  destruct t as [[] []]; cbn; try done; try (case_match; try done); intros [= <- <-]; constructor.
Qed.

Lemma continues_sn p : sn continues p.
Proof. induction p; constructor; intros q Hq; inversion Hq; by subst. Qed.

Definition pool_continues (ts ts' : list thread) : Prop :=
  exists i t t', ts !! i = Some t /\ continues (snd t) (snd t') /\ ts' = <[i := t']> ts.

Lemma pool_continues_cons p ts m : sn continues p -> sn pool_continues ts -> sn pool_continues ((m, p) :: ts).
Proof.
  intros Hp. revert ts m. induction Hp as [p _ IHp]. intros ts m Hts. revert m. induction Hts as [ts Hts IHts]. intros m.
  constructor. intros ts' (i & t & t' & Hi & Hc & ->). destruct i as [|i]; cbn in *.
  - injection Hi as <-. destruct t' as [m' p']. by apply (IHp p' Hc), Acc_intro.
  - apply IHts. by exists i, t, t'.
Qed.

Lemma pool_continues_sn ts : sn pool_continues ts.
Proof.
  induction ts as [|[m p] ts IH]; [|by apply pool_continues_cons, IH; apply continues_sn].
  constructor. intros ts' (i & t & t' & Hi & _). by rewrite lookup_nil in Hi.
Qed.

Theorem schedules_end c : sn step c.
Proof.
  destruct c as [s ts]. revert s. induction (pool_continues_sn ts) as [ts _ IH]. intros s. constructor. intros c' [i H].
  apply step_at_inv in H as (t & s' & t' & Hi & Ht & ->). apply IH. exists i, t, t'. split; [done|]. split; [|done].
  by eapply thread_step_continues.
Qed.

(** ** The discipline *)

(** What the lock of an object protects and how. *)
Record lock_spec : Type := mkLockSpec {
  (** the same but for the parts with locks of their own *)
  ls_same : relation S;
  (** holds whenever no writer is at work *)
  ls_inv : S -> Prop;
  (** holds always *)
  ls_always : S -> Prop;
  (** what a writer may have done when it releases the lock *)
  ls_commit : relation S;
  ls_equivalence : Equivalence ls_same;
  ls_inv_same s s' : ls_same s s' -> ls_inv s -> ls_inv s';
  ls_always_same s s' : ls_same s s' -> ls_always s -> ls_always s';
  ls_inv_always s : ls_inv s -> ls_always s;
  ls_commit_inv s s' : ls_inv s -> ls_commit s s' -> ls_inv s'
}.

Context (L : lock_spec).
#[local] Existing Instance ls_equivalence.

(** [safe m P h Q p]: holding [m] of the lock in a state that satisfies [P] (while it
    writes), and having made the commits [h] so far (the last one first, each with the
    states before and after it), the program goes on lawfully and returns a result
    that [Q] relates to its commits. *)
Fixpoint safe (m : mode) (P : S -> Prop) (h : list (S * S)) (Q : list (S * S) -> R -> Prop) (p : prog) : Prop :=
  match p with
  | Return r => m = Free /\ Q h r
  | Lock p => m = Free /\ forall s, ls_inv L s -> safe (Writing s) (ls_same L s) h Q p
  | Unlock p =>
      match m with
      | Writing start => forall s, P s -> ls_always L s -> ls_commit L start s /\ safe Free (fun _ => True) ((start, s) :: h) Q p
      | _ => False
      end
  | RLock p => m = Free /\ safe Reading (ls_inv L) h Q p
  | RUnlock p => m = Reading /\ safe Free (fun _ => True) h Q p
  | Access f k =>
      match m with
      | Writing start => forall s, P s -> ls_always L s -> ls_always L (f s) /\ safe m (ls_same L (f s)) h Q (k s)
      | Reading => forall s, ls_inv L s -> ls_same L s (f s) /\ safe m (ls_inv L) h Q (k s)
      | Free => forall s, ls_always L s -> ls_same L s (f s) /\ safe m (fun _ => True) h Q (k s)
      end
  end.

Lemma safe_weaken m h Q p : forall (P P' : S -> Prop), (forall s, P' s -> P s) -> safe m P h Q p -> safe m P' h Q p.
Proof.
  revert m h. induction p as [r|p IH|p IH|p IH|p IH|f k IH]; intros m h P P' HP; cbn; try done.
  - destruct m; try done. intros H s Hs. by apply H, HP.
  - destruct m; try done. intros H s Hs. by apply H, HP.
Qed.

(** ** The invariant of a pool *)
Definition thread_ok (s : S) (h : list (S * S)) (Q : list (S * S) -> R -> Prop) (t : thread) : Prop :=
  match t with
  | (Writing start, p) => ls_inv L start /\ safe (Writing start) (ls_same L s) h Q p
  | (Reading, p) => safe Reading (ls_inv L) h Q p
  | (Free, p) => safe Free (fun _ => True) h Q p
  end.

Definition history : relation S := rtc (fun s s' => ls_same L s s' \/ ls_commit L s s').

(** The history that ends in the current state between writers, and in the state the
    writer started from while one is at work, goes through [x]. *)
Record passed (c : config) (x : S) : Prop := {
  ps_free : no_writer (cf_threads c) = true -> history x (cf_state c);
  ps_start : forall i start p, cf_threads c !! i = Some (Writing start, p) -> history x start
}.
(** A commit that the history from [s0] contains *)
Definition committed (s0 : S) (c : config) (ab : S * S) : Prop :=
  history s0 ab.1 /\ ls_commit L ab.1 ab.2 /\ passed c ab.2.
Definition goroutine_ok (s0 : S) (c : config) (Q : list (S * S) -> R -> Prop) (t : thread) : Prop :=
  exists h, thread_ok (cf_state c) h Q t /\ Forall (committed s0 c) h.

Record pool_ok (s0 : S) (Qs : list (list (S * S) -> R -> Prop)) (c : config) : Prop := {
  po_threads : Forall2 (goroutine_ok s0 c) Qs (cf_threads c);
  po_exclusive : forall i j t t', i <> j -> cf_threads c !! i = Some t -> cf_threads c !! j = Some t' -> is_writing t = true -> is_free t' = true;
  po_always : ls_always L (cf_state c);
  po_inv : no_writer (cf_threads c) = true -> ls_inv L (cf_state c);
  po_passed : passed c s0
}.
Lemma no_writer_spec ts : no_writer ts = true <-> forall i t, ts !! i = Some t -> is_writing t = false.
Proof.
  unfold no_writer. rewrite forallb_forall. split.
  - intros H i t Hi. specialize (H t). rewrite <- list_elem_of_In in H. apply negb_true_iff, H. by eapply list_elem_of_lookup_2.
  - intros H t Ht%list_elem_of_In. apply list_elem_of_lookup_1 in Ht as [i Hi]. apply negb_true_iff. by eapply H.
Qed.
Lemma no_holder_spec ts : no_holder ts = true <-> forall i t, ts !! i = Some t -> is_free t = true.
Proof.
  unfold no_holder. rewrite forallb_forall. split.
  - intros H i t Hi. apply H, list_elem_of_In. by eapply list_elem_of_lookup_2.
  - intros H t Ht%list_elem_of_In. apply list_elem_of_lookup_1 in Ht as [i Hi]. by eapply H.
Qed.
Lemma free_not_writing (t : thread) : is_free t = true -> is_writing t = false.
Proof. by destruct t as [[] ?]. Qed.

Lemma thread_ok_same s s' h Q t : ls_same L s s' -> thread_ok s h Q t -> thread_ok s' h Q t.
Proof.
  intros Hs. destruct t as [[] p]; cbn; try done. intros [H1 H2]. split; [done|]. eapply safe_weaken; [|exact H2].
  intros x Hx. by etrans.
Qed.
Lemma thread_ok_free s s' h Q t : is_free t = true -> thread_ok s h Q t -> thread_ok s' h Q t.
Proof. by destruct t as [[] p]. Qed.

(** The writers of the pool after a step of [i] *)
Lemma insert_writer (ts : list thread) i t t' j u : ts !! i = Some t -> <[i := t']> ts !! j = Some u ->
  (j = i /\ u = t') \/ (j <> i /\ ts !! j = Some u).
Proof.
  intros Hi Hj. destruct (decide (j = i)) as [->|Hne]; [left | right; split; [done|]].
  - rewrite list_lookup_insert_eq in Hj by (by eapply lookup_lt_Some). split; [done | congruence].
  - by rewrite list_lookup_insert_ne in Hj.
Qed.

Lemma pool_exclusive (ts : list thread) i t t' :
  (forall i j t t', i <> j -> ts !! i = Some t -> ts !! j = Some t' -> is_writing t = true -> is_free t' = true) ->
  ts !! i = Some t ->
  (is_writing t' = true -> is_writing t = true \/ no_holder ts = true) ->
  (is_free t' = false -> is_free t = false \/ no_writer ts = true) ->
  forall j k u u', j <> k -> <[i := t']> ts !! j = Some u -> <[i := t']> ts !! k = Some u' -> is_writing u = true -> is_free u' = true.
Proof.
  intros Hex Hi Hw Hf j k u u' Hne [[-> ->]|[Hji Hj]]%(insert_writer _ _ t); [| |done].
  all: intros [[-> ->]|[Hki Hk]]%(insert_writer _ _ t) Hu; try done.
  - destruct (Hw Hu) as [H|H]; [by eapply (Hex i k) | by eapply no_holder_spec in H].
  - destruct (is_free t') eqn:E; [done|]. destruct (Hf eq_refl) as [H|H].
    + pose proof (Hex j i u t Hji Hj Hi Hu). congruence.
    + rewrite no_writer_spec in H. specialize (H j u Hj). congruence.
  - by eapply (Hex j k).
Qed.
(** What a step of one goroutine owes to the pool: it is the only holder or changes
    nothing the lock protects, it takes the lock when it may, and the history goes on
    through every point it went through. *)
Record step_ok (c : config) (i : nat) (t : thread) (s' : S) (t' : thread) : Prop := {
  st_state : is_writing t = true \/ ls_same L (cf_state c) s';
  st_writing : is_writing t' = true -> is_writing t = true \/ no_holder (cf_threads c) = true;
  st_holding : is_free t' = false -> is_free t = false \/ no_writer (cf_threads c) = true;
  st_always : ls_always L s';
  st_inv : no_writer (<[i := t']> (cf_threads c)) = true -> ls_inv L s';
  st_passed : forall x, passed c x -> passed (mkConfig s' (<[i := t']> (cf_threads c))) x
}.

Lemma passed_step c i t s' t' x : cf_threads c !! i = Some t -> passed c x ->
  (no_writer (<[i := t']> (cf_threads c)) = true -> history x s') -> (forall start p, t' = (Writing start, p) -> history x start) ->
  passed (mkConfig s' (<[i := t']> (cf_threads c))) x.
Proof.
  intros Hi [_ Hst] Hf Hw. split; cbn; [done|]. intros j start p [[-> <-]|[_ Hj]]%(insert_writer _ _ t); [by eapply Hw | by eapply Hst | done].
Qed.

Lemma pool_ok_step s0 Qs c i t s' t' :
  pool_ok s0 Qs c -> cf_threads c !! i = Some t -> step_ok c i t s' t' ->
  (forall h Q, thread_ok (cf_state c) h Q t -> exists h', thread_ok s' (h' ++ h) Q t' /\ Forall (committed s0 (mkConfig s' (<[i := t']> (cf_threads c)))) h') ->
  pool_ok s0 Qs (mkConfig s' (<[i := t']> (cf_threads c))).
Proof.
  intros [Hts Hex Hal Hinv Hp0] Hi [Hs Hw Hf Ha Hin Hpass] Ht.
  assert (Hcom : forall h, Forall (committed s0 c) h -> Forall (committed s0 (mkConfig s' (<[i := t']> (cf_threads c)))) h).
  { intros h Hh. eapply Forall_impl; [exact Hh|]. intros [a b] (H1 & H2 & H3). split_and!; [done | done | by apply Hpass]. }
  split; cbn; try done.
  - rewrite Forall2_lookup in Hts. apply Forall2_lookup. intros j. specialize (Hts j).
    destruct (decide (i = j)) as [<-|Hne].
    + rewrite Hi in Hts. rewrite list_lookup_insert_eq by (by eapply lookup_lt_Some). inversion Hts as [Q ? HQ|]; subst. constructor.
      destruct HQ as (h & Hok & Hh). destruct (Ht h Q Hok) as (h' & Hok' & Hh'). exists (h' ++ h). split; [done|]. apply Forall_app. auto.
    + rewrite list_lookup_insert_ne by done. destruct (cf_threads c !! j) as [tj|] eqn:Hj; inversion Hts as [Q ? HQ|]; subst; constructor.
      destruct HQ as (h & Hok & Hh). exists h. split; [|by apply Hcom].
      destruct Hs as [Hs|Hs]; [|by eapply thread_ok_same]. eapply thread_ok_free; [|done]. by eapply (Hex i j).
  - by apply (pool_exclusive _ _ t).
  - by apply Hpass.
Qed.

(** A step that makes no commit *)
Lemma pool_ok_quiet s0 Qs c i t s' t' :
  pool_ok s0 Qs c -> cf_threads c !! i = Some t -> step_ok c i t s' t' ->
  (forall h Q, thread_ok (cf_state c) h Q t -> thread_ok s' h Q t') ->
  pool_ok s0 Qs (mkConfig s' (<[i := t']> (cf_threads c))).
Proof. intros Hok Hi Hst Ht. eapply pool_ok_step; [done..|]. intros h Q H. exists []. split; [by apply Ht | constructor]. Qed.

(** As long as the modes do not change, so do the writers. *)
Lemma no_writer_insert (ts : list thread) i t t' : ts !! i = Some t -> no_writer (<[i := t']> ts) = true ->
  is_writing t' = false /\ (is_writing t = false -> no_writer ts = true).
Proof.
  intros Hi. rewrite !no_writer_spec. intros H. split.
  - apply (H i). by rewrite list_lookup_insert_eq by (by eapply lookup_lt_Some).
  - intros Ht j u Hj. destruct (decide (i = j)) as [<-|Hne]; [congruence|]. apply (H j). by rewrite list_lookup_insert_ne.
Qed.

Lemma history_same s0 s s' : history s0 s -> ls_same L s s' -> history s0 s'.
Proof. intros H Hs. eapply rtc_r; [exact H | by left]. Qed.
Lemma history_commit s0 s s' : history s0 s -> ls_commit L s s' -> history s0 s'.
Proof. intros H Hs. eapply rtc_r; [exact H | by right]. Qed.

(** A goroutine other than the writer *)
Lemma step_ok_free c i t s' t' :
  ls_always L (cf_state c) -> (no_writer (cf_threads c) = true -> ls_inv L (cf_state c)) ->
  cf_threads c !! i = Some t -> is_writing t = false -> is_writing t' = false -> ls_same L (cf_state c) s' ->
  (is_free t' = false -> is_free t = false \/ no_writer (cf_threads c) = true) ->
  step_ok c i t s' t'.
Proof.
  intros Ha Hinv Hi Hw Hw' Hs Hf. assert (Hkeep : no_writer (<[i := t']> (cf_threads c)) = true -> no_writer (cf_threads c) = true).
  { intros Hn. by apply (no_writer_insert _ _ _ _ Hi Hn). }
  split; [by right | congruence | done | by eapply ls_always_same | intros Hn; by eapply ls_inv_same, Hinv, Hkeep|].
  intros x Hx. eapply passed_step; [done..| |]; [|by intros start p ->].
  intros Hn. eapply history_same; [|done]. by apply (ps_free _ _ Hx), Hkeep.
Qed.

(** A goroutine that writes after the step *)
Lemma step_ok_writing c i t s' start p :
  ls_always L s' -> cf_threads c !! i = Some t -> (is_writing t = true \/ ls_same L (cf_state c) s') ->
  (is_writing t = true \/ no_holder (cf_threads c) = true) -> (is_free t = false \/ no_writer (cf_threads c) = true) ->
  (forall x, passed c x -> history x start) -> step_ok c i t s' (Writing start, p).
Proof.
  intros Ha Hi Hs Hw Hf Hst.
  assert (Hno : no_writer (<[i := (Writing start, p)]> (cf_threads c)) = true -> False) by (intros Hn; by destruct (no_writer_insert _ _ _ _ Hi Hn)).
  split; try done. intros x Hx. eapply passed_step; [done..| by intros ?%Hno |]. intros ? ? [= <- <-]. by apply Hst.
Qed.

(** The end of a critical section *)
Lemma pool_unlock s0 Qs c i start p h0 Q0 :
  pool_ok s0 Qs c -> cf_threads c !! i = Some (Writing start, Unlock p) -> thread_ok (cf_state c) h0 Q0 (Writing start, Unlock p) ->
  pool_ok s0 Qs (mkConfig (cf_state c) (<[i := (Free, p)]> (cf_threads c))).
Proof.
  intros Hok Hi [Hst Hc]. pose proof (po_always _ _ _ Hok) as Ha. destruct (Hc (cf_state c) (reflexivity _) Ha) as [Hcommit _].
  assert (Hnext : forall x, passed c x -> passed (mkConfig (cf_state c) (<[i := (Free, p)]> (cf_threads c))) x).
  { intros x Hx. eapply passed_step; [done..| |done]. intros _. eapply history_commit; [|done]. by eapply (ps_start _ _ Hx). }
  eapply pool_ok_step; [done | done | |].
  - split; [by right | done | done | done | intros _; by eapply ls_commit_inv | done].
  - intros h Q [_ HQ]. destruct (HQ (cf_state c) (reflexivity _) Ha) as [_ HQ']. exists [(start, cf_state c)]. split; [done|].
    apply Forall_singleton. split_and!; cbn; [by eapply (ps_start _ _ (po_passed _ _ _ Hok)) | done|].
    split; cbn; [intros _; apply rtc_refl|]. intros j st q [[_ [=]]|[Hne Hj]]%(insert_writer _ _ (Writing start, Unlock p)); [|done].
    pose proof (po_exclusive _ _ _ Hok i j _ _ (not_eq_sym Hne) Hi Hj eq_refl). done.
Qed.

Lemma pool_step s0 Qs c c' : pool_ok s0 Qs c -> step c c' -> pool_ok s0 Qs c'.
Proof.
  intros Hok [i H]. apply step_at_inv in H as (t & s' & t' & Hi & Ht & ->).
  assert (HQ : exists h Q, thread_ok (cf_state c) h Q t).
  { pose proof (po_threads _ _ _ Hok) as Hf. rewrite Forall2_lookup in Hf. specialize (Hf i). rewrite Hi in Hf.
    inversion Hf as [Q ? (h & HQ & _)|]; subst. by exists h, Q. }
  destruct HQ as (h0 & Q0 & Hown). pose proof (po_always _ _ _ Hok) as Ha. pose proof (po_inv _ _ _ Hok) as Hinv.
  destruct t as [[| |start] [r|p|p|p|p|f k]]; cbn in Ht; try done.
  - destruct (no_holder (cf_threads c)) eqn:Hn; [|done]. injection Ht as <- <-.
    assert (Hnw : no_writer (cf_threads c) = true).
    { apply no_writer_spec. intros j u Hj. apply free_not_writing. rewrite no_holder_spec in Hn. by eapply Hn. }
    eapply pool_ok_quiet; [done | done | |]; [|intros h Q [_ HQ]; split; [|apply HQ]; auto].
    apply step_ok_writing; [done | done | by right | by right | by right |]. intros x Hx. by apply (ps_free _ _ Hx).
  - destruct (no_writer (cf_threads c)) eqn:Hn; [|done]. injection Ht as <- <-.
    eapply pool_ok_quiet; [done | done | |by intros h Q [_ HQ]]. apply step_ok_free; auto; done.
  - injection Ht as <- <-. destruct (Hown (cf_state c) Ha) as [Hsame _].
    eapply pool_ok_quiet; [done | done | by apply step_ok_free |]. intros h Q HQ. apply (HQ (cf_state c) Ha).
  - injection Ht as <- <-. eapply pool_ok_quiet; [done | done | by apply step_ok_free |by intros h Q [_ HQ]].
  - injection Ht as <- <-. assert (Hnw : no_writer (cf_threads c) = true).
    { apply no_writer_spec. intros j u Hj. destruct (decide (i = j)) as [<-|Hne]; [by replace u with (Reading, Access f k) by congruence|].
      destruct (is_writing u) eqn:Hu; [|done]. pose proof (po_exclusive _ _ _ Hok j i u _ (not_eq_sym Hne) Hj Hi Hu). done. }
    specialize (Hinv Hnw). destruct (Hown (cf_state c) Hinv) as [Hsame _].
    eapply pool_ok_quiet; [done | done | by apply step_ok_free; auto |]. intros h Q HQ. apply (HQ (cf_state c) Hinv).
  - injection Ht as <- <-. by eapply pool_unlock.
  - injection Ht as <- <-. destruct Hown as [Hst HA]. destruct (HA (cf_state c) (reflexivity _) Ha) as [Ha' _].
    eapply pool_ok_quiet; [done | done | |].
    + apply step_ok_writing; auto. intros x Hx. by eapply (ps_start _ _ Hx).
    + intros h Q [_ HQ]. split; [done|]. apply (HQ (cf_state c) (reflexivity _) Ha).
Qed.

Lemma pool_run s0 Qs c c' : pool_ok s0 Qs c -> rtc step c c' -> pool_ok s0 Qs c'.
Proof. induction 2 as [|c c1 c' Hstep _ IH]; [done|]. apply IH. by eapply pool_step. Qed.

Lemma pool_start s Qs ps : ls_inv L s -> Forall2 (fun Q p => safe Free (fun _ => True) [] Q p) Qs ps -> pool_ok s Qs (started s ps).
Proof.
  intros Hs Hps. assert (Hfree : forall i t, (pair Free <$> ps) !! i = Some t -> is_free t = true).
  { intros i t Hi. rewrite list_lookup_fmap in Hi. destruct (ps !! i); by simplify_eq/=. }
  split; cbn.
  - apply Forall2_fmap_r. eapply Forall2_impl; [exact Hps|]. intros Q p H. by exists [].
  - intros i j t t' _ _ Hj _. by eapply Hfree.
  - by apply ls_inv_always.
  - done.
  - split; cbn; [intros _; apply rtc_refl|]. intros i start p Hi. apply Hfree in Hi. done.
Qed.

(** ** No schedule gets stuck: a goroutine that holds the lock can go on, and when
    nobody holds it everyone can. *)
Lemma pool_progress s0 Qs c i t : pool_ok s0 Qs c -> cf_threads c !! i = Some t -> finished t = false ->
  is_free t = false \/ no_holder (cf_threads c) = true -> exists c', step_at i c = Some c'.
Proof.
  intros Hok Hi Hf Hh. unfold step_at. rewrite Hi.
  assert (HQ : exists h Q, thread_ok (cf_state c) h Q t).
  { pose proof (po_threads _ _ _ Hok) as Hts. rewrite Forall2_lookup in Hts. specialize (Hts i). rewrite Hi in Hts.
    inversion Hts as [Q ? (h & HQ & _)|]; subst. by exists h, Q. }
  destruct HQ as (h & Q & Hown). assert (Hnw : no_holder (cf_threads c) = true -> no_writer (cf_threads c) = true).
  { rewrite no_holder_spec, no_writer_spec. intros H j u Hj. by eapply free_not_writing, H. }
  destruct t as [[| |start] [r|p|p|p|p|f k]]; cbn in *; try done; try (by eexists); try naive_solver.
  - destruct Hh as [|Hh]; [done|]. rewrite Hh. by eexists.
  - destruct Hh as [|Hh]; [done|]. rewrite (Hnw Hh). by eexists.
Qed.

Lemma pool_not_stuck s0 Qs c : pool_ok s0 Qs c -> forallb finished (cf_threads c) = false -> exists c', step c c'.
Proof.
  intros Hok Hf. destruct (no_holder (cf_threads c)) eqn:Hn.
  - assert (Hex : exists i t, cf_threads c !! i = Some t /\ finished t = false).
    { clear -Hf. induction (cf_threads c) as [|t ts IH]; [done|]. cbn in Hf. destruct (finished t) eqn:E; [|by exists 0%nat, t].
      destruct (IH Hf) as (i & u & Hi & Hu). by exists (Datatypes.S i), u. }
    destruct Hex as (i & t & Hi & Ht). destruct (pool_progress s0 Qs c i t Hok Hi Ht) as [c' Hc]; [by right|]. exists c'. by exists i.
  - assert (Hex : exists i t, cf_threads c !! i = Some t /\ is_free t = false).
    { clear -Hn. unfold no_holder in Hn. induction (cf_threads c) as [|t ts IH]; [done|]. cbn in Hn. destruct (is_free t) eqn:E; [|by exists 0%nat, t].
      destruct (IH Hn) as (i & u & Hi & Hu). by exists (Datatypes.S i), u. }
    destruct Hex as (i & t & Hi & Ht). assert (Hfin : finished t = false).
    { destruct t as [m [r|p|p|p|p|f k]]; try done. pose proof (po_threads _ _ _ Hok) as Hts. rewrite Forall2_lookup in Hts. specialize (Hts i).
      rewrite Hi in Hts. inversion Hts as [Q ? (h & HQ & _)|]; subst. destruct m; cbn in *; naive_solver. }
    destruct (pool_progress s0 Qs c i t Hok Hi Hfin) as [c' Hc]; [by left|]. exists c'. by exists i.
Qed.

(** What a goroutine that has returned gave back, and the commits it made *)
Lemma pool_results s0 Qs c i m r : pool_ok s0 Qs c -> cf_threads c !! i = Some ((m, Return r) : thread) ->
  exists Q h, Qs !! i = Some Q /\ Q h r /\ Forall (committed s0 c) h.
Proof.
  intros Hok Hi. pose proof (po_threads _ _ _ Hok) as Hts. rewrite Forall2_lookup in Hts. specialize (Hts i). rewrite Hi in Hts.
  inversion Hts as [Q ? (h & HQ & Hh)|]; subst. exists Q, h. split; [done|]. destruct m; cbn in HQ; naive_solver.
Qed.

(** Everything together: from lawful programs every run ends, with all of them
    returned. *)
Theorem pool_finishes s0 Qs c : pool_ok s0 Qs c -> exists c', rtc step c c' /\ forallb finished (cf_threads c') = true.
Proof.
  induction (schedules_end c) as [c _ IH]. intros Hok. destruct (forallb finished (cf_threads c)) eqn:E; [by exists c|].
  destruct (pool_not_stuck s0 Qs c Hok E) as [c1 H1]. destruct (IH c1 H1) as (c' & H2 & H3); [by eapply pool_step|].
  exists c'. split; [by eapply rtc_l | done].
Qed.
End Programs.
Arguments prog : clear implicits.
Arguments mode : clear implicits.
Arguments thread : clear implicits.
Arguments config : clear implicits.
Arguments lock_spec : clear implicits.
