(* ===== verification/ServiceSteps.v ===== *)
(** * The service under concurrent requests (internal/app/service.go, [sync.RWMutex])

    The methods of the service as goroutine programs: every acquisition and release of
    [s.mu], and between them the accesses to the service's fields and the calls of the
    routing engine and of the DNS manager, which have locks of their own and which
    readers reach without holding [s.mu].  [s.mode], [s.versions] and [s.dnsSource]
    are never written after construction and are read without a lock.

    Run alone a program is the method of [Service.v]; run together, under every
    schedule, the programs amount to a sequence of critical sections. *)

From stdpp Require Import base strings numbers gmap list relations.
From S2P Require Import Prelude CodecErrors Frame GoStrings Netip Routing PrivateDns ControlTypes Service ServiceSafety ControlApi Concurrent.
Local Open Scope Z_scope.
Local Open Scope wg_scope.

Definition reply : Set := outcome ApiErr ApiValue.
Definition reply_of {A : Type} (value : A -> ApiValue) (o : outcome ApiErr A) : reply := let* a := o in Ok (value a).
Definition sprog : Type := prog Service reply.

(** ** Accesses *)

Fixpoint in_section {A : Type} (b : body A) (k : A -> sprog) : sprog :=
  match b with
  | Done a => k a
  | Touch f g => Access f (fun s => in_section (g s) k)
  end.

Definition with_lock {A : Type} (b : body A) (k : A -> sprog) : sprog := Lock (in_section b (fun a => Unlock (k a))).
Definition with_rlock {A : Type} (read : Service -> A) (k : A -> sprog) : sprog := RLock (Access id (fun s => RUnlock (k (read s)))).
(** A read of a part with its own lock, or of a field that is never written *)
Definition peek {A : Type} (read : Service -> A) (k : A -> sprog) : sprog := Access id (fun s => k (read s)).
Definition attempt {A : Type} (o : outcome ApiErr A) (k : A -> sprog) : sprog :=
  match o with
  | Ok a => k a
  | Err e => Return (Err e)
  | Panic => Return Panic
  | Diverge => Return Diverge
  end.
Definition client_only (k : sprog) : sprog :=
  peek sv_mode (fun mode => if bool_decide (mode = lit "server") then Return (Err ErrUnsupported) else k).

Section Steps.
Context {U : Unicode}.

(** ** Critical sections *)
Fixpoint prune_loop (now : Z) (entries : list (bytes * ruleMetadata)) : body unit :=
  match entries with
  | [] => Done tt
  | (target, meta) :: entries =>
      if negb (expired now meta) then prune_loop now entries
      else
        Touch (on_routes (fun e => fst (DeleteRule target e))) (fun s =>
        let r := snd (DeleteRule target (sv_routes s)) in
        Touch (fun s =>
          let s := match r with Ok _ => with_revision (u64 (sv_revision s + 1)) s | _ => s end in
          with_rules_of (sv_routes s) (delete target (sv_ruleMeta s)) (removeRecentAutoLocked target (sv_recentAuto s)) s)
          (fun _ => prune_loop now entries))
  end.
Definition prune_body (now : Z) : body unit := Touch id (fun s => prune_loop now (map_to_list (sv_ruleMeta s))).

(** A section that leaves the routing engine alone is one access. *)
Definition fields {A : Type} (m : act Service ApiErr A) : body (outcome ApiErr A) := Touch (fun s => fst (m s)) (fun s => Done (snd (m s))).

Definition revision_body : body unit := Touch (fun s => with_revision (u64 (sv_revision s + 1)) s) (fun _ => Done tt).

(** ** The methods *)
Definition prune_steps (now : Z) (k : sprog) : sprog := with_lock (prune_body now) (fun _ => k).
Definition dns_steps (k : DNSStatus -> sprog) : sprog :=
  peek (fun s => Manager_Status (sv_dns s)) (fun status => peek (fun s => Manager_Snapshot (sv_dns s)) (fun snapshot => k (dns_response status snapshot))).

Definition status_steps (nowPrune nowUptime : Z) (k : StatusResponse -> sprog) : sprog :=
  prune_steps nowPrune
    (with_rlock id (fun copy =>
     dns_steps (fun dns =>
     peek (fun s => Generation (sv_routes s)) (fun generation =>
     peek (fun s => len (List (sv_routes s))) (fun manual =>
     with_rlock autoCount (fun auto =>
     k (status_response nowUptime copy dns generation manual auto))))))).
Definition list_steps (filter_ : RuleFilter) (now : Z) : sprog :=
  prune_steps now
    (peek (fun s => List (sv_routes s)) (fun rules =>
     with_rlock sv_ruleMeta (fun ruleMeta =>
     with_rlock (fun s => cloneRules (sv_recentAuto s)) (fun recent =>
     peek (fun s => Generation (sv_routes s)) (fun generation =>
     Return (Ok (VRules (list_response filter_ (with_metadata ruleMeta rules ++ recent) generation)))))))).
Definition explain_steps (target : bytes) (now : Z) : sprog :=
  prune_steps now (peek (fun s => Explain (sv_routes s) target) (fun r => Return (reply_of VExplanation (explain_answer r)))).
Definition connection_steps (action : bytes) (request : OperationRequest) (now : Z) : sprog :=
  client_only (attempt (validateOperationID (oq_OperationID request)) (fun _ =>
    with_lock (fields (ConnectionAction_locked action request now)) (fun r => Return (reply_of VOperation r)))).
Definition set_steps (request : SetRuleRequest) (nowPrune nowCheck nowRule : Z) : sprog :=
  client_only (attempt (validateOperationID (sq_OperationID request)) (fun _ =>
    prune_steps nowPrune
      (attempt (wrap_err (fun _ => ErrInvalidInput) (ParseAction (sq_Result request))) (fun action =>
       if bool_decide (action = ActionAuto) then Return (Err ErrInvalidInput)
       else attempt (wrap_err (fun _ => ErrInvalidInput) (ParseTarget (sq_Target request))) (fun target =>
         if match sq_ExpiresAt request with Some at_ => negb (nowCheck <? at_) | None => false end then Return (Err ErrInvalidInput)
         else with_lock (set_body request target action nowRule) (fun r => Return (reply_of VMutation r))))))).
Definition delete_steps (id : bytes) (request : DeleteRuleRequest) (nowPrune nowReply : Z) : sprog :=
  client_only (attempt (validateOperationID (dq_OperationID request)) (fun _ =>
    prune_steps nowPrune (with_lock (delete_body id request nowReply) (fun r => Return (reply_of VMutation r))))).
Definition refresh_steps (request : OperationRequest) (read : Snapshot + bytes) (dnsNow : Z) : sprog :=
  client_only (attempt (validateOperationID (oq_OperationID request)) (fun _ =>
    peek sv_hasSource (fun hasSource =>
    if negb hasSource then dns_steps (fun _ => Return (Err ErrUnsupported))
    else Access (fun s => with_dns (fst (RefreshFrom (Some read) dnsNow (sv_dns s))) s) (fun s =>
      let err := snd (snd (RefreshFrom (Some read) dnsNow (sv_dns s))) in
      with_lock revision_body (fun _ => dns_steps (fun dns => Return (match err with Some _ => Err ErrInternal | None => Ok (VDNS dns) end))))))).
Definition validate_steps (request : PairingValidationRequest) (random : option bytes) (now : Z) (nowEach : bytes -> Z) : sprog :=
  client_only
    match ParseAddr (TrimSpace (pq_ServerIP request)) with
    | None => Return (Err ErrInvalidInput)
    | Some address =>
        if negb (bool_decide (pq_FileName request = pairing_file)) then Return (Err ErrInvalidInput)
        else if negb (bool_decide (pq_Fingerprint request = [])) && negb (bool_decide (pq_Fingerprint request = demoFingerprint))
        then Return (Err ErrInvalidInput)
        else match random with
        | None => Return (Err ErrInternal)
        | Some validationBytes =>
            with_lock (fields (ValidatePairing_locked (hex_encode validationBytes) (Addr_String address) request (now + pairing_minutes) nowEach))
              (fun r => Return (reply_of VPairing r))
        end
    end.
Definition enroll_steps (request : EnrollRequest) (now : Z) : sprog :=
  attempt (validateOperationID (eq_OperationID request)) (fun _ =>
    if negb (eq_FingerprintConfirmed request) || negb (eq_AuthorizationConfirmed request) then Return (Err ErrInvalidInput)
    else if negb (bool_decide (eq_FileName request = pairing_file)) then Return (Err ErrInvalidInput)
    else match ParseAddr (TrimSpace (eq_ServerIP request)) with
    | None => Return (Err ErrInvalidInput)
    | Some address =>
        if negb (len (eq_ValidationID request) =? 32) then Return (Err ErrInvalidInput)
        else if negb (hex_decodable (eq_ValidationID request)) then Return (Err ErrInvalidInput)
        else with_lock (fields (Enroll_locked request address now)) (fun r => Return (reply_of VOperation r))
    end).

Definition call_steps (c : call) : sprog :=
  match c with
  | CallStatus n1 n2 => status_steps n1 n2 (fun status => Return (Ok (VStatus status)))
  | CallConnection action request now => connection_steps action request now
  | CallListRules f now => list_steps f now
  | CallSetRule request n1 n2 n3 => set_steps request n1 n2 n3
  | CallDeleteRule id request n1 n2 => delete_steps id request n1 n2
  | CallExplain target now => explain_steps target now
  | CallDNSStatus => dns_steps (fun dns => Return (Ok (VDNS dns)))
  | CallRefreshDNS request read dnsNow => refresh_steps request read dnsNow
  | CallDoctor n1 n2 n3 => status_steps n1 n2 (fun status => Return (Ok (VDoctor (doctor_report status n3))))
  | CallCheckUpdate now => peek sv_versions (fun versions => Return (Ok (VUpdate (update_status versions now))))
  | CallUpdate action request => Return (Err ErrUnsupported)
  | CallValidate request random now nowEach => validate_steps request random now nowEach
  | CallEnroll request now => enroll_steps request now
  end.

(** The same calls as the methods of [Service.v] *)
Definition whole {A : Type} (value : A -> ApiValue) (m : act Service ApiErr A) (s : Service) : Service * reply :=
  (fst (m s), reply_of value (snd (m s))).
Definition call_whole (c : call) : Service -> Service * reply :=
  match c with
  | CallStatus n1 n2 => whole VStatus (ServiceStatus n1 n2)
  | CallConnection action request now => whole VOperation (ConnectionAction action request now)
  | CallListRules f now => whole VRules (ListRules f now)
  | CallSetRule request n1 n2 n3 => whole VMutation (Service_SetRule request n1 n2 n3)
  | CallDeleteRule id request n1 n2 => whole VMutation (Service_DeleteRule id request n1 n2)
  | CallExplain target now => whole VExplanation (ExplainRule target now)
  | CallDNSStatus => whole VDNS ServiceDNSStatus
  | CallRefreshDNS request read dnsNow => whole VDNS (refresh_act request read dnsNow)
  | CallDoctor n1 n2 n3 => whole VDoctor (RunDoctor n1 n2 n3)
  | CallCheckUpdate now => whole VUpdate (CheckUpdate now)
  | CallUpdate action request => whole VUpdate (UpdateAction action request)
  | CallValidate request random now nowEach => whole VPairing (ValidatePairing request random now nowEach)
  | CallEnroll request now => whole VOperation (Enroll request now)
  end.

(** ** A method that runs alone *)
Lemma alone_in_section {A} (b : body A) k : forall s, alone (in_section b k) s = alone (k (snd (run_body b s))) (fst (run_body b s)).
Proof. induction b as [a|f g IH]; intros s; cbn; [done | apply IH]. Qed.

Lemma alone_lock {A} (b : body A) k s : alone (with_lock b k) s = alone (k (snd (run_body b s))) (fst (run_body b s)).
Proof. unfold with_lock. cbn [alone]. by rewrite alone_in_section. Qed.

Lemma run_prune now s : run_body (prune_body now) s = (pruneExpiredRules now s, tt).
Proof.
  unfold prune_body, pruneExpiredRules. cbn [run_body]. change (id s) with s. generalize (map_to_list (sv_ruleMeta s)). intros l. revert s.
  induction l as [|[v m] l IH]; intros s; cbn [prune_loop fold_left]; [done|]. unfold prune_one at 2. destruct (negb (expired now m)); [apply IH|].
  cbn [run_body]. rewrite IH. f_equal. f_equal. unfold on_routes. destruct (DeleteRule v (sv_routes s)) as [e []]; done.
Qed.

Lemma run_fields {A} (m : act Service ApiErr A) s : run_body (fields m) s = m s.
Proof. cbn. by destruct (m s). Qed.

Lemma alone_prune now k s : alone (prune_steps now k) s = alone k (pruneExpiredRules now s).
Proof. unfold prune_steps. by rewrite alone_lock, run_prune. Qed.

Lemma alone_attempt {A} (o : outcome ApiErr A) k s : alone (attempt o k) s = match o with Ok a => alone (k a) s | Err e => (s, Err e) | Panic => (s, Panic) | Diverge => (s, Diverge) end.
Proof. by destruct o. Qed.

Lemma alone_client k s : alone (client_only k) s = if bool_decide (sv_mode s = lit "server") then (s, Err ErrUnsupported) else alone k s.
Proof. unfold client_only, peek. cbn [alone]. by destruct (bool_decide _). Qed.

Lemma whole_bind {A B} (value : B -> ApiValue) (m : act Service ApiErr A) (k : A -> act Service ApiErr B) s :
  whole value (act_bind m k) s = match snd (m s) with
    | Ok a => whole value (k a) (fst (m s)) | Err e => (fst (m s), Err e) | Panic => (fst (m s), Panic) | Diverge => (fst (m s), Diverge) end.
Proof. unfold whole, act_bind. by destruct (m s) as [s' []]. Qed.

(** The two models of the service agree: without interference the program of a call is
    its sequential method. *)
Lemma alone_call c s : alone (call_steps c) s = call_whole c s.
Proof.
  destruct c as [n1 n2|action request now|f now|request n1 n2 n3|id request n1 n2|target now| |request read dnsNow|n1 n2 n3|now|action request|request random now nowEach|request now]; cbn [call_steps call_whole].
  - unfold status_steps. by rewrite alone_prune.
  - unfold connection_steps, ConnectionAction. rewrite alone_client, alone_attempt, whole_bind. cbn [act_get snd fst].
    destruct (bool_decide _); [done|]. rewrite whole_bind. cbn [act_lift snd fst]. destruct (validateOperationID _); try done.
  - unfold list_steps. by rewrite alone_prune.
  - unfold set_steps, Service_SetRule. rewrite alone_client, alone_attempt, whole_bind. cbn [act_get snd fst].
    destruct (bool_decide _); [done|]. rewrite whole_bind. cbn [act_lift snd fst]. destruct (validateOperationID _); try done.
    rewrite alone_prune, alone_attempt, whole_bind. cbn [prune act_set snd fst]. rewrite whole_bind. cbn [act_lift snd fst].
    destruct (wrap_err _ (ParseAction _)) as [action|e| |]; try done. destruct (bool_decide _); [done|]. rewrite alone_attempt, whole_bind. cbn [act_lift snd fst].
    destruct (wrap_err _ (ParseTarget _)) as [target|e| |]; try done. rewrite whole_bind.
    destruct (sq_ExpiresAt request) as [at_|]; [destruct (negb _); [done|]|]; by rewrite alone_lock.
  - unfold delete_steps, Service_DeleteRule. rewrite alone_client, alone_attempt, whole_bind. cbn [act_get snd fst].
    destruct (bool_decide _); [done|]. rewrite whole_bind. cbn [act_lift snd fst]. destruct (validateOperationID _); try done.
    by rewrite alone_prune, alone_lock.
  - unfold explain_steps. by rewrite alone_prune.
  - done.
  - unfold refresh_steps, whole, refresh_act, RefreshDNS. rewrite alone_client, alone_attempt. destruct (bool_decide _); [done|].
    destruct (validateOperationID_cases (oq_OperationID request)) as [-> | ->]; [|done]. unfold peek. cbn [alone]. change (Datatypes.id s) with s.
    destruct (negb _); [done|]. cbn [alone]. rewrite alone_lock. by destruct (RefreshFrom _ _ _) as [dns [status []]].
  - unfold status_steps. by rewrite alone_prune.
  - done.
  - done.
  - unfold validate_steps, ValidatePairing. rewrite alone_client, whole_bind. cbn [act_get snd fst]. destruct (bool_decide _); [done|].
    destruct (ParseAddr _); [|done]. destruct (negb _); [done|]. destruct (_ && _); [done|]. destruct random; [|done]. by rewrite alone_lock, run_fields.
  - unfold enroll_steps, Enroll. rewrite alone_attempt, whole_bind. cbn [act_lift snd fst]. destruct (validateOperationID _); try done.
    destruct (_ || _); [done|]. destruct (negb _); [done|]. destruct (ParseAddr _); [|done]. destruct (negb _); [done|]. destruct (negb _); [done|].
    by rewrite alone_lock, run_fields.
Qed.

(** ** What the lock protects *)

(** Everything but the DNS manager *)
Definition same (s s' : Service) : Prop := exists dns, s' = with_dns dns s.
#[local] Instance same_equivalence : Equivalence same.
Proof.
  split; [intros s; exists (sv_dns s); by destruct s | intros s ? [d ->]; exists (sv_dns s); by destruct s | intros s ? ? [d ->] [d' ->]; by exists d'].
Qed.

(** The critical sections of the service, with their answers where they have one. *)
Inductive section : Set :=
| SecPrune (now : Z)
| SecRevision
| SecConnection (action : bytes) (request : OperationRequest) (now : Z)
| SecSet (request : SetRuleRequest) (target : Target) (action : Action) (now : Z)
| SecDelete (id : bytes) (request : DeleteRuleRequest) (now : Z)
| SecValidate (id ip : bytes) (request : PairingValidationRequest) (expiresAt : Z) (nowEach : bytes -> Z)
| SecEnroll (request : EnrollRequest) (address : Addr) (now : Z).

Definition section_whole (x : section) (s : Service) : Service * reply :=
  match x with
  | SecPrune now => (pruneExpiredRules now s, Err ErrInternal)
  | SecRevision => (with_revision (u64 (sv_revision s + 1)) s, Err ErrInternal)
  | SecConnection action request now => whole VOperation (ConnectionAction_locked action request now) s
  | SecSet request target action now => whole VMutation (SetRule_locked request target action now) s
  | SecDelete id request now => whole VMutation (DeleteRule_locked id request now) s
  | SecValidate id ip request expiresAt nowEach => whole VPairing (ValidatePairing_locked id ip request expiresAt nowEach) s
  | SecEnroll request address now => whole VOperation (Enroll_locked request address now) s
  end.
Definition run_section (s : Service) (x : section) : Service := fst (section_whole x s).
Definition section_answer (x : section) (s : Service) : reply := snd (section_whole x s).
(** Targets come from [ParseTarget]. *)
Definition section_ok (x : section) : Prop :=
  match x with SecSet request target _ _ => ParseTarget (sq_Target request) = Ok target | _ => True end.
Definition commit (s s' : Service) : Prop := exists x, section_ok x /\ same (run_section s x) s'.

Lemma section_kept s x : service_ok s -> section_ok x -> kept s (run_section s x).
Proof.
  intros Hs Hx. destruct x; unfold run_section; cbn [section_whole fst whole].
  - by apply prune_kept.
  - by apply kept_same.
  - apply ConnectionAction_kept.
  - by eapply SetRule_kept.
  - apply DeleteRule_kept.
  - apply ValidatePairing_kept.
  - apply Enroll_kept.
Qed.

Lemma service_ok_dns s s' : same s s' -> service_ok s -> service_ok s'.
Proof. intros [d ->] H. by apply (service_ok_same s). Qed.

Definition engine_mode (mode : bytes) (s : Service) : Prop := engine_ok (sv_routes s) /\ sv_mode s = mode.
Definition service_lock (mode : bytes) : lock_spec Service.
Proof.
  refine (mkLockSpec same (fun s => service_ok s /\ sv_mode s = mode) (engine_mode mode) commit _ _ _ _ _).
  - intros s s' Hs [H1 H2]. split; [by eapply service_ok_dns | by destruct Hs as [d ->]].
  - by intros s s' [d ->].
  - intros s [H1 H2]. split; [by apply so_engine | done].
  - intros s s' [Hs Hm] (x & Hx & Hsame). pose proof (section_kept s x Hs Hx) as K. split; [eapply service_ok_dns; [exact Hsame | by apply K]|].
    destruct Hsame as [d ->]. cbn. by rewrite (kp_mode _ _ K).
Defined.

(** A section's accesses keep the engine in order and the mode, and have nothing to do
    with DNS. *)
Fixpoint body_ok {A : Type} (b : body A) : Prop :=
  match b with
  | Done _ => True
  | Touch f k => forall s, engine_ok (sv_routes s) -> engine_ok (sv_routes (f s)) /\ sv_mode (f s) = sv_mode s /\ (forall d, f (with_dns d s) = with_dns d (f s))
      /\ (forall d, k (with_dns d s) = k s) /\ body_ok (k s)
  end.

Lemma run_body_dns {A} (b : body A) d : forall s, body_ok b -> engine_ok (sv_routes s) ->
  run_body b (with_dns d s) = (with_dns d (fst (run_body b s)), snd (run_body b s)).
Proof.
  induction b as [a|f k IH]; intros s Hb He; [done|]. destruct (Hb s He) as (H1 & _ & H2 & H3 & H4). cbn [run_body]. rewrite H2, H3. by apply IH.
Qed.

Section Discipline.
Context (mode : bytes).

Lemma in_section_safe {A} (b : body A) h Q start k : forall (s : Service), engine_mode mode s -> body_ok b ->
  (forall s', same (fst (run_body b s)) s' -> commit start s' /\ safe (service_lock mode) Free (fun _ => True) ((start, s') :: h) Q (k (snd (run_body b s)))) ->
  safe (service_lock mode) (Writing start) (same s) h Q (in_section b (fun a => Unlock (k a))).
Proof.
  induction b as [a|f g IH]; intros s [He Hm] Hb Hk; cbn [in_section safe]; [intros s' Hs _; by apply Hk|].
  intros s' [d ->] _. destruct (Hb s He) as (H1 & Hf & H2 & H3 & H4). assert (He' : engine_mode mode (f s)) by (split; [done | congruence]).
  split; [by rewrite H2|]. rewrite H3.
  eapply safe_weaken; [|by apply (IH s (f s))]. intros x Hx. cbn in Hx. rewrite H2 in Hx. etrans; [by exists d | exact Hx].
Qed.

(** A goroutine that takes the lock for a section *)
Lemma with_lock_safe {A} (b : body A) P h Q k x : body_ok b -> section_ok x -> (forall s, fst (run_body b s) = run_section s x) ->
  (forall start s', service_ok start -> same (run_section start x) s' ->
     safe (service_lock mode) Free (fun _ => True) ((start, s') :: h) Q (k (snd (run_body b start)))) ->
  safe (service_lock mode) Free P h Q (with_lock b k).
Proof.
  intros Hb Hx Hrun Hk. split; [done|]. intros start [Hs Hm]. apply in_section_safe; [by split; [apply Hs|] | done|].
  intros s' Hsame. rewrite Hrun in Hsame. split; [by exists x | by apply Hk].
Qed.

Lemma with_rlock_safe {A} (read : Service -> A) P h Q k : (forall a, safe (service_lock mode) Free (fun _ => True) h Q (k a)) ->
  safe (service_lock mode) Free P h Q (with_rlock read k).
Proof. intros Hk. split; [done|]. intros s Hs. split; [reflexivity|]. split; [done | apply Hk]. Qed.

Lemma peek_safe {A} (read : Service -> A) P h Q k : (forall a, safe (service_lock mode) Free (fun _ => True) h Q (k a)) ->
  safe (service_lock mode) Free P h Q (peek read k).
Proof. intros Hk s Hs. split; [reflexivity | apply Hk]. Qed.
End Discipline.

(** *** The sections of the methods *)
Lemma DeleteRule_engine v e : engine_ok e -> engine_ok (fst (DeleteRule v e)).
Proof. exact (run_op_ok e (OpDelete v)). Qed.

Lemma SetRule_engine v action now e : engine_ok e -> engine_ok (fst (SetRule v action now e)).
Proof. exact (run_op_ok e (OpSet v action now)). Qed.

Lemma prune_loop_ok now l : body_ok (prune_loop now l).
Proof.
  induction l as [|[v m] l IH]; cbn [prune_loop]; [done|]. destruct (negb _); [done|]. intros s He. split_and!; try done.
  - by apply DeleteRule_engine.
  - intros s' He'. destruct (snd (DeleteRule v (sv_routes s))); done.
Qed.

Lemma prune_body_ok now : body_ok (prune_body now).
Proof. intros s He. split_and!; try done. apply prune_loop_ok. Qed.

Lemma set_body_ok request target action now : body_ok (set_body request target action now).
Proof.
  intros s He. split_and!; try done. destruct (_ !! _); [done|]. destruct (set_refused _ _ _); [done|]. intros s' He'. split_and!; try done.
  - by apply SetRule_engine.
  - by destruct (wrap_err _ _).
Qed.

Lemma delete_body_ok id request now : body_ok (delete_body id request now).
Proof.
  intros s He. split_and!; try done. destruct (_ !! _); [done|]. destruct (deleted_id id request s) as [i|e| |]; try done.
  destruct (HasPrefix _ _); [by destruct (list_find _ _) as [[]|]|]. destruct (rule_by_id _ _); [|done]. cbv zeta.
  destruct (match dq_ExpectedRevision request with Some _ => _ | None => _ end); [done|]. intros s' He'. split_and!; try done.
  - by apply DeleteRule_engine.
  - by destruct (wrap_err _ _).
Qed.

(** A section that leaves routes and DNS alone *)
Lemma fields_ok {A} (m : act Service ApiErr A) : (forall s, sv_routes (fst (m s)) = sv_routes s) -> (forall s, kept s (fst (m s))) ->
  (forall d s, m (with_dns d s) = (with_dns d (fst (m s)), snd (m s))) -> body_ok (fields m).
Proof. intros Hr Hk Hd s He. split_and!; [by rewrite Hr | by apply Hk | intros d; by rewrite Hd | intros d; by rewrite Hd | done]. Qed.

Lemma connection_body_ok action request now : body_ok (fields (ConnectionAction_locked action request now)).
Proof.
  apply fields_ok.
  - intros s. pose proof (ConnectionAction_locked_cases action request now s) as H. destruct (ConnectionAction_locked _ _ _ s) as [s' []]; try done; [|by rewrite H].
    by destruct H as [[_ ->]|(_ & ? & ? & ? & ? & ->)].
  - apply ConnectionAction_kept.
  - intros d s. unfold ConnectionAction_locked, act_bind, act_get, act_set, act_ret, act_fail. cbn.
    destruct (_ !! _); [done|]. repeat (destruct (bool_decide _); try done).
Qed.

Lemma validate_body_ok id ip request expiresAt nowEach : body_ok (fields (ValidatePairing_locked id ip request expiresAt nowEach)).
Proof.
  apply fields_ok.
  - intros s. pose proof (ValidatePairing_locked_cases id ip request expiresAt nowEach s) as H.
    destruct (ValidatePairing_locked _ _ _ _ _ s) as [s' []]; try done; [by destruct H as (_ & -> & _) | by rewrite H].
  - apply ValidatePairing_kept.
  - intros d s. unfold ValidatePairing_locked, act_bind, act_get, act_set, act_ret, act_fail. cbn [with_dns sv_pairingValidations sv_endpoint].
    by destruct (128 <=? _).
Qed.

Lemma enroll_body_ok request address now : body_ok (fields (Enroll_locked request address now)).
Proof.
  apply fields_ok.
  - intros s. pose proof (Enroll_locked_cases request address now s) as H.
    destruct (Enroll_locked _ _ _ s) as [s' []]; try done; [by destruct H as [[_ ->]|(_ & _ & ->)] | by destruct H as [_ [-> | ->]]].
  - apply Enroll_kept.
  - intros d s. unfold Enroll_locked, act_bind, act_get, act_set, act_ret, act_fail. cbn [with_dns sv_operations sv_pairingValidations].
    destruct (sv_operations s !! _); [done|]. destruct (sv_pairingValidations s !! _); [|done]. destruct (negb _); [done|]. by destruct (_ || _).
Qed.

(** ** The discipline of the methods *)

(** The section a changing call is there for *)
Definition main_section (c : call) (x : section) : Prop :=
  match c with
  | CallConnection action request now => x = SecConnection action request now
  | CallSetRule request _ _ now => exists target action,
      ParseTarget (sq_Target request) = Ok target /\ ParseAction (sq_Result request) = Ok action /\ x = SecSet request target action now
  | CallDeleteRule id request _ now => x = SecDelete id request now
  | CallValidate request random now nowEach => exists address b, ParseAddr (TrimSpace (pq_ServerIP request)) = Some address /\ random = Some b
      /\ x = SecValidate (hex_encode b) (Addr_String address) request (now + pairing_minutes) nowEach
  | CallEnroll request now => exists address, ParseAddr (TrimSpace (eq_ServerIP request)) = Some address /\ x = SecEnroll request address now
  | _ => False
  end.
Definition changes (c : call) : bool :=
  match c with CallConnection _ _ _ | CallSetRule _ _ _ _ | CallDeleteRule _ _ _ _ | CallValidate _ _ _ _ | CallEnroll _ _ => true | _ => false end.

Definition prunes (h : list (Service * Service)) : Prop := Forall (fun ab => exists now, same (pruneExpiredRules now ab.1) ab.2) h.

(** What a call answers, given the commits it made: a changing call is refused as it
    would be in every state, having at most removed expired overrides, or answers what
    its section answers in the state it found. *)
Definition refused (mode : bytes) (c : call) (r : reply) : Prop :=
  (exists e, r = Err e) /\ forall s, sv_mode s = mode -> snd (call_whole c s) = r.
Definition call_answer (mode : bytes) (c : call) (h : list (Service * Service)) (r : reply) : Prop :=
  returns r /\ (changes c = true -> refused mode c r /\ prunes h
    \/ exists x a b h', main_section c x /\ h = (a, b) :: h' /\ same (run_section a x) b /\ r = section_answer x a).

Lemma section_returns x s : section_ok x -> returns (section_answer x s).
Proof.
  intros Hx. destruct x; unfold section_answer; cbn [section_whole snd whole]; try done.
  - pose proof (ConnectionAction_locked_cases action request now s) as H. by destruct (ConnectionAction_locked _ _ _ s) as [s' []].
  - pose proof (SetRule_locked_cases request target action now s) as H. by destruct (SetRule_locked _ _ _ _ s) as [s' []].
  - pose proof (DeleteRule_locked_cases id request now s) as H. by destruct (DeleteRule_locked _ _ _ s) as [s' []].
  - pose proof (ValidatePairing_locked_cases id ip request expiresAt nowEach s) as H. by destruct (ValidatePairing_locked _ _ _ _ _ s) as [s' []].
  - pose proof (Enroll_locked_cases request address now s) as H. by destruct (Enroll_locked _ _ _ s) as [s' []].
Qed.

(** *** Gates

    [follows c p]: alone, the call answers what the rest [p] of it answers. *)
Section Gates.
Context (mode : bytes) (c : call).
Definition follows (p : sprog) : Prop :=
  forall s, sv_mode s = mode -> exists s', sv_mode s' = mode /\ snd (alone (call_steps c) s) = snd (alone p s').
Definition good (h : list (Service * Service)) (p : sprog) : Prop :=
  follows p -> safe (service_lock mode) Free (fun _ => True) h (call_answer mode c) p.

Lemma refuse_good e h : prunes h -> good h (Return (Err e)).
Proof.
  intros Hh Hf. split; [done|]. split; [done|]. intros _. left. split; [|done]. split; [by exists e|].
  intros s Hs. rewrite <- alone_call. by destruct (Hf s Hs) as (s' & _ & ->).
Qed.

Lemma attempt_good {A} (o : outcome ApiErr A) h k : returns o -> prunes h -> (forall a, o = Ok a -> good h (k a)) -> good h (attempt o k).
Proof. intros Ho Hh Hk. destruct o; try done; [by apply Hk | by apply refuse_good]. Qed.

Lemma client_only_good k h : prunes h -> good h k -> good h (client_only k).
Proof.
  intros Hh Hk Hf s [_ Hm]. split; [reflexivity|]. rewrite Hm. revert Hf. unfold follows.
  setoid_rewrite alone_client. intros Hf. destruct (bool_decide (mode = lit "server")) eqn:E.
  - apply refuse_good; [done|]. intros s0 H0. destruct (Hf s0 H0) as (s1 & H1 & ->). exists s1. split; [done|]. by rewrite H1, E.
  - apply Hk. intros s0 H0. destruct (Hf s0 H0) as (s1 & H1 & ->). exists s1. split; [done|]. by rewrite H1, E.
Qed.

Lemma prune_mode now s : sv_mode (pruneExpiredRules now s) = sv_mode s.
Proof.
  unfold pruneExpiredRules. generalize (map_to_list (sv_ruleMeta s)) as l. intros l. revert s.
  induction l as [|[v m] l IH]; intros s; [done|]. cbn [fold_left]. rewrite IH.
  destruct (expired now m) eqn:E; [|unfold prune_one; by rewrite E]. by destruct (prune_one_shape now s v m E) as [revision ->].
Qed.

Lemma prune_steps_good now k h : prunes h -> (forall h', prunes h' -> good h' k) -> good h (prune_steps now k).
Proof.
  intros Hh Hk Hf. apply (with_lock_safe _ _ _ _ _ _ (SecPrune now)); [apply prune_body_ok | done | intros s; by rewrite run_prune|].
  intros start s' Hs Hsame. apply Hk; [constructor; [by exists now | done]|].
  intros s0 H0. destruct (Hf s0 H0) as (s1 & H1 & ->). exists (pruneExpiredRules now s1). by rewrite alone_prune, prune_mode.
Qed.

(** The last section of a changing call *)
Lemma main_good {A} x (b : body (outcome ApiErr A)) (value : A -> ApiValue) h :
  main_section c x -> section_ok x -> body_ok b -> (forall s, (fst (run_body b s), reply_of value (snd (run_body b s))) = section_whole x s) ->
  good h (with_lock b (fun r => Return (reply_of value r))).
Proof.
  intros Hm Hx Hb Hrun _. assert (H1 : forall s, fst (run_body b s) = run_section s x) by (intros s; unfold run_section; by rewrite <- Hrun).
  assert (H2 : forall s, reply_of value (snd (run_body b s)) = section_answer x s) by (intros s; unfold section_answer; by rewrite <- Hrun).
  apply (with_lock_safe _ _ _ _ _ _ x); [done..|]. intros start s' Hs Hsame. rewrite H2. split; [done|].
  split; [by apply section_returns|]. intros _. right. by exists x, start, s', h.
Qed.

(** Calls that change nothing but expired overrides, the DNS manager and the revision *)
Context (Hread : changes c = false).
#[local] Abbreviation reads h p := (safe (service_lock mode) Free (fun _ => True) h (call_answer mode c) p).

Lemma read_safe r h : returns r -> reads h (Return r).
Proof. intros Hr. split; [done|]. split; [done|]. by rewrite Hread. Qed.

Lemma prune_read now k h : (forall h, reads h k) -> reads h (prune_steps now k).
Proof.
  intros Hk. apply (with_lock_safe _ _ _ _ _ _ (SecPrune now)); [apply prune_body_ok | done | intros s; by rewrite run_prune | by intros].
Qed.

Lemma dns_read k h : (forall d, reads h (k d)) -> reads h (dns_steps k).
Proof. intros Hk. apply peek_safe. intros st. apply peek_safe. intros sn. apply Hk. Qed.

Lemma status_read n1 n2 k h : (forall h v, reads h (k v)) -> reads h (status_steps n1 n2 k).
Proof.
  intros Hk. apply prune_read. intros h'. apply with_rlock_safe. intros copy. apply dns_read. intros dns.
  apply peek_safe. intros generation. apply peek_safe. intros manual. apply with_rlock_safe. intros auto. apply Hk.
Qed.

Lemma refresh_read request read now h : reads h (refresh_steps request read now).
Proof.
  apply peek_safe. intros m. destruct (bool_decide _); [by apply read_safe|].
  destruct (validateOperationID_cases (oq_OperationID request)) as [-> | ->]; cbn [attempt]; [|by apply read_safe].
  apply peek_safe. intros []; cbn [negb]; [|apply dns_read; intros; by apply read_safe].
  intros s _. split; [by eexists|]. apply (with_lock_safe _ _ _ _ _ _ SecRevision); [by intros x Hx | done | done|].
  intros start s' _ _. apply dns_read. intros dns. apply read_safe. by destruct (snd (snd _)).
Qed.
End Gates.

Lemma wrap_returns {E E' A} (f : E -> E') (o : outcome E A) : returns o -> returns (wrap_err f o).
Proof. by destruct o. Qed.

Lemma validate_returns id : returns (validateOperationID id).
Proof. by destruct (validateOperationID_cases id) as [-> | ->]. Qed.

Lemma set_steps_good mode request n1 n2 n3 : good mode (CallSetRule request n1 n2 n3) [] (set_steps request n1 n2 n3).
Proof.
  apply client_only_good; [constructor|]. apply attempt_good; [apply validate_returns | constructor|]. intros _ _.
  apply prune_steps_good; [constructor|]. intros h Hh.
  apply attempt_good; [apply wrap_returns; pose proof (ParseAction_cases (sq_Result request)); by destruct (ParseAction _) | done|]. intros action Ha.
  destruct (bool_decide _); [by apply refuse_good|]. apply attempt_good; [by apply wrap_returns, ParseTarget_returns | done|]. intros target Ht.
  destruct (match sq_ExpiresAt request with Some _ => _ | None => _ end); [by apply refuse_good|].
  destruct (ParseAction (sq_Result request)) as [action'|e| |] eqn:Ea; try done. cbn in Ha. injection Ha as ->.
  destruct (ParseTarget (sq_Target request)) as [target'|e| |] eqn:Et; try done. cbn in Ht. injection Ht as ->.
  apply (main_good _ _ (SecSet request target action n3)); [by exists target, action | done | apply set_body_ok | done].
Qed.

Lemma validate_steps_good mode request random now nowEach : good mode (CallValidate request random now nowEach) [] (validate_steps request random now nowEach).
Proof.
  assert (Hn : prunes []) by constructor. apply client_only_good; [done|]. destruct (ParseAddr _) as [address|] eqn:Ha; [|by apply refuse_good].
  destruct (negb _); [by apply refuse_good|]. destruct (_ && _); [by apply refuse_good|]. destruct random as [b|]; [|by apply refuse_good].
  apply (main_good _ _ (SecValidate (hex_encode b) (Addr_String address) request (now + pairing_minutes) nowEach));
    [by exists address, b | done | apply validate_body_ok | intros s; by rewrite run_fields].
Qed.

Lemma enroll_steps_good mode request now : good mode (CallEnroll request now) [] (enroll_steps request now).
Proof.
  assert (Hn : prunes []) by constructor. apply attempt_good; [apply validate_returns | done|]. intros _ _.
  destruct (_ || _); [by apply refuse_good|]. destruct (negb _); [by apply refuse_good|].
  destruct (ParseAddr _) as [address|] eqn:Ha; [|by apply refuse_good]. destruct (negb _); [by apply refuse_good|]. destruct (negb _); [by apply refuse_good|].
  apply (main_good _ _ (SecEnroll request address now)); [by exists address | done | apply enroll_body_ok | intros s; by rewrite run_fields].
Qed.

(** Every method obeys the lock. *)
Lemma call_safe mode c : safe (service_lock mode) Free (fun _ => True) [] (call_answer mode c) (call_steps c).
Proof.
  assert (Hn : prunes []) by constructor. assert (Hall : follows mode c (call_steps c)) by (intros s Hs; by exists s).
  destruct c as [n1 n2|action request now|f now|request n1 n2 n3|id request n1 n2|target now| |request read dnsNow|n1 n2 n3|now|action request|request random now nowEach|request now]; cbn [call_steps] in *.
  - apply status_read. intros. by apply read_safe.
  - revert Hall. apply client_only_good; [done|]. apply attempt_good; [apply validate_returns | done|]. intros _ _.
    apply (main_good _ _ (SecConnection action request now)); [done | done | apply connection_body_ok | intros s; by rewrite run_fields].
  - apply prune_read. intros h. apply peek_safe. intros rules. apply with_rlock_safe. intros meta. apply with_rlock_safe. intros recent.
    apply peek_safe. intros generation. by apply read_safe.
  - by apply set_steps_good.
  - revert Hall. apply client_only_good; [done|]. apply attempt_good; [apply validate_returns | done|]. intros _ _. apply prune_steps_good; [done|]. intros h Hh.
    apply (main_good _ _ (SecDelete id request n2)); [done | done | apply delete_body_ok | done].
  - apply prune_read. intros h s _. split; [reflexivity|]. apply read_safe; [done|].
    pose proof (Explain_returns (sv_routes s) target). by destruct (Explain _ target).
  - apply dns_read. intros d. by apply read_safe.
  - by apply refresh_read.
  - apply status_read. intros. by apply read_safe.
  - apply peek_safe. intros v. by apply read_safe.
  - by apply read_safe.
  - by apply validate_steps_good.
  - by apply enroll_steps_good.
Qed.

(** ** Histories are sequences of sections *)
Definition run_sections (s : Service) (xs : list section) : Service := fold_left run_section xs s.

Lemma section_dns x d s : engine_ok (sv_routes s) -> section_whole x (with_dns d s) = (with_dns d (run_section s x), section_answer x s).
Proof.
  assert (Hbody : forall A (b : body (outcome ApiErr A)) (value : A -> ApiValue), body_ok b -> engine_ok (sv_routes s) ->
    whole value (run_body b) (with_dns d s) = (with_dns d (fst (run_body b s)), reply_of value (snd (run_body b s)))).
  { intros A b value Hb He. unfold whole. by rewrite run_body_dns. }
  assert (Hfields : forall A (m : act Service ApiErr A) (value : A -> ApiValue), body_ok (fields m) -> engine_ok (sv_routes s) ->
    whole value m (with_dns d s) = (with_dns d (fst (m s)), reply_of value (snd (m s)))).
  { intros A m value Hb He. pose proof (Hbody A (fields m) value Hb He) as H. unfold whole in *. by rewrite !run_fields in H. }
  intros He. unfold run_section, section_answer. destruct x; cbn [section_whole].
  - cbn [fst snd]. f_equal. pose proof (run_body_dns (prune_body now) d s (prune_body_ok now) He) as H. rewrite !run_prune in H. by injection H as ->.
  - done.
  - apply Hfields; [apply connection_body_ok | done].
  - unfold SetRule_locked. apply Hbody; [apply set_body_ok | done].
  - unfold DeleteRule_locked. apply Hbody; [apply delete_body_ok | done].
  - apply Hfields; [apply validate_body_ok | done].
  - apply Hfields; [apply enroll_body_ok | done].
Qed.

Lemma section_same x s s' : engine_ok (sv_routes s) -> same s s' -> same (run_section s x) (run_section s' x) /\ section_answer x s' = section_answer x s.
Proof. intros He [d ->]. unfold run_section at 2, section_answer at 1. rewrite section_dns by done. split; [by exists d | done]. Qed.

Lemma sections_ok xs : forall s, Forall section_ok xs -> service_ok s -> service_ok (run_sections s xs).
Proof.
  induction xs as [|x xs IH]; intros s Hxs Hs; [done|]. apply Forall_cons in Hxs as [Hx Hxs]. cbn. apply IH; [done|]. by apply (section_kept s x).
Qed.

Lemma sections_same xs : forall s s', Forall section_ok xs -> service_ok s -> same s s' -> same (run_sections s xs) (run_sections s' xs).
Proof.
  induction xs as [|x xs IH]; intros s s' Hxs Hs Hsame; [done|]. apply Forall_cons in Hxs as [Hx Hxs]. cbn. apply IH; [done | |].
  - by apply (section_kept s x).
  - apply section_same; [by apply so_engine | done].
Qed.

Lemma history_sections mode s0 s : service_ok s0 -> history (service_lock mode) s0 s -> exists xs, Forall section_ok xs /\ same (run_sections s0 xs) s.
Proof.
  intros Hs0. revert s. apply rtc_ind_r; [exists []; split; [constructor | reflexivity]|]. intros s1 s2 _ Hstep IH.
  destruct IH as (xs & Hxs & Hsame). destruct Hstep as [Hstep|(x & Hx & Hstep)].
  - exists xs. split; [done | by etrans].
  - exists (xs ++ [x]). split; [by apply Forall_app; split; [|constructor]|]. unfold run_sections. rewrite fold_left_app. cbn.
    etrans; [|exact Hstep]. apply section_same; [|done]. by apply so_engine, sections_ok.
Qed.

Lemma main_section_ok c x : main_section c x -> section_ok x.
Proof.
  destruct c; cbn [main_section]; try done; [by intros -> | by intros (t & a & H & _ & ->) | by intros -> | by intros (a & b & _ & _ & ->) | by intros (a & _ & ->)].
Qed.

Lemma calls_pool s0 cs : service_ok s0 -> pool_ok (service_lock (sv_mode s0)) s0 (call_answer (sv_mode s0) <$> cs) (started s0 (call_steps <$> cs)).
Proof.
  intros Hs. apply pool_start; [done|]. apply Forall2_fmap, Forall_Forall2_diag, Forall_forall. intros c _. apply call_safe.
Qed.

(** C21: Concurrent calls are serializable.  Whatever calls run together and however
    their steps interleave, in every state in which nobody holds the write lock the
    invariant of the service holds and the state (DNS aside) is that of a sequence of
    whole critical sections; every call that has returned gave a proper answer, and a
    changing call was refused as it is refused in every state, or its section is in
    that sequence and its answer is the section's answer after the ones before it. *)
Theorem service_serializable s0 cs c :
  service_ok s0 -> rtc step (started s0 (call_steps <$> cs)) c -> no_writer (cf_threads c) = true ->
  service_ok (cf_state c) /\ (exists xs, Forall section_ok xs /\ same (run_sections s0 xs) (cf_state c))
  /\ forall i x m r, cs !! i = Some x -> cf_threads c !! i = Some ((m, Return r) : thread Service reply) ->
       returns r /\ (changes x = true ->
         refused (sv_mode s0) x r
         \/ exists sec before after, main_section x sec /\ r = section_answer sec (run_sections s0 before)
              /\ same (run_sections s0 (before ++ sec :: after)) (cf_state c)).
Proof.
  intros Hs0 Hrun Hn. pose proof (pool_run _ _ _ _ _ (calls_pool s0 cs Hs0) Hrun) as Hok.
  destruct (po_inv _ _ _ _ Hok Hn) as [Hs _]. pose proof (ps_free _ _ _ (po_passed _ _ _ _ Hok) Hn) as Hh.
  split_and!; [done | by eapply history_sections|]. intros i x m r Hi Hr.
  destruct (pool_results _ _ _ _ _ _ _ Hok Hr) as (Q & h & HQ & Hans & Hcom). rewrite list_lookup_fmap, Hi in HQ. injection HQ as <-.
  destruct Hans as [Hret Hans]. split; [done|]. intros Hc. destruct (Hans Hc) as [[Href _]|(sec & a & b & h' & Hm & -> & Hsame & ->)]; [by left|].
  right. apply Forall_cons in Hcom as [(Ha & _ & Hb) _]. cbn [fst snd] in *.
  destruct (history_sections _ _ _ Hs0 Ha) as (before & Hbefore & Hsa). pose proof (sections_ok _ _ Hbefore Hs0) as Hsb.
  destruct (section_same sec _ _ (so_engine _ Hsb) Hsa) as [Hsec Hans']. pose proof (main_section_ok _ _ Hm) as Hx.
  assert (Hsok : service_ok (run_section (run_sections s0 before) sec)) by (by apply (section_kept _ sec)).
  assert (Hsb' : same (run_section (run_sections s0 before) sec) b) by (by etrans).
  destruct (history_sections _ b _ (service_ok_dns _ _ Hsb' Hsok) (ps_free _ _ _ Hb Hn)) as (after & Hafter & Hend).
  exists sec, before, after. split_and!; [done | done|]. unfold run_sections in *. rewrite fold_left_app. cbn [fold_left].
  etrans; [|exact Hend]. by apply sections_same.
Qed.

(** C22: Concurrent calls finish.  Whatever calls run together, no schedule of their
    steps is infinite, no schedule reaches a deadlock, and so every schedule can be
    continued until all calls have returned. *)
Theorem service_finishes s0 cs c :
  service_ok s0 -> rtc step (started s0 (call_steps <$> cs)) c ->
  sn step c /\ (forallb finished (cf_threads c) = false -> exists c', step c c')
  /\ exists c', rtc step c c' /\ forallb finished (cf_threads c') = true.
Proof.
  intros Hs0 Hrun. pose proof (pool_run _ _ _ _ _ (calls_pool s0 cs Hs0) Hrun) as Hok.
  split_and!; [apply schedules_end | by eapply pool_not_stuck | by eapply pool_finishes].
Qed.
End Steps.

(** ** Schedules *)
Section Schedules.
#[local] Existing Instance ascii_only.

(** An override that expires at 100 is requested while the clock shows 99 and stored
    after another request, at 101, has removed what had expired: the request decides
    with the expired override. *)
Definition race_set : SetRuleRequest := mkSetRuleRequest (lit "op-1") [] (lit "10.0.0.0/8") [] (lit "block") (Some 100) [] None.
Definition race_expiry : list call := [CallSetRule race_set 99 99 102; CallExplain (lit "10.1.1.1") 101].
Definition race_expiry_schedule : list nat := [0; 0; 0; 0; 1; 1; 1; 0; 0; 0; 0; 0; 1]%nat.

Theorem expired_override_can_decide :
  match result_of 1 (after race_expiry_schedule (started demo_service (call_steps <$> race_expiry))) with
  | Some (Ok (VExplanation x)) => (re_FinalResult x, re_PrimarySource x) = (ActionBlock, lit "MANUAL")
  | _ => False
  end.
Proof. vm_compute. reflexivity. Qed.

(** [ListRules] reads the rules and their metadata one after the other: an override
    deleted in between is listed without expiry and with revision 0. *)
Definition race_list : list call :=
  [CallDeleteRule [] (mkDeleteRuleRequest (lit "op-5") (lit "10.0.0.0/8") None) 20 20; CallListRules (mkRuleFilter (lit "10.0") [] [] [] 0) 20].
Definition race_list_schedule : list nat := [1; 1; 1; 1; 0; 0; 0; 0; 0; 0; 0; 0; 0; 1; 1; 1; 1; 1; 1; 1]%nat.

Theorem list_rules_torn :
  let c := after race_list_schedule (started demo_overridden (call_steps <$> race_list)) in
  match result_of 1 c with
  | Some (Ok (VRules v)) => (fun r => (ar_ExpiresAt r, ar_Revision r)) <$> rr_Rules v = [(None, 0)]
  | _ => False
  end
  /\ (fun m => (rm_expiresAt m, rm_revision m)) <$> sv_ruleMeta demo_overridden !! lit "10.0.0.0/8" = Some (Some 100, 1).
Proof. vm_compute. split; reflexivity. Qed.

Definition race_end : config Service reply := after race_expiry_schedule (started demo_service (call_steps <$> race_expiry)).
Lemma service_serializable_witness :
  service_ok (cf_state race_end) /\ exists xs, Forall section_ok xs /\ same (run_sections demo_service xs) (cf_state race_end).
Proof.
  assert (Hn : no_writer (cf_threads race_end) = true) by (vm_compute; reflexivity).
  destruct (service_serializable demo_service race_expiry race_end (NewService_ok _ _ _) (after_rtc _ _) Hn) as (H1 & H2 & _).
  split; [exact H1 | exact H2].
Defined.

Lemma service_finishes_witness : exists c', rtc step race_end c' /\ forallb finished (cf_threads c') = true.
Proof.
  destruct (service_finishes demo_service race_expiry race_end (NewService_ok _ _ _) (after_rtc _ _)) as (_ & _ & H). exact H.
Defined.
End Schedules.
