(* ===== verification/Display.v ===== *)
(** * Names, messages and views

    The [String] and [Error] methods of packages codec, session and handshake, and the
    read-only views of their objects.  Each view is taken under the object's mutex and so
    is one step. *)

From stdpp Require Import base strings numbers list.
From S2P Require Import Prelude CodecErrors Tlv Replay SessionState Machine HandshakeTypes HandshakeServer GoStrings ClientHandshake.
Local Open Scope Z_scope.
Local Open Scope wg_scope.

(** ** Session (internal/session/state.go) *)
Definition Role_String (r : Role) : bytes :=
  match r with
  | RoleClient => lit "client"
  | RoleServer => lit "server"
  | role_other n => lit "role(" ++ FormatUint n ++ lit ")"
  end.
Definition SessionState_String (s : SessionState.State) : bytes :=
  match s with
  | SessionState.StateIdle => lit "Idle"
  | SessionState.StateInitialSent => lit "InitialSent"
  | SessionState.StatePendingConfirm => lit "PendingConfirm"
  | SessionState.StateEstablished => lit "Established"
  | SessionState.StateRekeying => lit "Rekeying"
  | SessionState.StateDraining => lit "Draining"
  | SessionState.StateClosed => lit "Closed"
  end.
Definition Event_String (e : Event) : bytes :=
  match e with
  | EventBeginHandshake => lit "BeginHandshake"
  | EventRetryReceived => lit "RetryReceived"
  | EventRetransmitInitial => lit "RetransmitInitial"
  | EventHandshakeComplete => lit "HandshakeComplete"
  | EventIssuePing => lit "IssuePing"
  | EventRetransmitPing => lit "RetransmitPing"
  | EventPong => lit "Pong"
  | EventConfirmPing => lit "ConfirmPing"
  | EventActivity => lit "Activity"
  | EventBeginRekey => lit "BeginRekey"
  | EventBeginDrain => lit "BeginDrain"
  | EventTimeout => lit "Timeout"
  | EventClose => lit "Close"
  end.
Definition TransitionError_Error (r : Role) (from : SessionState.State) (event : Event) : bytes :=
  lit "illegal session transition: role=" ++ Role_String r ++ lit " from=" ++ SessionState_String from ++ lit " event=" ++ Event_String event.
Definition PongMismatchError_Error (expected received : Z) : bytes :=
  lit "pong does not match outstanding ping: expected=" ++ FormatUint expected ++ lit " received=" ++ FormatUint received.
Definition ConfirmMismatchError_Error (expected received : Z) : bytes :=
  lit "confirm operation does not match: expected=" ++ FormatUint expected ++ lit " received=" ++ FormatUint received.

(** *** The view of a machine (internal/session/machine.go) *)
Record MachineSnapshot : Set := mkMachineSnapshot {
  ms_Role : Role;
  ms_State : SessionState.State;
  ms_EnteredAt : Z;
  ms_LastEventAt : Z;
  ms_Deadline : Z;
  ms_InitialRetries : Z;
  ms_ControlRetries : Z;
  ms_HasOutstandingPing : bool;
  ms_OutstandingPingID : Z;
  ms_RekeyHandshakeReady : bool;
  ms_HasLastConfirmID : bool;
  ms_LastConfirmID : Z;
  ms_ConfirmGraceUntil : Z
}.
Definition Machine_Snapshot (m : Machine) : MachineSnapshot :=
  mkMachineSnapshot (role m) (state m) (enteredAt m) (lastEventAt m) (deadline m) (initialRetries m) (controlRetries m)
    (hasOutstandingPing m) (outstandingPingID m) (rekeyHandshakeReady m) (hasLastConfirmID m) (lastConfirmID m) (confirmGraceUntil m).

(** ** Packet numbers and replay (internal/session/replay.go) *)
Record PacketNumberSnapshot : Set := mkPacketNumberSnapshot { pv_Next : Z; pv_Exhausted : bool }.
Definition PacketNumbers_Snapshot (p : PacketNumbers) : PacketNumberSnapshot := mkPacketNumberSnapshot (pn_next p) (pn_exhausted p).
Definition ReplayErr_text (e : ReplayErr) : bytes :=
  match e with
  | ErrPacketNumberExhausted => lit "packet-number space exhausted"
  | ErrReplayDuplicate => lit "authenticated packet number is a duplicate"
  | ErrReplayTooOld => lit "authenticated packet number is outside replay window"
  end.
Definition ReplayError_Error (kind : ReplayErr) (packetNumber highest : Z) : bytes :=
  ReplayErr_text kind ++ lit ": pn=" ++ FormatUint packetNumber ++ lit " highest=" ++ FormatUint highest.

(** ** Codec (internal/codec/errors.go, tlv.go) *)
Definition CodecErr_text (e : CodecErr) : bytes :=
  match e with
  | ErrTruncated => lit "codec: truncated input"
  | ErrLength => lit "codec: invalid length"
  | ErrLimit => lit "codec: configured limit exceeded"
  | ErrTrailingData => lit "codec: trailing data"
  | ErrVersion => lit "codec: unsupported version"
  | ErrKind => lit "codec: unknown packet kind"
  | ErrFlags => lit "codec: non-zero flags"
  | ErrReserved => lit "codec: non-zero reserved field"
  | ErrCID => lit "codec: invalid connection identifier"
  | ErrPacketNumber => lit "codec: invalid packet number"
  | ErrTLVOrder => lit "codec: TLV fields are not canonical"
  | ErrDuplicateTLV => lit "codec: duplicate TLV field"
  | ErrUnknownCriticalTLV => lit "codec: unknown critical TLV field"
  | ErrTLVLength => lit "codec: invalid TLV field length"
  | ErrTLVContext => lit "codec: TLV field is invalid in this context"
  | ErrMissingTLV => lit "codec: required TLV field is missing"
  | ErrUnknownFrameType => lit "codec: unknown frame type"
  | ErrFrameFlags => lit "codec: non-zero frame flags"
  | ErrFrameConstraint => lit "codec: invalid frame combination"
  | ErrIPPacket => lit "codec: invalid inner IP packet"
  | ErrUTF8 => lit "codec: invalid UTF-8"
  end.
Definition DecodeError_Error (e : DecodeError) (detail : bytes) : bytes :=
  let message := CodecErr_text (err_Kind e) in
  let field := lit (err_Field e) in
  let message := if negb (bool_decide (field = [])) then message ++ lit " in " ++ field else message in
  let message := if 0 <=? err_Offset e then message ++ lit " at byte " ++ Itoa (err_Offset e) else message in
  if negb (bool_decide (detail = [])) then message ++ lit ": " ++ detail else message.
Definition cloneTLVs (fields : list TLV) : list TLV := (fun field => mkTLV (tlv_Type field) ([] ++ tlv_Value field)) <$> fields.

(** ** Handshake (internal/handshake) *)
Definition HandshakeState_String (s : HandshakeTypes.State) : bytes :=
  match s with
  | HandshakeTypes.StateIdle => lit "Idle"
  | HandshakeTypes.StateInitialSent => lit "InitialSent"
  | HandshakeTypes.StatePendingConfirm => lit "PendingConfirm"
  | StatePendingPong => lit "PendingPong"
  | HandshakeTypes.StateEstablished => lit "Established"
  | StateRejected => lit "Rejected"
  | HandshakeTypes.StateClosed => lit "Closed"
  end.
Definition Client_State (c : Client) : HandshakeTypes.State := cl_state c.
Definition Client_ClientCID (c : Client) : Z := cl_clientCID c.
Definition Client_ServerCID (c : Client) : Z := cl_serverCID c.
Definition ServerSession_State (s : ServerSession) : HandshakeTypes.State := ss_state s.
Definition ServerSession_ClientCID (s : ServerSession) : Z := ss_clientCID s.
Definition ServerSession_ServerCID (s : ServerSession) : Z := ss_serverCID s.

(** ** Views and messages tell what they are of *)
Theorem snapshot_complete m m' : Machine_Snapshot m = Machine_Snapshot m' -> policy m = policy m' -> m = m'.
Proof. destruct m, m'. unfold Machine_Snapshot. cbn. intros H E. injection H as -> -> -> -> -> -> -> -> -> -> -> -> ->. by rewrite E. Qed.

(** A word ends at its first blank. *)
Lemma word_split a b x y : 32 ∉ a -> 32 ∉ b -> a ++ 32 :: x = b ++ 32 :: y -> a = b /\ x = y.
Proof.
  intros Ha Hb E. assert (H1 : cut_at 32 (a ++ 32 :: x) = Some (a, x)) by (by apply cut_at_Some).
  assert (H2 : cut_at 32 (b ++ 32 :: y) = Some (b, y)) by (by apply cut_at_Some). rewrite E, H2 in H1. by injection H1 as -> ->.
Qed.

Lemma SessionState_String_word s : 32 ∉ SessionState_String s.
Proof. destruct s; apply (bool_decide_unpack _); vm_compute; exact I. Qed.

Lemma SessionState_String_inj s s' : SessionState_String s = SessionState_String s' -> s = s'.
Proof. intros H. destruct s, s'; (reflexivity || discriminate H). Qed.

Lemma Event_String_inj e e' : Event_String e = Event_String e' -> e = e'.
Proof. intros H. destruct e, e'; (reflexivity || discriminate H). Qed.

(** The message of an illegal transition tells the role, the state and the event. *)
Theorem transition_texts_distinct r r' s s' e e' : Role_valid r = true -> Role_valid r' = true ->
  TransitionError_Error r s e = TransitionError_Error r' s' e' -> r = r' /\ s = s' /\ e = e'.
Proof.
  assert (Hword : forall s x, SessionState_String s ++ lit " event=" ++ x = SessionState_String s ++ 32 :: (lit "event=" ++ x)) by done.
  intros Hr Hr' H. unfold TransitionError_Error in H. apply app_inv_head in H.
  assert (Hrole : r = r'). { destruct r, r'; try done; discriminate H. }
  subst r'. split; [done|]. apply app_inv_head, app_inv_head in H. rewrite !Hword in H.
  apply word_split in H as [Hs He]; [|apply SessionState_String_word..]. apply app_inv_head in He.
  split; [by apply SessionState_String_inj | by apply Event_String_inj].
Qed.

Theorem codec_kinds_distinct e e' : CodecErr_text e = CodecErr_text e' -> e = e'.
Proof. intros H. destruct e, e'; (reflexivity || discriminate H). Qed.
