(* ===== verification/Core.v ===== *)
(** * The core command (cmd/wg-core)

    The command line, the gate that keeps the
    process out of the host's network, the service the process starts with and the
    control interface it serves: the composition of the resolver adapter, the
    application service and the control interface.  Reading the resolver
    configuration and the clock are the environment; listening and shutting down are
    net/http's. *)

From stdpp Require Import base strings numbers gmap list.
From S2P Require Import Prelude CodecErrors GoStrings Flag Netip PrivateDns Resolver ControlTypes Service ServiceSafety ControlApi.
Local Open Scope Z_scope.
Local Open Scope wg_scope.

Definition core_version : bytes := lit "0.1.0-dev".

Record core_options : Set := mkCoreOptions {
  op_mode : bytes;
  op_managementAddress : bytes;
  op_dataAddress : bytes;
  op_endpoint : bytes;
  op_devSafe : bool;
  op_noHostNetwork : bool;
  op_instance : bytes
}.

(** The errors of [parseOptions] and [run] *)
Inductive CoreErr : Set := ErrUsage | ErrMode | ErrNotSafe | ErrManagement | ErrParse (err : FlagErr) | ErrPositional | ErrListen | ErrServe.

(** ** The flags *)
Definition core_flags : list (bytes * flag core_options) := [
  (lit "management-address", StringVar (fun v '(mkCoreOptions m _ d e s h i) => mkCoreOptions m v d e s h i));
  (lit "listen", StringVar (fun v '(mkCoreOptions m a _ e s h i) => mkCoreOptions m a v e s h i));
  (lit "endpoint", StringVar (fun v '(mkCoreOptions m a d _ s h i) => mkCoreOptions m a d v s h i));
  (lit "dev-safe", BoolVar (fun v '(mkCoreOptions m a d e _ h i) => mkCoreOptions m a d e v h i));
  (lit "no-host-network", BoolVar (fun v '(mkCoreOptions m a d e s _ i) => mkCoreOptions m a d e s v i));
  (lit "wg-dev-instance", StringVar (fun v '(mkCoreOptions m a d e s h _) => mkCoreOptions m a d e s h v))
].
Section Core.
Context {U : Unicode}.

(** The variables of [parseOptions] before the flags are read *)
Definition default_options (mode : bytes) : core_options :=
  let defaultManagement := if bool_decide (mode = lit "server") then lit "127.0.0.1:47002" else lit "127.0.0.1:47003" in
  mkCoreOptions mode defaultManagement (lit "0.0.0.0:9518") (lit "203.0.113.10:9518") false false mode.

Definition parseOptions (arguments : list bytes) : outcome CoreErr core_options :=
  match arguments with
  | [] => Err ErrUsage
  | first :: arguments =>
      if bool_decide (first = lit "help") || bool_decide (first = lit "--help") || bool_decide (first = lit "-h") then Err ErrUsage
      else
        let mode := ToLower first in
        if negb (bool_decide (mode = lit "client")) && negb (bool_decide (mode = lit "server")) then Err ErrMode
        else
          let* parsed := wrap_err ErrParse (flags_Parse core_flags arguments (default_options mode)) in
          let '(value, rest) := parsed in
          if negb (len rest =? 0) then Err ErrPositional else Ok value
  end.

Definition validateLoopback (address : bytes) : outcome CoreErr unit :=
  match SplitHostPort address with
  | None => Err ErrManagement
  | Some (host, port) =>
      match ParseAddr host with
      | None => Err ErrManagement
      | Some parsed =>
          if negb (IsLoopback parsed) then Err ErrManagement
          else if bool_decide (port = []) then Err ErrManagement
          else Ok tt
      end
  end.

(** The options with which [run] goes on *)
Definition core_gate (arguments : list bytes) : outcome CoreErr core_options :=
  let* options := parseOptions arguments in
  if negb (op_devSafe options) || negb (op_noHostNetwork options) then Err ErrNotSafe
  else do* validateLoopback (op_managementAddress options); Ok options.

(** What the clock and the file system give while the service is made: the snapshot's
    times, the service's and its DNS manager's. *)
Record core_env : Set := mkCoreEnv {
  cv_readFile : bytes -> bytes + bytes;
  cv_nowRead : Z; cv_nowEmpty : Z; cv_now : Z; cv_dnsNow : Z
}.

Definition initial_dns (env : core_env) : Snapshot :=
  match ReadSnapshot [] None (cv_readFile env) (cv_nowRead env) with
  | inl snapshot => snapshot
  | inr _ => mkSnapshot (cv_nowEmpty env) 0 [] [] []
      (Some (<[lit "source" := lit "/etc/resolv.conf"]> (<[lit "adapter" := lit "read-only-resolv-conf"]> ∅)))
  end.

(** The service of [run]: the rest of [run] serves its control interface. *)
Definition core_service (arguments : list bytes) (env : core_env) : outcome CoreErr Service :=
  let* options := core_gate arguments in
  Ok (NewService (mkServiceConfig (op_mode options) (op_endpoint options) (mkVersions core_version core_version core_version core_version)
        true (initial_dns env)) (cv_now env) (cv_dnsNow env)).

(** [run] and [main]: whether the management address can be listened on, and how serving
    ends *)
Definition core_run (arguments : list bytes) (env : core_env) (listen : bool) (e : serve_end) : outcome CoreErr unit :=
  let* service := core_service arguments env in
  if negb listen then Err ErrListen
  else if served_well e then Ok tt else Err ErrServe.
Definition core_main (arguments : list bytes) (env : core_env) (listen : bool) (e : serve_end) : Z := exit_code (core_run arguments env listen e).
End Core.

(** ** The safety flags *)

Ltac flag_table :=
  unfold flag_reads, core_flags; rewrite !Forall_cons, Forall_nil; split_and!; try done;
  repeat match goal with
  | |- forall v o, _ = _ => intros v []; reflexivity
  | |- if decide (?n = ?n) then _ else _ => rewrite decide_True by reflexivity
  | |- if decide _ then _ else _ => rewrite decide_False by (vm_compute; discriminate)
  end.
Lemma devSafe_reads : flag_reads core_flags (lit "dev-safe") op_devSafe.
Proof. flag_table. Qed.
Lemma noHostNetwork_reads : flag_reads core_flags (lit "no-host-network") op_noHostNetwork.
Proof. flag_table. Qed.

Section CoreTheorems.
Context {U : Unicode} {J : Json}.

Lemma core_gate_safe arguments options : core_gate arguments = Ok options ->
  (exists a, a ∈ arguments /\ turns_on (lit "dev-safe") a) /\ (exists a, a ∈ arguments /\ turns_on (lit "no-host-network") a)
  /\ exists host port ip, SplitHostPort (op_managementAddress options) = Some (host, port) /\ port <> [] /\ ParseAddr host = Some ip /\ IsLoopback ip = true.
Proof.
  unfold core_gate, parseOptions. intros (o & Ho & H)%obind_Ok. destruct arguments as [|first arguments]; [done|].
  destruct (_ || _ || _); [done|]. destruct (_ && _) in Ho; [done|]. apply obind_Ok in Ho as ([value rest] & Hp & Ho). destruct (negb _) in Ho; [done|].
  destruct (flags_Parse core_flags arguments _) as [[o1 rest1]| | |] eqn:Hflags; try done. cbn [wrap_err] in Hp. injection Hp as -> ->. rename Hflags into Hp.
  injection Ho as ->. destruct (op_devSafe o) eqn:H1, (op_noHostNetwork o) eqn:H2; cbn [negb orb] in H; try done.
  apply obind_Ok in H as ([] & Hv & [= <-]). split_and!.
  - destruct (flags_Parse_on _ _ _ devSafe_reads _ _ _ _ Hp H1) as [|(a & Ha & Hon)]; [done|]. exists a. split; [set_solver | done].
  - destruct (flags_Parse_on _ _ _ noHostNetwork_reads _ _ _ _ Hp H2) as [|(a & Ha & Hon)]; [done|]. exists a. split; [set_solver | done].
  - unfold validateLoopback in Hv. destruct (SplitHostPort _) as [[host port]|]; [|done]. destruct (ParseAddr host) as [ip|] eqn:E; [|done].
    destruct (IsLoopback ip) eqn:El; [|done]. cbn [negb] in Hv. destruct (bool_decide_reflect (port = [])); [done|]. by exists host, port, ip.
Qed.

(** C26: The core serves, safely.  It starts only when the command line turns on both
    safety flags and the management address is a literal loopback address with a
    port.  From then on, in every state that its control interface can reach, at
    most 32 requests are in flight and every request is answered: a value with
    status 200, an error with the status of its code, or the multiplexer's 404 and
    405.  Refused requests do not touch the service, whose invariant always holds;
    admitted ones carry the security headers. *)
Theorem core_serves arguments env s st :
  core_service arguments env = Ok s -> serving s st ->
  ((exists a, a ∈ arguments /\ turns_on (lit "dev-safe") a) /\ (exists a, a ∈ arguments /\ turns_on (lit "no-host-network") a)
   /\ exists options host port ip, parseOptions arguments = Ok options /\ SplitHostPort (op_managementAddress options) = Some (host, port)
        /\ port <> [] /\ ParseAddr host = Some ip /\ IsLoopback ip = true)
  /\ 0 <= ss_inflight st <= slots
  /\ forall a e r, exists s' p, Handler a e r (ss_backend st) = (s', Ok p) /\ service_ok s' /\ answer p
       /\ match a with
          | Entered => exists q, serve_mux e r (ss_backend st) = (s', Ok q) /\ hp_Status p = hp_Status q /\ hp_Body p = hp_Body q
              /\ security_headers (hr_Origin r) ⊆ hp_Headers p
          | _ => s' = ss_backend st
          end.
Proof.
  unfold core_service. intros (options & Hg & [= <-])%obind_Ok Hst.
  destruct (serving_inv service_ok _ _ (NewService_ok _ _ _) Hst) as [Hi Hn]. split; [|split; [exact Hn|]].
  - destruct (core_gate_safe _ _ Hg) as (H1 & H2 & host & port & ip & H3). split; [done | split; [done|]].
    unfold core_gate in Hg. apply obind_Ok in Hg as (o & Ho & Hg). destruct (_ || _) in Hg; [done|]. apply obind_Ok in Hg as ([] & _ & Hg).
    apply Ok_inj in Hg as ->. by exists options, host, port, ip.
  - intros a e r. by apply (Handler_answers service_ok).
Qed.
End CoreTheorems.

Section CoreWitness.
#[local] Existing Instances ascii_only no_json.
Definition demo_arguments : list bytes := lit <$> ["Client"; "--dev-safe"; "-no-host-network=T"; "-management-address"; "[::1]:47003"].
Definition demo_core_env : core_env := mkCoreEnv (fun _ => inl (lit "nameserver 10.0.0.2")) 5 6 7 8.
Definition demo_core : Service := match core_service demo_arguments demo_core_env with Ok s => s | _ => demo_service end.

Lemma core_serves_witness :
  exists s' p, Handler Entered demo_env (demo_http "GET" [lit "v1"; lit "dns"]) demo_core = (s', Ok p) /\ service_ok s' /\ answer p.
Proof.
  assert (Hok : match core_service demo_arguments demo_core_env with Ok _ => true | _ => false end = true) by (vm_compute; reflexivity).
  assert (E : core_service demo_arguments demo_core_env = Ok demo_core).
  { unfold demo_core. destruct (core_service demo_arguments demo_core_env); [reflexivity | discriminate Hok..]. }
  destruct (core_serves demo_arguments demo_core_env demo_core _ E (serving_start demo_core)) as (_ & _ & H).
  destruct (H Entered demo_env (demo_http "GET" [lit "v1"; lit "dns"])) as (s' & p & H1 & H2 & H3 & _).
  exists s', p. split; [exact H1 | split; [exact H2 | exact H3]].
Defined.

Example core_command_lines :
  map (fun l => match core_gate (lit <$> l) with Ok o => inl (op_managementAddress o) | Err e => inr (Some e) | _ => inr None end)
    [["server"; "-dev-safe"; "-no-host-network"]; ["client"; "-dev-safe"]; ["client"; "-dev-safe"; "-no-host-network"; "-management-address=0.0.0.0:1"];
     ["client"; "-dev-safe"; "--no-host-network"; "extra"]; ["relay"]; ["client"; "-x"]; ["client"; "-h"]; []; ["client"; "-dev-safe=maybe"]]
  = [inl (lit "127.0.0.1:47002"); inr (Some ErrNotSafe); inr (Some ErrManagement); inr (Some ErrPositional); inr (Some ErrMode); inr (Some (ErrParse ErrFlag));
     inr (Some (ErrParse ErrHelp)); inr (Some ErrUsage); inr (Some (ErrParse ErrFlag))].
Proof. vm_compute. reflexivity. Qed.
End CoreWitness.
