(* ===== verification/Proxy.v ===== *)
(** * The proxy command (cmd/wg-proxy/main.go)

    The encrypted UDP relay (requests, sealing, both sides of an exchange) and the
    HTTP proxy (authentication, choice of route, header handling).  AES-GCM is a
    parameter; sockets are modelled by what they deliver: a datagram read into a
    buffer is cut at its size, a dialled peer answers or fails.  HTTP messages are
    records of the fields the code reads; parsing and serializing them is net/http's, of
    which the way of a header value over the wire is modelled ([value_arrives]). *)

From stdpp Require Import base strings numbers gmap list.
From S2P Require Import Prelude CodecErrors Frame GoStrings Netip.
Local Open Scope Z_scope.
Local Open Scope wg_scope.

Definition authHeader : bytes := lit "Bearer ".
Definition udpMagic : bytes := lit "WGUDP1".
Definition udpRequest : Z := 1.
Definition udpResponse : Z := 2.
Definition maxUDPDatagram : Z := 60 * 1024.

(** ** AES-GCM with the key of a token *)
Class Aead := {
  aead_Seal : bytes -> bytes -> bytes -> bytes;
  aead_Open : bytes -> bytes -> bytes -> option bytes
}.
Definition gcmNonceSize : Z := 12.
Definition gcmOverhead : Z := 16.
Class AeadOk `{Aead} : Prop := {
  aead_open_seal token nonce plain : aead_Open token nonce (aead_Seal token nonce plain) = Some plain;
  aead_seal_len token nonce plain : len (aead_Seal token nonce plain) = len plain + gcmOverhead;
  aead_open_bytes token nonce sealed plain : bytes_ok sealed -> aead_Open token nonce sealed = Some plain -> bytes_ok plain
}.

Inductive UdpErr : Set := ErrTarget | ErrRequest | ErrPacket | ErrRandom | ErrAuth.

(** ** Requests *)
Definition makeUDPRequest (target body : bytes) : outcome UdpErr bytes :=
  match SplitHostPort target with
  | None => Err ErrTarget
  | Some _ =>
      if 65535 <? len target then Err ErrTarget
      else
        let* payload := set_at (zeros (3 + len target + len body)) 0 udpRequest in
        let* payload := PutUint16 payload 1 (u16 (len target)) in
        let* payload := copy_at payload 3 target in
        copy_at payload (3 + len target) body
  end.

Definition parseUDPRequest (payload : bytes) : outcome UdpErr (bytes * bytes) :=
  if len payload <? 3 then Err ErrRequest
  else
    let* kind := index payload 0 in
    if negb (kind =? udpRequest) then Err ErrRequest
    else
      let* header := slice payload 1 3 in
      let* n := Uint16 header in
      if (n =? 0) || (len payload <? 3 + n) then Err ErrTarget
      else
        let* target := slice payload 3 (3 + n) in
        match SplitHostPort target with
        | None => Err ErrTarget
        | Some _ =>
            let* body := slice payload (3 + n) (len payload) in
            Ok (target, body)
        end.

Section Relay.
Context `{A : Aead}.

(** [random] is what [rand.Read] delivers for the nonce. *)
Definition sealUDP (token : bytes) (random : option bytes) (payload : bytes) : outcome UdpErr bytes :=
  match random with
  | None => Err ErrRandom
  | Some nonce => Ok (udpMagic ++ nonce ++ aead_Seal token nonce payload)
  end.

Definition openUDP (token : bytes) (packet : bytes) : outcome UdpErr bytes :=
  if len packet <? len udpMagic + gcmNonceSize + gcmOverhead then Err ErrPacket
  else
    let* magic := slice packet 0 (len udpMagic) in
    if negb (bool_decide (magic = udpMagic)) then Err ErrPacket
    else
      let* nonce := slice packet (len udpMagic) (len udpMagic + gcmNonceSize) in
      let* sealed := slice packet (len udpMagic + gcmNonceSize) (len packet) in
      match aead_Open token nonce sealed with
      | Some plain => Ok plain
      | None => Err ErrAuth
      end.

(** A datagram read into a buffer of the relay's size *)
Definition read_datagram (d : bytes) : bytes := take (Z.to_nat maxUDPDatagram) d.

(** What the relay server sends back for one datagram; [upstream] is the answer of
    the dialled target, if it answers in time. *)
Definition serveUDPDatagram (token : bytes) (upstream : bytes -> bytes -> option bytes) (random : option bytes) (packet : bytes) : outcome UdpErr (option bytes) :=
  match openUDP token packet with
  | Ok payload =>
      match parseUDPRequest payload with
      | Ok (target, body) =>
          match upstream target body with
          | None => Ok None
          | Some response =>
              match sealUDP token random (udpResponse :: read_datagram response) with
              | Ok sealed => Ok (Some sealed)
              | Err _ => Ok None
              | Panic => Panic
              | Diverge => Diverge
              end
          end
      | Err _ => Ok None
      | Panic => Panic
      | Diverge => Diverge
      end
  | Err _ => Ok None
  | Panic => Panic
  | Diverge => Diverge
  end.

(** What the relay client hands to its local peer; [network] is the datagram the
    server's address answers with. *)
Definition relayUDPDatagram (token : bytes) (network : bytes -> option bytes) (random : option bytes) (target body : bytes) : outcome UdpErr (option bytes) :=
  match makeUDPRequest target body with
  | Ok payload =>
      match sealUDP token random payload with
      | Ok packet =>
          match network packet with
          | None => Ok None
          | Some response =>
              match openUDP token (read_datagram response) with
              | Ok plain =>
                  if len plain <? 1 then Ok None
                  else
                    let* kind := index plain 0 in
                    if negb (kind =? udpResponse) then Ok None
                    else
                      let* body := slice plain 1 (len plain) in
                      Ok (Some body)
              | Err _ => Ok None
              | Panic => Panic
              | Diverge => Diverge
              end
          end
      | Err _ => Ok None
      | Panic => Panic
      | Diverge => Diverge
      end
  | Err _ => Ok None
  | Panic => Panic
  | Diverge => Diverge
  end.
End Relay.

(** ** The HTTP proxy *)
Abbreviation Header := (gmap (list Z) (list (list Z))) (only parsing).
Definition header_Get (h : Header) (key : bytes) : bytes := match h !! key with Some (v :: _) => v | _ => [] end.
Definition header_Set (key value : bytes) (h : Header) : Header := <[key := [value]]> h.
Definition header_Add (key value : bytes) (h : Header) : Header := <[key := default [] (h !! key) ++ [value]]> h.

Record ProxyRequest : Set := mkProxyRequest {
  px_Method : bytes;
  px_Host : bytes;
  px_URLHost : option bytes;
  px_RequestURI : bytes;
  px_Header : Header;
  px_Body : bytes
}.
Record ProxyResponse : Set := mkProxyResponse { pr_Status : Z; pr_Header : Header; pr_Body : bytes }.

Definition hop_headers : list bytes :=
  [lit "Connection"; lit "Proxy-Connection"; lit "Keep-Alive"; lit "Proxy-Authenticate"; lit "Proxy-Authorization"; lit "Te";
   lit "Trailer"; lit "Transfer-Encoding"; lit "Upgrade"].
Definition stripHopHeaders (h : Header) : Header := fold_left (fun h key => delete key h) hop_headers h.
Definition copyHeader (dst src : Header) : Header :=
  map_fold (fun k values dst => fold_left (fun dst v => header_Add k v dst) values dst) dst src.

Definition ensurePort (host : bytes) : bytes :=
  match SplitHostPort host with Some _ => host | None => JoinHostPort host (lit "443") end.

Definition http_error (message : bytes) (status : Z) (h : Header) : ProxyResponse :=
  mkProxyResponse status (header_Set (lit "X-Content-Type-Options") (lit "nosniff") (header_Set (lit "Content-Type") (lit "text/plain; charset=utf-8") h))
    (message ++ [10]).

(** What a handler does with the connection: an HTTP response, a tunnel to a target,
    or nothing more (hijacking failed). *)
Inductive proxy_reply : Set :=
| Replied (response : ProxyResponse)
| Tunnelled (target : bytes)
| Dropped.

(** The handler's environment: the transport, dialling and hijacking. *)
Record proxy_env : Set := mkProxyEnv {
  pe_roundTrip : ProxyRequest -> ProxyResponse + bytes;
  pe_dial : bytes -> option bytes;
  pe_hijacker : bool;
  pe_hijack : bool
}.

Definition connect (env : proxy_env) (r : ProxyRequest) : proxy_reply :=
  let target := ensurePort (px_Host r) in
  match pe_dial env target with
  | Some err => Replied (http_error (lit "connect upstream: " ++ err) 502 ∅)
  | None =>
      if negb (pe_hijacker env) then Replied (http_error (lit "hijacking unsupported") 500 ∅)
      else if negb (pe_hijack env) then Dropped
      else Tunnelled target
  end.

Definition forwarded (r : ProxyRequest) : ProxyRequest :=
  mkProxyRequest (px_Method r) (px_Host r) (px_URLHost r) [] (stripHopHeaders (px_Header r)) (px_Body r).

Definition ServeHTTP (token : bytes) (env : proxy_env) (r : ProxyRequest) : proxy_reply :=
  if negb (bool_decide (header_Get (px_Header r) (lit "Proxy-Authorization") = authHeader ++ token)) then
    Replied (http_error (lit "proxy authentication required") 407 (header_Set (lit "Proxy-Authenticate") (lit "Bearer") ∅))
  else if bool_decide (px_Method r = lit "CONNECT") then connect env r
  else match pe_roundTrip env (forwarded r) with
  | inr err => Replied (http_error (lit "upstream: " ++ err) 502 ∅)
  | inl resp => Replied (mkProxyResponse (pr_Status resp) (copyHeader ∅ (pr_Header resp)) (pr_Body resp))
  end.

(** ** The client's choice *)
Definition requestHost (r : ProxyRequest) : bytes :=
  if bool_decide (px_Method r = lit "CONNECT") then px_Host r
  else match px_URLHost r with
  | Some host => if negb (bool_decide (host = [])) then host else px_Host r
  | None => px_Host r
  end.

Section Choice.
Context {U : Unicode}.

Definition csv_part (v : bytes) : list bytes :=
  let v := TrimSpace (TrimPrefix v [46]) in
  if negb (bool_decide (v = [])) then [ToLower v] else [].
Definition splitCSV (raw : bytes) : list bytes := mjoin (csv_part <$> Split raw 44).

Definition matches (host : bytes) (rules : list bytes) : bool :=
  let host := ToLower (TrimSuffix (default [] (head (Split host 58))) [46]) in
  existsb (fun rule => bool_decide (host = rule) || HasSuffix host (46 :: rule)) rules.

(** The route of a client connection: straight to the target, or the request that is
    written to the server. *)
Inductive client_route : Set :=
| RouteDirect (r : ProxyRequest)
| RouteTunnel (r : ProxyRequest).
Definition with_token (token : bytes) (r : ProxyRequest) : ProxyRequest :=
  mkProxyRequest (px_Method r) (px_Host r) (px_URLHost r) (px_RequestURI r)
    (header_Set (lit "Proxy-Authorization") (authHeader ++ token) (px_Header r)) (px_Body r).
Definition client_serve (token : bytes) (direct : list bytes) (r : ProxyRequest) : client_route :=
  if matches (requestHost r) direct then RouteDirect r else RouteTunnel (with_token token r).
End Choice.

(** ** A header value between [req.WriteProxy] and the server's [ReadRequest]

    net/http writes blanks for line breaks and drops blanks around a value; the server
    refuses a request with any other control character in a value. *)
Definition header_blanks : list bytes := [[32]; [9]; [10]; [13]].
Definition TrimString (s : bytes) : bytes :=
  let s := trim header_blanks (length s) s in reverse (trim header_blanks (length s) (reverse s)).
Definition newline_to_space (c : Z) : Z := if (c =? 10) || (c =? 13) then 32 else c.
Definition field_char (c : Z) : bool := (32 <=? c) && negb (c =? 127) || (c =? 9).
Definition value_arrives (v : bytes) : option bytes :=
  let v := TrimString (newline_to_space <$> v) in if forallb field_char v then Some v else None.
(** [got] is what the server reads of the request [sent]. *)
Record received (sent got : ProxyRequest) : Prop := {
  rc_method : px_Method got = px_Method sent;
  rc_token : value_arrives (header_Get (px_Header sent) (lit "Proxy-Authorization")) = Some (header_Get (px_Header got) (lit "Proxy-Authorization"))
}.

(** [serveDirect]: a tunnel or the exchange with the target itself *)
Definition writeProxyError (message : bytes) : bytes :=
  lit "HTTP/1.1 502 Bad Gateway" ++ [13; 10] ++ lit "Content-Type: text/plain" ++ [13; 10] ++ lit "Content-Length: " ++ Itoa (len message)
  ++ [13; 10; 13; 10] ++ message.
Inductive direct_reply : Set :=
| DirectTunnel (target : bytes)
| DirectResponse (response : ProxyResponse)
| DirectError (text : bytes).
Definition serveDirect (env : proxy_env) (r : ProxyRequest) : direct_reply :=
  if bool_decide (px_Method r = lit "CONNECT") then
    match pe_dial env (ensurePort (px_Host r)) with
    | Some err => DirectError (writeProxyError err)
    | None => DirectTunnel (ensurePort (px_Host r))
    end
  else match pe_roundTrip env (forwarded r) with
  | inr err => DirectError (writeProxyError err)
  | inl resp => DirectResponse resp
  end.

(** [loadToken] *)
Definition loadToken (token tokenFile : bytes) (readFile : bytes -> bytes + bytes) : bytes + bytes :=
  let token := TrimSpace token in
  let tokenFile := TrimSpace tokenFile in
  if negb (bool_decide (token = [])) && negb (bool_decide (tokenFile = [])) then inr (lit "choose either -token or -token-file")
  else if bool_decide (tokenFile = []) then inl token
  else match readFile tokenFile with
  | inr err => inr (lit "read token file: " ++ err)
  | inl contents => inl (TrimSpace contents)
  end.

(** ** The request format *)
Definition request_bytes (target body : bytes) : bytes := [udpRequest] ++ be_split 2 (len target) ++ target ++ body.
Definition target_valid (target : bytes) : Prop := is_Some (SplitHostPort target) /\ len target <= 65535.

Lemma SplitHostPort_nonempty target p : SplitHostPort target = Some p -> 0 < len target.
Proof. destruct target; [done|]. intros _. rewrite len_cons. pose proof (len_nonneg target). lia. Qed.

Lemma makeUDPRequest_Ok target body : target_valid target -> makeUDPRequest target body = Ok (request_bytes target body).
Proof.
  intros [[p Hp] Hl]. unfold makeUDPRequest. rewrite Hp. by_test. pose proof (len_nonneg target). pose proof (len_nonneg body).
  rewrite u16_small by (unfold MaxUint16; lia). change (zeros (3 + len target + len body)) with ([] ++ zeros (3 + len target + len body)).
  rewrite set_at_zeros by (done || lia). cbn [obind]. unfold PutUint16. rewrite put_uint_zeros by (len_side). cbn [obind].
  rewrite copy_at_zeros by len_side. cbn [obind]. rewrite copy_at_zeros by len_side. f_equal.
  rewrite (zeros_nil (_ - _)) by len_side. unfold request_bytes. by rewrite app_nil_r, <- !app_assoc.
Qed.

Lemma makeUDPRequest_inv target body payload : makeUDPRequest target body = Ok payload -> target_valid target.
Proof.
  unfold makeUDPRequest. destruct (SplitHostPort target) as [p|] eqn:E; [|done]. destruct (Z.ltb_spec 65535 (len target)); [done|].
  intros _. split; [by rewrite E | done].
Qed.

Lemma parse_make target body : target_valid target -> parseUDPRequest (request_bytes target body) = Ok (target, body).
Proof.
  intros [[p Hp] Hl]. pose proof (SplitHostPort_nonempty target p Hp) as Hpos. pose proof (len_nonneg body).
  assert (Hlen : len (request_bytes target body) = 3 + len target + len body).
  { unfold request_bytes. rewrite !len_app, len_be_split, len_cons, len_nil. lia. }
  unfold parseUDPRequest. rewrite Hlen. by_test. change (index (request_bytes target body) 0) with (Ok (E := UdpErr) udpRequest).
  cbn [obind]. rewrite Z.eqb_refl. cbn [negb].
  assert (Hs1 : slice (E := UdpErr) (request_bytes target body) 1 3 = Ok (be_split 2 (len target))).
  { unfold request_bytes. apply slice_app; rewrite ?len_be_split; done. }
  rewrite Hs1. cbn [obind]. unfold Uint16. rewrite be_uint_Ok by apply length_be_split. cbn [obind].
  rewrite be_combine_split by (change (256 ^ Z.of_nat 2) with 65536; lia). by_test.
  assert (Hs2 : slice (E := UdpErr) (request_bytes target body) 3 (3 + len target) = Ok target).
  { unfold request_bytes. rewrite (app_assoc [udpRequest]). apply slice_app; rewrite ?len_app, ?len_be_split; done. }
  rewrite Hs2. cbn [obind]. rewrite Hp.
  assert (Hs3 : slice (E := UdpErr) (request_bytes target body) (3 + len target) (3 + len target + len body) = Ok body).
  { unfold request_bytes. rewrite (app_assoc [udpRequest]), (app_assoc _ target). apply slice_suffix; rewrite !len_app, ?len_be_split, ?len_cons, ?len_nil; lia. }
  by rewrite Hs3.
Qed.

Lemma parse_inv payload target body : bytes_ok payload -> parseUDPRequest payload = Ok (target, body) ->
  target_valid target /\ payload = request_bytes target body.
Proof.
  intros Hb. unfold parseUDPRequest. destruct (Z.ltb_spec (len payload) 3) as [|Hl]; [done|]. intros H.
  apply obind_Ok in H as (kind & Hk & H). destruct (Z.eqb_spec kind udpRequest) as [->|]; cbn [negb] in H; [|done].
  apply obind_Ok in H as (header & Hh & H). apply obind_Ok in H as (n & Hn & H). destruct (_ || _) eqn:Hg; [done|].
  apply obind_Ok in H as (t & Ht & H). destruct (SplitHostPort t) as [p|] eqn:Hp; [|done].
  apply obind_Ok in H as (b & Hbo & [= <- <-]).
  pose proof (slice_len _ _ _ _ Hh) as Lh. pose proof (slice_len _ _ _ _ Ht) as Lt. 
  assert (Hho : bytes_ok header) by (by eapply bytes_ok_slice).
  unfold Uint16 in Hn. rewrite be_uint_Ok in Hn by (unfold len in Lh; lia). injection Hn as <-.
  pose proof (be_combine_bound header Hho) as Hr. rewrite Lh in Hr. change (256 ^ (3 - 1)) with 65536 in Hr.
  split; [split; [by eexists | lia]|].
  pose proof (slice_join (slice_join (slice_join (index_slice payload 0 1 udpRequest Hk eq_refl) Hh) Ht) Hbo) as Hall.
  rewrite slice_all in Hall. injection Hall as ->. unfold request_bytes. rewrite <- !app_assoc. do 2 f_equal.
  rewrite Lt. replace (3 + be_combine header - 3) with (be_combine header) by lia. symmetry. apply be_split_combine'; [done | unfold len in Lh; lia].
Qed.

Lemma parseUDPRequest_returns payload : bytes_ok payload -> returns (parseUDPRequest payload).
Proof.
  intros Hb. unfold parseUDPRequest. destruct (Z.ltb_spec (len payload) 3) as [|Hl]; [done|].
  destruct (index_in (E := UdpErr) payload 0 ltac:(lia)) as [kind ->]. cbn [obind]. destruct (negb _); [done|].
  destruct (slice (E := UdpErr) payload 1 3) as [header| | |] eqn:Hh; try (rewrite slice_Ok in Hh by lia; done).
  pose proof (slice_len _ _ _ _ Hh) as Lh. assert (Hho : bytes_ok header) by (by eapply bytes_ok_slice). cbn [obind].
  unfold Uint16. rewrite be_uint_Ok by (unfold len in Lh; lia). cbn [obind]. pose proof (be_combine_bound header Hho).
  destruct (_ || _) eqn:Hg; [done|]. rewrite slice_Ok by lia. cbn [obind]. destruct (SplitHostPort _); [|done]. rewrite slice_Ok by lia. done.
Qed.

(** ** The exchange *)
Section Exchange.
Context {A : Aead} {AO : @AeadOk A}.

Lemma len_magic : len udpMagic = 6.
Proof. reflexivity. Qed.

Lemma len_sealed token nonce plain : len nonce = gcmNonceSize -> len (udpMagic ++ nonce ++ aead_Seal token nonce plain) = 34 + len plain.
Proof. intros Hn. rewrite !len_app, Hn, aead_seal_len, len_magic. unfold gcmNonceSize, gcmOverhead. lia. Qed.

Lemma open_seal token nonce plain : len nonce = gcmNonceSize -> openUDP token (udpMagic ++ nonce ++ aead_Seal token nonce plain) = Ok plain.
Proof.
  intros Hn. unfold openUDP. pose proof (len_sealed token nonce plain Hn) as Hl. rewrite Hl. pose proof (len_nonneg plain).
  rewrite len_magic. unfold gcmNonceSize, gcmOverhead in *. by_test. rewrite slice_prefix by done. cbn [obind]. rewrite bool_decide_true by done. cbn [negb].
  rewrite slice_app by (rewrite ?Hn; done). cbn [obind]. rewrite (app_assoc udpMagic nonce) at 1.
  rewrite slice_suffix by (rewrite ?len_app, ?Hn, ?aead_seal_len, ?len_magic; unfold gcmOverhead; lia). cbn [obind].
  by rewrite aead_open_seal.
Qed.

Lemma read_datagram_fits d : len d <= maxUDPDatagram -> read_datagram d = d.
Proof. intros H. apply take_ge. unfold len in H. lia. Qed.

Definition relay_server (token : bytes) (upstream : bytes -> bytes -> option bytes) (nonce : bytes) (packet : bytes) : option bytes :=
  match serveUDPDatagram token upstream (Some nonce) (read_datagram packet) with Ok reply => reply | _ => None end.

Lemma relay_server_answers token upstream n1 n2 target body reply :
  len n1 = gcmNonceSize -> target_valid target -> 37 + len target + len body <= maxUDPDatagram -> upstream target body = Some reply ->
  relay_server token upstream n2 (udpMagic ++ n1 ++ aead_Seal token n1 (request_bytes target body))
  = Some (udpMagic ++ n2 ++ aead_Seal token n2 (udpResponse :: read_datagram reply)).
Proof.
  intros Hn1 Ht Hl Hu. unfold relay_server. rewrite read_datagram_fits.
  - unfold serveUDPDatagram. rewrite open_seal by done. rewrite parse_make by done. by rewrite Hu.
  - rewrite len_sealed by done. unfold request_bytes. rewrite !len_app, len_be_split, len_cons, len_nil. unfold maxUDPDatagram in *. lia.
Qed.

(** C27: The encrypted relay delivers.  A request is decoded exactly as it was encoded,
    and only well-formed requests are; what one side seals the other opens; so for a
    valid target, a body and a reply that leave room for the framing within the
    60 KiB buffers, the local peer receives exactly the reply that the target gave
    to exactly that body. *)
Theorem udp_relay_delivers token upstream n1 n2 target body reply :
  len n1 = gcmNonceSize -> len n2 = gcmNonceSize -> target_valid target -> upstream target body = Some reply ->
  37 + len target + len body <= maxUDPDatagram -> 35 + len reply <= maxUDPDatagram ->
  relayUDPDatagram token (relay_server token upstream n2) (Some n1) target body = Ok (Some reply)
  /\ parseUDPRequest (request_bytes target body) = Ok (target, body)
  /\ forall payload target' body', bytes_ok payload -> parseUDPRequest payload = Ok (target', body') -> makeUDPRequest target' body' = Ok payload.
Proof.
  intros Hn1 Hn2 Ht Hu Hl Hr. split_and!; [| by apply parse_make |].
  - unfold relayUDPDatagram. rewrite makeUDPRequest_Ok by done. unfold sealUDP. rewrite (relay_server_answers token upstream n1 n2 target body reply) by done.
    pose proof (len_nonneg reply). rewrite (read_datagram_fits reply) by lia.
    rewrite read_datagram_fits by (rewrite len_sealed, len_cons by done; lia). rewrite open_seal by done. rewrite len_cons. by_test.
    change (index (udpResponse :: reply) 0) with (Ok (E := UdpErr) udpResponse). cbn [obind]. rewrite Z.eqb_refl. cbn [negb].
    rewrite (slice_suffix [udpResponse] reply) by (rewrite ?len_cons, ?len_nil; lia). done.
  - intros payload target' body' Hb H. apply parse_inv in H as [Hv ->]; [|done]. by apply makeUDPRequest_Ok.
Qed.

(** A body as large as the buffer it is read into gives a packet that the server's
    equally large buffer cuts. *)
Theorem udp_full_body_cut token nonce target body packet payload :
  len nonce = gcmNonceSize -> len body = maxUDPDatagram -> makeUDPRequest target body = Ok payload -> sealUDP token (Some nonce) payload = Ok packet ->
  read_datagram packet <> packet.
Proof.
  intros Hn Hb Hm Hs E. apply makeUDPRequest_inv in Hm as Hv. rewrite makeUDPRequest_Ok in Hm by done. apply Ok_inj in Hm as <-. apply Ok_inj in Hs as <-.
  apply (f_equal len) in E. rewrite len_sealed in E by done. unfold request_bytes in E. rewrite !len_app, len_be_split, len_cons, len_nil, Hb in E.
  unfold read_datagram, len at 1 in E. rewrite length_take in E. pose proof (len_nonneg target). unfold maxUDPDatagram in *. lia.
Qed.
End Exchange.

(** No datagram makes the relay panic. *)
Lemma openUDP_returns `{Aead} token packet : returns (openUDP token packet).
Proof.
  unfold openUDP. change (len udpMagic) with 6. unfold gcmNonceSize, gcmOverhead. destruct (Z.ltb_spec (len packet) (6 + 12 + 16)); [done|].
  rewrite slice_Ok by lia. cbn [obind]. destruct (negb _); [done|]. rewrite slice_Ok by lia. cbn [obind]. rewrite slice_Ok by lia. cbn [obind].
  by destruct (aead_Open _ _ _).
Qed.

(** ** The proxy token *)
Lemma strip_keeps_none keys : forall (h : Header) key, h !! key = None -> fold_left (fun h key => delete key h) keys h !! key = None.
Proof. induction keys as [|k keys IH]; intros h key H; cbn; [done|]. apply IH, lookup_delete_None. by right. Qed.

Lemma strip_lookup keys : forall (h : Header) key, key ∈ keys -> fold_left (fun h key => delete key h) keys h !! key = None.
Proof.
  induction keys as [|k keys IH]; intros h key Hin; [by apply elem_of_nil in Hin|]. cbn. apply elem_of_cons in Hin as [->|Hin]; [|by apply IH].
  apply strip_keeps_none, lookup_delete_eq.
Qed.

Lemma strip_other keys : forall (h : Header) key, key ∉ keys -> fold_left (fun h key => delete key h) keys h !! key = h !! key.
Proof.
  induction keys as [|k keys IH]; intros h key Hn; [done|]. apply not_elem_of_cons in Hn as [Hne Hn]. cbn. rewrite IH by done. by apply lookup_delete_ne.
Qed.

(** A token that was loaded, without control characters, arrives as it was sent. *)
Lemma header_blanks_stay c s : c ∉ [32; 9; 10; 13] -> strip header_blanks (c :: s) = None.
Proof.
  intros Hc. apply strip_None. repeat constructor; intros rest [= -> _]; apply Hc; set_solver.
Qed.
Lemma field_value_stays v : Forall (fun c => field_char c = true) v -> newline_to_space <$> v = v.
Proof.
  induction 1 as [|c v Hc _ IH]; [done|]. cbn. rewrite IH. f_equal. clear IH. unfold field_char, newline_to_space in *.
  destruct ((c =? 10) || (c =? 13)) eqn:E; [lia | done].
Qed.
Lemma value_arrives_fields v w : value_arrives v = Some w -> forallb field_char w = true.
Proof. unfold value_arrives. intros H. destruct (forallb _ _) eqn:E; [|done]. by injection H as <-. Qed.
Lemma token_arrives token : token <> [] -> TrimSpace token = token -> forallb field_char token = true -> value_arrives (authHeader ++ token) = Some (authHeader ++ token).
Proof.
  intros Hne Ht Hf. assert (Hall : forallb field_char (authHeader ++ token) = true) by (rewrite forallb_app, Hf; by vm_compute).
  unfold value_arrives. rewrite field_value_stays by (apply Forall_forall; intros c Hc; rewrite forallb_forall in Hall; by apply Hall, list_elem_of_In).
  assert (Htrim : TrimString (authHeader ++ token) = authHeader ++ token); [|by rewrite Htrim, Hall].
  assert (H1 : strip header_blanks (authHeader ++ token) = None).
  { change (authHeader ++ token) with (66 :: (lit "earer " ++ token)). apply header_blanks_stay. set_solver by lia. }
  assert (H2 : strip header_blanks (reverse (authHeader ++ token)) = None); [|unfold TrimString; by rewrite (trim_stays _ _ _ H1), (trim_stays _ _ _ H2), reverse_involutive].
  destruct (TrimSpace_trimmed token) as [_ Hend]. rewrite Ht in Hend. destruct token as [|x token _] using rev_ind; [done|].
  rewrite app_assoc, reverse_snoc. rewrite reverse_snoc, strip_None, Forall_forall in Hend. apply header_blanks_stay. intros Hx.
  apply (Hend [x]) with (rest := reverse token); [|done]. apply list_elem_of_In. cbn. set_solver.
Qed.

Lemma ServeHTTP_refuses token env r : header_Get (px_Header r) (lit "Proxy-Authorization") <> authHeader ++ token ->
  forall env', ServeHTTP token env r = ServeHTTP token env' r /\ exists p, ServeHTTP token env r = Replied p /\ pr_Status p = 407.
Proof. intros Hne env'. unfold ServeHTTP. rewrite !bool_decide_false by done. split; [done|]. by eexists. Qed.

(** C28: The proxy serves its token only.  A request without the exact token gets the
    same refusal whatever the network would do: nothing is dialled or forwarded for
    it.  A request with the token is forwarded without the hop-by-hop header fields of
    RFC 2616 (13.5.1) and Proxy-Connection, the token's own among them, and with every
    other header field unchanged.  What a client tunnels is accepted by the server with
    the same token, when the token is not empty, has no blanks around it and no control
    character in it. *)
Theorem proxy_token_required token env r :
  (header_Get (px_Header r) (lit "Proxy-Authorization") <> authHeader ++ token ->
     forall env', ServeHTTP token env r = ServeHTTP token env' r /\ exists p, ServeHTTP token env r = Replied p /\ pr_Status p = 407)
  /\ (forall key, px_Header (forwarded r) !! key =
        if bool_decide (key ∈ [lit "Connection"; lit "Keep-Alive"; lit "Proxy-Authenticate"; lit "Proxy-Authorization"; lit "Te"; lit "Trailer";
                               lit "Transfer-Encoding"; lit "Upgrade"; lit "Proxy-Connection"]) then None else px_Header r !! key)
  /\ (forall (U : Unicode) direct sent got, client_serve token direct r = RouteTunnel sent -> received sent got ->
        token <> [] -> TrimSpace token = token -> forallb field_char token = true ->
        ServeHTTP token env got = if bool_decide (px_Method r = lit "CONNECT") then connect env got
          else match pe_roundTrip env (forwarded got) with
               | inr err => Replied (http_error (lit "upstream: " ++ err) 502 ∅)
               | inl resp => Replied (mkProxyResponse (pr_Status resp) (copyHeader ∅ (pr_Header resp)) (pr_Body resp))
               end).
Proof.
  split_and!.
  - apply ServeHTTP_refuses.
  - intros key. unfold forwarded, stripHopHeaders. cbn [px_Header]. destruct (bool_decide_reflect (key ∈ [lit "Connection"; lit "Keep-Alive"; lit "Proxy-Authenticate";
      lit "Proxy-Authorization"; lit "Te"; lit "Trailer"; lit "Transfer-Encoding"; lit "Upgrade"; lit "Proxy-Connection"])) as [Hin|Hn].
    + apply strip_lookup. unfold hop_headers. set_solver.
    + apply strip_other. unfold hop_headers. set_solver.
  - intros U direct sent got H [Hm Ht] Hne Htr Hf. unfold client_serve in H. destruct (matches _ _); [done|]. injection H as <-. cbn [with_token px_Header px_Method] in *.
    unfold header_Get at 1 in Ht. unfold header_Set in Ht. rewrite lookup_insert_eq, token_arrives in Ht by done. injection Ht as Ht.
    unfold ServeHTTP. rewrite bool_decide_true by done. by rewrite Hm.
Qed.

(** ** Concrete exchanges *)
Section ProxyWitnesses.
(** A stand-in for AES-GCM with its sizes; it protects nothing. *)
Definition plain_aead : Aead := {|
  aead_Seal := fun _ _ plain => plain ++ zeros 16;
  aead_Open := fun _ _ sealed => Some (take (length sealed - 16) sealed)
|}.
Lemma plain_aead_ok : @AeadOk plain_aead.
Proof.
  split; intros; cbn.
  - f_equal. rewrite length_app. assert (length (zeros 16) = 16%nat) as -> by reflexivity. rewrite Nat.add_sub. apply take_app_length.
  - rewrite len_app, len_zeros by lia. done.
  - match goal with H : aead_Open _ _ _ = Some _ |- _ => injection H as <- end. by apply Forall_take.
Qed.
#[local] Existing Instances plain_aead plain_aead_ok ascii_only.

Lemma udp_relay_delivers_witness :
  relayUDPDatagram (lit "token") (relay_server (lit "token") (fun _ body => Some (reverse body)) (zeros 12)) (Some (zeros 12)) (lit "1.1.1.1:53") [1; 2; 3]
  = Ok (Some [3; 2; 1]).
Proof.
  refine (proj1 (udp_relay_delivers (lit "token") (fun _ body => Some (reverse body)) (zeros 12) (zeros 12) (lit "1.1.1.1:53") [1; 2; 3] [3; 2; 1] _ _ _ _ _ _)).
  - vm_compute. reflexivity.
  - vm_compute. reflexivity.
  - split; [eexists; vm_compute; reflexivity | vm_compute; discriminate].
  - vm_compute. reflexivity.
  - vm_compute. discriminate.
  - vm_compute. discriminate.
Defined.

Example direct_rules :
  (splitCSV (lit ".Example.com,,LAN "), matches (lit "www.EXAMPLE.com.:443") (splitCSV (lit ".Example.com,lan")), matches (lit "badexample.com") [lit "example.com"])
  = ([lit "example.com"; lit "lan"], true, false).
Proof. vm_compute. reflexivity. Qed.

(** A suffix with its dot after a blank keeps the dot and then matches no host of the
    domain, nor the domain itself. *)
Theorem direct_rule_after_blank :
  splitCSV (lit "a.example, .b.example") = [lit "a.example"; lit ".b.example"]
  /\ matches (lit "www.b.example:443") (splitCSV (lit "a.example, .b.example")) = false
  /\ matches (lit "b.example:443") (splitCSV (lit "a.example, .b.example")) = false.
Proof. vm_compute. split; [|split]; reflexivity. Qed.

(** A request through the tunnel, and what the server makes of it *)
Definition demo_request : ProxyRequest :=
  mkProxyRequest (lit "CONNECT") (lit "example.com:443") None [] {[lit "Connection" := [lit "X-Private"]; lit "X-Private" := [lit "1"]]} [].
Definition demo_proxy_env : proxy_env := mkProxyEnv (fun _ => inr (lit "down")) (fun _ => None) true true.
Lemma proxy_token_required_witness :
  ServeHTTP (lit "secret") demo_proxy_env (with_token (lit "secret") demo_request) = Tunnelled (lit "example.com:443")
  /\ px_Header (forwarded (with_token (lit "secret") demo_request)) !! lit "Proxy-Authorization" = None.
Proof.
  split.
  - refine (eq_trans (proj2 (proj2 (proxy_token_required (lit "secret") demo_proxy_env demo_request)) ascii_only [] (with_token (lit "secret") demo_request) (with_token (lit "secret") demo_request) _ _ _ _ _) _);
      [vm_compute; reflexivity | split; vm_compute; reflexivity | discriminate | vm_compute; reflexivity | vm_compute; reflexivity | vm_compute; reflexivity].
  - rewrite (proj1 (proj2 (proxy_token_required (lit "secret") demo_proxy_env (with_token (lit "secret") demo_request)))). vm_compute. reflexivity.
Defined.

(** A header field that [Connection] names belongs to the one connection too, but is
    forwarded. *)
Theorem connection_options_forwarded :
  header_Get (px_Header demo_request) (lit "Connection") = lit "X-Private" /\ px_Header (forwarded demo_request) !! lit "X-Private" = Some [lit "1"].
Proof. vm_compute. split; reflexivity. Qed.

(** A token file of two lines is accepted on both sides, but its token never arrives
    over HTTP: the server refuses the client with the very same token. *)
Theorem two_line_token_refused :
  loadToken [] (lit "/token") (fun _ => inl (lit "first" ++ [10] ++ lit "second")) = inl (lit "first" ++ [10] ++ lit "second")
  /\ (forall token got, 10 ∈ token \/ 13 ∈ token -> received (with_token token demo_request) got ->
        forall env, exists p, ServeHTTP token env got = Replied p /\ pr_Status p = 407)
  /\ value_arrives (authHeader ++ lit "first" ++ [10] ++ lit "second") = Some (authHeader ++ lit "first second").
Proof.
  split; [vm_compute; reflexivity|]. split; [|vm_compute; reflexivity]. intros token got Hin [_ Ht] env.
  assert (Hne : header_Get (px_Header got) (lit "Proxy-Authorization") <> authHeader ++ token).
  { intros Heq. rewrite Heq in Ht. cbn [with_token px_Header] in Ht. unfold header_Get, header_Set in Ht. rewrite lookup_insert_eq in Ht.
    pose proof (value_arrives_fields _ _ Ht) as Hf. rewrite forallb_app in Hf.
    apply andb_true_iff in Hf as [_ Hf]. rewrite forallb_forall in Hf. destruct Hin as [Hc|Hc]; specialize (Hf _ (proj1 (list_elem_of_In _ _) Hc)); done. }
  exact (proj2 (ServeHTTP_refuses token env got Hne env)).
Qed.
End ProxyWitnesses.
