(* ===== verification/Bridge.v ===== *)
(** * The bridge between two connections ([bridgeWithReaders] of cmd/wg-proxy/main.go)

    Two goroutines copy in opposite directions ([io.Copy], from a buffered reader where
    there is one) and each closes the connection it writes to when its copying ends.
    A connection is what its peer sends, in the portions that reads return, what happens
    after the last of them, and what becomes of writing to it: the peer reads on, the
    connection breaks, or the peer stops reading, and then a write waits for ever.  A
    step is one read, one write or one close of one goroutine; a schedule is any
    interleaving of them. *)

From stdpp Require Import base numbers list relations.
From S2P Require Import Prelude.

(** After its last portion the peer ends its stream, breaks the connection or stays
    silent. *)
Inductive ending : Set := EndOfStream | Broken | Silent.
#[global] Instance ending_eq_dec : EqDecision ending.
Proof. solve_decision. Defined.

(** Writing: the peer takes everything, writing fails after [room] more bytes, or it
    blocks after [room] more bytes because the peer does not read them. *)
Inductive capacity : Set := Reads | Breaks (room : nat) | Stalls (room : nat).
Definition breaks (c : capacity) : bool := match c with Breaks _ => true | _ => false end.
Definition stalls (c : capacity) : bool := match c with Stalls _ => true | _ => false end.
Definition filled (n : nat) (c : capacity) : capacity :=
  match c with
  | Reads => Reads
  | Breaks room => Breaks (room - n)
  | Stalls room => Stalls (room - n)
  end.

Record conn : Set := mkConn {
  kn_incoming : list bytes;
  kn_ending : ending;
  kn_room : capacity;
  kn_written : bytes;
  kn_closed : bool
}.
(** A goroutine reads, has a portion to write, is about to close its destination, or
    has called [wg.Done]. *)
Inductive copier : Set := Copying | Holding (portion : bytes) | Closing | Finished.
Record direction : Set := mkDirection { dr_thread : copier; dr_reader : bytes }.
(** [br_ab] copies from [br_a] to [br_b]. *)
Record bridge : Set := mkBridge { br_a : conn; br_b : conn; br_ab : direction; br_ba : direction }.

Definition received (rest : list bytes) (c : conn) : conn := mkConn rest (kn_ending c) (kn_room c) (kn_written c) (kn_closed c).
Definition wrote (portion : bytes) (c : conn) : conn :=
  mkConn (kn_incoming c) (kn_ending c) (filled (length portion) (kn_room c)) (kn_written c ++ portion) (kn_closed c).
Definition close (c : conn) : conn := mkConn (kn_incoming c) (kn_ending c) (kn_room c) (kn_written c) true.

(** One step of the goroutine that copies from [br_a] to [br_b]; none while it waits in
    [Read] or in [Write] and when it is done. *)
Definition copy_step (s : bridge) : option bridge :=
  let '(mkBridge a b (mkDirection t reader) ba) := s in
  match t with
  | Copying =>
      match reader with
      | _ :: _ => Some (mkBridge a b (mkDirection (Holding reader) []) ba)
      | [] =>
          if kn_closed a then Some (mkBridge a b (mkDirection Closing []) ba)
          else match kn_incoming a, kn_ending a with
          | portion :: rest, _ => Some (mkBridge (received rest a) b (mkDirection (Holding portion) []) ba)
          | [], Silent => None
          | [], _ => Some (mkBridge a b (mkDirection Closing []) ba)
          end
      end
  | Holding portion =>
      if kn_closed b then Some (mkBridge a b (mkDirection Closing reader) ba)
      else match kn_room b with
      | Reads => Some (mkBridge a (wrote portion b) (mkDirection Copying reader) ba)
      | Breaks room =>
          if (length portion <=? room)%nat then Some (mkBridge a (wrote portion b) (mkDirection Copying reader) ba)
          else Some (mkBridge a (wrote (take room portion) b) (mkDirection Closing reader) ba)
      | Stalls room =>
          if (length portion <=? room)%nat then Some (mkBridge a (wrote portion b) (mkDirection Copying reader) ba)
          else if (room =? 0)%nat then None
          else Some (mkBridge a (wrote (take room portion) b) (mkDirection (Holding (drop room portion)) reader) ba)
      end
  | Closing => Some (mkBridge a (close b) (mkDirection Finished reader) ba)
  | Finished => None
  end.

Lemma filled_breaks n c : breaks (filled n c) = breaks c.
Proof. by destruct c. Qed.
Lemma filled_stalls n c : stalls (filled n c) = stalls c.
Proof. by destruct c. Qed.

Definition flip (s : bridge) : bridge := mkBridge (br_b s) (br_a s) (br_ba s) (br_ab s).
Definition bridge_step (ab : bool) (s : bridge) : option bridge := if ab then copy_step s else flip <$> copy_step (flip s).
Definition bridge_next (s s' : bridge) : Prop := exists ab, bridge_step ab s = Some s'.
Fixpoint bridge_run (schedule : list bool) (s : bridge) : option bridge :=
  match schedule with
  | [] => Some s
  | ab :: schedule => match bridge_step ab s with Some s => bridge_run schedule s | None => None end
  end.

(** A fresh connection, and the bridge at its start with what the readers had buffered *)
Definition opened (incoming : list bytes) (e : ending) (room : capacity) : conn := mkConn incoming e room [] false.
Definition bridgeWithReaders (a : conn) (ar : bytes) (b : conn) (br : bytes) : bridge :=
  mkBridge a b (mkDirection Copying ar) (mkDirection Copying br).
Definition bridge_done (s : bridge) : Prop := dr_thread (br_ab s) = Finished /\ dr_thread (br_ba s) = Finished.

(** ** The streams *)

(** What is still to be copied from [a] to [b] *)
Definition pending (s : bridge) : bytes :=
  (match dr_thread (br_ab s) with Holding portion => portion | _ => [] end) ++ dr_reader (br_ab s) ++ mjoin (kn_incoming (br_a s)).

(** [full]: everything that [a] sends.  The stream written to [b] continues in what is
    pending as long as the goroutine copies, and is a beginning of the whole in any
    case. *)
Definition copying (t : copier) : bool := match t with Copying | Holding _ => true | _ => false end.
Record stream_ok (full : bytes) (s : bridge) : Prop := {
  sk_prefix : kn_written (br_b s) `prefix_of` full;
  sk_going : copying (dr_thread (br_ab s)) = true -> kn_written (br_b s) ++ pending s = full;
  sk_closed : kn_closed (br_b s) = true <-> dr_thread (br_ab s) = Finished
}.

Lemma flip_flip s : flip (flip s) = s.
Proof. by destruct s. Qed.

(** The step of the other goroutine leaves this stream alone. *)
Lemma copy_step_other full s s' : copy_step (flip s) = Some s' -> stream_ok full s -> stream_ok full (flip s').
Proof.
  destruct s as [a b [t r] [t' r']]. cbn. intros H [H1 H2 H3]. cbn in *.
  destruct t' as [|portion| |]; [| | |done].
  - destruct r'; [|injection H as <-; by split]. destruct (kn_closed b) eqn:Hc; [injection H as <-; split; cbn; by rewrite ?Hc|].
    destruct (kn_incoming b) as [|p rest] eqn:Hi; [destruct (kn_ending b); try done|]; injection H as <-; split; cbn; done || by rewrite ?Hc.
  - destruct (kn_closed a); [injection H as <-; by split|]. repeat case_match; try done; injection H as <-; by split.
  - injection H as <-. by split.
Qed.

(** A step of the goroutine itself *)
Lemma copy_step_stream full s s' : copy_step s = Some s' -> stream_ok full s -> stream_ok full s'.
Proof.
  destruct s as [a b [t r] ba]. intros H [H1 H2 H3]. unfold pending in *. cbn in *.
  destruct t as [|portion| |]; [| | |done].
  - specialize (H2 eq_refl). destruct r as [|x r]; [|injection H as <-; split; cbn; [done | by intros _ | naive_solver]].
    destruct (kn_closed a); [injection H as <-; split; cbn; naive_solver|].
    destruct (kn_incoming a) as [|p rest] eqn:Hi; [destruct (kn_ending a); try done; injection H as <-; split; cbn; naive_solver|].
    injection H as <-. split; cbn; [done | | naive_solver]. intros _. unfold pending. cbn. by rewrite <- H2.
  - specialize (H2 eq_refl). assert (Hb : kn_closed b = false) by (destruct (kn_closed b); [|done]; discriminate (proj1 H3 eq_refl)). rewrite Hb in H.
    assert (Hall : stream_ok full (mkBridge a (wrote portion b) (mkDirection Copying r) ba)).
    { split; cbn; [|intros _; unfold pending; cbn|rewrite Hb; naive_solver].
      - exists (r ++ mjoin (kn_incoming a)). by rewrite <- app_assoc.
      - by rewrite <- app_assoc. }
    assert (Hpart : forall room, (kn_written b ++ take room portion) ++ drop room portion ++ r ++ mjoin (kn_incoming a) = full).
    { intros room. rewrite <- app_assoc, (app_assoc (take room portion)), take_drop. by rewrite H2. }
    destruct (kn_room b) as [|room|room]; [by injection H as <- | |]; destruct (_ <=? room)%nat; [by injection H as <- | | by injection H as <- |].
    + injection H as <-. split; cbn; [by eexists|done|rewrite Hb; naive_solver].
    + destruct (room =? 0)%nat; [done|]. injection H as <-. split; cbn; [by eexists | intros _; apply Hpart | rewrite Hb; naive_solver].
  - injection H as <-. split; cbn; done.
Qed.

(** Both streams *)
Definition bridge_ok (fa fb : bytes) (s : bridge) : Prop := stream_ok fa s /\ stream_ok fb (flip s).

(** When writing never fails a goroutine stops copying because its stream has ended, or
    because the other one has closed the connection that it reads. *)
Record delivered (fa fb : bytes) (s : bridge) : Prop := {
  dv_room : breaks (kn_room (br_a s)) = false /\ breaks (kn_room (br_b s)) = false;
  dv_ab : copying (dr_thread (br_ab s)) = false -> kn_written (br_b s) = fa \/ dr_thread (br_ba s) = Finished;
  dv_ba : copying (dr_thread (br_ba s)) = false -> kn_written (br_a s) = fb \/ dr_thread (br_ab s) = Finished;
  dv_both : copying (dr_thread (br_ab s)) = false -> copying (dr_thread (br_ba s)) = false -> kn_written (br_b s) = fa \/ kn_written (br_a s) = fb
}.

Lemma delivered_flip fa fb s : delivered fa fb s -> delivered fb fa (flip s).
Proof. intros [[H1 H2] H3 H4 H5]. split; cbn; [done | done | done|]. intros Ha Hb. destruct (H5 Hb Ha); auto. Qed.

Lemma copy_step_delivered fa fb s s' : copy_step s = Some s' -> bridge_ok fa fb s -> delivered fa fb s -> delivered fa fb s'.
Proof.
  destruct s as [a b [t r] [t' r']]. intros H [[P1 G1 C1] [P2 G2 C2]] [[R1 R2] D1 D2 D3]. unfold pending in *. cbn in *.
  destruct t as [|portion| |]; [| | |done].
  - specialize (G1 eq_refl). destruct r as [|x r]; [|injection H as <-; split; cbn; try done; naive_solver].
    destruct (kn_closed a) eqn:Ha; [|destruct (kn_incoming a) as [|p rest]].
    + injection H as <-. pose proof (proj1 C2 eq_refl) as ->. destruct (D2 eq_refl) as [Hw|]; [|done]. split; cbn; auto.
    + cbn in G1. rewrite app_nil_r in G1. destruct (kn_ending a); try done; injection H as <-; split; cbn; try done; naive_solver.
    + injection H as <-. split; cbn; try done; naive_solver.
  - assert (Hb : kn_closed b = false) by (destruct (kn_closed b); [|done]; discriminate (proj1 C1 eq_refl)). rewrite Hb in H.
    destruct (kn_room b) as [|room|room] eqn:Hroom; [|done|destruct (_ <=? room)%nat; [|destruct (room =? 0)%nat; [done|]]];
      injection H as <-; (split; cbn; [by rewrite filled_breaks, Hroom | done | naive_solver | done]).
  - injection H as <-. split; cbn; try done; naive_solver.
Qed.

Lemma bridge_step_ok fa fb s s' : bridge_next s s' -> bridge_ok fa fb s -> bridge_ok fa fb s'.
Proof.
  intros [[] H] [H1 H2]; cbn [bridge_step] in H.
  - split; [by eapply copy_step_stream|]. rewrite <- (flip_flip s) in H. by eapply copy_step_other.
  - destruct (copy_step (flip s)) as [s1|] eqn:E; [|done]. injection H as <-. split; [by eapply copy_step_other|]. rewrite flip_flip. by eapply copy_step_stream.
Qed.

Lemma bridge_step_delivered fa fb s s' : bridge_next s s' -> bridge_ok fa fb s -> delivered fa fb s -> delivered fa fb s'.
Proof.
  intros [[] H] Hok Hd; cbn [bridge_step] in H; [by eapply copy_step_delivered|]. destruct (copy_step (flip s)) as [s1|] eqn:E; [|done]. injection H as <-.
  apply delivered_flip. eapply copy_step_delivered; [exact E | | by apply delivered_flip]. split; [apply Hok | rewrite flip_flip; apply Hok].
Qed.

(** ** Every schedule ends *)
Definition direction_left (d : direction) (incoming : list bytes) (room : capacity) : nat :=
  let portions := (length incoming + match dr_reader d with [] => 0 | _ => 1 end)%nat in
  match dr_thread d with
  | Copying => 3 * portions + 2
  | Holding _ => 3 * portions + 3 + match room with Stalls (S _) => 1 | _ => 0 end
  | Closing => 1
  | Finished => 0
  end.
Definition bridge_left (s : bridge) : nat :=
  (direction_left (br_ab s) (kn_incoming (br_a s)) (kn_room (br_b s)) + direction_left (br_ba s) (kn_incoming (br_b s)) (kn_room (br_a s)))%nat.

Lemma copy_step_left s s' : copy_step s = Some s' -> (bridge_left s' < bridge_left s)%nat.
Proof.
  destruct s as [a b [t r] [t' r']]. unfold bridge_left, direction_left. intros H. cbn in *. destruct t as [|portion| |]; [| | |done].
  - destruct r as [|x r]; [|injection H as <-; cbn; repeat case_match; lia]. destruct (kn_closed a); [injection H as <-; cbn; lia|].
    destruct (kn_incoming a) as [|p rest]; [destruct (kn_ending a); try done|]; injection H as <-; cbn; repeat case_match; lia.
  - destruct (kn_closed b); [injection H as <-; cbn; lia|]. destruct (kn_room b) as [|room|room] eqn:Hroom; [injection H as <-; cbn; lia | |];
      destruct (_ <=? room)%nat eqn:Hr; try (injection H as <-; cbn; lia).
    destruct room as [|room]; cbn [Nat.eqb] in H; [done|]. injection H as <-. apply Nat.leb_gt in Hr. cbn -[Nat.sub Nat.mul take].
    rewrite length_take, Nat.min_l, Hroom by lia. cbn [filled]. rewrite Nat.sub_diag. lia.
  - injection H as <-; cbn; lia.
Qed.

Lemma bridge_left_flip s : bridge_left (flip s) = bridge_left s.
Proof. destruct s. unfold bridge_left. cbn. lia. Qed.

Lemma bridge_terminates s : sn bridge_next s.
Proof.
  induction s as [s IH] using (induction_ltof1 _ bridge_left). constructor. intros s' [ab H]. apply IH. unfold ltof.
  destruct ab; cbn [bridge_step] in H; [by apply copy_step_left|]. destruct (copy_step (flip s)) as [s1|] eqn:E; [|done]. injection H as <-.
  apply copy_step_left in E. by rewrite bridge_left_flip in *.
Qed.

(** Where a goroutine can only wait: for a peer that sends nothing more, or for one that
    reads nothing more *)
Definition read_blocked (s : bridge) : Prop :=
  dr_thread (br_ab s) = Copying /\ kn_closed (br_a s) = false /\ kn_incoming (br_a s) = [] /\ kn_ending (br_a s) = Silent.
Definition write_blocked (s : bridge) : Prop :=
  exists portion, dr_thread (br_ab s) = Holding portion /\ portion <> [] /\ kn_closed (br_b s) = false /\ kn_room (br_b s) = Stalls 0.
Lemma copy_step_stuck s : copy_step s = None -> dr_thread (br_ab s) = Finished \/ read_blocked s \/ write_blocked s.
Proof.
  destruct s as [a b [t r] ba]. unfold read_blocked, write_blocked. cbn. intros H. destruct t as [|portion| |]; [| |done|by left]; right.
  - left. destruct r; [|done]. destruct (kn_closed a); [done|]. destruct (kn_incoming a); [|done]. by destruct (kn_ending a).
  - right. destruct (kn_closed b); [done|]. destruct (kn_room b) as [|room|room]; [done|by destruct (_ <=? room)%nat|].
    destruct (_ <=? room)%nat eqn:Hr; [done|]. destruct (room =? 0)%nat eqn:Hz; [|done]. apply Nat.eqb_eq in Hz as ->.
    exists portion. split_and!; try done. by intros ->.
Qed.

(** What no step changes *)
Definition fixed (c : conn) : ending * bool := (kn_ending c, stalls (kn_room c)).
Lemma fixed_wrote portion c : fixed (wrote portion c) = fixed c.
Proof. unfold fixed. cbn. by rewrite filled_stalls. Qed.
Lemma copy_step_keeps s s' : copy_step s = Some s' -> fixed (br_a s') = fixed (br_a s) /\ fixed (br_b s') = fixed (br_b s).
Proof.
  destruct s as [a b [t r] ba]. cbn [copy_step]. intros H. repeat case_match; try done; injection H as <-; cbn [br_a br_b]; by rewrite ?fixed_wrote.
Qed.
Lemma bridge_next_keeps s s' : bridge_next s s' -> fixed (br_a s') = fixed (br_a s) /\ fixed (br_b s') = fixed (br_b s).
Proof.
  intros [[] H]; cbn [bridge_step] in H; [by apply copy_step_keeps|]. destruct (copy_step (flip s)) as [s1|] eqn:E; [|done]. injection H as <-.
  apply copy_step_keeps in E as [E1 E2]. done.
Qed.

(** ** Theorems *)
Definition sent (reader : bytes) (c : conn) : bytes := reader ++ mjoin (kn_incoming c).

Lemma start_ok a ar b br : kn_written a = [] -> kn_written b = [] -> kn_closed a = false -> kn_closed b = false ->
  bridge_ok (sent ar a) (sent br b) (bridgeWithReaders a ar b br).
Proof. intros Ha Hb Ca Cb. split; split; cbn; rewrite ?Ha, ?Hb, ?Ca, ?Cb; try done; try apply prefix_nil. Qed.

Lemma bridge_reaches fa fb s s' : rtc bridge_next s s' -> bridge_ok fa fb s -> bridge_ok fa fb s' /\ (delivered fa fb s -> delivered fa fb s').
Proof.
  induction 1 as [|s s1 s' Hstep _ IH]; intros Hok; [done|]. destruct (IH (bridge_step_ok _ _ _ _ Hstep Hok)) as [H1 H2].
  split; [done|]. intros Hd. by apply H2, (bridge_step_delivered _ _ s).
Qed.
Lemma bridge_reaches_fixed s s' : rtc bridge_next s s' -> fixed (br_a s') = fixed (br_a s) /\ fixed (br_b s') = fixed (br_b s).
Proof. induction 1 as [|s s1 s' Hstep _ [-> ->]]; [done|]. by apply bridge_next_keeps. Qed.

(** C29: The bridge relays.  Under every schedule, what each side has been sent is a
    beginning of what the other side sent, byte for byte and in order, whatever breaks or
    stalls; when writing does not fail, a direction that has ended before the other one
    has delivered everything, and one of the two always has when both have ended. *)
Theorem bridge_relays ea eb ins_a ins_b ar br room_a room_b s :
  let a := opened ins_a ea room_a in let b := opened ins_b eb room_b in
  rtc bridge_next (bridgeWithReaders a ar b br) s ->
  kn_written (br_b s) `prefix_of` ar ++ mjoin ins_a /\ kn_written (br_a s) `prefix_of` br ++ mjoin ins_b
  /\ (breaks room_a = false -> breaks room_b = false ->
      (dr_thread (br_ab s) = Finished -> dr_thread (br_ba s) <> Finished -> kn_written (br_b s) = ar ++ mjoin ins_a)
      /\ (dr_thread (br_ba s) = Finished -> dr_thread (br_ab s) <> Finished -> kn_written (br_a s) = br ++ mjoin ins_b)
      /\ (bridge_done s -> kn_written (br_b s) = ar ++ mjoin ins_a \/ kn_written (br_a s) = br ++ mjoin ins_b)).
Proof.
  intros a b Hrun. destruct (bridge_reaches _ _ _ _ Hrun (start_ok a ar b br eq_refl eq_refl eq_refl eq_refl)) as [[H1 H2] Hd].
  split_and!; [apply H1 | apply H2|]. intros Ra Rb. destruct Hd as [_ D1 D2 D3]; [by split|]. split_and!.
  - intros Hf Hn. rewrite Hf in D1. by destruct (D1 eq_refl).
  - intros Hf Hn. rewrite Hf in D2. by destruct (D2 eq_refl).
  - intros [F1 F2]. rewrite F1, F2 in D3. by apply D3.
Qed.

(** C30: When the bridge returns.  No schedule is infinite.  Once one of the two peers
    ends its stream or breaks its connection, a schedule stops only when both goroutines
    have finished, so that [wg.Wait] returns, or when one of them waits in [Write] for a
    peer that has stopped reading; when both peers read on it always returns. *)
Theorem bridge_returns ea eb ins_a ins_b ar br room_a room_b s :
  ea <> Silent \/ eb <> Silent ->
  rtc bridge_next (bridgeWithReaders (opened ins_a ea room_a) ar (opened ins_b eb room_b) br) s ->
  sn bridge_next s
  /\ ((exists s', bridge_next s s') \/ bridge_done s \/ write_blocked s \/ write_blocked (flip s))
  /\ (stalls room_a = false -> stalls room_b = false -> (exists s', bridge_next s s') \/ bridge_done s).
Proof.
  intros He Hrun. split; [apply bridge_terminates|].
  destruct (bridge_reaches _ _ _ _ Hrun (start_ok (opened ins_a ea room_a) ar (opened ins_b eb room_b) br eq_refl eq_refl eq_refl eq_refl)) as [[H1 H2] _].
  destruct (bridge_reaches_fixed _ _ Hrun) as [[=E1 R1] [=E2 R2]].
  assert (Hall : (exists s', bridge_next s s') \/ bridge_done s \/ write_blocked s \/ write_blocked (flip s)).
  { destruct (copy_step s) as [s1|] eqn:S1; [left; exists s1; by exists true|].
    destruct (copy_step (flip s)) as [s2|] eqn:S2; [left; exists (flip s2); exists false; cbn [bridge_step]; by rewrite S2|]. right.
    apply copy_step_stuck in S1 as [F1|[(C1 & O1 & _ & Q1)|W1]]; [| |by right; left];
      apply copy_step_stuck in S2 as [F2|[(C2 & O2 & _ & Q2)|W2]]; try (by right; right); [by left| | |]; exfalso; cbn in *.
    - pose proof (proj2 (sk_closed _ _ H1) F1). congruence.
    - pose proof (proj2 (sk_closed _ _ H2) F2) as Hc. cbn in Hc. congruence.
    - destruct He; congruence. }
  split; [done|]. intros Ra Rb. destruct Hall as [?|[?|[(p & _ & _ & _ & Hs)|(p & _ & _ & _ & Hs)]]]; [by left | by right | |]; exfalso; cbn in Hs.
  - rewrite Hs in R2. cbn in R2. congruence.
  - rewrite Hs in R1. cbn in R1. congruence.
Qed.

(** ** Schedules *)
Lemma bridge_run_rtc schedule : forall s s', bridge_run schedule s = Some s' -> rtc bridge_next s s'.
Proof.
  induction schedule as [|ab schedule IH]; intros s s' H; cbn [bridge_run] in H; [by injection H as <-|].
  destruct (bridge_step ab s) as [s1|] eqn:E; [|done]. eapply rtc_l; [by exists ab | by apply IH].
Qed.

(** A peer that sends its request and ends its stream, while the other side still
    answers: closing the connection for the finished direction cuts the answer off. *)
Definition request_answer : bridge :=
  bridgeWithReaders (opened [[1%Z; 2%Z]] EndOfStream Reads) [] (opened [[7%Z]; [8%Z]] EndOfStream Reads) [].
Theorem half_close_loses_answer :
  match bridge_run [true; true; false; false; true; true; false; false] request_answer with
  | Some s => bridge_done s /\ kn_written (br_b s) = [1%Z; 2%Z] /\ kn_written (br_a s) = [7%Z] /\ kn_room (br_a s) = Reads
  | None => False
  end.
Proof. vm_compute. done. Qed.

Definition request_answered : bridge := default request_answer (bridge_run [true; true; false; false; true; true; false; false] request_answer).
Lemma bridge_relays_witness : kn_written (br_b request_answered) = [1%Z; 2%Z] \/ kn_written (br_a request_answered) = [7%Z; 8%Z].
Proof.
  assert (H : rtc bridge_next request_answer request_answered) by (apply (bridge_run_rtc [true; true; false; false; true; true; false; false]); vm_compute; reflexivity).
  destruct (bridge_relays EndOfStream EndOfStream [[1%Z; 2%Z]] [[7%Z]; [8%Z]] [] [] Reads Reads request_answered H) as (_ & _ & Hd).
  apply (Hd eq_refl eq_refl). split; vm_compute; reflexivity.
Defined.

(** A peer that sends its request, ends its stream and stops reading: one goroutine
    finishes and closes the other connection, which does not wake the goroutine that
    writes to this peer, and the bridge never returns. *)
Definition request_abandoned : bridge :=
  bridgeWithReaders (opened [[1%Z; 2%Z]] EndOfStream (Stalls 0)) [] (opened [[7%Z]; [8%Z]] EndOfStream Reads) [].
Theorem bridge_can_hang :
  match bridge_run [true; true; false; true; true] request_abandoned with
  | Some s => dr_thread (br_ab s) = Finished /\ kn_closed (br_b s) = true /\ dr_thread (br_ba s) = Holding [7%Z] /\ bridge_step true s = None /\ bridge_step false s = None
  | None => False
  end.
Proof. vm_compute. done. Qed.

Lemma bridge_returns_witness :
  sn bridge_next request_answered /\ ((exists s', bridge_next request_answered s') \/ bridge_done request_answered) /\ bridge_done request_answered.
Proof.
  assert (He : EndOfStream <> Silent \/ EndOfStream <> Silent) by (left; discriminate).
  assert (Hr : rtc bridge_next request_answer request_answered) by (apply (bridge_run_rtc [true; true; false; false; true; true; false; false]); vm_compute; reflexivity).
  destruct (bridge_returns EndOfStream EndOfStream [[1%Z; 2%Z]] [[7%Z]; [8%Z]] [] [] Reads Reads request_answered He Hr) as (H1 & _ & H2).
  split; [exact H1 | split; [exact (H2 eq_refl eq_refl) | split; vm_compute; reflexivity]].
Defined.
