(* ===== verification/ClientUi.v ===== *)
(** * The client UI command (cmd/wg-client-ui)

    The proxy configuration and its file, the controller that starts and stops the
    proxy processes, its HTTP handlers, the probes, the static files and the start of
    the command.  The operating system is an environment: what opening, writing and
    renaming a file, starting, signalling and waiting for a process, and looking at a
    port give; a configuration is saved in a directory of named files.  JSON encoding and
    decoding are parameters. *)

From stdpp Require Import base strings numbers gmap list.
From S2P Require Import Prelude CodecErrors Frame GoStrings Flag Netip.
Local Open Scope Z_scope.
Local Open Scope wg_scope.

Definition maxProxyConfigBytes : Z := 65536.

Record proxyServerProfile : Set := mkProfile { pp_Name : bytes; pp_IP : bytes; pp_Port : Z }.
#[global] Instance proxyServerProfile_eq_dec : EqDecision proxyServerProfile.
Proof. solve_decision. Defined.
Record proxyClientConfig : Set := mkClientConfig {
  pc_Servers : list proxyServerProfile;
  pc_SelectedEndpoint : bytes;
  pc_Transport : bytes;
  pc_UDPTarget : bytes
}.
#[global] Instance proxyClientConfig_eq_dec : EqDecision proxyClientConfig.
Proof. solve_decision. Defined.

Definition defaultProxyConfig : proxyClientConfig := mkClientConfig [] [] (lit "tcp") (lit "1.1.1.1:53").

Inductive UiErr : Set :=
| ErrTransport | ErrTooManyServers | ErrServerIP | ErrServerUnusable | ErrServerPort | ErrDuplicate
| ErrNotSelected | ErrSelectionNeeded | ErrUDPTarget
| ErrFile | ErrTooLarge | ErrDecode | ErrStateDir
| ErrBinary | ErrCertificate | ErrToken | ErrTokenMode | ErrStop | ErrPortTaken | ErrStart | ErrNotListening
| ErrAddress | ErrArguments (err : FlagErr) | ErrCoreURL | ErrAssets | ErrListen | ErrServe.

Definition wants_tcp (transport : bytes) : bool := bool_decide (transport = lit "tcp") || bool_decide (transport = lit "both").
Definition wants_udp (transport : bytes) : bool := bool_decide (transport = lit "udp") || bool_decide (transport = lit "both").

(** [strings.ContainsAny(host, " \t\r\n/\\")] *)
Definition host_forbidden (c : Z) : bool := (c =? 32) || (c =? 9) || (c =? 13) || (c =? 10) || (c =? 47) || (c =? 92).
Definition validHostPort (value : bytes) : bool :=
  match SplitHostPort (TrimSpace value) with
  | None => false
  | Some (host, port) =>
      if bool_decide (TrimSpace host = []) || bool_decide (port = []) || existsb host_forbidden host then false
      else if negb (forallb is_digit (runes port)) then false
      else match Atoi port with
      | (numericPort, None) => (1 <=? numericPort) && (numericPort <=? 65535)
      | (_, Some _) => false
      end
  end.

(** The endpoint of a profile, when the profile is usable *)
Definition profile_endpoint (server : proxyServerProfile) : outcome UiErr bytes :=
  match ParseAddr (TrimSpace (pp_IP server)) with
  | None => Err ErrServerIP
  | Some address =>
      if IsUnspecified address || IsMulticast address then Err ErrServerUnusable
      else if (pp_Port server <? 1) || (65535 <? pp_Port server) then Err ErrServerPort
      else Ok (JoinHostPort (Addr_String address) (Itoa (pp_Port server)))
  end.
Fixpoint validate_servers (servers : list proxyServerProfile) (selected : bytes) (seen : gset bytes) (found : bool) : outcome UiErr bool :=
  match servers with
  | [] => Ok found
  | server :: servers =>
      let* endpoint := profile_endpoint server in
      if bool_decide (endpoint ∈ seen) then Err ErrDuplicate
      else validate_servers servers selected ({[ endpoint ]} ∪ seen) (found || bool_decide (endpoint = selected))
  end.
Definition validateProxyConfig (config : proxyClientConfig) (requireSelection : bool) : outcome UiErr unit :=
  if negb (bool_decide (pc_Transport config = lit "tcp") || bool_decide (pc_Transport config = lit "udp") || bool_decide (pc_Transport config = lit "both"))
  then Err ErrTransport
  else if 32 <? len (pc_Servers config) then Err ErrTooManyServers
  else
    let* selectedFound := validate_servers (pc_Servers config) (pc_SelectedEndpoint config) ∅ false in
    if negb (bool_decide (pc_SelectedEndpoint config = [])) && negb selectedFound then Err ErrNotSelected
    else if requireSelection && bool_decide (pc_SelectedEndpoint config = []) then Err ErrSelectionNeeded
    else if wants_udp (pc_Transport config) && negb (validHostPort (pc_UDPTarget config)) then Err ErrUDPTarget
    else Ok tt.

(** ** The configuration file *)
Class ConfigJson := {
  (** [json.MarshalIndent] *)
  config_encode : proxyClientConfig -> bytes;
  (** [decoder.Decode(&config)]: what the first value of the input makes of [config],
      and the input behind it; [None] on an error or an unknown field *)
  config_Decode : bytes -> proxyClientConfig -> option (proxyClientConfig * bytes);
  (** [decoder.Decode(&trailing)] on the rest: [None] at its end, else whether there is
      a value *)
  trailing_Decode : bytes -> option bool
}.
Definition decodeProxyConfig `{ConfigJson} (reader : bytes) : option proxyClientConfig :=
  match config_Decode reader defaultProxyConfig with
  | None => None
  | Some (config, rest) =>
      match trailing_Decode rest with
      | Some _ => None
      | None => Some config
      end
  end.
(** Values of the Go type whose strings are UTF-8: JSON texts are UTF-8, and
    encoding/json puts U+FFFD for anything else on the way out and in. *)
Definition text_ok (s : bytes) : bool := bool_decide (bytes_ok s) && utf8_Valid s.
Definition profile_json (server : proxyServerProfile) : bool :=
  text_ok (pp_Name server) && text_ok (pp_IP server) && (- 2 ^ 63 <=? pp_Port server) && (pp_Port server <? 2 ^ 63).
Definition config_json (config : proxyClientConfig) : bool :=
  forallb profile_json (pc_Servers config) && text_ok (pc_SelectedEndpoint config) && text_ok (pc_Transport config) && text_ok (pc_UDPTarget config).
(** What encoding/json documents: a value that [MarshalIndent] wrote is read back by one
    [Decode], which leaves nothing behind it; [Decode] reports the end of the input; and
    what it stores are UTF-8 texts and int values. *)
Class ConfigJsonOk `{ConfigJson} : Prop := {
  config_Decode_encode config : config_json config = true -> config_Decode (config_encode config) defaultProxyConfig = Some (config, []);
  trailing_Decode_end : trailing_Decode [] = None;
  config_Decode_json input before config rest : config_json before = true -> config_Decode input before = Some (config, rest) -> config_json config = true
}.

(** [CF_None]: the file does not exist; [CF_Error]: it cannot be opened or read. *)
Inductive config_file : Set := CF_None | CF_Error | CF_Contents (contents : bytes).

(** The state directory: whether it can be made, whether it is one and its mode, and
    whether its mode can be set. *)
Record dir_env : Set := mkDirEnv { de_mkdirAll : bool; de_stat : option (bool * Z); de_chmod : bool }.
Definition ensureStateDir (env : dir_env) : outcome UiErr unit :=
  if negb (de_mkdirAll env) then Err ErrStateDir
  else match de_stat env with
  | None => Err ErrStateDir
  | Some (isDir, perm) =>
      if negb isDir then Err ErrStateDir
      else if negb (perm =? 448) then if negb (de_chmod env) then Err ErrStateDir else Ok tt
      else Ok tt
  end.
Lemma ensureStateDir_returns env : returns (ensureStateDir env).
Proof. unfold ensureStateDir. repeat case_match; done. Qed.

(** The files of the state directory by their names, with contents and permissions *)
Record dir_file : Set := mkFile { fi_contents : bytes; fi_mode : Z }.
Abbreviation state_dir := (gmap (list Z) dir_file) (only parsing).
Definition config_name : bytes := lit "config.json".
Definition config_of (opens : bool) (d : state_dir) : config_file :=
  if negb opens then CF_Error else match d !! config_name with Some f => CF_Contents (fi_contents f) | None => CF_None end.

(** What the operating system does on the way of [saveConfig]: the names that
    [os.CreateTemp] draws, whether the file can be created and the mode that the umask
    leaves it, whether [Chmod], [Sync], [Close], [Rename] and [Remove] succeed, and how
    much is written when [Write] fails. *)
Record save_env : Set := mkSaveEnv {
  se_stateDir : dir_env;
  se_random : list bytes; se_create : bool; se_mode : Z;
  se_chmod : bool; se_write : option nat; se_sync : bool; se_close : bool; se_rename : bool; se_remove : bool
}.
(** The directory during a save, with the states it has gone through, latest first: a
    crash leaves one of them. *)
Record saving : Set := mkSaving { sg_dir : state_dir; sg_past : list state_dir }.
Definition fs_update (f : state_dir -> state_dir) : act saving UiErr unit := act_set (fun s => mkSaving (f (sg_dir s)) (sg_dir s :: sg_past s)).
Definition fs_check (ok : bool) : act saving UiErr unit := if ok then act_ret tt else act_fail ErrFile.

(** [os.CreateTemp(dir, "config-*.json")]: a name that exists is passed over. *)
Definition temp_name (random : bytes) : bytes := lit "config-" ++ random ++ lit ".json".
Fixpoint CreateTemp (random : list bytes) (create : bool) (mode : Z) : act saving UiErr bytes := fun s =>
  match random with
  | [] => (s, Err ErrFile)
  | r :: random =>
      if bool_decide (is_Some (sg_dir s !! temp_name r)) then CreateTemp random create mode s
      else (do! fs_check create; do! fs_update (fun d => <[temp_name r := mkFile [] mode]> d); act_ret (temp_name r)) s
  end.
Definition file_Chmod (name : bytes) (ok : bool) (mode : Z) : act saving UiErr unit :=
  do! fs_check ok; fs_update (alter (fun f => mkFile (fi_contents f) mode) name).
Definition file_Write (name : bytes) (fails : option nat) (contents : bytes) : act saving UiErr unit :=
  do! fs_update (alter (fun f => mkFile (fi_contents f ++ match fails with Some n => take n contents | None => contents end) (fi_mode f)) name);
  fs_check (bool_decide (fails = None)).
Definition os_Rename (from to : bytes) (ok : bool) : act saving UiErr unit :=
  do! fs_check ok;
  let! s := act_get in
  match sg_dir s !! from with
  | Some f => fs_update (fun d => <[to := f]> (delete from d))
  | None => act_fail ErrFile
  end.
Definition os_Remove (name : bytes) (ok : bool) : act saving UiErr unit := do! fs_check ok; fs_update (delete name).

Section ConfigFile.
Context `{J : ConfigJson}.

Definition loadConfig (file : config_file) : outcome UiErr proxyClientConfig :=
  match file with
  | CF_None => Ok defaultProxyConfig
  | CF_Error => Err ErrFile
  | CF_Contents contents =>
      if maxProxyConfigBytes <? len contents then Err ErrTooLarge
      else match decodeProxyConfig contents with
      | None => Err ErrDecode
      | Some config => do* validateProxyConfig config false; Ok config
      end
  end.

(** The part of [saveConfig] behind its [defer] *)
Definition save_temporary (env : save_env) (temporaryName contents : bytes) : act saving UiErr unit :=
  do! file_Chmod temporaryName (se_chmod env) 384;
  do! file_Write temporaryName (se_write env) contents;
  do! fs_check (se_sync env);
  do! fs_check (se_close env);
  os_Rename temporaryName config_name (se_rename env).
Definition saveConfig (config : proxyClientConfig) (env : save_env) : act saving UiErr unit :=
  do! act_lift (validateProxyConfig config false);
  do! act_lift (ensureStateDir (se_stateDir env));
  let contents := config_encode config in
  if maxProxyConfigBytes <? len contents then act_fail ErrTooLarge
  else
    let! temporaryName := CreateTemp (se_random env) (se_create env) (se_mode env) in
    fun s => match save_temporary env temporaryName contents s with
             | (s, Ok _) => (s, Ok tt)
             | (s, r) => (fst (os_Remove temporaryName (se_remove env) s), r)
             end.
End ConfigFile.

(** ** Paths

    [path.Clean] and package filepath on Unix: by elements, an empty or dot element
    vanishes and a double dot takes the element before it away, or stays at the front of
    a relative path. *)
Definition clean_step (rooted : bool) (kept : list bytes) (element : bytes) : list bytes :=
  if bool_decide (element = []) || bool_decide (element = [46]) then kept
  else if bool_decide (element = [46; 46]) then
    match kept with
    | [] => if rooted then [] else [element]
    | last :: rest => if negb rooted && bool_decide (last = [46; 46]) then element :: kept else rest
    end
  else element :: kept.
Definition path_elements (rooted : bool) (path : bytes) : list bytes := reverse (fold_left (clean_step rooted) (Split path 47) []).
Definition Clean (path : bytes) : bytes :=
  let rooted := bool_decide (head path = Some 47) in
  let out := join_with 47 (path_elements rooted path) in
  if rooted then 47 :: out else if bool_decide (out = []) then [46] else out.
(** [Join] with a name that is not empty *)
Definition Join (dir name : bytes) : bytes := Clean (if bool_decide (dir = []) then name else dir ++ 47 :: name).
Definition Dir (path : bytes) : bytes := Clean (match cut_last 47 path with Some (before, _) => before ++ [47] | None => [] end).
Lemma Join_nonempty dir name : Join dir name <> [].
Proof. unfold Join, Clean. destruct (bool_decide _); [done|]. case_bool_decide; done. Qed.

(** The paths of the client state; [os.UserHomeDir] and [os.Executable] may fail. *)
Definition defaultProxyStateDir (home : option bytes) : option bytes := (fun home => Join home (lit ".wg-client")) <$> home.
Definition defaultProxyBinary (executable : option bytes) : option bytes := (fun e => Join (Dir e) (lit "wg-proxy")) <$> executable.
Definition configPath (stateDir : bytes) : bytes := Join stateDir (lit "config.json").
Definition certificate_path (stateDir : bytes) : bytes := Join stateDir (lit "server-cert.pem").
Definition token_path (stateDir : bytes) : bytes := Join stateDir (lit "token").

(** ** The controller

    The processes it manages and when they were started; its state directory and binary
    never change and belong to the environment of [connect]. *)
Record proxyController : Set := mkController {
  ct_tcp : option Z;
  ct_udp : option Z;
  ct_startedAt : option Z
}.
Definition newProxyController : proxyController := mkController None None None.

(** Signalling a process, its exit within two seconds, killing it: [se_*] tell which
    calls fail with an error other than that the process is gone. *)
Record stop_env : Set := mkStopEnv { sp_signalFails : Z -> bool; sp_exits : Z -> bool; sp_killFails : Z -> bool }.
Definition stop_process (env : stop_env) (p : option Z) : bool :=
  match p with
  | None => true
  | Some pid => negb (sp_signalFails env pid) && (sp_exits env pid || negb (sp_killFails env pid))
  end.
Definition stopLocked (env : stop_env) : act proxyController UiErr unit := fun c =>
  (mkController None None None, if stop_process env (ct_tcp c) && stop_process env (ct_udp c) then Ok tt else Err ErrStop).
Definition disconnect (env : stop_env) : act proxyController UiErr unit := stopLocked env.

(** [waitForProxyListener]: [poll i] is the answer of the [i]-th check, [now i] the
    time read after it; the fuel bounds the checks. *)
Fixpoint wait_loop (fuel : nat) (i : nat) (poll : nat -> bool) (now : nat -> Z) (deadline : Z) : outcome UiErr bool :=
  match fuel with
  | O => Diverge
  | S fuel =>
      if poll i then Ok true
      else if deadline <? now i then Ok false
      else wait_loop fuel (S i) poll now deadline
  end.
Definition millisecond : Z := 1000000.
Definition listener_timeout : Z := 3000 * millisecond.
Definition wait_fuel : nat := 62.
Definition waitForProxyListener (start timeout : Z) (poll : nat -> bool) (now : nat -> Z) : outcome UiErr bool :=
  wait_loop wait_fuel 0 poll now (start + timeout).

(** The processes, with the arguments they are started with *)
Definition tcp_listen : bytes := lit "127.0.0.1:47101".
Definition udp_listen : bytes := lit "127.0.0.1:47102".
Definition tcp_arguments (config : proxyClientConfig) (certificate token : bytes) : list bytes :=
  [lit "client"; lit "-listen"; tcp_listen; lit "-server"; pc_SelectedEndpoint config; lit "-ca"; certificate; lit "-token-file"; token].
Definition udp_arguments (config : proxyClientConfig) (token : bytes) : list bytes :=
  [lit "udp-client"; lit "-listen"; udp_listen; lit "-server"; pc_SelectedEndpoint config; lit "-target"; pc_UDPTarget config; lit "-token-file"; token].
(** The state directory, whether the log opens, and the process that is started *)
Record process_env : Set := mkProcessEnv { pv_dir : dir_env; pv_log : bool; pv_start : option Z }.
Definition startProcess (env : process_env) : outcome UiErr Z :=
  do* ensureStateDir (pv_dir env);
  if negb (pv_log env) then Err ErrFile
  else match pv_start env with
  | None => Err ErrStart
  | Some process => Ok process
  end.
Definition process_of (r : outcome UiErr Z) : option Z := match r with Ok process => Some process | _ => None end.

(** What [connect] meets: the regular files, the token's mode, the ports before and
    after the start, the state directory, the start of a process with given
    arguments. *)
Record connect_env : Set := mkConnectEnv {
  ce_binaryRegular : bool;
  ce_certificateRegular : bool;
  ce_tokenRegular : bool;
  ce_tokenMode : Z;
  ce_stop : stop_env;
  ce_tcpTaken : bool;
  ce_udpTaken : bool;
  ce_stateDir : bytes;
  ce_start : list bytes -> process_env;
  ce_tcpStart : Z; ce_tcpPoll : nat -> bool; ce_tcpNow : nat -> Z;
  ce_udpStart : Z; ce_udpPoll : nat -> bool; ce_udpNow : nat -> Z;
  ce_now : Z
}.

Definition ce_certificate (env : connect_env) : bytes := certificate_path (ce_stateDir env).
Definition ce_token (env : connect_env) : bytes := token_path (ce_stateDir env).

Definition set_tcp (p : option Z) (c : proxyController) : proxyController := mkController p (ct_udp c) (ct_startedAt c).
Definition set_udp (p : option Z) (c : proxyController) : proxyController := mkController (ct_tcp c) p (ct_startedAt c).

(** Waiting for a listener that was started; a failure stops both processes. *)
Definition await (env : connect_env) (p : option Z) (start : Z) (poll : nat -> bool) (now : nat -> Z) : act proxyController UiErr unit := fun c =>
  match p with
  | None => (c, Ok tt)
  | Some _ =>
      match waitForProxyListener start listener_timeout poll now with
      | Ok true => (c, Ok tt)
      | Ok false => (fst (stopLocked (ce_stop env) c), Err ErrNotListening)
      | Err e => (c, Err e)
      | Panic => (c, Panic)
      | Diverge => (c, Diverge)
      end
  end.

Definition start_tcp (env : connect_env) (config : proxyClientConfig) : outcome UiErr Z :=
  startProcess (ce_start env (tcp_arguments config (ce_certificate env) (ce_token env))).
Definition start_udp (env : connect_env) (config : proxyClientConfig) : outcome UiErr Z :=
  startProcess (ce_start env (udp_arguments config (ce_token env))).

Section Connect.
Context `{J : ConfigJson}.

Definition connect (file : config_file) (env : connect_env) : act proxyController UiErr unit :=
  let! config := act_lift (loadConfig file) in
  do! act_lift (validateProxyConfig config true);
  if negb (ce_binaryRegular env) then act_fail ErrBinary
  else if negb (ce_certificateRegular env) then act_fail ErrCertificate
  else if negb (ce_tokenRegular env) then act_fail ErrToken
  else if negb (Z.land (ce_tokenMode env) 63 =? 0) then act_fail ErrTokenMode
  else
    let! c := act_get in
    do! if bool_decide (ct_tcp c <> None) || bool_decide (ct_udp c <> None) then stopLocked (ce_stop env) else act_ret tt;
    let tcp := wants_tcp (pc_Transport config) in
    let udp := wants_udp (pc_Transport config) in
    if tcp && ce_tcpTaken env then act_fail ErrPortTaken
    else if udp && ce_udpTaken env then act_fail ErrPortTaken
    else
      do! if tcp then
            let r := start_tcp env config in
            do! act_set (set_tcp (process_of r));
            do! act_lift r; act_ret tt
          else act_ret tt;
      do! if udp then
            let r := start_udp env config in
            do! act_set (set_udp (process_of r));
            match r with
            | Err e => fun c => (fst (stopLocked (ce_stop env) c), Err e)
            | _ => do! act_lift r; act_ret tt
            end
          else act_ret tt;
      let! c := act_get in
      do! await env (ct_tcp c) (ce_tcpStart env) (ce_tcpPoll env) (ce_tcpNow env);
      let! c := act_get in
      do! await env (ct_udp c) (ce_udpStart env) (ce_udpPoll env) (ce_udpNow env);
      act_set (fun c => mkController (ct_tcp c) (ct_udp c) (Some (ce_now env))).

(** ** Status and handlers *)
Record proxyRuntimeStatus : Set := mkRuntimeStatus {
  ps_Configured : bool;
  ps_Connected : bool;
  ps_TCPListener : bool;
  ps_UDPListener : bool;
  ps_Managed : bool;
  ps_SelectedEndpoint : bytes;
  ps_Transport : bytes;
  ps_UDPTarget : bytes;
  ps_Servers : list proxyServerProfile;
  ps_StartedAt : option Z
}.
Definition status (file : config_file) (tcp udp : bool) (c : proxyController) : proxyRuntimeStatus :=
  let config := match loadConfig file with Ok config => config | _ => defaultProxyConfig end in
  let connected :=
    if bool_decide (pc_Transport config = lit "tcp") then tcp
    else if bool_decide (pc_Transport config = lit "udp") then udp
    else if bool_decide (pc_Transport config = lit "both") then tcp && udp else false in
  mkRuntimeStatus (negb (bool_decide (pc_SelectedEndpoint config = []))) connected tcp udp
    (bool_decide (ct_tcp c <> None) || bool_decide (ct_udp c <> None))
    (pc_SelectedEndpoint config) (pc_Transport config) (pc_UDPTarget config) (pc_Servers config) (ct_startedAt c).

(** Replies of the handlers: a status code and, where there is one, the value. *)
Inductive ui_value : Set := UiStatus (v : proxyRuntimeStatus) | UiConfig (v : proxyClientConfig) | UiError | UiNotAllowed (allow : bytes).
Definition ui_reply : Set := Z * ui_value.
Definition not_allowed (allow : bytes) : ui_reply := (405, UiNotAllowed allow).

Definition serveStatus (method : bytes) (file : config_file) (tcp udp : bool) (c : proxyController) : ui_reply :=
  if negb (bool_decide (method = lit "GET")) then not_allowed (lit "GET") else (200, UiStatus (status file tcp udp c)).
Definition serveConfig (method body : bytes) (env : save_env) (opens : bool) (d : state_dir) : state_dir * ui_reply :=
  if bool_decide (method = lit "GET") then
    match loadConfig (config_of opens d) with
    | Ok config => (d, (200, UiConfig config))
    | _ => (d, (500, UiError))
    end
  else if bool_decide (method = lit "PUT") then
    match (if maxProxyConfigBytes <? len body then None else decodeProxyConfig body) with
    | None => (d, (400, UiError))
    | Some config =>
        match saveConfig config env (mkSaving d []) with
        | (s, Ok _) => (sg_dir s, (200, UiConfig config))
        | (s, _) => (sg_dir s, (400, UiError))
        end
    end
  else (d, not_allowed (lit "GET, PUT")).
Definition serveConnect (method : bytes) (file : config_file) (env : connect_env) (tcp udp : bool) (c : proxyController) : proxyController * ui_reply :=
  if negb (bool_decide (method = lit "POST")) then (c, not_allowed (lit "POST"))
  else match connect file env c with
  | (c, Ok _) => (c, (200, UiStatus (status file tcp udp c)))
  | (c, _) => (c, (409, UiError))
  end.
Definition serveDisconnect (method : bytes) (file : config_file) (env : stop_env) (tcp udp : bool) (c : proxyController) : proxyController * ui_reply :=
  if negb (bool_decide (method = lit "POST")) then (c, not_allowed (lit "POST"))
  else match disconnect env c with
  | (c, Ok _) => (c, (200, UiStatus (status file tcp udp c)))
  | (c, _) => (c, (500, UiError))
  end.
Definition serveReconnect (method : bytes) (file : config_file) (stop : stop_env) (env : connect_env) (tcp udp : bool) (c : proxyController) : proxyController * ui_reply :=
  if negb (bool_decide (method = lit "POST")) then (c, not_allowed (lit "POST"))
  else match disconnect stop c with
  | (c, Ok _) =>
      match connect file env c with
      | (c, Ok _) => (c, (200, UiStatus (status file tcp udp c)))
      | (c, _) => (c, (409, UiError))
      end
  | (c, _) => (c, (500, UiError))
  end.
End Connect.

(** ** Loopback checks *)
Definition requireLoopback (address : bytes) : outcome UiErr unit :=
  match SplitHostPort address with
  | None => Err ErrAddress
  | Some (host, _) =>
      match ParseAddr host with
      | None => Err ErrAddress
      | Some parsed => if negb (IsLoopback parsed) then Err ErrAddress else Ok tt
      end
  end.

(** ** The UDP probe *)
Definition dns_labels (name : bytes) : bytes := mjoin ((fun label => u8 (len label) :: label) <$> Split name 46).
Definition dnsQuery (name randomID : bytes) : outcome UiErr (bytes * Z) :=
  let* id := Uint16 randomID in
  let* query := PutUint16 (zeros 12) 0 id in
  let* query := PutUint16 query 2 256 in
  let* query := PutUint16 query 4 1 in
  Ok (query ++ dns_labels name ++ [0; 0; 1; 0; 1], id).

Definition validDNSResponse (response : bytes) (id : Z) : outcome UiErr bool :=
  if negb (12 <=? len response) then Ok false
  else
    let* head := slice response 0 2 in
    let* got := Uint16 head in
    if negb (got =? id) then Ok false
    else
      let* flags := index response 2 in
      if Z.land flags 128 =? 0 then Ok false
      else
        let* code := index response 3 in
        if negb (Z.land code 15 =? 0) then Ok false
        else
          let* answers := slice response 6 8 in
          let* count := Uint16 answers in
          Ok (0 <? count).

Inductive probe_state : Set := Passed | Failed | Unavailable.
Definition testUDPRelay (randomID : bytes) (dial write : bool) (reply : option bytes) : outcome UiErr probe_state :=
  if negb dial then Ok Failed
  else
    let* query := dnsQuery (lit "example.com") randomID in
    if negb write then Ok Failed
    else match reply with
    | None => Ok Failed
    | Some response =>
        let* valid := validDNSResponse (take 4096 response) (snd query) in
        Ok (if valid then Passed else Failed)
    end.
Definition testSystemDNS (dnsAvailable : bool) (dnsFingerprint : bytes) (current : option bytes) : probe_state :=
  if negb dnsAvailable then Unavailable
  else match current with
  | None => Failed
  | Some current => if bool_decide (current = dnsFingerprint) then Passed else Failed
  end.

(** The fingerprint of what [scutil --dns] prints; the hash is a parameter. *)
Definition systemDNSFingerprint (sha256 : bytes -> bytes) (output : option bytes) : option bytes :=
  (fun out => mjoin ((fun x => [hex_digit (x / 16); hex_digit (x mod 16)]) <$> sha256 out)) <$> output.
Record proxyTestHandler : Set := mkTestHandler { th_dnsFingerprint : bytes; th_dnsAvailable : bool }.
Definition newProxyTestHandler (fingerprint : option bytes) : proxyTestHandler :=
  mkTestHandler (default [] fingerprint) (bool_decide (fingerprint <> None)).

(** ** The TCP probe *)

(** [net.ParseIP]: [netip.ParseAddr] without zones *)
Definition ParseIP (s : bytes) : option Addr :=
  match ParseAddr s with
  | Some (Addr6 b zone) => if bool_decide (zone = []) then Some (Addr6 b zone) else None
  | other => other
  end.
(** [response] is the answer of the exit probe through the proxy: its status code and
    its body, [None] when reading the body fails. *)
Definition testTCPProxy (response : option (Z * option bytes)) : probe_state * bytes :=
  match response with
  | None => (Failed, [])
  | Some (_, None) => (Failed, [])
  | Some (code, Some body) =>
      if negb (code =? 200) then (Failed, [])
      else
        let exitIP := TrimSpace (take 128 body) in
        match ParseIP exitIP with
        | None => (Failed, [])
        | Some _ => (Passed, exitIP)
        end
  end.
Record proxyTestReport : Set := mkTestReport { tr_TCP : probe_state * bytes; tr_UDP : probe_state; tr_SystemDNS : probe_state }.
(** [None]: the method is not allowed *)
Definition serveTest (h : proxyTestHandler) (method : bytes) (tcp : option (Z * option bytes)) (randomID : bytes) (dial write : bool) (reply current : option bytes)
  : outcome UiErr (option proxyTestReport) :=
  if negb (bool_decide (method = lit "POST")) then Ok None
  else
    let* udp := testUDPRelay randomID dial write reply in
    Ok (Some (mkTestReport (testTCPProxy tcp) udp (testSystemDNS (th_dnsAvailable h) (th_dnsFingerprint h) current))).

(** ** Dispatch *)
Inductive ui_target : Set := ToStatus | ToConfig | ToConnect | ToDisconnect | ToReconnect | ToTest | ToCore | ToStatic.
Definition ui_route (path : bytes) : ui_target :=
  if bool_decide (path = lit "/api/proxy/status") then ToStatus
  else if bool_decide (path = lit "/api/proxy/config") then ToConfig
  else if bool_decide (path = lit "/api/proxy/connect") then ToConnect
  else if bool_decide (path = lit "/api/proxy/disconnect") then ToDisconnect
  else if bool_decide (path = lit "/api/proxy/reconnect") then ToReconnect
  else if bool_decide (path = lit "/api/proxy/test") then ToTest
  else if HasPrefix path (lit "/api/v1/") || bool_decide (path = lit "/api/v1") then ToCore
  else ToStatic.

(** The file of a request: one that exists, else the index *)
Definition spa_file (path : bytes) (exists_ : bytes -> bool) : bytes :=
  let requested := join_with 47 (path_elements true path) in
  let requested := if bool_decide (requested = []) then lit "index.html" else requested in
  if exists_ requested then requested else lit "index.html".

(** ** Starting *)
Record ui_options : Set := mkUiOptions {
  uo_listen : bytes; uo_assets : bytes; uo_core : bytes; uo_proxyState : bytes; uo_proxyBinary : bytes
}.
Definition ui_flags : list (bytes * flag ui_options) := [
  (lit "listen", StringVar (fun v '(mkUiOptions _ a c s b) => mkUiOptions v a c s b));
  (lit "assets", StringVar (fun v '(mkUiOptions l _ c s b) => mkUiOptions l v c s b));
  (lit "core", StringVar (fun v '(mkUiOptions l a _ s b) => mkUiOptions l a v s b));
  (lit "proxy-state", StringVar (fun v '(mkUiOptions l a c _ b) => mkUiOptions l a c v b));
  (lit "proxy-bin", StringVar (fun v '(mkUiOptions l a c s _) => mkUiOptions l a c s v))
].
Definition ui_defaults : ui_options := mkUiOptions (lit "127.0.0.1:4173") (lit "ui/client/dist") (lit "http://127.0.0.1:47003") [] [].

(** What [run] asks for: [url.Parse] (scheme, hostname and host), the absolute assets
    directory, its index, the home directory and the executable. *)
Record ui_env : Set := mkUiEnv {
  ue_url : bytes -> option (bytes * bytes * bytes);
  ue_abs : bytes -> option bytes;
  ue_index : bytes -> bool;
  ue_home : option bytes;
  ue_executable : option bytes
}.
(** The options with which the UI goes on to serve, the assets directory made absolute
    and the empty ones replaced by their defaults.  Arguments behind the flags are not
    looked at. *)
Definition ui_gate (arguments : list bytes) (env : ui_env) : outcome UiErr ui_options :=
  let* parsed := wrap_err ErrArguments (flags_Parse ui_flags arguments ui_defaults) in
  let options := fst parsed in
  do* requireLoopback (uo_listen options);
  match ue_url env (uo_core options) with
  | None => Err ErrCoreURL
  | Some (scheme, hostname, host) =>
      if negb (bool_decide (scheme = lit "http")) || bool_decide (hostname = []) then Err ErrCoreURL
      else
        do* requireLoopback host;
        match ue_abs env (uo_assets options) with
        | None => Err ErrAssets
        | Some root =>
            if negb (ue_index env root) then Err ErrAssets
            else
              match (if bool_decide (uo_proxyState options = []) then defaultProxyStateDir (ue_home env) else Some (uo_proxyState options)),
                    (if bool_decide (uo_proxyBinary options = []) then defaultProxyBinary (ue_executable env) else Some (uo_proxyBinary options)) with
              | Some state, Some binary => Ok (mkUiOptions (uo_listen options) root (uo_core options) state binary)
              | _, _ => Err ErrStateDir
              end
        end
  end.

(** [run] and [main]: the controller at the end is closed on every way out once it was
    made. *)
Definition ui_run (arguments : list bytes) (env : ui_env) (listen : bool) (e : serve_end) : outcome UiErr unit :=
  let* options := ui_gate arguments env in
  if negb listen then Err ErrListen
  else if served_well e then Ok tt else Err ErrServe.
(** Package flag's own flag set exits by itself. *)
Definition ui_main (arguments : list bytes) (env : ui_env) (listen : bool) (e : serve_end) : Z :=
  match ui_run arguments env listen e with
  | Err (ErrArguments ErrHelp) => 0
  | Err (ErrArguments _) => 2
  | r => exit_code r
  end.
Definition controller_close (env : stop_env) (c : proxyController) : proxyController := fst (disconnect env c).

(** ** Validation *)
Lemma profile_endpoint_returns server : returns (profile_endpoint server).
Proof. unfold profile_endpoint. repeat case_match; done. Qed.

Lemma validate_servers_returns servers : forall selected seen found, returns (validate_servers servers selected seen found).
Proof.
  induction servers as [|server servers IH]; intros selected seen found; cbn; [done|].
  pose proof (profile_endpoint_returns server) as H. destruct (profile_endpoint server); try done. cbn. destruct (bool_decide _); [done | apply IH].
Qed.

Lemma validateProxyConfig_returns config b : returns (validateProxyConfig config b).
Proof.
  unfold validateProxyConfig. destruct (negb _); [done|]. destruct (_ <? _); [done|].
  pose proof (validate_servers_returns (pc_Servers config) (pc_SelectedEndpoint config) ∅ false) as H.
  destruct (validate_servers _ _ _ _); try done. cbn. repeat case_match; done.
Qed.

(** The endpoints of a usable list of servers, in order *)
Fixpoint endpoints (servers : list proxyServerProfile) : option (list bytes) :=
  match servers with
  | [] => Some []
  | server :: servers =>
      match profile_endpoint server, endpoints servers with
      | Ok endpoint, Some rest => Some (endpoint :: rest)
      | _, _ => None
      end
  end.

Lemma validate_servers_Ok servers : forall selected seen found b, validate_servers servers selected seen found = Ok b ->
  exists es, endpoints servers = Some es /\ NoDup es /\ (forall e, e ∈ es -> e ∉ seen) /\ b = found || bool_decide (selected ∈ es).
Proof.
  induction servers as [|server servers IH]; intros selected seen found b; cbn.
  - intros [= <-]. exists []. split_and!; [done | constructor | by intros e ?%elem_of_nil|]. rewrite bool_decide_false by (by intros ?%elem_of_nil). by rewrite orb_false_r.
  - intros H. apply obind_Ok in H as (endpoint & He & H). rewrite He. destruct (bool_decide_reflect (endpoint ∈ seen)) as [|Hn]; [done|].
    apply IH in H as (es & -> & Hnd & Hseen & ->). exists (endpoint :: es). split_and!; [done | | |].
    + constructor; [|done]. intros Hin. specialize (Hseen _ Hin). set_solver.
    + intros e [->|Hin]%elem_of_cons; [done|]. specialize (Hseen e Hin). set_solver.
    + rewrite <- orb_assoc. f_equal. destruct (bool_decide_reflect (endpoint = selected)) as [->|Hne]; cbn.
      * symmetry. apply bool_decide_true. by left.
      * apply bool_decide_ext. rewrite elem_of_cons. naive_solver.
Qed.

Lemma validateProxyConfig_Ok config b : validateProxyConfig config b = Ok tt ->
  wants_tcp (pc_Transport config) || wants_udp (pc_Transport config) = true /\ len (pc_Servers config) <= 32
  /\ (exists es, endpoints (pc_Servers config) = Some es /\ NoDup es /\ (pc_SelectedEndpoint config <> [] -> pc_SelectedEndpoint config ∈ es))
  /\ (b = true -> pc_SelectedEndpoint config <> []) /\ (wants_udp (pc_Transport config) = true -> validHostPort (pc_UDPTarget config) = true).
Proof.
  intros Hv. unfold validateProxyConfig in Hv. destruct (negb _) eqn:Ht; [done|].
  destruct (Z.ltb_spec 32 (len (pc_Servers config))) as [|Hn]; [done|]. apply obind_Ok in Hv as (found & Hs & Hv).
  apply validate_servers_Ok in Hs as (es & He & Hnd & _ & ->). cbn [orb] in Hv. destruct (_ && _) eqn:Hsel in Hv; [done|].
  destruct (b && bool_decide (pc_SelectedEndpoint config = [])) eqn:Hreq; [done|].
  destruct (wants_udp (pc_Transport config) && negb (validHostPort (pc_UDPTarget config))) eqn:Hudp; [done|]. split_and!.
  - unfold wants_tcp, wants_udp. apply negb_false_iff in Ht. destruct (bool_decide (_ = lit "tcp")), (bool_decide (_ = lit "udp")), (bool_decide (_ = lit "both")); done.
  - lia.
  - exists es. split_and!; try done. intros Hne. destruct (bool_decide_reflect (pc_SelectedEndpoint config ∈ es)) as [|Hn']; [done|].
    rewrite bool_decide_false in Hsel by done. done.
  - intros ->. by apply bool_decide_eq_false in Hreq.
  - intros Hu. rewrite Hu in Hudp. by destruct (validHostPort _).
Qed.

(** ** The configuration file *)
Section FileTheorems.
Context {J : ConfigJson} {JO : @ConfigJsonOk J}.

Lemma decode_encode_config config : config_json config = true -> decodeProxyConfig (config_encode config) = Some config.
Proof. intros H. unfold decodeProxyConfig. by rewrite config_Decode_encode, trailing_Decode_end. Qed.
Lemma decode_config_json reader config : decodeProxyConfig reader = Some config -> config_json config = true.
Proof.
  unfold decodeProxyConfig. intros H. destruct (config_Decode reader defaultProxyConfig) as [[c rest]|] eqn:E; [|done].
  destruct (trailing_Decode rest); [done|]. injection H as <-. eapply config_Decode_json; [|exact E]. vm_compute. reflexivity.
Qed.

Lemma temp_name_config random : temp_name random <> config_name.
Proof. unfold temp_name, config_name. vm_compute. discriminate. Qed.

(** The directories a save goes through: apart from the temporary file they are the one
    it began with. *)
Definition untouched (name : bytes) (d d' : state_dir) : Prop := delete name d' = d.
Lemma CreateTemp_cases random create mode d past :
  match CreateTemp random create mode (mkSaving d past) with
  | (s, Ok name) => name <> config_name /\ d !! name = None /\ s = mkSaving (<[name := mkFile [] mode]> d) (d :: past)
  | (s, Err _) => s = mkSaving d past
  | _ => False
  end.
Proof.
  induction random as [|r random IH]; cbn [CreateTemp sg_dir]; [done|]. destruct (bool_decide_reflect (is_Some (d !! temp_name r))) as [|Hn]; [exact IH|].
  destruct create; [|done]. unfold fs_check, fs_update, act_bind, act_ret, act_set. cbn [sg_dir sg_past].
  split_and!; [apply temp_name_config | by apply eq_None_not_Some | done].
Qed.

Lemma save_temporary_cases env name contents d mode past :
  name <> config_name -> d !! name = None -> Forall (untouched name d) past ->
  match save_temporary env name contents (mkSaving (<[name := mkFile [] mode]> d) past) with
  | (s, Ok _) => sg_dir s = <[config_name := mkFile contents 384]> d /\ Forall (untouched name d) (sg_past s)
  | (s, Err _) => untouched name d (sg_dir s) /\ Forall (untouched name d) (sg_past s)
  | _ => False
  end.
Proof.
  intros Hne Hn Hp. assert (Hd : forall f, untouched name d (<[name := f]> d)) by (intros f; unfold untouched; by rewrite delete_insert_id).
  unfold save_temporary, file_Chmod, file_Write, os_Rename, fs_check, fs_update, act_bind, act_set, act_get, act_ret, act_fail.
  destruct (se_chmod env); cbn [sg_dir sg_past]; [|by auto]. rewrite !alter_insert_eq. cbn [fi_contents fi_mode app].
  destruct (se_write env) as [n|]; cbn [sg_dir sg_past]; [rewrite bool_decide_false by done; cbn; split; [apply Hd | by repeat constructor]|].
  rewrite bool_decide_true by done.
  destruct (se_sync env), (se_close env), (se_rename env); cbn [sg_dir sg_past]; try (split; [apply Hd | by repeat constructor]).
  rewrite lookup_insert_eq. cbn [sg_dir sg_past]. split; [by rewrite (Hd _) | by repeat constructor].
Qed.

Lemma untouched_config name d d' : name <> config_name -> untouched name d d' -> d' !! config_name = d !! config_name.
Proof. intros Hne <-. by rewrite lookup_delete_ne. Qed.

(** The contract of a save from directory [d]: what it leaves, and what a crash on the
    way would leave *)
Definition save_contract (config : proxyClientConfig) (env : save_env) (d : state_dir) (s : saving) (r : outcome UiErr unit) : Prop :=
  match r with
  | Ok _ => sg_dir s = <[config_name := mkFile (config_encode config) 384]> d /\ loadConfig (config_of true (sg_dir s)) = Ok config
  | Err _ => sg_dir s !! config_name = d !! config_name /\ (se_remove env = true -> sg_dir s = d)
  | _ => False
  end
  /\ Forall (fun d' => d' !! config_name = d !! config_name) (sg_past s).

Lemma saveConfig_contract config env d : config_json config = true ->
  let '(s, r) := saveConfig config env (mkSaving d []) in save_contract config env d s r.
Proof.
  intros Hj. unfold saveConfig, act_bind, act_lift. pose proof (validateProxyConfig_returns config false) as Hr.
  destruct (validateProxyConfig config false) as [[]|e| |] eqn:Hv; try done.
  pose proof (ensureStateDir_returns (se_stateDir env)) as Hd. destruct (ensureStateDir (se_stateDir env)) as [[]|e| |]; try done.
  destruct (maxProxyConfigBytes <? len (config_encode config)) eqn:Hl; [done|].
  pose proof (CreateTemp_cases (se_random env) (se_create env) (se_mode env) d []) as Hc.
  destruct (CreateTemp _ _ _ _) as [s [name|e| |]]; try done; [|by subst s]. destruct Hc as (Hne & Hn & ->).
  assert (Hp : Forall (untouched name d) [d]) by (constructor; [by apply delete_id | constructor]).
  pose proof (save_temporary_cases env name (config_encode config) d (se_mode env) [d] Hne Hn Hp) as Hs.
  assert (Hpast : forall past, Forall (untouched name d) past -> Forall (fun d' : state_dir => d' !! config_name = d !! config_name) past).
  { intros past H. eapply Forall_impl; [exact H|]. intros d'. by apply untouched_config. }
  destruct (save_temporary env name _ _) as [s [[]|e| |]]; try done; destruct Hs as [Hs Hps]; unfold save_contract.
  - split; [|by apply Hpast]. split; [done|]. rewrite Hs. unfold config_of. cbn [negb]. rewrite lookup_insert_eq. cbn.
    rewrite Hl, decode_encode_config by done. by rewrite Hv.
  - unfold os_Remove, fs_check, fs_update, act_bind, act_set, act_ret, act_fail. pose proof (untouched_config _ _ _ Hne Hs) as Hcfg.
    destruct (se_remove env); cbn [fst sg_dir sg_past]; (split; [|try constructor; by auto]); [|done]. rewrite Hs. done.
Qed.

(** C33: Saving and loading.  A save that succeeds changes nothing in the state directory
    but the configuration file, which then holds the new text with mode 0600 and loads as
    the same configuration; a save that fails, at whatever step, leaves the configuration
    file as it was, and the whole directory when the temporary file can be removed; and
    in every state on the way, which a crash would leave, the configuration file is the
    old one.  So a configuration that is put over HTTP and accepted is the one that is
    read back, and a refused one changes nothing.  What is loaded from a file has a known
    transport, at most 32 servers with distinct endpoints, and a selection among them if
    it has one. *)
Theorem config_save_load env d :
  (forall config, config_json config = true -> let '(s, r) := saveConfig config env (mkSaving d []) in save_contract config env d s r)
  /\ (forall body opens, let '(d', (code, value)) := serveConfig (lit "PUT") body env opens d in
       (code = 200 /\ forall env', serveConfig (lit "GET") [] env' true d' = (d', (200, value))) \/ (code = 400 /\ d' !! config_name = d !! config_name))
  /\ (forall contents loaded, loadConfig (CF_Contents contents) = Ok loaded ->
       wants_tcp (pc_Transport loaded) || wants_udp (pc_Transport loaded) = true /\ len (pc_Servers loaded) <= 32
       /\ exists es, endpoints (pc_Servers loaded) = Some es /\ NoDup es /\ (pc_SelectedEndpoint loaded <> [] -> pc_SelectedEndpoint loaded ∈ es)).
Proof.
  split_and!.
  - intros config. apply saveConfig_contract.
  - intros body opens. unfold serveConfig at 1. rewrite bool_decide_false by (vm_compute; discriminate). rewrite bool_decide_true by done.
    destruct (if _ <? _ then None else _) as [config|] eqn:Hd; [|by right].
    assert (Hj : config_json config = true) by (destruct (_ <? _); [done | by eapply decode_config_json]).
    pose proof (saveConfig_contract config env d Hj) as H. destruct (saveConfig config env _) as [s [[]|e| |]]; destruct H as [H _]; try done; [left|by right; destruct H].
    split; [done|]. intros env'. unfold serveConfig. rewrite bool_decide_true by done. by rewrite (proj2 H).
  - intros contents loaded H. cbn in H. destruct (_ <? _); [done|]. destruct (decodeProxyConfig contents) as [config'|]; [|done].
    apply obind_Ok in H as ([] & Hv & [= ->]). destruct (validateProxyConfig_Ok _ _ Hv) as (H1 & H2 & H3 & _). done.
Qed.
End FileTheorems.

(** ** Waiting *)

(** The clock moves on by the sleep between two checks. *)
Definition sleeps (start : Z) (now : nat -> Z) : Prop :=
  start <= now 0%nat /\ forall i, now i + 50 * millisecond <= now (S i).

Lemma sleeps_later start now i : sleeps start now -> start + 50 * millisecond * Z.of_nat i <= now i.
Proof. intros [H0 Hs]. induction i as [|i IH]; [lia|]. specialize (Hs i). lia. Qed.

Lemma wait_loop_spec poll now deadline fuel : forall i, (exists j, (i <= j < i + fuel)%nat /\ deadline < now j) ->
  exists b, wait_loop fuel i poll now deadline = Ok b
    /\ (b = true <-> exists j, (i <= j)%nat /\ poll j = true /\ forall k, (i <= k < j)%nat -> poll k = false /\ now k <= deadline).
Proof.
  induction fuel as [|fuel IH]; intros i (j & Hj & Hd); [lia|]. cbn. destruct (poll i) eqn:Hp.
  - exists true. split; [done|]. split; [|done]. intros _. exists i. split_and!; [lia | done|]. intros k Hk. lia.
  - destruct (Z.ltb_spec deadline (now i)) as [Hlt|Hge].
    + exists false. split; [done|]. split; [done|]. intros (k & Hk & Hpk & Hall). destruct (decide (k = i)) as [->|Hne]; [congruence|].
      destruct (Hall i ltac:(lia)). lia.
    + destruct (IH (S i)) as (b & Hb & Hspec).
      { exists j. split; [|done]. destruct (decide (j = i)) as [->|]; lia. }
      exists b. split; [done|]. rewrite Hspec. split.
      * intros (k & Hk & Hpk & Hall). exists k. split_and!; [lia | done|]. intros l Hl. destruct (decide (l = i)) as [->|]; [done | apply Hall; lia].
      * intros (k & Hk & Hpk & Hall). exists k. split_and!; [|done|].
        -- destruct (decide (k = i)) as [->|]; [congruence | lia].
        -- intros l Hl. apply Hall. lia.
Qed.

(** Waiting for a listener ends.  With a clock that moves on by the fifty
    milliseconds slept between two checks, the loop ends within 62 checks for the
    three seconds the program waits, and its answer is whether some check succeeded
    before the deadline had been seen to pass. *)
Theorem listener_wait_terminates start poll now :
  sleeps start now ->
  exists b, waitForProxyListener start listener_timeout poll now = Ok b
    /\ (b = true <-> exists j, poll j = true /\ forall k, (k < j)%nat -> poll k = false /\ now k <= start + listener_timeout).
Proof.
  intros Hs. destruct (wait_loop_spec poll now (start + listener_timeout) wait_fuel 0) as (b & Hb & Hspec).
  - exists 61%nat. split; [unfold wait_fuel; lia|]. pose proof (sleeps_later start now 61 Hs). unfold listener_timeout, millisecond in *. lia.
  - exists b. split; [done|]. rewrite Hspec. split.
    + intros (j & _ & Hp & Hall). exists j. split; [done|]. intros k Hk. apply Hall. lia.
    + intros (j & Hp & Hall). exists j. split_and!; [lia | done|]. intros k Hk. apply Hall. lia.
Qed.

(** ** The controller *)
Section Controller.
Context {J : ConfigJson}.

(** Started exactly while a process is managed *)
Definition controller_ok (c : proxyController) : Prop :=
  ct_startedAt c <> None <-> ct_tcp c <> None \/ ct_udp c <> None.
Definition connect_env_ok (env : connect_env) : Prop :=
  sleeps (ce_tcpStart env) (ce_tcpNow env) /\ sleeps (ce_udpStart env) (ce_udpNow env).

Lemma await_cases env p start poll now c : sleeps start now ->
  await env p start poll now c = (c, Ok tt) \/ await env p start poll now c = (newProxyController, Err ErrNotListening).
Proof.
  intros Hs. unfold await. destruct p; [|by left]. destruct (wait_loop_spec poll now (start + listener_timeout) wait_fuel 0) as (b & Hb & _).
  - exists 61%nat. split; [unfold wait_fuel; lia|]. pose proof (sleeps_later start now 61 Hs). unfold listener_timeout, millisecond in *. lia.
  - unfold waitForProxyListener. rewrite Hb. destruct b; [by left | by right].
Qed.

Lemma loadConfig_returns file : returns (loadConfig file).
Proof.
  destruct file as [| |contents]; try done. cbn. destruct (_ <? _); [done|]. destruct (decodeProxyConfig contents) as [config|]; [|done].
  pose proof (validateProxyConfig_returns config false). by destruct (validateProxyConfig config false).
Qed.

(** Starting, with nothing managed before *)
Definition started (config : proxyClientConfig) (env : connect_env) : proxyController :=
  mkController (if wants_tcp (pc_Transport config) then process_of (start_tcp env config) else None)
    (if wants_udp (pc_Transport config) then process_of (start_udp env config) else None) (Some (ce_now env)).
Lemma startProcess_cases env : (exists p, startProcess env = Ok p) \/ exists e, startProcess env = Err e.
Proof.
  unfold startProcess. pose proof (ensureStateDir_returns (pv_dir env)). destruct (ensureStateDir (pv_dir env)) as [[]|e| |]; try done; cbn; [|by right; eexists].
  destruct (negb _); [by right; eexists|]. destruct (pv_start env); [left | right]; by eexists.
Qed.

Lemma connect_cases file env c : connect_env_ok env -> controller_ok c ->
  match connect file env c with
  | (c', Ok _) => exists config, loadConfig file = Ok config /\ validateProxyConfig config true = Ok tt
      /\ c' = started config env
      /\ (wants_tcp (pc_Transport config) = true -> process_of (start_tcp env config) <> None)
      /\ (wants_udp (pc_Transport config) = true -> process_of (start_udp env config) <> None)
  | (c', Err _) => c' = c \/ c' = newProxyController
  | _ => False
  end.
Proof.
  intros [Ht Hu] Hc. unfold connect. unfold act_bind at 1, act_lift at 1. pose proof (loadConfig_returns file) as Hl.
  destruct (loadConfig file) as [config|e| |]; try done; [|by left]. unfold act_bind at 1, act_lift at 1.
  pose proof (validateProxyConfig_returns config true) as Hv. destruct (validateProxyConfig config true) as [[]|e| |] eqn:Hval; try done; [|by left].
  destruct (negb (ce_binaryRegular env)); [by left|]. destruct (negb (ce_certificateRegular env)); [by left|]. destruct (negb (ce_tokenRegular env)); [by left|].
  destruct (negb (Z.land (ce_tokenMode env) 63 =? 0)); [by left|]. unfold act_bind at 1, act_get at 1. cbv beta iota.
  assert (Hstop : exists o, (if bool_decide (ct_tcp c <> None) || bool_decide (ct_udp c <> None) then stopLocked (ce_stop env) else act_ret tt) c = (newProxyController, o)
    /\ (o = Ok tt \/ exists e, o = Err e)).
  { destruct (_ || _) eqn:E.
    - eexists. split; [reflexivity|]. destruct (_ && _); eauto.
    - exists (Ok tt). split; [|by left]. unfold act_ret. f_equal. apply orb_false_iff in E as [E1 E2]. apply bool_decide_eq_false in E1, E2.
      destruct c as [t u s]. unfold controller_ok in Hc. cbn in *. destruct t; [by destruct E1|]. destruct u; [by destruct E2|]. destruct s; [|done]. naive_solver. }
  destruct Hstop as (o & Hst & Ho). unfold act_bind at 1. rewrite Hst. destruct Ho as [-> | [e ->]]; [|by right].
  pose proof (startProcess_cases (ce_start env (tcp_arguments config (ce_certificate env) (ce_token env)))) as Hst1. fold (start_tcp env config) in Hst1.
  pose proof (startProcess_cases (ce_start env (udp_arguments config (ce_token env)))) as Hst2. fold (start_udp env config) in Hst2.
  destruct (wants_tcp (pc_Transport config)) eqn:Wt, (wants_udp (pc_Transport config)) eqn:Wu; cbn [andb];
    repeat match goal with |- context [if ?b then act_fail ErrPortTaken else _] => destruct b; [by right|] end;
    unfold act_bind, act_set, act_ret, act_fail, act_get, act_lift; cbn [set_tcp set_udp ct_tcp ct_udp newProxyController];
    try (destruct Hst1 as [[pt Et]|[e Et]]; rewrite Et; cbn [process_of act_lift]; [|by right]);
    try (destruct Hst2 as [[pu Eu]|[e Eu]]; rewrite Eu; cbn [process_of act_lift]; [|by right]);
    cbn [set_tcp set_udp ct_tcp ct_udp newProxyController ct_startedAt];
    match goal with |- context [await env ?p (ce_tcpStart env) _ _ ?c1] =>
      destruct (await_cases env p (ce_tcpStart env) (ce_tcpPoll env) (ce_tcpNow env) c1 Ht) as [-> | ->]; [|by right] end; cbn [ct_tcp ct_udp];
    match goal with |- context [await env ?p (ce_udpStart env) _ _ ?c1] =>
      destruct (await_cases env p (ce_udpStart env) (ce_udpPoll env) (ce_udpNow env) c1 Hu) as [-> | ->]; [|by right] end;
    exists config; unfold started; rewrite Wt, Wu, ?Et, ?Eu; split_and!; done.
Qed.

Inductive controller_op : Set :=
| OpConnect (file : config_file) (env : connect_env)
| OpDisconnect (env : stop_env).
Definition run_controller (c : proxyController) (o : controller_op) : proxyController :=
  match o with
  | OpConnect file env => fst (connect file env c)
  | OpDisconnect env => fst (disconnect env c)
  end.
Definition op_ok (o : controller_op) : Prop := match o with OpConnect _ env => connect_env_ok env | OpDisconnect _ => True end.

Lemma started_ok config env :
  wants_tcp (pc_Transport config) || wants_udp (pc_Transport config) = true ->
  (wants_tcp (pc_Transport config) = true -> process_of (start_tcp env config) <> None) ->
  (wants_udp (pc_Transport config) = true -> process_of (start_udp env config) <> None) ->
  controller_ok (started config env).
Proof.
  intros Hw H1 H2. unfold controller_ok, started. cbn. split; [|done]. intros _.
  destruct (wants_tcp (pc_Transport config)); [left; by apply H1 | right; cbn in Hw; rewrite Hw in *; by apply H2].
Qed.

Lemma run_controller_ok c o : op_ok o -> controller_ok c -> controller_ok (run_controller c o).
Proof.
  intros Ho Hc. destruct o as [file env|env]; [|unfold controller_ok; cbn; naive_solver]. cbn [run_controller].
  pose proof (connect_cases file env c Ho Hc) as H. destruct (connect file env c) as [c' [[]|e| |]]; try done; cbn [fst].
  - destruct H as (config & _ & Hv & -> & H1 & H2). apply started_ok; [by apply (validateProxyConfig_Ok config true Hv) | done | done].
  - destruct H as [-> | ->]; [done|]. unfold controller_ok. cbn. naive_solver.
Qed.

(** C34: The controller.  After any sequence of connects and disconnects a start time
    is recorded exactly while a proxy process is managed.  In every such state
    [connect] comes back; when it succeeds, the configuration names a selected server
    and exactly the processes of its transport are managed; when it fails, either
    nothing has changed or nothing is managed any more. *)
Theorem controller_consistent ops file env :
  Forall op_ok ops -> connect_env_ok env ->
  let c := fold_left run_controller ops newProxyController in
  controller_ok c /\
  match connect file env c with
  | (c', Ok _) => controller_ok c' /\ exists config, loadConfig file = Ok config /\ pc_SelectedEndpoint config <> []
      /\ (ct_tcp c' <> None <-> wants_tcp (pc_Transport config) = true) /\ (ct_udp c' <> None <-> wants_udp (pc_Transport config) = true)
      /\ ct_startedAt c' = Some (ce_now env)
  | (c', Err _) => c' = c \/ c' = newProxyController
  | _ => False
  end.
Proof.
  intros Hops Henv c. assert (Hc : controller_ok c).
  { subst c. assert (H0 : controller_ok newProxyController) by (unfold controller_ok; cbn; naive_solver). revert H0. generalize newProxyController.
    induction Hops as [|o ops Ho Hops IH]; intros c0 H0; [done|]. cbn. apply IH. by apply run_controller_ok. }
  split; [done|]. pose proof (connect_cases file env c Henv Hc) as H. destruct (connect file env c) as [c' [[]|e| |]]; try done.
  destruct H as (config & Hl & Hv & -> & H1 & H2). destruct (validateProxyConfig_Ok config true Hv) as (Hw & _ & _ & Hsel & _).
  split; [by apply started_ok|]. exists config. split_and!; try done; [by apply Hsel | |]; cbn.
  - destruct (wants_tcp _); [|done]. split; [done | by intros _; apply H1].
  - destruct (wants_udp _); [|done]. split; [done | by intros _; apply H2].
Qed.
End Controller.

(** ** Loopback only *)
Lemma loopback_host address : requireLoopback address = Ok tt ->
  exists host port ip, SplitHostPort address = Some (host, port) /\ ParseAddr host = Some ip /\ IsLoopback ip = true.
Proof.
  unfold requireLoopback. destruct (SplitHostPort address) as [[host port]|]; [|done]. destruct (ParseAddr host) as [ip|] eqn:E; [|done].
  destruct (IsLoopback ip) eqn:El; [|done]. intros _. by exists host, port, ip.
Qed.

(** The UI serves on a loopback address and forwards to one, both given literally. *)
Theorem ui_stays_local arguments env options : ui_gate arguments env = Ok options ->
  exists scheme hostname host, ue_url env (uo_core options) = Some (scheme, hostname, host) /\ scheme = lit "http"
  /\ Forall (fun address => exists h port ip, SplitHostPort address = Some (h, port) /\ ParseAddr h = Some ip /\ IsLoopback ip = true) [uo_listen options; host].
Proof.
  unfold ui_gate. intros ([o rest] & _ & H)%obind_Ok. cbn [fst] in H. apply obind_Ok in H as ([] & Hl & H).
  destruct (ue_url env (uo_core o)) as [[[scheme hostname] host]|] eqn:Hu; [|done].
  destruct (bool_decide_reflect (scheme = lit "http")) as [Hs|]; cbn [negb orb] in H; [|done]. destruct (bool_decide _); [done|].
  apply obind_Ok in H as ([] & Hh & H). destruct (ue_abs env (uo_assets o)) as [root|]; [|done]. destruct (negb _); [done|].
  destruct (if bool_decide (uo_proxyState o = []) then _ else _) as [state|]; [|done].
  destruct (if bool_decide (uo_proxyBinary o = []) then _ else _) as [binary|]; [|done]. apply Ok_inj in H as <-.
  exists scheme, hostname, host. split_and!; [done | done|]. repeat constructor; by apply loopback_host.
Qed.

(** ** Static files *)

(** No element of a cleaned path leads upwards. *)
Lemma clean_elements_down path : Forall (fun e => e <> [] /\ e <> [46] /\ e <> [46; 46]) (path_elements true path).
Proof.
  unfold path_elements. apply Forall_reverse. assert (H : Forall (fun e : bytes => e <> [] /\ e <> [46] /\ e <> [46; 46]) []) by constructor.
  revert H. generalize (@nil bytes). induction (Split path 47) as [|e es IH]; intros kept H; [done|]. cbn. apply IH. unfold clean_step.
  destruct (bool_decide_reflect (e = [])), (bool_decide_reflect (e = [46])), (bool_decide_reflect (e = [46; 46])); cbn; try done.
  - destruct H; [constructor | done].
  - constructor; [done | done].
Qed.

(** ** The probe *)
Lemma validDNSResponse_returns response id : returns (validDNSResponse response id).
Proof.
  unfold validDNSResponse. destruct (Z.leb_spec 12 (len response)) as [Hl|]; cbn [negb]; [|done].
  rewrite slice_Ok by lia. cbn [obind]. unfold Uint16. rewrite be_uint_Ok by (rewrite length_take, length_drop; unfold len in Hl; lia). cbn [obind]. destruct (negb _); [done|].
  destruct (index_in (E := UiErr) response 2 ltac:(lia)) as [f ->]. cbn [obind]. destruct (_ =? 0); [done|].
  destruct (index_in (E := UiErr) response 3 ltac:(lia)) as [g ->]. cbn [obind]. destruct (negb _); [done|].
  rewrite slice_Ok by lia. cbn [obind]. rewrite be_uint_Ok by (rewrite length_take, length_drop; unfold len in Hl; lia). done.
Qed.

(** ** Concrete runs *)
#[local] Instance profile_countable : Countable proxyServerProfile.
Proof.
  apply (inj_countable' (fun p => (pp_Name p, pp_IP p, pp_Port p)) (fun '(n, i, p) => mkProfile n i p)). by intros [].
Defined.
#[local] Instance config_countable : Countable proxyClientConfig.
Proof.
  apply (inj_countable' (fun c => (pc_Servers c, pc_SelectedEndpoint c, pc_Transport c, pc_UDPTarget c)) (fun '(s, e, t, u) => mkClientConfig s e t u)). by intros [].
Defined.
(** A stand-in for JSON: the number of a configuration *)
Definition numbered_json : ConfigJson := {|
  config_encode := fun c => [Z.pos (encode c)];
  config_Decode := fun b _ => match b with
    | Z.pos p :: rest => match decode p with Some c => if config_json c then Some (c, rest) else None | None => None end
    | _ => None
    end;
  trailing_Decode := fun rest => match rest with [] => None | _ => Some true end
|}.
Lemma numbered_json_ok : @ConfigJsonOk numbered_json.
Proof.
  split.
  - intros c Hc. cbn. by rewrite decode_encode, Hc.
  - done.
  - intros [|[|p|] rest] before c rest' _ H; try done. cbn in H. destruct (decode p) as [c'|]; [|done].
    destruct (config_json c') eqn:E; [|done]. by injection H as <- _.
Qed.

Section UiWitnesses.
Definition demo_client_config : proxyClientConfig :=
  mkClientConfig [mkProfile (lit "a") (lit "203.0.113.5") 9518; mkProfile (lit "b") (lit "2001:db8::1") 9518] (lit "[2001:db8::1]:9518") (lit "both") (lit "1.1.1.1:53").
(** An older file is there, the first temporary name is taken; with [fails] the disk is
    full after three bytes. *)
Definition demo_dir : state_dir := {[config_name := mkFile [9] 384; temp_name (lit "1") := mkFile [8] 384]}.
Definition demo_save_env (fails : option nat) : save_env :=
  mkSaveEnv (mkDirEnv true (Some (true, 493)) true) [lit "1"; lit "2"] true 384 true fails true true true true.
Lemma config_save_load_witness :
  (let '(s, r) := @saveConfig numbered_json demo_client_config (demo_save_env None) (mkSaving demo_dir []) in @save_contract numbered_json demo_client_config (demo_save_env None) demo_dir s r)
  /\ snd (@saveConfig numbered_json demo_client_config (demo_save_env None) (mkSaving demo_dir [])) = Ok tt
  /\ snd (@saveConfig numbered_json demo_client_config (demo_save_env (Some 3%nat)) (mkSaving demo_dir [])) = Err ErrFile.
Proof.
  split; [|split; vm_compute; reflexivity].
  apply (proj1 (@config_save_load numbered_json numbered_json_ok (demo_save_env None) demo_dir)). vm_compute. reflexivity.
Defined.

(** A stand-in for JSON that knows one configuration *)
Definition demo_json : ConfigJson := {| config_encode := fun _ => [123; 125]; config_Decode := fun b _ => Some (demo_client_config, []); trailing_Decode := fun _ => None |}.
#[local] Existing Instance demo_json.
Definition demo_connect_env : connect_env :=
  mkConnectEnv true true true 384 (mkStopEnv (fun _ => false) (fun _ => true) (fun _ => false)) false false (lit "/s")
    (fun arguments => mkProcessEnv (mkDirEnv true (Some (true, 448)) true) true (Some (if bool_decide (head arguments = Some (lit "client")) then 100 else 101)))
    0 (fun i => (3 <? i)%nat) (fun i => Z.of_nat i * (50 * millisecond)) 0 (fun i => (5 <? i)%nat) (fun i => Z.of_nat i * (50 * millisecond)) 42.
Lemma demo_sleeps : sleeps 0 (fun i => Z.of_nat i * (50 * millisecond)).
Proof. split; [lia|]. intros i. lia. Qed.

Lemma listener_wait_terminates_witness :
  exists b, waitForProxyListener 0 listener_timeout (fun i => (3 <? i)%nat) (fun i => Z.of_nat i * (50 * millisecond)) = Ok b.
Proof.
  destruct (listener_wait_terminates 0 (fun i => (3 <? i)%nat) _ demo_sleeps) as (b & H & _). exists b. exact H.
Defined.

Lemma controller_consistent_witness :
  controller_ok (fold_left run_controller [OpConnect (CF_Contents []) demo_connect_env; OpDisconnect (ce_stop demo_connect_env)] newProxyController).
Proof.
  refine (proj1 (controller_consistent [OpConnect (CF_Contents []) demo_connect_env; OpDisconnect (ce_stop demo_connect_env)] CF_None demo_connect_env _ _)).
  - constructor; [exact (conj demo_sleeps demo_sleeps)|]. constructor; [exact I | constructor].
  - exact (conj demo_sleeps demo_sleeps).
Defined.

Example demo_paths :
  Clean <$> [[]; lit "/../a//b/./c/.."; lit "../../a/../b"; lit "a/../.."] = [lit "."; lit "/a/b"; lit "../../b"; lit ".."]
  /\ defaultProxyStateDir (Some (lit "/home/u/")) = Some (lit "/home/u/.wg-client")
  /\ defaultProxyBinary (Some (lit "/opt/wg/bin/wg-client-ui")) = Some (lit "/opt/wg/bin/wg-proxy") /\ Dir (lit "/wg") = lit "/" /\ Dir (lit "wg") = lit "."
  /\ configPath (lit "state") = lit "state/config.json".
Proof. vm_compute. split_and!; reflexivity. Qed.

Example demo_ui_exit :
  let env := mkUiEnv (fun _ => Some (lit "http", lit "127.0.0.1", lit "127.0.0.1:47003")) Some (fun _ => true) (Some (lit "/home/u")) (Some (lit "/bin/ui")) in
  (fun l => ui_main (lit <$> l) env true (SignalReceived true)) <$> [[]; ["-h"]; ["-x"]; ["-listen"; "0.0.0.0:80"]] = [0; 0; 2; 1].
Proof. vm_compute. reflexivity. Qed.

Example demo_connects :
  fst (connect (CF_Contents []) demo_connect_env newProxyController) = mkController (Some 100) (Some 101) (Some 42)
  /\ spa_file (lit "/assets/../../etc/passwd") (fun f => bool_decide (f = lit "etc/passwd")) = lit "etc/passwd"
  /\ snd <$> match dnsQuery (lit "example.com") [18; 52] with Ok q => Some q | _ => None end = Some 4660.
Proof. vm_compute. split_and!; reflexivity. Qed.
End UiWitnesses.
