(* ===== verification/ProxyCommand.v ===== *)
(** * The command lines of wg-proxy and how the client UI uses them

    The four subcommands of cmd/wg-proxy/main.go up to the point where they serve: the
    flags, the token, the files and sockets they need, and the loops of the UDP relay.
    The process's files, certificates and sockets are an environment.  On top, what the
    controller of cmd/wg-client-ui starts: its argument lists, read by this command
    line. *)

From stdpp Require Import base strings numbers gmap list.
From S2P Require Import Prelude CodecErrors Frame GoStrings Flag Netip ClientUi Proxy.
Local Open Scope Z_scope.
Local Open Scope wg_scope.

(** ** Options *)
Record udp_server_options : Set := mkUdpServerOptions { vo_listen : bytes; vo_token : bytes; vo_tokenFile : bytes }.
Record udp_client_options : Set := mkUdpClientOptions { uc_listen : bytes; uc_server : bytes; uc_target : bytes; uc_token : bytes; uc_tokenFile : bytes }.
Record server_options : Set := mkServerOptions { so_listen : bytes; so_cert : bytes; so_key : bytes; so_token : bytes; so_tokenFile : bytes }.
Record client_options : Set := mkClientOptions {
  co_listen : bytes; co_server : bytes; co_serverName : bytes; co_ca : bytes; co_token : bytes; co_tokenFile : bytes; co_direct : bytes
}.

Definition udp_server_flags : list (bytes * flag udp_server_options) := [
  (lit "listen", StringVar (fun v '(mkUdpServerOptions _ t f) => mkUdpServerOptions v t f));
  (lit "token", StringVar (fun v '(mkUdpServerOptions l _ f) => mkUdpServerOptions l v f));
  (lit "token-file", StringVar (fun v '(mkUdpServerOptions l t _) => mkUdpServerOptions l t v))
].
Definition udp_client_flags : list (bytes * flag udp_client_options) := [
  (lit "listen", StringVar (fun v '(mkUdpClientOptions _ s g t f) => mkUdpClientOptions v s g t f));
  (lit "server", StringVar (fun v '(mkUdpClientOptions l _ g t f) => mkUdpClientOptions l v g t f));
  (lit "target", StringVar (fun v '(mkUdpClientOptions l s _ t f) => mkUdpClientOptions l s v t f));
  (lit "token", StringVar (fun v '(mkUdpClientOptions l s g _ f) => mkUdpClientOptions l s g v f));
  (lit "token-file", StringVar (fun v '(mkUdpClientOptions l s g t _) => mkUdpClientOptions l s g t v))
].
Definition server_flags : list (bytes * flag server_options) := [
  (lit "listen", StringVar (fun v '(mkServerOptions _ c k t f) => mkServerOptions v c k t f));
  (lit "cert", StringVar (fun v '(mkServerOptions l _ k t f) => mkServerOptions l v k t f));
  (lit "key", StringVar (fun v '(mkServerOptions l c _ t f) => mkServerOptions l c v t f));
  (lit "token", StringVar (fun v '(mkServerOptions l c k _ f) => mkServerOptions l c k v f));
  (lit "token-file", StringVar (fun v '(mkServerOptions l c k t _) => mkServerOptions l c k t v))
].
Definition client_flags : list (bytes * flag client_options) := [
  (lit "listen", StringVar (fun v '(mkClientOptions _ s n c t f d) => mkClientOptions v s n c t f d));
  (lit "server", StringVar (fun v '(mkClientOptions l _ n c t f d) => mkClientOptions l v n c t f d));
  (lit "server-name", StringVar (fun v '(mkClientOptions l s _ c t f d) => mkClientOptions l s v c t f d));
  (lit "ca", StringVar (fun v '(mkClientOptions l s n _ t f d) => mkClientOptions l s n v t f d));
  (lit "token", StringVar (fun v '(mkClientOptions l s n c _ f d) => mkClientOptions l s n c v f d));
  (lit "token-file", StringVar (fun v '(mkClientOptions l s n c t _ d) => mkClientOptions l s n c t v d));
  (lit "direct-host", StringVar (fun v '(mkClientOptions l s n c t f _) => mkClientOptions l s n c t f v))
].

(** ** The subcommands *)

(** What a subcommand serves with *)
Inductive proxy_run : Set :=
| RunServer (listen cert key token : bytes)
| RunClient (listen server serverName pem token : bytes) (direct : list bytes)
| RunUdpServer (listen token : bytes)
| RunUdpClient (listen server target token : bytes).
(** [Exit]: the process ends with this code before it serves. *)
Inductive proxy_end : Set := Exit (code : Z) | Serving (run : proxy_run).
Definition fatalf : proxy_end := Exit 2.

Record command_env : Set := mkCommandEnv {
  cm_readFile : bytes -> bytes + bytes;
  cm_keyPair : bytes -> bytes -> bool;
  cm_certs : bytes -> bool;
  cm_resolveUDP : bytes -> bool;
  cm_listen : bytes -> bool
}.

Section Commands.
Context {U : Unicode}.

(** [flag.ExitOnError] *)
Definition parse_or_exit {O : Type} (flags : list (bytes * flag O)) (arguments : list bytes) (defaults : O) (k : O -> proxy_end) : proxy_end :=
  match flags_Parse flags arguments defaults with
  | Ok (options, _) => k options
  | Err ErrHelp => Exit 0
  | _ => Exit 2
  end.

Definition udpServer (env : command_env) (arguments : list bytes) : proxy_end :=
  parse_or_exit udp_server_flags arguments (mkUdpServerOptions (lit ":9518") [] []) (fun o =>
    match loadToken (vo_token o) (vo_tokenFile o) (cm_readFile env) with
    | inr _ => fatalf
    | inl token =>
        if bool_decide (token = []) then fatalf
        else if negb (cm_resolveUDP env (vo_listen o)) then fatalf
        else if negb (cm_listen env (vo_listen o)) then fatalf
        else Serving (RunUdpServer (vo_listen o) token)
    end).

Definition udpClient (env : command_env) (arguments : list bytes) : proxy_end :=
  parse_or_exit udp_client_flags arguments (mkUdpClientOptions (lit "127.0.0.1:47102") [] [] [] []) (fun o =>
    match loadToken (uc_token o) (uc_tokenFile o) (cm_readFile env) with
    | inr _ => fatalf
    | inl token =>
        if bool_decide (uc_server o = []) || bool_decide (uc_target o = []) || bool_decide (token = []) then fatalf
        else if negb (cm_resolveUDP env (uc_server o)) then fatalf
        else if negb (cm_resolveUDP env (uc_listen o)) then fatalf
        else if negb (cm_listen env (uc_listen o)) then fatalf
        else Serving (RunUdpClient (uc_listen o) (uc_server o) (uc_target o) token)
    end).

Definition server (env : command_env) (arguments : list bytes) : proxy_end :=
  parse_or_exit server_flags arguments (mkServerOptions (lit ":9518") [] [] [] []) (fun o =>
    match loadToken (so_token o) (so_tokenFile o) (cm_readFile env) with
    | inr _ => fatalf
    | inl token =>
        if bool_decide (so_cert o = []) || bool_decide (so_key o = []) || bool_decide (token = []) then fatalf
        else if negb (cm_keyPair env (so_cert o) (so_key o)) then fatalf
        else if negb (cm_listen env (so_listen o)) then fatalf
        else Serving (RunServer (so_listen o) (so_cert o) (so_key o) token)
    end).

Definition client (env : command_env) (arguments : list bytes) : proxy_end :=
  parse_or_exit client_flags arguments (mkClientOptions (lit "127.0.0.1:47101") [] [] [] [] [] []) (fun o =>
    match loadToken (co_token o) (co_tokenFile o) (cm_readFile env) with
    | inr _ => fatalf
    | inl token =>
        if bool_decide (co_server o = []) || bool_decide (co_ca o = []) || bool_decide (token = []) then fatalf
        else match cm_readFile env (co_ca o) with
        | inr _ => fatalf
        | inl pem =>
            if negb (cm_certs env pem) then fatalf
            else if negb (cm_listen env (co_listen o)) then fatalf
            else Serving (RunClient (co_listen o) (co_server o) (co_serverName o) pem token (splitCSV (co_direct o)))
        end
    end).

(** [main], with the arguments behind the program's name *)
Definition proxy_main (env : command_env) (arguments : list bytes) : proxy_end :=
  match arguments with
  | [] => fatalf
  | command :: arguments =>
      if bool_decide (command = lit "server") then server env arguments
      else if bool_decide (command = lit "client") then client env arguments
      else if bool_decide (command = lit "udp-server") then udpServer env arguments
      else if bool_decide (command = lit "udp-client") then udpClient env arguments
      else fatalf
  end.
End Commands.

Definition run_token (run : proxy_run) : bytes :=
  match run with RunServer _ _ _ token | RunClient _ _ _ _ token _ | RunUdpServer _ token | RunUdpClient _ _ _ token => token end.

(** ** The loops of the relay

    What [ReadFromUDP] gives each time: nothing (an error, which is logged) or a peer and
    a datagram; every datagram is served by a goroutine of its own with its own copy. *)
Inductive arrival : Set := ReadFailed | Arrived (peer : bytes) (datagram : bytes) (random : option bytes).
Section Loops.
Context `{A : Aead}.

Definition udp_server_one (token : bytes) (upstream : bytes -> bytes -> option bytes) (a : arrival) : outcome UdpErr (list (bytes * bytes)) :=
  match a with
  | ReadFailed => Ok []
  | Arrived peer datagram random =>
      let* reply := serveUDPDatagram token upstream random (read_datagram datagram) in
      Ok (match reply with Some sealed => [(peer, sealed)] | None => [] end)
  end.
Definition udp_client_one (token : bytes) (network : bytes -> option bytes) (target : bytes) (a : arrival) : outcome UdpErr (list (bytes * bytes)) :=
  match a with
  | ReadFailed => Ok []
  | Arrived peer datagram random =>
      let* reply := relayUDPDatagram token network random target (read_datagram datagram) in
      Ok (match reply with Some body => [(peer, body)] | None => [] end)
  end.
(** The datagrams sent for a list of arrivals; a panic in any goroutine ends the
    process. *)
Fixpoint relay_loop (one : arrival -> outcome UdpErr (list (bytes * bytes))) (arrivals : list arrival) : outcome UdpErr (list (bytes * bytes)) :=
  match arrivals with
  | [] => Ok []
  | a :: arrivals =>
      let* sent := one a in
      let* more := relay_loop one arrivals in
      Ok (sent ++ more)
  end.
End Loops.

(** ** What serves has a token *)
Section CommandTheorems.
Context {U : Unicode}.

Lemma parse_or_exit_Serving {O} (flags : list (bytes * flag O)) arguments defaults k run :
  parse_or_exit flags arguments defaults k = Serving run -> exists o, k o = Serving run.
Proof.
  unfold parse_or_exit. destruct (flags_Parse flags arguments defaults) as [[o rest]|[]| |]; try done. intros H. by exists o.
Qed.

(** Every mode refuses to serve without a token; the server also without a certificate
    and the TCP client without one to verify the server by. *)
Theorem proxy_serves_with_token env arguments run : proxy_main env arguments = Serving run ->
  run_token run <> [] /\ match run with
    | RunServer _ cert key _ => cert <> [] /\ key <> [] /\ cm_keyPair env cert key = true
    | RunClient _ server _ pem _ _ => server <> [] /\ cm_certs env pem = true
    | RunUdpClient _ server target _ => server <> [] /\ target <> []
    | RunUdpServer _ _ => True
    end.
Proof.
  unfold proxy_main. destruct arguments as [|command arguments]; [done|].
  destruct (bool_decide (command = lit "server")); [|destruct (bool_decide (command = lit "client"));
    [|destruct (bool_decide (command = lit "udp-server")); [|destruct (bool_decide (command = lit "udp-client")); [|done]]]].
  all: intros [o H]%parse_or_exit_Serving; cbv beta in H; destruct (loadToken _ _ _) as [token|]; [|done].
  - destruct (bool_decide_reflect (so_cert o = [])), (bool_decide_reflect (so_key o = [])), (bool_decide_reflect (token = [])); try done. cbn [orb] in H.
    destruct (cm_keyPair env (so_cert o) (so_key o)) eqn:Hk; [|done]. destruct (cm_listen _ _); [|done]. injection H as <-. done.
  - destruct (bool_decide_reflect (co_server o = [])), (bool_decide_reflect (co_ca o = [])), (bool_decide_reflect (token = [])); try done. cbn [orb] in H.
    destruct (cm_readFile env (co_ca o)) as [pem|]; [|done]. destruct (cm_certs env pem) eqn:Hp; [|done]. destruct (cm_listen _ _); [|done]. injection H as <-. done.
  - destruct (bool_decide_reflect (token = [])); [done|]. destruct (cm_resolveUDP _ _); [|done]. destruct (cm_listen _ _); [|done]. injection H as <-. done.
  - destruct (bool_decide_reflect (uc_server o = [])), (bool_decide_reflect (uc_target o = [])), (bool_decide_reflect (token = [])); try done. cbn [orb] in H.
    destruct (cm_resolveUDP env (uc_server o)); [|done]. destruct (cm_resolveUDP env (uc_listen o)); [|done]. destruct (cm_listen _ _); [|done]. injection H as <-. done.
Qed.

(** ** What the client UI starts *)
Lemma client_parses listen server ca token defaults :
  flags_Parse client_flags [lit "-listen"; listen; lit "-server"; server; lit "-ca"; ca; lit "-token-file"; token] defaults
  = Ok (mkClientOptions listen server (co_serverName defaults) ca (co_token defaults) token (co_direct defaults), []).
Proof. destruct defaults. reflexivity. Qed.

Lemma udp_client_parses listen server target token defaults :
  flags_Parse udp_client_flags [lit "-listen"; listen; lit "-server"; server; lit "-target"; target; lit "-token-file"; token] defaults
  = Ok (mkUdpClientOptions listen server target (uc_token defaults) token, []).
Proof. destruct defaults. reflexivity. Qed.

(** The token of a token file *)
Lemma loadToken_file path readFile text : TrimSpace path = path -> path <> [] -> readFile path = inl text -> loadToken [] path readFile = inl (TrimSpace text).
Proof.
  intros Ht Hne Hr. unfold loadToken. rewrite Ht. change (TrimSpace []) with (@nil Z). rewrite bool_decide_true, bool_decide_false by done. cbn [negb andb].
  by rewrite Hr.
Qed.

Section Started.
Context (cmd : command_env) (certificate token text pem : bytes).
Hypothesis token_path : TrimSpace token = token /\ token <> [].
Hypothesis certificate_path : certificate <> [].
Hypothesis token_file : cm_readFile cmd token = inl text.
Hypothesis certificate_file : cm_readFile cmd certificate = inl pem /\ cm_certs cmd pem = true.
Hypothesis local_listeners : cm_listen cmd tcp_listen = true /\ cm_listen cmd udp_listen = true /\ cm_resolveUDP cmd udp_listen = true.

Lemma tcp_arguments_serve config : pc_SelectedEndpoint config <> [] ->
  proxy_main cmd (tcp_arguments config certificate token)
  = if bool_decide (TrimSpace text = []) then Exit 2 else Serving (RunClient tcp_listen (pc_SelectedEndpoint config) [] pem (TrimSpace text) []).
Proof.
  intros Hs. destruct token_path as [Ht Hne], certificate_file as [Hc Hp], local_listeners as (Hl & _ & _).
  change (proxy_main cmd (tcp_arguments config certificate token))
    with (client cmd [lit "-listen"; tcp_listen; lit "-server"; pc_SelectedEndpoint config; lit "-ca"; certificate; lit "-token-file"; token]).
  unfold client, parse_or_exit. rewrite client_parses. cbn [co_token co_tokenFile co_server co_ca co_listen co_serverName co_direct].
  rewrite (loadToken_file _ _ text) by done. rewrite (bool_decide_false (_ = [])) by done. rewrite (bool_decide_false (certificate = [])) by done. cbn [orb].
  destruct (bool_decide _); [done|]. rewrite Hc, Hp, Hl. done.
Qed.

Lemma udp_arguments_serve config : pc_SelectedEndpoint config <> [] -> pc_UDPTarget config <> [] -> cm_resolveUDP cmd (pc_SelectedEndpoint config) = true ->
  proxy_main cmd (udp_arguments config token)
  = if bool_decide (TrimSpace text = []) then Exit 2
    else Serving (RunUdpClient udp_listen (pc_SelectedEndpoint config) (pc_UDPTarget config) (TrimSpace text)).
Proof.
  intros Hs Hg Hr. destruct token_path as [Ht Hne], local_listeners as (_ & Hl & Hu).
  change (proxy_main cmd (udp_arguments config token))
    with (udpClient cmd [lit "-listen"; udp_listen; lit "-server"; pc_SelectedEndpoint config; lit "-target"; pc_UDPTarget config; lit "-token-file"; token]).
  unfold udpClient, parse_or_exit. rewrite udp_client_parses. cbn [uc_token uc_tokenFile uc_server uc_target uc_listen].
  rewrite (loadToken_file _ _ text) by done. rewrite (bool_decide_false (pc_SelectedEndpoint config = [])) by done.
  rewrite (bool_decide_false (pc_UDPTarget config = [])) by done. cbn [orb].
  destruct (bool_decide _); [done|]. rewrite Hr, Hu, Hl. done.
Qed.
End Started.

Lemma validHostPort_nonempty value : validHostPort value = true -> value <> [].
Proof. intros H ->. vm_compute in H. discriminate. Qed.

(** C31: The client UI and the proxy agree on the command line.  When [connect]
    succeeds, each process it manages was started with arguments that wg-proxy, finding
    the token file with a token and the certificate file with a certificate where
    [connect] looked for them and the local ports free, reads as: serve the local
    listener for exactly the selected endpoint, with the token of the file, nothing
    bypassing the tunnel; over UDP for exactly the configured target. *)
Theorem ui_starts_proxy `{J : ConfigJson} file env c c' cmd text pem :
  connect_env_ok env -> controller_ok c -> ClientUi.connect file env c = (c', Ok tt) ->
  TrimSpace (ce_token env) = ce_token env ->
  cm_readFile cmd (ce_token env) = inl text -> TrimSpace text <> [] ->
  cm_readFile cmd (ce_certificate env) = inl pem -> cm_certs cmd pem = true ->
  (forall address, cm_listen cmd address = true) -> (forall address, cm_resolveUDP cmd address = true) ->
  exists config, loadConfig file = Ok config
  /\ (forall p, ct_tcp c' = Some p -> exists arguments, pv_start (ce_start env arguments) = Some p
        /\ proxy_main cmd arguments = Serving (RunClient tcp_listen (pc_SelectedEndpoint config) [] pem (TrimSpace text) []))
  /\ (forall p, ct_udp c' = Some p -> exists arguments, pv_start (ce_start env arguments) = Some p
        /\ proxy_main cmd arguments = Serving (RunUdpClient udp_listen (pc_SelectedEndpoint config) (pc_UDPTarget config) (TrimSpace text))).
Proof.
  intros Henv Hc Hcon Ht Htf Htx Hcf Hcs Hl Hr. pose proof (connect_cases file env c Henv Hc) as H.
  pose proof (Join_nonempty (ce_stateDir env) (lit "token")) as Hne. pose proof (Join_nonempty (ce_stateDir env) (lit "server-cert.pem")) as Hce. rewrite Hcon in H.
  destruct H as (config & Hload & Hv & -> & _ & _). destruct (validateProxyConfig_Ok config true Hv) as (_ & _ & _ & Hsel & Hudp). specialize (Hsel eq_refl).
  assert (Hstart : forall arguments p, process_of (startProcess (ce_start env arguments)) = Some p -> pv_start (ce_start env arguments) = Some p).
  { intros arguments p. unfold startProcess. destruct (ensureStateDir _); try done. cbn. destruct (negb _); [done|]. by destruct (pv_start _). }
  exists config. split; [done|]. split; intros p; cbn [started ct_tcp ct_udp].
  - destruct (wants_tcp (pc_Transport config)); [|done]. intros Hp. exists (tcp_arguments config (ce_certificate env) (ce_token env)). split; [by apply Hstart|].
    rewrite (tcp_arguments_serve cmd _ _ text pem) by done. by rewrite bool_decide_false.
  - destruct (wants_udp (pc_Transport config)) eqn:Hw; [|done]. intros Hp. exists (udp_arguments config (ce_token env)). split; [by apply Hstart|].
    rewrite (udp_arguments_serve cmd _ text) by (done || by apply validHostPort_nonempty, Hudp). by rewrite bool_decide_false.
Qed.
End CommandTheorems.

(** ** The relay server under arbitrary datagrams *)
Section RelayTheorems.
Context {A : Aead} {AO : @AeadOk A}.

Definition arrival_ok (a : arrival) : Prop := match a with Arrived _ datagram _ => bytes_ok datagram | ReadFailed => True end.

(** The request inside a datagram that was sealed with the token *)
Definition sealed_request (token datagram target body : bytes) : Prop :=
  exists payload, openUDP token (read_datagram datagram) = Ok payload /\ parseUDPRequest payload = Ok (target, body).

Lemma openUDP_bytes token packet payload : bytes_ok packet -> openUDP token packet = Ok payload -> bytes_ok payload.
Proof.
  intros Hb. unfold openUDP. destruct (_ <? _); [done|]. intros (magic & _ & H)%obind_Ok. destruct (negb _); [done|].
  apply obind_Ok in H as (nonce & _ & H). apply obind_Ok in H as (sealed & Hs & H). destruct (aead_Open token nonce sealed) as [plain|] eqn:E; [|done].
  apply Ok_inj in H as <-. eapply aead_open_bytes; [|exact E]. by eapply bytes_ok_slice.
Qed.

Lemma serve_one token upstream datagram random : bytes_ok datagram ->
  exists reply, serveUDPDatagram token upstream random (read_datagram datagram) = Ok reply
  /\ forall sealed, reply = Some sealed -> exists target body response nonce, sealed_request token datagram target body
       /\ upstream target body = Some response /\ random = Some nonce /\ sealed = udpMagic ++ nonce ++ aead_Seal token nonce (udpResponse :: read_datagram response).
Proof.
  intros Hb. assert (Hb' : bytes_ok (read_datagram datagram)) by (by apply Forall_take). unfold serveUDPDatagram.
  pose proof (openUDP_returns token (read_datagram datagram)) as Hret. destruct (openUDP token (read_datagram datagram)) as [payload|e| |] eqn:Ho; try done; [|by exists None].
  pose proof (openUDP_bytes _ _ _ Hb' Ho) as Hp. pose proof (parseUDPRequest_returns payload Hp) as Hret'.
  destruct (parseUDPRequest payload) as [[target body]|e| |] eqn:Hpar; try done; [|by exists None].
  destruct (upstream target body) as [response|] eqn:Hu; [|by exists None]. destruct random as [nonce|]; cbn [sealUDP]; [|by exists None].
  eexists. split; [reflexivity|]. intros sealed [= <-]. exists target, body, response, nonce. split_and!; try done. by exists payload.
Qed.

(** C32: The relay server survives and is no open relay.  Whatever datagrams arrive,
    and whatever reading, dialling and the random source do, no goroutine panics, so the
    server keeps running; and every datagram it sends goes to the sender of a
    datagram that was sealed with its token, and carries the reply of the target named
    there to the body given there. *)
Theorem relay_server_survives token upstream arrivals :
  Forall arrival_ok arrivals ->
  exists sent, relay_loop (udp_server_one token upstream) arrivals = Ok sent
  /\ forall peer sealed, (peer, sealed) ∈ sent -> exists datagram random target body response nonce, Arrived peer datagram random ∈ arrivals
       /\ sealed_request token datagram target body /\ upstream target body = Some response
       /\ sealed = udpMagic ++ nonce ++ aead_Seal token nonce (udpResponse :: read_datagram response).
Proof.
  induction 1 as [|a arrivals Ha _ (sent & Hsent & IH)]; [exists []; split; [done|]; intros ? ? H; by apply elem_of_nil in H|].
  assert (Hone : exists one, udp_server_one token upstream a = Ok one /\ forall peer sealed, (peer, sealed) ∈ one ->
    exists datagram random target body response nonce, a = Arrived peer datagram random /\ sealed_request token datagram target body
    /\ upstream target body = Some response /\ sealed = udpMagic ++ nonce ++ aead_Seal token nonce (udpResponse :: read_datagram response)).
  { destruct a as [|peer datagram random]; cbn [udp_server_one]; [exists []; split; [done|]; intros ? ? H; by apply elem_of_nil in H|].
    destruct (serve_one token upstream datagram random Ha) as (reply & -> & Hr). cbn [obind]. eexists. split; [reflexivity|].
    intros peer' sealed Hin. destruct reply as [sealed'|]; [|by apply elem_of_nil in Hin]. apply list_elem_of_singleton in Hin. injection Hin as -> ->.
    destruct (Hr sealed' eq_refl) as (target & body & response & nonce & H1 & H2 & H3 & H4). by exists datagram, random, target, body, response, nonce. }
  destruct Hone as (one & Ho & Hone). exists (one ++ sent). cbn [relay_loop]. rewrite Ho. cbn [obind]. rewrite Hsent. split; [done|].
  intros peer sealed [Hin|Hin]%elem_of_app.
  - destruct (Hone peer sealed Hin) as (d & r & t & b & re & n & -> & H1 & H2 & H3). exists d, r, t, b, re, n. split_and!; try done. by left.
  - destruct (IH peer sealed Hin) as (d & r & t & b & re & n & H0 & H1). exists d, r, t, b, re, n. split; [by right | done].
Qed.
End RelayTheorems.

(** ** Concrete runs *)
Section CommandWitnesses.
#[local] Existing Instances ascii_only plain_aead plain_aead_ok demo_json.

Lemma relay_server_survives_witness :
  exists sent, relay_loop (udp_server_one (lit "t") (fun _ body => Some body)) [ReadFailed; Arrived (lit "p") [1; 2; 3] None] = Ok sent.
Proof.
  destruct (relay_server_survives (lit "t") (fun _ body => Some body) [ReadFailed; Arrived (lit "p") [1; 2; 3] None]) as (sent & H & _).
  - constructor; [exact I|]. constructor; [|constructor]. apply (bool_decide_unpack _). vm_compute. exact I.
  - exists sent. exact H.
Defined.

Definition demo_cmd : command_env :=
  mkCommandEnv (fun path => if bool_decide (path = lit "/s/token") then inl (lit " secret ") else inl (lit "PEM")) (fun _ _ => true) (fun _ => true) (fun _ => true) (fun _ => true).

Lemma ui_starts_proxy_witness :
  exists arguments, pv_start (ce_start demo_connect_env arguments) = Some 101
  /\ proxy_main demo_cmd arguments = Serving (RunUdpClient udp_listen (lit "[2001:db8::1]:9518") (lit "1.1.1.1:53") (lit "secret")).
Proof.
  assert (H0 : controller_ok newProxyController) by (unfold controller_ok; cbn; naive_solver).
  assert (E : ClientUi.connect (CF_Contents []) demo_connect_env newProxyController = (mkController (Some 100) (Some 101) (Some 42), Ok tt)) by (vm_compute; reflexivity).
  assert (T1 : TrimSpace (ce_token demo_connect_env) = ce_token demo_connect_env) by (vm_compute; reflexivity).
  assert (T4 : cm_readFile demo_cmd (ce_token demo_connect_env) = inl (lit " secret ")) by (vm_compute; reflexivity).
  assert (T5 : TrimSpace (lit " secret ") <> []) by (vm_compute; discriminate).
  assert (T6 : cm_readFile demo_cmd (ce_certificate demo_connect_env) = inl (lit "PEM")) by (vm_compute; reflexivity).
  destruct (ui_starts_proxy (CF_Contents []) demo_connect_env newProxyController _ demo_cmd (lit " secret ") (lit "PEM") (conj demo_sleeps demo_sleeps) H0 E
    T1 T4 T5 T6 eq_refl (fun _ => eq_refl) (fun _ => eq_refl)) as (config & Hl & _ & Hu).
  assert (Hc : config = demo_client_config) by (apply (Ok_inj (E := UiErr)); rewrite <- Hl; vm_compute; reflexivity). subst config.
  exact (Hu 101 eq_refl).
Defined.

(** A UDP target with blanks around it is accepted with the blanks cut off, but passed
    on with them: the server is then asked for a host that starts with a blank. *)
Theorem udp_target_untrimmed :
  let config := mkClientConfig [mkProfile [] (lit "203.0.113.5") 9518] (lit "203.0.113.5:9518") (lit "udp") (lit " 1.1.1.1:53") in
  validateProxyConfig config true = Ok tt
  /\ proxy_main demo_cmd (udp_arguments config (lit "/s/token")) = Serving (RunUdpClient udp_listen (lit "203.0.113.5:9518") (lit " 1.1.1.1:53") (lit "secret"))
  /\ SplitHostPort (lit " 1.1.1.1:53") = Some (lit " 1.1.1.1", lit "53").
Proof. vm_compute. split_and!; reflexivity. Qed.

Example proxy_command_lines :
  map (fun l => match proxy_main demo_cmd (lit <$> l) with Exit code => Some code | Serving _ => None end)
    [["client"; "-h"]; ["client"; "-server"; "h:1"; "-ca"; "c"]; ["client"; "-server"; "h:1"; "-ca"; "c"; "-token"; "x"]; ["server"; "-token=x"];
     ["udp-server"; "-token"; "x"; "-token-file"; "y"]; ["udp-server"; "-token-file=/s/token"]; ["relay"]; []]
  = [Some 0; Some 2; None; Some 2; Some 2; None; Some 2; Some 2].
Proof. vm_compute. reflexivity. Qed.
End CommandWitnesses.
